(** * ESPv2 config translation core: service model builder and route generator

    A shallow embedding of

    - [src/go/configinfo/service_info.go] (package [configinfo]): the builder
      [NewServiceInfoFromServiceConfig] and its phases, and
    - the route generator of package [configgenerator] ([MakeRouteConfig],
      [makeRouteTable], [makePerRouteFilterConfig], ...),

    followed by the theorems that settle the properties of the specification.

    Contents.
    - The model: results, the messages of the service description, the
      interface [Externals], the state [ServiceInfo], the phases of the
      builder, the route generator.
    - A reference instance of [Externals] and the inputs of the concrete
      runs.
    - The predicates the theorems are stated with.
    - The theorems, for every instance of [Externals]: C10, C6, C9, C3, C2,
      what the phases keep ([evolves], [extends]), C8, C5, C4, C1, C7.
    - The concrete runs.

    Conventions.
    - Go pointers to [MethodInfo] are keys of the [Methods] map (an entry is
      allocated once, in [getOrCreateMethod], and never replaced), so a
      [*MethodInfo] is modelled by its selector.
    - A function returning [(T, error)] returns [result T]; a nil-pointer
      dereference is the third outcome [Panic].
    - [glog] warnings are collected in the [Log] field of the state.
    - Packages [util], [options] and [httppattern] are not part of the
      sources at hand: what the code uses from them is the interface
      [Externals].
    - Go randomises the iteration order of [range] over a map; the order is
      an explicit parameter [MapOrder]. *)

From Stdlib Require Import ZArith Ascii String SpecFloat.
From stdpp Require Import gmap strings list fin_maps pretty.

Local Open Scope string_scope.
Local Open Scope Z_scope.

(* ===================================================================== *)
(** * Results: value, error or panic *)
(* ===================================================================== *)

(** One constructor for each [fmt.Errorf] site of the two packages, and
    [ErrExternal] for an error handed back by a helper that is passed
    through unchanged. *)
Inductive error : Type :=
| ErrEmptyServiceConfig                       (* "unexpected empty service config" *)
| ErrNoApi                                    (* "service config must have one api at least" *)
| ErrParsingBackendUri                        (* "error parsing backend uri: %v" *)
| ErrExternal (what : string)
| ErrJwksUriEmpty (provider : string)
| ErrOpenIDDiscovery (provider : string)
| ErrGrpcHttpRule (api method : string)
| ErrUnsupportedHttpMethod (operation : string)
| ErrUriTemplate (operation : string)
| ErrAddOptionNotOptions (operation : string)
| ErrJwtLocationQueryValuePrefix
| ErrMethodFormat (name : string)             (* "method %s should be in the format of apiName.methodShortName" *)
| ErrAuthSelectorUndefined (selector : string)
| ErrSnakeJsonConflict (operation snake : string)
| ErrSortRouteMatch
| ErrRouteMatcher (operation : string)
| ErrCorsAllowOriginEmpty
| ErrCorsAllowOriginRegexEmpty
| ErrCorsRegexInvalid
| ErrCorsPresetRequired                       (* "cors_preset must be set in order to enable CORS support" *)
| ErrCorsPresetInvalid.

Inductive result (A : Type) : Type :=
| Ok (a : A)
| Err (e : error)
| Panic.
Arguments Ok {A} a.
Arguments Err {A} e.
Arguments Panic {A}.

Definition bind {A B : Type} (m : result A) (k : A -> result B) : result B :=
  match m with
  | Ok a => k a
  | Err e => Err e
  | Panic => Panic
  end.

Notation "'let*' x ':=' m 'in' k" := (bind m (fun x => k))
  (at level 10, x pattern, m at level 100, k at level 200).

(** [for _, x := range l { ... }] over a slice, the body threading the state
    and able to return early with an error. *)
Fixpoint forM {A S : Type} (l : list A) (body : A -> S -> result S) (s : S) : result S :=
  match l with
  | [] => Ok s
  | x :: l' => let* s' := body x s in forM l' body s'
  end.

Definition is_ok {A : Type} (r : result A) : bool :=
  match r with Ok _ => true | _ => false end.

Definition is_panic {A : Type} (r : result A) : bool :=
  match r with Panic => true | _ => false end.

(** The value of a result that is [Ok], [d] otherwise. *)
Definition ok_or {A : Type} (r : result A) (d : A) : A :=
  match r with Ok a => a | _ => d end.

(* ===================================================================== *)
(** * Strings: the [strings] and [fmt] functions the code calls *)
(* ===================================================================== *)

(** [strings.Split(s, sep)] for a one-character separator. *)
Fixpoint Split_aux (sep : ascii) (s : string) (cur : string) : list string :=
  match s with
  | EmptyString => [String.rev cur]
  | String c s' =>
      if Ascii.eqb c sep then String.rev cur :: Split_aux sep s' EmptyString
      else Split_aux sep s' (String c cur)
  end.

Definition Split (s : string) (sep : ascii) : list string := Split_aux sep s EmptyString.

Definition HasPrefix (s p : string) : bool := String.prefix p s.

Definition TrimPrefix (s p : string) : string :=
  if HasPrefix s p then String.substring (String.length p) (String.length s - String.length p) s
  else s.

(** [%v] of an unsigned integer. *)
Definition fmt_uint (n : Z) : string := pretty (Z.to_N n).

Definition str_eqb (a b : string) : bool := bool_decide (a = b).

(* ===================================================================== *)
(** * Numbers: [float64], [int64], [time.Duration] *)
(* ===================================================================== *)

(** IEEE-754 binary64, as the specification floats of the standard library
    with 53 bits of precision and [emax = 1024]. *)
Abbreviation float64 := spec_float.

Definition f64_mul : float64 -> float64 -> float64 := SFmul 53 1024.
Definition f64_eqb : float64 -> float64 -> bool := SFeqb.
Definition f64_ltb : float64 -> float64 -> bool := SFltb.
Definition f64_of_Z (n : Z) : float64 := binary_normalize 53 1024 n 0 false.

(** [math.Round]: nearest integer, halves away from zero; zeros, infinities
    and NaN are returned unchanged. *)
Definition math_Round (x : float64) : float64 :=
  match x with
  | S754_finite s m e =>
      if 0 <=? e then x
      else
        let q := (Z.pos m + 2 ^ (- e - 1)) / 2 ^ (- e) in
        binary_normalize 53 1024 (cond_Zopp s q) 0 s
  | _ => x
  end.

Definition min_int64 : Z := - 2 ^ 63.
Definition max_int64 : Z := 2 ^ 63 - 1.

(** The integer a finite float truncates to (toward zero). *)
Definition f64_trunc (x : float64) : option Z :=
  match x with
  | S754_zero _ => Some 0
  | S754_finite s m e =>
      Some (cond_Zopp s (if 0 <=? e then Z.pos m * 2 ^ e else Z.pos m / 2 ^ (- e)))
  | _ => None
  end.

(** [int64(x)]: truncation when the value is representable; otherwise the
    language leaves the result to the implementation, here [unrep x]. *)
Definition int64_of_float64 (unrep : float64 -> Z) (x : float64) : Z :=
  match f64_trunc x with
  | Some v => if (min_int64 <=? v) && (v <=? max_int64) then v else unrep x
  | None => unrep x
  end.

(** Two's complement wrap-around of [int64] arithmetic. *)
Definition wrap64 (z : Z) : Z := (z + 2 ^ 63) mod 2 ^ 64 - 2 ^ 63.

(** [time.Duration] is an [int64] count of nanoseconds. *)
Definition Millisecond : Z := 1000000.
Definition Second : Z := 1000000000.
Definition Duration_mul (a b : Z) : Z := wrap64 (a * b).

(** [ptypes.DurationProto]. *)
Record DurationPb := { Seconds : Z; Nanos : Z }.
Definition DurationProto (d : Z) : DurationPb :=
  {| Seconds := Z.quot d Second; Nanos := Z.rem d Second |}.

(* ===================================================================== *)
(** * The service description ([confpb.Service]) *)
(* ===================================================================== *)

(** Only the fields the two packages read are kept. Getters of generated
    protobuf code ([GetName], [GetRules], ...) are the record projections. *)

Module ApiMethod.
Record t := {
    Name : string;
    RequestTypeUrl : string;
    RequestStreaming : bool;
    ResponseStreaming : bool }.
End ApiMethod.

Module Api.
Record t := {
    Name : string;
    Version : string;
    Methods : list ApiMethod.t }.
End Api.

Module Field.
Record t := { Name : string; JsonName : string }.
End Field.

Module PType.
Record t := { Name : string; Fields : list Field.t }.
End PType.

(** The [pattern] oneof of [annotationspb.HttpRule]; [Pattern_unset] is the
    nil oneof. *)
Inductive HttpRulePattern : Type :=
| HttpRule_Get (path : string)
| HttpRule_Put (path : string)
| HttpRule_Post (path : string)
| HttpRule_Delete (path : string)
| HttpRule_Patch (path : string)
| HttpRule_Custom (kind path : string)
| Pattern_unset.

Module HttpRule.
#[warnings="-register-all"]
Inductive t := Build {
    Selector : string;
    Pattern : HttpRulePattern;
    AdditionalBindings : list t }.
End HttpRule.

Inductive PathTranslation : Type :=
| PATH_TRANSLATION_UNSPECIFIED
| CONSTANT_ADDRESS
| APPEND_PATH_TO_ADDRESS.

#[global] Instance PathTranslation_eq_dec : EqDecision PathTranslation.
Proof. solve_decision. Defined.

(** The [authentication] oneof of [confpb.BackendRule]. *)
Inductive BackendRuleAuthentication : Type :=
| Authentication_unset
| BackendRule_JwtAudience (aud : string)
| BackendRule_DisableAuth (disable : bool).

Module BackendRule.
Record t := {
    Selector : string;
    Address : string;
    Deadline : float64;
    Protocol : string;
    PathTranslation_ : PathTranslation;
    Authentication : BackendRuleAuthentication }.
End BackendRule.

Module UsageRule.
Record t := {
    Selector : string;
    AllowUnregisteredCalls : bool;
    SkipServiceControl : bool }.
End UsageRule.

Module MetricRule.
Record t := {
    Selector : string;
    MetricCosts : gmap string Z }.
End MetricRule.

(** The [in] oneof of [confpb.JwtLocation]. *)
Inductive JwtLocationIn : Type :=
| JwtLocation_Header (name : string)
| JwtLocation_Query (name : string)
| JwtLocation_Cookie (name : string)
| JwtLocation_unset.

Module JwtLocation.
Record t := { In_ : JwtLocationIn; ValuePrefix : string }.
End JwtLocation.

Module AuthProvider.
Record t := {
    Id : string;
    Issuer : string;
    JwksUri : string;
    JwtLocations : list JwtLocation.t }.
End AuthProvider.

Module AuthRequirement.
Record t := { ProviderId : string; Audiences : string }.
End AuthRequirement.

Module AuthenticationRule.
Record t := {
    Selector : string;
    Requirements : list AuthRequirement.t }.
End AuthenticationRule.

Module SystemParameter.
Record t := {
    Name : string;
    HttpHeader : string;
    UrlQueryParameter : string }.
End SystemParameter.

Module SystemParameterRule.
Record t := {
    Selector : string;
    Parameters : list SystemParameter.t }.
End SystemParameterRule.

Module Endpoint.
Record t := { Name : string; AllowCors : bool }.
End Endpoint.

Module Service.
Record t := {
    Name : string;
    Apis : list Api.t;
    Types : list PType.t;
    HttpRules : list HttpRule.t;                  (* GetHttp().GetRules() *)
    BackendRules : list BackendRule.t;            (* Backend.GetRules() *)
    UsageRules : list UsageRule.t;                (* GetUsage().GetRules() *)
    MetricRules : list MetricRule.t;              (* GetQuota().GetMetricRules() *)
    AuthProviders : list AuthProvider.t;          (* GetAuthentication().GetProviders() *)
    AuthRules : list AuthenticationRule.t;        (* GetAuthentication().GetRules() *)
    SystemParameterRules : list SystemParameterRule.t;
    Endpoints : list Endpoint.t }.

Definition set_AuthProviders (ps : list AuthProvider.t) (c : t) : t :=
    {| Name := Name c; Apis := Apis c; Types := Types c; HttpRules := HttpRules c;
       BackendRules := BackendRules c; UsageRules := UsageRules c;
       MetricRules := MetricRules c; AuthProviders := ps; AuthRules := AuthRules c;
       SystemParameterRules := SystemParameterRules c; Endpoints := Endpoints c |}.
End Service.

(* ===================================================================== *)
(** * Generator options ([options.ConfigGeneratorOptions]) *)
(* ===================================================================== *)

Module Options.
Record t := {
    BackendAddress : string;
    CorsPreset : string;
    CorsAllowOrigin : string;
    CorsAllowOriginRegex : string;
    CorsAllowMethods : string;
    CorsAllowHeaders : string;
    CorsExposeHeaders : string;
    CorsAllowCredentials : bool;
    Healthz : string;
    BackendRetryOns : string;
    BackendRetryNum : Z;                          (* uint *)
    HttpRequestTimeout : Z;                       (* time.Duration *)
    ServiceAccountKey : string;
    TokenAgentPort : Z;                           (* uint *)
    MetadataURL : string;
    DisableOidcDiscovery : bool;
    NonGCP : bool;                                (* CommonOptions.NonGCP *)
    EnableHSTS : bool;
    TranscodingIgnoreQueryParameters : string }.

Definition set_Healthz (h : string) (o : t) : t :=
    {| BackendAddress := BackendAddress o; CorsPreset := CorsPreset o;
       CorsAllowOrigin := CorsAllowOrigin o; CorsAllowOriginRegex := CorsAllowOriginRegex o;
       CorsAllowMethods := CorsAllowMethods o; CorsAllowHeaders := CorsAllowHeaders o;
       CorsExposeHeaders := CorsExposeHeaders o; CorsAllowCredentials := CorsAllowCredentials o;
       Healthz := h; BackendRetryOns := BackendRetryOns o; BackendRetryNum := BackendRetryNum o;
       HttpRequestTimeout := HttpRequestTimeout o; ServiceAccountKey := ServiceAccountKey o;
       TokenAgentPort := TokenAgentPort o; MetadataURL := MetadataURL o;
       DisableOidcDiscovery := DisableOidcDiscovery o; NonGCP := NonGCP o;
       EnableHSTS := EnableHSTS o;
       TranscodingIgnoreQueryParameters := TranscodingIgnoreQueryParameters o |}.
End Options.

(* ===================================================================== *)
(** * What the code uses from packages outside the sources *)
(* ===================================================================== *)

(** [util.BackendProtocol]. *)
Inductive BackendProtocol : Type := UNKNOWN | HTTP1 | HTTP2 | GRPC.

#[global] Instance BackendProtocol_eq_dec : EqDecision BackendProtocol.
Proof. solve_decision. Defined.

(** The HTTP verbs of package [util]. *)
Definition GET : string := "GET".
Definition PUT : string := "PUT".
Definition POST : string := "POST".
Definition DELETE : string := "DELETE".
Definition PATCH : string := "PATCH".
Definition OPTIONS : string := "OPTIONS".

(** [httppattern.Pattern] and [httppattern.Method], over the type [T] of
    URI templates. A nil [*UriTemplate] is [None]. *)
Record Pattern (T : Type) := {
  HttpMethod : string;
  UriTemplate : option T }.
Arguments HttpMethod {T} _.
Arguments UriTemplate {T} _.

Record PatternMethod (T : Type) := {
  Pattern_ : Pattern T;
  Operation : string }.
Arguments Pattern_ {T} _.
Arguments Operation {T} _.

(** Constants, helper functions and the URI-template engine of the packages
    [util] and [httppattern], which the builder and the route generator call
    but whose code is elsewhere. A helper returning [(v, error)] returns
    [option v]. *)
Class Externals := {
  (* package util: backends *)
  ParseURI : string -> option (string * string * Z * string);
    (* scheme, hostname, port, path *)
  ParseBackendProtocol : string -> string -> BackendProtocol * bool * bool;
    (* protocol, tls flag, and whether err != nil *)
  BackendClusterName : string -> string;
  DefaultResponseDeadline : Z;
  (* package util: names *)
  TypeUrlPrefix : string;
  EspOperation : string;
  AutogeneratedOperationPrefix : string;
  DefaultJwtQueryParamAccessToken : string;
  DefaultApiKeyQueryParamKey : string;
  DefaultApiKeyQueryParamApiKey : string;
  ApiKeyParameterName : string;
  LoopbackIPv4Addr : string;
  TokenAgentAccessTokenPath : string;
  TokenAgentClusterName : string;
  AccessTokenPath : string;
  MetadataServerClusterName : string;
  SpanNamePrefix : string;
  HSTSHeaderKey : string;
  HSTSHeaderValue : string;
  (* package util: filter names *)
  ServiceControl : string;
  BackendAuth : string;
  PathRewrite : string;
  JwtAuthn : string;
  (* package util: collaborators *)
  ResolveJwksUriUsingOpenID : string -> option string;
  ValidateRegexProgramSize : string -> Z -> bool;   (* true: err == nil *)
  GoogleRE2MaxProgramSize : Z;
  (* package httppattern *)
  UriTemplateT : Type;
  ParseUriTemplate : string -> option UriTemplateT;
  Origin : UriTemplateT -> string;
  Regex : UriTemplateT -> string;
  NumVariables : UriTemplateT -> nat;               (* len(t.Variables) *)
  IsExactMatch : UriTemplateT -> bool;
  ExactMatchString : UriTemplateT -> bool -> string;
  ReplaceVariableField : UriTemplateT -> gmap string string -> UriTemplateT;
  HttpMethodWildCard : string;
  Sort : list (PatternMethod UriTemplateT) -> option (list (PatternMethod UriTemplateT));
  (* the Go implementation: int64(x) of a float64 that int64 cannot hold *)
  int64_unrepresentable : float64 -> Z }.

Abbreviation HttpPattern := (Pattern UriTemplateT).

(** The order in which one [range] over a Go map visits the keys. The
    runtime picks it anew for every loop, so it is indexed by the place of
    the loop; whatever it picks is a permutation of the keys. *)
Record MapOrder := {
  range_keys : nat -> list string -> list string;
  range_keys_perm : forall site l, range_keys site l ≡ₚ l }.

Definition site_processTypes : nat := 0.
Definition site_processApiKeyLocations : nat := 1.
Definition site_processLocalBackendOperations : nat := 2.
Definition site_processQuota (rule_index : nat) : nat := 3 + rule_index.

(* ===================================================================== *)
(** * The service model ([configinfo.ServiceInfo]) *)
(* ===================================================================== *)

Record BackendRoutingCluster := {
  ClusterName : string;
  Hostname : string;
  Port : Z;                                       (* uint32 *)
  UseTLS : bool;
  Protocol : BackendProtocol }.

(** [configinfo.backendInfo], the backend binding of a method. *)
Module backendInfo.
Record t := {
  ClusterName : string;
  Path : string;
  Hostname : string;
  TranslationType : PathTranslation;
  Deadline : Z;                                   (* time.Duration *)
  RetryOns : string;
  RetryNum : Z;                                   (* uint *)
  JwtAudience : string }.
End backendInfo.

Inductive ApiKeyLocation : Type :=
| ApiKeyLocation_Query (name : string)
| ApiKeyLocation_Header (name : string).

Record MetricCost := { MetricName : string; Cost : Z }.

Record AccessToken := {
  TokenUri : string;
  TokenCluster : string;
  TokenTimeout : DurationPb }.

Inductive LogEvent : Type :=
| WarnRequestTypeUrl (operation url : string)
| WarnNegativeDeadline (selector : string)
| WarnBackendAuthNonGCP (selector : string)
| WarnRequestTypeMalformed (operation : string)
| WarnTypeNotFound (operation typeName : string)
| InfoOpenIDDiscovery (provider : string).

Section Model.
Context `{Ext : Externals}.

(** [configinfo.MethodInfo]. [GeneratedCorsMethod] points into the [Methods]
    map and is the selector of the entry it points to. *)
Record MethodInfo := {
  ShortName : string;
  ApiName : string;
  ApiVersion : string;
  HttpRule_ : list HttpPattern;
  BackendInfo : option backendInfo.t;
  IsStreaming : bool;
  RequireAuth : bool;
  AllowUnregisteredCalls : bool;
  SkipServiceControl : bool;
  IsGenerated : bool;
  ApiKeyLocations : list ApiKeyLocation;
  MetricCosts : list MetricCost;
  GeneratedCorsMethod : option string;
  RequestTypeName : string }.

(** [&MethodInfo{ShortName: ..., ApiName: ...}]. *)
Definition newMethodInfo (shortName apiName : string) : MethodInfo :=
  {| ShortName := shortName; ApiName := apiName; ApiVersion := ""; HttpRule_ := [];
     BackendInfo := None; IsStreaming := false; RequireAuth := false;
     AllowUnregisteredCalls := false; SkipServiceControl := false; IsGenerated := false;
     ApiKeyLocations := []; MetricCosts := []; GeneratedCorsMethod := None;
     RequestTypeName := "" |}.

Definition set_ApiVersion (v : string) (m : MethodInfo) : MethodInfo :=
  {| ShortName := ShortName m; ApiName := ApiName m; ApiVersion := v; HttpRule_ := HttpRule_ m;
     BackendInfo := BackendInfo m; IsStreaming := IsStreaming m; RequireAuth := RequireAuth m;
     AllowUnregisteredCalls := AllowUnregisteredCalls m;
     SkipServiceControl := SkipServiceControl m; IsGenerated := IsGenerated m;
     ApiKeyLocations := ApiKeyLocations m; MetricCosts := MetricCosts m;
     GeneratedCorsMethod := GeneratedCorsMethod m; RequestTypeName := RequestTypeName m |}.

Definition set_HttpRule (h : list HttpPattern) (m : MethodInfo) : MethodInfo :=
  {| ShortName := ShortName m; ApiName := ApiName m; ApiVersion := ApiVersion m; HttpRule_ := h;
     BackendInfo := BackendInfo m; IsStreaming := IsStreaming m; RequireAuth := RequireAuth m;
     AllowUnregisteredCalls := AllowUnregisteredCalls m;
     SkipServiceControl := SkipServiceControl m; IsGenerated := IsGenerated m;
     ApiKeyLocations := ApiKeyLocations m; MetricCosts := MetricCosts m;
     GeneratedCorsMethod := GeneratedCorsMethod m; RequestTypeName := RequestTypeName m |}.

Definition set_BackendInfo (b : option backendInfo.t) (m : MethodInfo) : MethodInfo :=
  {| ShortName := ShortName m; ApiName := ApiName m; ApiVersion := ApiVersion m;
     HttpRule_ := HttpRule_ m;
     BackendInfo := b; IsStreaming := IsStreaming m; RequireAuth := RequireAuth m;
     AllowUnregisteredCalls := AllowUnregisteredCalls m;
     SkipServiceControl := SkipServiceControl m; IsGenerated := IsGenerated m;
     ApiKeyLocations := ApiKeyLocations m; MetricCosts := MetricCosts m;
     GeneratedCorsMethod := GeneratedCorsMethod m; RequestTypeName := RequestTypeName m |}.

Definition set_IsStreaming (b : bool) (m : MethodInfo) : MethodInfo :=
  {| ShortName := ShortName m; ApiName := ApiName m; ApiVersion := ApiVersion m;
     HttpRule_ := HttpRule_ m;
     BackendInfo := BackendInfo m; IsStreaming := b; RequireAuth := RequireAuth m;
     AllowUnregisteredCalls := AllowUnregisteredCalls m;
     SkipServiceControl := SkipServiceControl m; IsGenerated := IsGenerated m;
     ApiKeyLocations := ApiKeyLocations m; MetricCosts := MetricCosts m;
     GeneratedCorsMethod := GeneratedCorsMethod m; RequestTypeName := RequestTypeName m |}.

Definition set_RequireAuth (b : bool) (m : MethodInfo) : MethodInfo :=
  {| ShortName := ShortName m; ApiName := ApiName m; ApiVersion := ApiVersion m;
     HttpRule_ := HttpRule_ m;
     BackendInfo := BackendInfo m; IsStreaming := IsStreaming m; RequireAuth := b;
     AllowUnregisteredCalls := AllowUnregisteredCalls m;
     SkipServiceControl := SkipServiceControl m; IsGenerated := IsGenerated m;
     ApiKeyLocations := ApiKeyLocations m; MetricCosts := MetricCosts m;
     GeneratedCorsMethod := GeneratedCorsMethod m; RequestTypeName := RequestTypeName m |}.

Definition set_AllowUnregisteredCalls (b : bool) (m : MethodInfo) : MethodInfo :=
  {| ShortName := ShortName m; ApiName := ApiName m; ApiVersion := ApiVersion m;
     HttpRule_ := HttpRule_ m;
     BackendInfo := BackendInfo m; IsStreaming := IsStreaming m; RequireAuth := RequireAuth m;
     AllowUnregisteredCalls := b;
     SkipServiceControl := SkipServiceControl m; IsGenerated := IsGenerated m;
     ApiKeyLocations := ApiKeyLocations m; MetricCosts := MetricCosts m;
     GeneratedCorsMethod := GeneratedCorsMethod m; RequestTypeName := RequestTypeName m |}.

Definition set_SkipServiceControl (b : bool) (m : MethodInfo) : MethodInfo :=
  {| ShortName := ShortName m; ApiName := ApiName m; ApiVersion := ApiVersion m;
     HttpRule_ := HttpRule_ m;
     BackendInfo := BackendInfo m; IsStreaming := IsStreaming m; RequireAuth := RequireAuth m;
     AllowUnregisteredCalls := AllowUnregisteredCalls m;
     SkipServiceControl := b; IsGenerated := IsGenerated m;
     ApiKeyLocations := ApiKeyLocations m; MetricCosts := MetricCosts m;
     GeneratedCorsMethod := GeneratedCorsMethod m; RequestTypeName := RequestTypeName m |}.

Definition set_IsGenerated (b : bool) (m : MethodInfo) : MethodInfo :=
  {| ShortName := ShortName m; ApiName := ApiName m; ApiVersion := ApiVersion m;
     HttpRule_ := HttpRule_ m;
     BackendInfo := BackendInfo m; IsStreaming := IsStreaming m; RequireAuth := RequireAuth m;
     AllowUnregisteredCalls := AllowUnregisteredCalls m;
     SkipServiceControl := SkipServiceControl m; IsGenerated := b;
     ApiKeyLocations := ApiKeyLocations m; MetricCosts := MetricCosts m;
     GeneratedCorsMethod := GeneratedCorsMethod m; RequestTypeName := RequestTypeName m |}.

Definition set_ApiKeyLocations (l : list ApiKeyLocation) (m : MethodInfo) : MethodInfo :=
  {| ShortName := ShortName m; ApiName := ApiName m; ApiVersion := ApiVersion m;
     HttpRule_ := HttpRule_ m;
     BackendInfo := BackendInfo m; IsStreaming := IsStreaming m; RequireAuth := RequireAuth m;
     AllowUnregisteredCalls := AllowUnregisteredCalls m;
     SkipServiceControl := SkipServiceControl m; IsGenerated := IsGenerated m;
     ApiKeyLocations := l; MetricCosts := MetricCosts m;
     GeneratedCorsMethod := GeneratedCorsMethod m; RequestTypeName := RequestTypeName m |}.

Definition set_MetricCosts (l : list MetricCost) (m : MethodInfo) : MethodInfo :=
  {| ShortName := ShortName m; ApiName := ApiName m; ApiVersion := ApiVersion m;
     HttpRule_ := HttpRule_ m;
     BackendInfo := BackendInfo m; IsStreaming := IsStreaming m; RequireAuth := RequireAuth m;
     AllowUnregisteredCalls := AllowUnregisteredCalls m;
     SkipServiceControl := SkipServiceControl m; IsGenerated := IsGenerated m;
     ApiKeyLocations := ApiKeyLocations m; MetricCosts := l;
     GeneratedCorsMethod := GeneratedCorsMethod m; RequestTypeName := RequestTypeName m |}.

Definition set_GeneratedCorsMethod (g : option string) (m : MethodInfo) : MethodInfo :=
  {| ShortName := ShortName m; ApiName := ApiName m; ApiVersion := ApiVersion m;
     HttpRule_ := HttpRule_ m;
     BackendInfo := BackendInfo m; IsStreaming := IsStreaming m; RequireAuth := RequireAuth m;
     AllowUnregisteredCalls := AllowUnregisteredCalls m;
     SkipServiceControl := SkipServiceControl m; IsGenerated := IsGenerated m;
     ApiKeyLocations := ApiKeyLocations m; MetricCosts := MetricCosts m;
     GeneratedCorsMethod := g; RequestTypeName := RequestTypeName m |}.

Definition set_RequestTypeName (n : string) (m : MethodInfo) : MethodInfo :=
  {| ShortName := ShortName m; ApiName := ApiName m; ApiVersion := ApiVersion m;
     HttpRule_ := HttpRule_ m;
     BackendInfo := BackendInfo m; IsStreaming := IsStreaming m; RequireAuth := RequireAuth m;
     AllowUnregisteredCalls := AllowUnregisteredCalls m;
     SkipServiceControl := SkipServiceControl m; IsGenerated := IsGenerated m;
     ApiKeyLocations := ApiKeyLocations m; MetricCosts := MetricCosts m;
     GeneratedCorsMethod := GeneratedCorsMethod m; RequestTypeName := n |}.

(** [m.HttpRule = append(m.HttpRule, p)]. *)
Definition append_HttpRule (p : HttpPattern) (m : MethodInfo) : MethodInfo :=
  set_HttpRule (HttpRule_ m ++ [p]) m.

(** [ServiceInfo]. The fields [ServiceControlURI] and [GcpAttributes] are
    written by neither package and are left out. [Log] is what [glog] has
    received. *)
Record ServiceInfo := {
  Name : string;
  ConfigID : string;
  ApiNames : list string;
  Operations : list string;
  Methods : gmap string MethodInfo;
  AllTranscodingIgnoredQueryParams : gmap string bool;
  AllowCors : bool;
  serviceConfig : Service.t;
  AccessToken_ : option AccessToken;
  Opts : Options.t;
  GrpcSupportRequired : bool;
  LocalBackendCluster : option BackendRoutingCluster;
  RemoteBackendClusters : list BackendRoutingCluster;
  Log : list LogEvent }.

Definition set_ApiNames (v : list string) (s : ServiceInfo) : ServiceInfo :=
  {| Name := Name s; ConfigID := ConfigID s; ApiNames := v; Operations := Operations s;
     Methods := Methods s;
     AllTranscodingIgnoredQueryParams := AllTranscodingIgnoredQueryParams s;
     AllowCors := AllowCors s; serviceConfig := serviceConfig s;
     AccessToken_ := AccessToken_ s; Opts := Opts s;
     GrpcSupportRequired := GrpcSupportRequired s;
     LocalBackendCluster := LocalBackendCluster s;
     RemoteBackendClusters := RemoteBackendClusters s; Log := Log s |}.

Definition set_Operations (v : list string) (s : ServiceInfo) : ServiceInfo :=
  {| Name := Name s; ConfigID := ConfigID s; ApiNames := ApiNames s; Operations := v;
     Methods := Methods s;
     AllTranscodingIgnoredQueryParams := AllTranscodingIgnoredQueryParams s;
     AllowCors := AllowCors s; serviceConfig := serviceConfig s;
     AccessToken_ := AccessToken_ s; Opts := Opts s;
     GrpcSupportRequired := GrpcSupportRequired s;
     LocalBackendCluster := LocalBackendCluster s;
     RemoteBackendClusters := RemoteBackendClusters s; Log := Log s |}.

Definition set_Methods (v : gmap string MethodInfo) (s : ServiceInfo) : ServiceInfo :=
  {| Name := Name s; ConfigID := ConfigID s; ApiNames := ApiNames s;
     Operations := Operations s; Methods := v;
     AllTranscodingIgnoredQueryParams := AllTranscodingIgnoredQueryParams s;
     AllowCors := AllowCors s; serviceConfig := serviceConfig s;
     AccessToken_ := AccessToken_ s; Opts := Opts s;
     GrpcSupportRequired := GrpcSupportRequired s;
     LocalBackendCluster := LocalBackendCluster s;
     RemoteBackendClusters := RemoteBackendClusters s; Log := Log s |}.

Definition set_AllTranscodingIgnoredQueryParams (v : gmap string bool) (s : ServiceInfo)
  : ServiceInfo :=
  {| Name := Name s; ConfigID := ConfigID s; ApiNames := ApiNames s;
     Operations := Operations s; Methods := Methods s;
     AllTranscodingIgnoredQueryParams := v;
     AllowCors := AllowCors s; serviceConfig := serviceConfig s;
     AccessToken_ := AccessToken_ s; Opts := Opts s;
     GrpcSupportRequired := GrpcSupportRequired s;
     LocalBackendCluster := LocalBackendCluster s;
     RemoteBackendClusters := RemoteBackendClusters s; Log := Log s |}.

Definition set_AllowCors (v : bool) (s : ServiceInfo) : ServiceInfo :=
  {| Name := Name s; ConfigID := ConfigID s; ApiNames := ApiNames s;
     Operations := Operations s; Methods := Methods s;
     AllTranscodingIgnoredQueryParams := AllTranscodingIgnoredQueryParams s;
     AllowCors := v; serviceConfig := serviceConfig s;
     AccessToken_ := AccessToken_ s; Opts := Opts s;
     GrpcSupportRequired := GrpcSupportRequired s;
     LocalBackendCluster := LocalBackendCluster s;
     RemoteBackendClusters := RemoteBackendClusters s; Log := Log s |}.

Definition set_serviceConfig (v : Service.t) (s : ServiceInfo) : ServiceInfo :=
  {| Name := Name s; ConfigID := ConfigID s; ApiNames := ApiNames s;
     Operations := Operations s; Methods := Methods s;
     AllTranscodingIgnoredQueryParams := AllTranscodingIgnoredQueryParams s;
     AllowCors := AllowCors s; serviceConfig := v;
     AccessToken_ := AccessToken_ s; Opts := Opts s;
     GrpcSupportRequired := GrpcSupportRequired s;
     LocalBackendCluster := LocalBackendCluster s;
     RemoteBackendClusters := RemoteBackendClusters s; Log := Log s |}.

Definition set_AccessToken (v : option AccessToken) (s : ServiceInfo) : ServiceInfo :=
  {| Name := Name s; ConfigID := ConfigID s; ApiNames := ApiNames s;
     Operations := Operations s; Methods := Methods s;
     AllTranscodingIgnoredQueryParams := AllTranscodingIgnoredQueryParams s;
     AllowCors := AllowCors s; serviceConfig := serviceConfig s;
     AccessToken_ := v; Opts := Opts s;
     GrpcSupportRequired := GrpcSupportRequired s;
     LocalBackendCluster := LocalBackendCluster s;
     RemoteBackendClusters := RemoteBackendClusters s; Log := Log s |}.

Definition set_Opts (v : Options.t) (s : ServiceInfo) : ServiceInfo :=
  {| Name := Name s; ConfigID := ConfigID s; ApiNames := ApiNames s;
     Operations := Operations s; Methods := Methods s;
     AllTranscodingIgnoredQueryParams := AllTranscodingIgnoredQueryParams s;
     AllowCors := AllowCors s; serviceConfig := serviceConfig s;
     AccessToken_ := AccessToken_ s; Opts := v;
     GrpcSupportRequired := GrpcSupportRequired s;
     LocalBackendCluster := LocalBackendCluster s;
     RemoteBackendClusters := RemoteBackendClusters s; Log := Log s |}.

Definition set_GrpcSupportRequired (v : bool) (s : ServiceInfo) : ServiceInfo :=
  {| Name := Name s; ConfigID := ConfigID s; ApiNames := ApiNames s;
     Operations := Operations s; Methods := Methods s;
     AllTranscodingIgnoredQueryParams := AllTranscodingIgnoredQueryParams s;
     AllowCors := AllowCors s; serviceConfig := serviceConfig s;
     AccessToken_ := AccessToken_ s; Opts := Opts s;
     GrpcSupportRequired := v;
     LocalBackendCluster := LocalBackendCluster s;
     RemoteBackendClusters := RemoteBackendClusters s; Log := Log s |}.

Definition set_LocalBackendCluster (v : option BackendRoutingCluster) (s : ServiceInfo)
  : ServiceInfo :=
  {| Name := Name s; ConfigID := ConfigID s; ApiNames := ApiNames s;
     Operations := Operations s; Methods := Methods s;
     AllTranscodingIgnoredQueryParams := AllTranscodingIgnoredQueryParams s;
     AllowCors := AllowCors s; serviceConfig := serviceConfig s;
     AccessToken_ := AccessToken_ s; Opts := Opts s;
     GrpcSupportRequired := GrpcSupportRequired s;
     LocalBackendCluster := v;
     RemoteBackendClusters := RemoteBackendClusters s; Log := Log s |}.

Definition set_RemoteBackendClusters (v : list BackendRoutingCluster) (s : ServiceInfo)
  : ServiceInfo :=
  {| Name := Name s; ConfigID := ConfigID s; ApiNames := ApiNames s;
     Operations := Operations s; Methods := Methods s;
     AllTranscodingIgnoredQueryParams := AllTranscodingIgnoredQueryParams s;
     AllowCors := AllowCors s; serviceConfig := serviceConfig s;
     AccessToken_ := AccessToken_ s; Opts := Opts s;
     GrpcSupportRequired := GrpcSupportRequired s;
     LocalBackendCluster := LocalBackendCluster s;
     RemoteBackendClusters := v; Log := Log s |}.

(** A [glog] call. *)
Definition glog (ev : LogEvent) (s : ServiceInfo) : ServiceInfo :=
  {| Name := Name s; ConfigID := ConfigID s; ApiNames := ApiNames s;
     Operations := Operations s; Methods := Methods s;
     AllTranscodingIgnoredQueryParams := AllTranscodingIgnoredQueryParams s;
     AllowCors := AllowCors s; serviceConfig := serviceConfig s;
     AccessToken_ := AccessToken_ s; Opts := Opts s;
     GrpcSupportRequired := GrpcSupportRequired s;
     LocalBackendCluster := LocalBackendCluster s;
     RemoteBackendClusters := RemoteBackendClusters s; Log := Log s ++ [ev] |}.

(** A write through a [*MethodInfo]: [s.Methods[name].field = v]. *)
Definition modifyMethod (name : string) (f : MethodInfo -> MethodInfo) (s : ServiceInfo)
  : ServiceInfo :=
  set_Methods (alter f name (Methods s)) s.

(** [s.AllTranscodingIgnoredQueryParams[name] = true]. *)
Definition ignoreQueryParam (name : string) (s : ServiceInfo) : ServiceInfo :=
  set_AllTranscodingIgnoredQueryParams (<[name := true]> (AllTranscodingIgnoredQueryParams s)) s.

(** The keys a [range] over [s.Methods] visits, in the order of this run. *)
Definition rangeMethods (ord : MapOrder) (site : nat) (s : ServiceInfo) : list string :=
  range_keys ord site (map_to_list (Methods s)).*1.

(* ===================================================================== *)
(** * The builder (service_info.go) *)
(* ===================================================================== *)

Definition LocalBackendClusterName (s : ServiceInfo) : string :=
  BackendClusterName (Name s ++ "_local").

(** [getOrCreateMethod]: the entry for [name], created (and appended to
    [Operations]) when there is none; the [*MethodInfo] it returns is the
    key [name] of the state it returns. *)
Definition getOrCreateMethod (name : string) (s : ServiceInfo) : result ServiceInfo :=
  match Methods s !! name with
  | Some _ => Ok s
  | None =>
      let names := Split name "." in
      if (length names <=? 1)%nat then Err (ErrMethodFormat name)
      else
        let shortName := List.last names "" in
        let apiName :=
          String.substring 0 (String.length name - String.length shortName - 1) name in
        Ok (set_Operations (Operations s ++ [name])
              (set_Methods (<[name := newMethodInfo shortName apiName]> (Methods s)) s))
  end.

Definition buildLocalBackend (s : ServiceInfo) : result ServiceInfo :=
  match ParseURI (Options.BackendAddress (Opts s)) with
  | None => Err ErrParsingBackendUri
  | Some (scheme, hostname, port, _) =>
      let '(protocol, tls, err) := ParseBackendProtocol scheme "" in
      if err : bool then Err (ErrExternal "ParseBackendProtocol")
      else
        let s := if decide (protocol = GRPC) then set_GrpcSupportRequired true s else s in
        Ok (set_LocalBackendCluster
              (Some {| UseTLS := tls; Protocol := protocol;
                       ClusterName := LocalBackendClusterName s;
                       Hostname := hostname; Port := port |}) s)
  end.

Definition processEndpoints (s : ServiceInfo) : ServiceInfo :=
  foldl (fun s endpoint =>
           if str_eqb (Endpoint.Name endpoint) (Service.Name (serviceConfig s))
              && Endpoint.AllowCors endpoint
           then set_AllowCors true s else s)
        s (Service.Endpoints (serviceConfig s)).

(** The body of the inner loop of [processApis]. The error of
    [getOrCreateMethod] is dropped there ([mi, _ :=]), so a failure leaves
    [mi] nil and the next line dereferences it. *)
Definition processApiMethod (api : Api.t) (method : ApiMethod.t) (s : ServiceInfo)
  : result ServiceInfo :=
  let selector := Api.Name api ++ "." ++ ApiMethod.Name method in
  match getOrCreateMethod selector s with
  | Ok s =>
      let s := if ApiMethod.RequestStreaming method || ApiMethod.ResponseStreaming method
               then modifyMethod selector (set_IsStreaming true) s else s in
      let s := modifyMethod selector (set_ApiVersion (Api.Version api)) s in
      if HasPrefix (ApiMethod.RequestTypeUrl method) TypeUrlPrefix
      then Ok (modifyMethod selector
                 (set_RequestTypeName (TrimPrefix (ApiMethod.RequestTypeUrl method) TypeUrlPrefix)) s)
      else Ok (glog (WarnRequestTypeUrl selector (ApiMethod.RequestTypeUrl method)) s)
  | _ => Panic
  end.

Definition processApis (s : ServiceInfo) : result ServiceInfo :=
  forM (Service.Apis (serviceConfig s))
       (fun api s =>
          forM (Api.Methods api) (processApiMethod api)
               (set_ApiNames (ApiNames s ++ [Api.Name api]) s))
       s.

(** [processQuota]. The metric costs of a rule are a Go map and are listed
    in the order the runtime ranges over it; [s.Methods[selector]] is
    dereferenced as it is. *)
Definition metricCostsOf (ord : MapOrder) (i : nat) (costs : gmap string Z) : list MetricCost :=
  omap (fun name => (fun cost => {| MetricName := name; Cost := cost |}) <$> costs !! name)
       (range_keys ord (site_processQuota i) (map_to_list costs).*1).

Definition processQuota (ord : MapOrder) (s : ServiceInfo) : result ServiceInfo :=
  forM (imap pair (Service.MetricRules (serviceConfig s)))
       (fun '(i, metricRule) s =>
          let metricCosts := metricCostsOf ord i (MetricRule.MetricCosts metricRule) in
          match Methods s !! MetricRule.Selector metricRule with
          | None => Panic
          | Some _ =>
              Ok (modifyMethod (MetricRule.Selector metricRule) (set_MetricCosts metricCosts) s)
          end)
       s.

(** If the backend address's scheme is grpc/grpcs, it should be changed it
    http or https. The error of [ParseBackendProtocol] is dropped. *)
Definition getJwtAudienceFromBackendAddr (scheme hostname : string) : string :=
  let '(_, tls, _) := ParseBackendProtocol scheme "" in
  if tls : bool then "https://" ++ hostname else "http://" ++ hostname.

Definition determineBackendAuthJwtAud (r : BackendRule.t) (scheme hostname : string) : string :=
  match BackendRule.Authentication r with
  | BackendRule_JwtAudience aud => aud
  | BackendRule_DisableAuth disable =>
      if disable then "" else getJwtAudienceFromBackendAddr scheme hostname
  | Authentication_unset =>
      if str_eqb (BackendRule.Address r) "" then ""
      else getJwtAudienceFromBackendAddr scheme hostname
  end.

Definition f64_zero : float64 := S754_zero false.

(** The deadline of a backend rule as a [time.Duration], and whether the
    negative-deadline warning is logged. *)
Definition backendDeadline (d : float64) : Z * bool :=
  if f64_eqb d f64_zero then (DefaultResponseDeadline, false)
  else if f64_ltb d f64_zero then (DefaultResponseDeadline, true)
  else
    let deadlineMs :=
      int64_of_float64 int64_unrepresentable (math_Round (f64_mul d (f64_of_Z 1000))) in
    (Duration_mul deadlineMs Millisecond, false).

Definition addBackendInfoToMethod (r : BackendRule.t)
    (scheme hostname path backendClusterName : string) (s : ServiceInfo)
  : result ServiceInfo :=
  let* s := getOrCreateMethod (BackendRule.Selector r) s in
  let path :=
    if str_eqb path ""
       && bool_decide (BackendRule.PathTranslation_ r = CONSTANT_ADDRESS)
    then "/" else path in
  let '(deadline, negative) := backendDeadline (BackendRule.Deadline r) in
  let s := if negative then glog (WarnNegativeDeadline (BackendRule.Selector r)) s else s in
  let jwtAud := determineBackendAuthJwtAud r scheme hostname in
  let disableForNonGCP := negb (str_eqb jwtAud "") && Options.NonGCP (Opts s) in
  let s := if disableForNonGCP
           then glog (WarnBackendAuthNonGCP (BackendRule.Selector r)) s else s in
  let jwtAud := if disableForNonGCP then "" else jwtAud in
  Ok (modifyMethod (BackendRule.Selector r)
        (set_BackendInfo
           (Some {| backendInfo.ClusterName := backendClusterName;
                    backendInfo.Path := path;
                    backendInfo.Hostname := hostname;
                    backendInfo.TranslationType := BackendRule.PathTranslation_ r;
                    backendInfo.Deadline := deadline;
                    backendInfo.RetryOns := Options.BackendRetryOns (Opts s);
                    backendInfo.RetryNum := Options.BackendRetryNum (Opts s);
                    backendInfo.JwtAudience := jwtAud |}))
        s).

(** [fmt.Sprintf("%v:%v", hostname, port)]. *)
Definition hostPort (hostname : string) (port : Z) : string :=
  hostname ++ ":" ++ fmt_uint port.

(** The block [if _, exist := backendRoutingClustersMap[address]; !exist]
    of [processBackendRule]: the cluster of a remote address is created
    when the local map [backendRoutingClustersMap], the second component of
    the state, has no entry for it. *)
Definition createRemoteCluster (r : BackendRule.t) (scheme hostname : string) (port : Z)
    (st : ServiceInfo * gmap string string) : result (ServiceInfo * gmap string string) :=
  let '(s, backendRoutingClustersMap) := st in
  let address := hostPort hostname port in
  match backendRoutingClustersMap !! address with
  | Some _ => Ok st
  | None =>
      let '(protocol, tls, err) := ParseBackendProtocol scheme (BackendRule.Protocol r) in
      if err : bool then Err (ErrExternal "ParseBackendProtocol")
      else
        let s := if decide (protocol = GRPC) then set_GrpcSupportRequired true s else s in
        let backendClusterName := BackendClusterName address in
        Ok (set_RemoteBackendClusters
              (RemoteBackendClusters s ++
                 [{| ClusterName := backendClusterName; UseTLS := tls;
                     Protocol := protocol; Hostname := hostname; Port := port |}])
              s,
            <[address := backendClusterName]> backendRoutingClustersMap)
  end.

(** One iteration of the loop of [processBackendRule]. *)
Definition processOneBackendRule (r : BackendRule.t) (st : ServiceInfo * gmap string string)
  : result (ServiceInfo * gmap string string) :=
  let '(s, backendRoutingClustersMap) := st in
  if str_eqb (BackendRule.Address r) "" then
    let* s := addBackendInfoToMethod r "" "" "" (LocalBackendClusterName s) s in
    Ok (s, backendRoutingClustersMap)
  else
    match ParseURI (BackendRule.Address r) with
    | None => Err (ErrExternal "ParseURI")
    | Some (scheme, hostname, port, path) =>
        let address := hostPort hostname port in
        let* (s, backendRoutingClustersMap) :=
          createRemoteCluster r scheme hostname port st in
        (* a read of a Go map gives the zero value for a missing key *)
        let backendClusterName := default "" (backendRoutingClustersMap !! address) in
        let* s := addBackendInfoToMethod r scheme hostname path backendClusterName s in
        Ok (s, backendRoutingClustersMap)
    end.

Definition processBackendRule (s : ServiceInfo) : result ServiceInfo :=
  let* (s, _) :=
    forM (Service.BackendRules (serviceConfig s)) processOneBackendRule (s, ∅) in
  Ok s.

(** The verb and the path of an HTTP rule: the [switch] on the pattern oneof
    of [addHttpRule]; [None] is its [default] branch. *)
Definition httpRuleVerbPath (r : HttpRule.t) : option (string * string) :=
  match HttpRule.Pattern r with
  | HttpRule_Get path => Some (GET, path)
  | HttpRule_Put path => Some (PUT, path)
  | HttpRule_Post path => Some (POST, path)
  | HttpRule_Delete path => Some (DELETE, path)
  | HttpRule_Patch path => Some (PATCH, path)
  | HttpRule_Custom kind path => Some (kind, path)
  | Pattern_unset => None
  end.

(** [addHttpRule(method, r, addedRouteMatchWithOptionsSet)]; the set is the
    second component of the state. *)
Definition addHttpRule (method : string) (r : HttpRule.t) (st : ServiceInfo * gmap string bool)
  : result (ServiceInfo * gmap string bool) :=
  let '(s, addedRouteMatchWithOptionsSet) := st in
  match httpRuleVerbPath r with
  | None => Err (ErrUnsupportedHttpMethod method)
  | Some (httpMethod, path) =>
      match ParseUriTemplate path with
      | None => Err (ErrUriTemplate method)
      | Some uriTemplate =>
          let addedRouteMatchWithOptionsSet :=
            if str_eqb httpMethod OPTIONS
            then <[Regex uriTemplate := true]> addedRouteMatchWithOptionsSet
            else addedRouteMatchWithOptionsSet in
          Ok (modifyMethod method
                (append_HttpRule {| HttpMethod := httpMethod; UriTemplate := Some uriTemplate |})
                s,
              addedRouteMatchWithOptionsSet)
      end
  end.

Definition corsOperation (apiName shortName : string) : string :=
  apiName ++ "." ++ AutogeneratedOperationPrefix ++ "_CORS_" ++ shortName.

Definition addOptionMethod (originalMethod : string) (httpRule : HttpPattern) (s : ServiceInfo)
  : result ServiceInfo :=
  if negb (str_eqb (HttpMethod httpRule) OPTIONS)
  then Err (ErrAddOptionNotOptions originalMethod)
  else
    match Methods s !! originalMethod with
    | None => Panic
    | Some original =>
        let genOperation := corsOperation (ApiName original) (ShortName original) in
        let* s := getOrCreateMethod genOperation s in
        let s :=
          modifyMethod genOperation
            (fun method =>
               append_HttpRule httpRule
                 (set_IsGenerated true
                    (set_BackendInfo (BackendInfo original)
                       (set_ApiVersion (ApiVersion original) method))))
            s in
        Ok (modifyMethod originalMethod (set_GeneratedCorsMethod (Some genOperation)) s)
    end.

(** The body of the CORS loop of [processHttpRule] for one pattern of the
    method of rule [r]. *)
Definition addCorsForPattern (selector : string) (httpRule : HttpPattern)
    (st : ServiceInfo * gmap string bool) : result (ServiceInfo * gmap string bool) :=
  let '(s, addedRouteMatchWithOptionsSet) := st in
  if str_eqb (HttpMethod httpRule) OPTIONS then Ok st
  else
    match UriTemplate httpRule with
    | None => Panic
    | Some t =>
        let newHttpRule :=
          {| HttpMethod := OPTIONS; UriTemplate := ParseUriTemplate (Origin t) |} in
        let routeMatch := Regex t in
        match addedRouteMatchWithOptionsSet !! routeMatch with
        | Some _ => Ok st
        | None =>
            let* s := addOptionMethod selector newHttpRule s in
            Ok (s, <[routeMatch := true]> addedRouteMatchWithOptionsSet)
        end
    end.

Definition healthCheckOperation : string :=
  EspOperation ++ "." ++ AutogeneratedOperationPrefix ++ "_HealthCheck".

Definition addHealthCheck (s : ServiceInfo) : result ServiceInfo :=
  if str_eqb (Options.Healthz (Opts s)) "" then Ok s
  else
    let methodName := healthCheckOperation in
    let* s := getOrCreateMethod methodName s in
    let s :=
      if HasPrefix (Options.Healthz (Opts s)) "/" then s
      else set_Opts (Options.set_Healthz ("/" ++ Options.Healthz (Opts s)) (Opts s)) s in
    let uriTemplate := ParseUriTemplate (Options.Healthz (Opts s)) in
    Ok (modifyMethod methodName
          (fun hcMethod =>
             set_IsGenerated true
               (set_SkipServiceControl true
                  (append_HttpRule {| HttpMethod := GET; UriTemplate := uriTemplate |} hcMethod)))
          s).

Definition processHttpRule (s : ServiceInfo) : result ServiceInfo :=
  let rules := Service.HttpRules (serviceConfig s) in
  let* st :=
    forM rules
      (fun rule '(s, added) =>
         let* s := getOrCreateMethod (HttpRule.Selector rule) s in
         let* st := addHttpRule (HttpRule.Selector rule) rule (s, added) in
         forM (HttpRule.AdditionalBindings rule) (addHttpRule (HttpRule.Selector rule)) st)
      (s, ∅) in
  let* (s, _) :=
    if AllowCors (fst st) then
      forM rules
        (fun r '(s, added) =>
           match Methods s !! HttpRule.Selector r with
           | None => Panic
           | Some method =>
               forM (HttpRule_ method) (addCorsForPattern (HttpRule.Selector r)) (s, added)
           end)
        st
    else Ok st in
  addHealthCheck s.

Definition processUsageRule (s : ServiceInfo) : result ServiceInfo :=
  forM (Service.UsageRules (serviceConfig s))
       (fun r s =>
          let* s := getOrCreateMethod (UsageRule.Selector r) s in
          Ok (modifyMethod (UsageRule.Selector r)
                (fun method =>
                   set_SkipServiceControl (UsageRule.SkipServiceControl r)
                     (set_AllowUnregisteredCalls (UsageRule.AllowUnregisteredCalls r) method))
                s))
       s.

Definition processAccessToken (s : ServiceInfo) : ServiceInfo :=
  if negb (str_eqb (Options.ServiceAccountKey (Opts s)) "") then
    set_AccessToken
      (Some {| TokenUri := "http://" ++ LoopbackIPv4Addr ++ ":"
                             ++ fmt_uint (Options.TokenAgentPort (Opts s))
                             ++ TokenAgentAccessTokenPath;
               TokenCluster := TokenAgentClusterName;
               TokenTimeout := DurationProto (Options.HttpRequestTimeout (Opts s)) |})
      s
  else
    set_AccessToken
      (Some {| TokenUri := Options.MetadataURL (Opts s) ++ AccessTokenPath;
               TokenCluster := MetadataServerClusterName;
               TokenTimeout := DurationProto (Options.HttpRequestTimeout (Opts s)) |})
      s.

(** The snake-name to JSON-name map of a request type, or the error on two
    fields with one snake name and different JSON names. *)
Definition snakeToJsonOf (operation : string) (requestType : PType.t)
  : result (gmap string string) :=
  forM (PType.Fields requestType)
       (fun field snakeToJson =>
          if str_eqb (Field.Name field) (Field.JsonName field) then Ok snakeToJson
          else
            match snakeToJson !! Field.Name field with
            | Some prevJsonName =>
                if str_eqb prevJsonName (Field.JsonName field)
                then Ok (<[Field.Name field := Field.JsonName field]> snakeToJson)
                else Err (ErrSnakeJsonConflict operation (Field.Name field))
            | None => Ok (<[Field.Name field := Field.JsonName field]> snakeToJson)
            end)
       ∅.

(** The closure [snakeNameToJsonNameForUriTemplates] of [processTypes]. *)
Definition snakeNameToJsonNameForUriTemplates (m : string)
    (snakeNameToJsonName : gmap string string) (s : ServiceInfo) : ServiceInfo :=
  modifyMethod m
    (fun mi =>
       set_HttpRule
         (map (fun httpRule =>
                 {| HttpMethod := HttpMethod httpRule;
                    UriTemplate :=
                      (fun t => ReplaceVariableField t snakeNameToJsonName)
                        <$> UriTemplate httpRule |})
              (HttpRule_ mi))
         mi)
    s.

Definition typesByTypeName (s : ServiceInfo) : gmap string PType.t :=
  foldl (fun m t => <[PType.Name t := t]> m) ∅ (Service.Types (serviceConfig s)).

(** One iteration of the loop of [processTypes] over [s.Methods]. *)
Definition processTypesOf (operation : string) (s : ServiceInfo) : result ServiceInfo :=
  match Methods s !! operation with
  | None => Ok s
  | Some mi =>
      let requestTypeName := RequestTypeName mi in
      if str_eqb requestTypeName "" then Ok (glog (WarnRequestTypeMalformed operation) s)
      else
        match typesByTypeName s !! requestTypeName with
        | None => Ok (glog (WarnTypeNotFound operation requestTypeName) s)
        | Some requestType =>
            let* snakeToJson := snakeToJsonOf operation requestType in
            if bool_decide (snakeToJson = ∅) then Ok s
            else
              let s := snakeNameToJsonNameForUriTemplates operation snakeToJson s in
              match GeneratedCorsMethod mi with
              | Some g => Ok (snakeNameToJsonNameForUriTemplates g snakeToJson s)
              | None => Ok s
              end
        end
  end.

Definition processTypes (ord : MapOrder) (s : ServiceInfo) : result ServiceInfo :=
  forM (rangeMethods ord site_processTypes s) processTypesOf s.

Definition addGrpcHttpRules (s : ServiceInfo) : result ServiceInfo :=
  if negb (GrpcSupportRequired s) then Ok s
  else
    forM (Service.Apis (serviceConfig s))
         (fun api s =>
            forM (Api.Methods api)
                 (fun method s =>
                    let selector := Api.Name api ++ "." ++ ApiMethod.Name method in
                    let mi := getOrCreateMethod selector s in
                    let path := "/" ++ Api.Name api ++ "/" ++ ApiMethod.Name method in
                    match ParseUriTemplate path with
                    | None => Err (ErrGrpcHttpRule (Api.Name api) (ApiMethod.Name method))
                    | Some uriTemplate =>
                        match mi with
                        | Ok s =>
                            Ok (modifyMethod selector
                                  (append_HttpRule
                                     {| HttpMethod := POST; UriTemplate := Some uriTemplate |})
                                  s)
                        | _ => Panic
                        end
                    end)
                 s)
         s.

Definition processTranscodingIgnoredQueryParams (s : ServiceInfo) : result ServiceInfo :=
  let* s :=
    forM (Service.AuthProviders (serviceConfig s))
         (fun provider s =>
            match AuthProvider.JwtLocations provider with
            | [] => Ok (ignoreQueryParam DefaultJwtQueryParamAccessToken s)
            | locations =>
                forM locations
                     (fun jwtLocation s =>
                        match JwtLocation.In_ jwtLocation with
                        | JwtLocation_Query q =>
                            if negb (str_eqb (JwtLocation.ValuePrefix jwtLocation) "")
                            then Err ErrJwtLocationQueryValuePrefix
                            else Ok (ignoreQueryParam q s)
                        | _ => Ok s
                        end)
                     s
            end)
         s in
  if negb (str_eqb (Options.TranscodingIgnoreQueryParameters (Opts s)) "") then
    Ok (foldl (fun s p => ignoreQueryParam p s) s
              (Split (Options.TranscodingIgnoreQueryParameters (Opts s)) ","))
  else Ok s.

Definition extractApiKeyLocations (method : string) (parameters : list SystemParameter.t)
    (s : ServiceInfo) : ServiceInfo :=
  let urlQueryNames :=
    omap (fun parameter =>
            if str_eqb (SystemParameter.UrlQueryParameter parameter) "" then None
            else Some (ApiKeyLocation_Query (SystemParameter.UrlQueryParameter parameter)))
         parameters in
  let headerNames :=
    omap (fun parameter =>
            if str_eqb (SystemParameter.HttpHeader parameter) "" then None
            else Some (ApiKeyLocation_Header (SystemParameter.HttpHeader parameter)))
         parameters in
  let s :=
    foldl (fun s parameter =>
             if str_eqb (SystemParameter.UrlQueryParameter parameter) "" then s
             else ignoreQueryParam (SystemParameter.UrlQueryParameter parameter) s)
          s parameters in
  modifyMethod method
    (fun mi => set_ApiKeyLocations (ApiKeyLocations mi ++ urlQueryNames ++ headerNames) mi) s.

Definition processApiKeyLocations (ord : MapOrder) (s : ServiceInfo) : result ServiceInfo :=
  let* s :=
    forM (Service.SystemParameterRules (serviceConfig s))
         (fun rule s =>
            let apiKeyLocationParameters :=
              filter (fun parameter => SystemParameter.Name parameter = ApiKeyParameterName)
                     (SystemParameterRule.Parameters rule) in
            let* s := getOrCreateMethod (SystemParameterRule.Selector rule) s in
            Ok (extractApiKeyLocations (SystemParameterRule.Selector rule)
                  apiKeyLocationParameters s))
         s in
  Ok (foldl (fun s operation =>
               match Methods s !! operation with
               | Some method =>
                   match ApiKeyLocations method with
                   | [] => ignoreQueryParam DefaultApiKeyQueryParamApiKey
                             (ignoreQueryParam DefaultApiKeyQueryParamKey s)
                   | _ => s
                   end
               | None => s
               end)
            s (rangeMethods ord site_processApiKeyLocations s)).

Definition set_JwksUri (uri : string) (p : AuthProvider.t) : AuthProvider.t :=
  {| AuthProvider.Id := AuthProvider.Id p; AuthProvider.Issuer := AuthProvider.Issuer p;
     AuthProvider.JwksUri := uri; AuthProvider.JwtLocations := AuthProvider.JwtLocations p |}.

(** [processEmptyJwksUriByOpenID] writes the discovered URI into the
    provider of the service description. *)
Definition processEmptyJwksUriByOpenID (s : ServiceInfo) : result ServiceInfo :=
  let* (providers, s) :=
    forM (Service.AuthProviders (serviceConfig s))
         (fun provider '(done, s) =>
            if str_eqb (AuthProvider.JwksUri provider) "" then
              if Options.DisableOidcDiscovery (Opts s)
              then Err (ErrJwksUriEmpty (AuthProvider.Id provider))
              else
                let s := glog (InfoOpenIDDiscovery (AuthProvider.Id provider)) s in
                match ResolveJwksUriUsingOpenID (AuthProvider.Issuer provider) with
                | None => Err (ErrOpenIDDiscovery (AuthProvider.Id provider))
                | Some jwksUriByOpenID =>
                    Ok ((done ++ [set_JwksUri jwksUriByOpenID provider])%list, s)
                end
            else Ok ((done ++ [provider])%list, s))
         ([], s) in
  Ok (set_serviceConfig (Service.set_AuthProviders providers (serviceConfig s)) s).

(** The binding of a method no backend rule is associated with. *)
Definition localBackendInfo (clusterName : string) (opts : Options.t) : backendInfo.t :=
  {| backendInfo.ClusterName := clusterName;
     backendInfo.Path := "";
     backendInfo.Hostname := "";
     backendInfo.TranslationType := PATH_TRANSLATION_UNSPECIFIED;
     backendInfo.Deadline := DefaultResponseDeadline;
     backendInfo.RetryOns := Options.BackendRetryOns opts;
     backendInfo.RetryNum := Options.BackendRetryNum opts;
     backendInfo.JwtAudience := "" |}.

(** One iteration of the loop of [processLocalBackendOperations]. *)
Definition processLocalBackendOperation (operation : string) (s : ServiceInfo)
  : result ServiceInfo :=
  match Methods s !! operation with
  | None => Ok s
  | Some method =>
      match BackendInfo method with
      | Some _ => Ok s
      | None =>
          match LocalBackendCluster s with
          | None => Panic
          | Some local =>
              Ok (modifyMethod operation
                    (set_BackendInfo (Some (localBackendInfo (ClusterName local) (Opts s)))) s)
          end
      end
  end.

Definition processLocalBackendOperations (ord : MapOrder) (s : ServiceInfo)
  : result ServiceInfo :=
  forM (rangeMethods ord site_processLocalBackendOperations s) processLocalBackendOperation s.

Definition processAuthRequirement (s : ServiceInfo) : result ServiceInfo :=
  forM (Service.AuthRules (serviceConfig s))
       (fun rule s =>
          match AuthenticationRule.Requirements rule with
          | [] => Ok s
          | _ =>
              match Methods s !! AuthenticationRule.Selector rule with
              | None => Err (ErrAuthSelectorUndefined (AuthenticationRule.Selector rule))
              | Some _ =>
                  Ok (modifyMethod (AuthenticationRule.Selector rule) (set_RequireAuth true) s)
              end
          end)
       s.

(** The [&ServiceInfo{...}] literal of [NewServiceInfoFromServiceConfig]. *)
Definition newServiceInfo (serviceConfig : Service.t) (id : string) (opts : Options.t)
  : ServiceInfo :=
  {| Name := Service.Name serviceConfig; ConfigID := id; ApiNames := [];
     Operations := []; Methods := ∅; AllTranscodingIgnoredQueryParams := ∅;
     AllowCors := false; serviceConfig := serviceConfig; AccessToken_ := None;
     Opts := opts; GrpcSupportRequired := false; LocalBackendCluster := None;
     RemoteBackendClusters := []; Log := [] |}.

(** [NewServiceInfoFromServiceConfig]; [ord] is the order in which this run
    ranges over its maps. *)
Definition NewServiceInfoFromServiceConfig (ord : MapOrder)
    (serviceConfig : option Service.t) (id : string) (opts : Options.t)
  : result ServiceInfo :=
  match serviceConfig with
  | None => Err ErrEmptyServiceConfig
  | Some serviceConfig =>
      if (length (Service.Apis serviceConfig) =? 0)%nat then Err ErrNoApi
      else
        let serviceInfo := newServiceInfo serviceConfig id opts in
        let* s := buildLocalBackend serviceInfo in
        let s := processEndpoints s in
        let* s := processApis s in
        let* s := processQuota ord s in
        let* s := processBackendRule s in
        let* s := processHttpRule s in
        let* s := processUsageRule s in
        let s := processAccessToken s in
        let* s := processTypes ord s in
        let* s := addGrpcHttpRules s in
        let* s := processTranscodingIgnoredQueryParams s in
        let* s := processApiKeyLocations ord s in
        let* s := processEmptyJwksUriByOpenID s in
        let* s := processLocalBackendOperations ord s in
        let* s := processAuthRequirement s in
        Ok s
  end.

(* ===================================================================== *)
(** * The route generator (package configgenerator) *)
(* ===================================================================== *)

(** The part of Envoy's route configuration ([routepb]) that is emitted. *)
Inductive PathSpecifier : Type :=
| RouteMatch_Path (path : string)
| RouteMatch_SafeRegex (regex : string)
| RouteMatch_Prefix (prefix : string).

Record HeaderMatcher := { HeaderName : string; ExactMatch : string }.

Record RouteMatch := { PathSpecifier_ : PathSpecifier; Headers : list HeaderMatcher }.

#[global] Instance PathSpecifier_eq_dec : EqDecision PathSpecifier.
Proof. solve_decision. Defined.

#[global] Instance HeaderMatcher_eq_dec : EqDecision HeaderMatcher.
Proof. solve_decision. Defined.

#[global] Instance RouteMatch_eq_dec : EqDecision RouteMatch.
Proof. solve_decision. Defined.

Record RetryPolicy := { RetryOn : string; NumRetries : Z }.

Record RouteAction := {
  Cluster : string;
  Timeout : option DurationPb;
  RetryPolicy_ : option RetryPolicy;
  HostRewriteLiteral : option string }.

(** [prpb.PerRouteFilterConfig]. *)
Inductive PathRewriteConfig : Type :=
| PathRewrite_PathPrefix (pathPrefix : string)
| PathRewrite_ConstantPath (path urlTemplate : string).

(** The per-route messages of the four filters; [ptypes.MarshalAny] wraps
    one of them and does not fail on them. *)
Inductive PerRouteFilterConfig : Type :=
| ServiceControlPerRoute (operationName : string)
| BackendAuthPerRoute (jwtAudience : string)
| PathRewritePerRoute (c : PathRewriteConfig)
| JwtAuthnPerRoute (requirementName : string).

Record Route := {
  Match_ : RouteMatch;
  Action : RouteAction;
  DecoratorOperation : string;
  TypedPerFilterConfig : gmap string PerRouteFilterConfig;
  ResponseHeadersToAdd : list (string * string) }.

Inductive StringMatcher : Type :=
| StringMatcher_Exact (exact : string)
| StringMatcher_SafeRegex (regex : string).

Record CorsPolicy := {
  AllowOriginStringMatch : list StringMatcher;
  AllowMethods : string;
  AllowHeaders : string;
  ExposeHeaders : string;
  AllowCredentials : option bool }.

Record VirtualHost := {
  VirtualHostName : string;
  Domains : list string;
  Routes : list Route;
  Cors : option CorsPolicy }.

Record RouteConfiguration := {
  RouteConfigName : string;
  VirtualHosts : list VirtualHost }.

Definition routeName : string := "local_route".
Definition virtualHostName : string := "backend".

Definition MakePathRewriteConfig (method : MethodInfo) (httpRule : HttpPattern)
  : option PathRewriteConfig :=
  match BackendInfo method with
  | None => None
  | Some b =>
      if bool_decide (backendInfo.TranslationType b = APPEND_PATH_TO_ADDRESS)
         && negb (str_eqb (backendInfo.Path b) "")
      then Some (PathRewrite_PathPrefix (backendInfo.Path b))
      else if bool_decide (backendInfo.TranslationType b = CONSTANT_ADDRESS) then
        let urlTemplate :=
          match UriTemplate httpRule with
          | Some uriTemplate =>
              if (0 <? NumVariables uriTemplate)%nat
              then ExactMatchString uriTemplate false else ""
          | None => ""
          end in
        Some (PathRewrite_ConstantPath (backendInfo.Path b) urlTemplate)
      else None
  end.

Definition makePerRouteFilterConfig (operation : string) (method : MethodInfo)
    (httpRule : HttpPattern) : result (gmap string PerRouteFilterConfig) :=
  let perFilterConfig : gmap string PerRouteFilterConfig := ∅ in
  (* Always add ServiceControl PerRouteConfig *)
  let perFilterConfig := <[ServiceControl := ServiceControlPerRoute operation]> perFilterConfig in
  (* add BackendAuth PerRouteConfig if needed *)
  let perFilterConfig :=
    match BackendInfo method with
    | Some b =>
        if negb (str_eqb (backendInfo.JwtAudience b) "")
        then <[BackendAuth := BackendAuthPerRoute (backendInfo.JwtAudience b)]> perFilterConfig
        else perFilterConfig
    | None => perFilterConfig
    end in
  (* add PathRewrite PerRouteConfig if needed *)
  let perFilterConfig :=
    match MakePathRewriteConfig method httpRule with
    | Some pr => <[PathRewrite := PathRewritePerRoute pr]> perFilterConfig
    | None => perFilterConfig
    end in
  (* add JwtAuthn PerRouteConfig *)
  let perFilterConfig :=
    if RequireAuth method
    then <[JwtAuthn := JwtAuthnPerRoute operation]> perFilterConfig
    else perFilterConfig in
  Ok perFilterConfig.

Definition makeHttpExactPathRouteMatcher (path : string) : RouteMatch :=
  {| PathSpecifier_ := RouteMatch_Path path; Headers := [] |}.

(** [makeHttpRouteMatchers]. The rule it is given is never nil; a nil
    template is dereferenced by [IsExactMatch]. *)
Definition makeHttpRouteMatchers (httpRule : HttpPattern) : result (list RouteMatch) :=
  match UriTemplate httpRule with
  | None => Panic
  | Some t =>
      let routeMatchers :=
        if IsExactMatch t then
          let pathNoTrailingSlash := ExactMatchString t false in
          let pathWithTrailingSlash := ExactMatchString t true in
          makeHttpExactPathRouteMatcher pathNoTrailingSlash
            :: (if negb (str_eqb pathWithTrailingSlash pathNoTrailingSlash)
                then [makeHttpExactPathRouteMatcher pathWithTrailingSlash] else [])
        else [{| PathSpecifier_ := RouteMatch_SafeRegex (Regex t); Headers := [] |}] in
      if negb (str_eqb (HttpMethod httpRule) HttpMethodWildCard) then
        Ok (map (fun routeMatcher =>
                   {| PathSpecifier_ := PathSpecifier_ routeMatcher;
                      Headers := [{| HeaderName := ":method";
                                     ExactMatch := HttpMethod httpRule |}] |})
                routeMatchers)
      else Ok routeMatchers
  end.

(** The (pattern, operation) pairs of all methods, in [Operations] order. *)
Definition httpPatternMethodsOf (s : ServiceInfo)
  : result (list (PatternMethod UriTemplateT)) :=
  forM (Operations s)
       (fun operation httpPatternMethods =>
          match Methods s !! operation with
          | None => Panic
          | Some method =>
              Ok (httpPatternMethods ++
                    map (fun httpRule => {| Pattern_ := httpRule; Operation := operation |})
                        (HttpRule_ method))%list
          end)
       [].

Definition getSortMethodsByHttpPattern (s : ServiceInfo)
  : result (list (PatternMethod UriTemplateT)) :=
  let* httpPatternMethods := httpPatternMethodsOf s in
  match Sort httpPatternMethods with
  | None => Err ErrSortRouteMatch
  | Some sorted => Ok sorted
  end.

(** The routes [makeRouteTable] emits for one sorted (pattern, operation)
    pair. *)
Definition routesOf (s : ServiceInfo) (httpPatternMethod : PatternMethod UriTemplateT)
  : result (list Route) :=
  let operation := Operation httpPatternMethod in
  match Methods s !! operation with
  | None => Panic
  | Some method =>
      let httpRule :=
        {| HttpMethod := HttpMethod (Pattern_ httpPatternMethod);
           UriTemplate := UriTemplate (Pattern_ httpPatternMethod) |} in
      let* respTimeout :=
        if IsStreaming method then Ok 0
        else match BackendInfo method with
             | None => Panic
             | Some b => Ok (backendInfo.Deadline b)
             end in
      let* routeMatchers := makeHttpRouteMatchers httpRule in
      forM routeMatchers
           (fun routeMatcher routes =>
              match BackendInfo method with
              | None => Panic
              | Some b =>
                  let* perFilterConfig := makePerRouteFilterConfig operation method httpRule in
                  Ok (routes ++
                        [{| Match_ := routeMatcher;
                            Action :=
                              {| Cluster := backendInfo.ClusterName b;
                                 Timeout := Some (DurationProto respTimeout);
                                 RetryPolicy_ :=
                                   Some {| RetryOn := backendInfo.RetryOns b;
                                           NumRetries := backendInfo.RetryNum b mod 2 ^ 32 |};
                                 HostRewriteLiteral :=
                                   if negb (str_eqb (backendInfo.Hostname b) "")
                                   then Some (backendInfo.Hostname b) else None |};
                            DecoratorOperation := SpanNamePrefix ++ " " ++ ShortName method;
                            TypedPerFilterConfig := perFilterConfig;
                            ResponseHeadersToAdd :=
                              if Options.EnableHSTS (Opts s)
                              then [(HSTSHeaderKey, HSTSHeaderValue)] else [] |}])%list
              end)
           []
  end.

Definition makeRouteTable (s : ServiceInfo) : result (list Route) :=
  let* httpPatternMethods := getSortMethodsByHttpPattern s in
  forM httpPatternMethods
       (fun httpPatternMethod backendRoutes =>
          let* routes := routesOf s httpPatternMethod in
          Ok (backendRoutes ++ routes)%list)
       [].

(** The [switch] on [Options.CorsPreset] of [MakeRouteConfig]: the policy
    of the virtual host, if any, or the error. *)
Definition corsPolicyOf (opts : Options.t) : result (option CorsPolicy) :=
  let policy (m : StringMatcher) : CorsPolicy :=
    {| AllowOriginStringMatch := [m]; AllowMethods := ""; AllowHeaders := "";
       ExposeHeaders := ""; AllowCredentials := None |} in
  if str_eqb (Options.CorsPreset opts) "basic" then
    let org := Options.CorsAllowOrigin opts in
    if str_eqb org "" then Err ErrCorsAllowOriginEmpty
    else Ok (Some (policy (StringMatcher_Exact org)))
  else if str_eqb (Options.CorsPreset opts) "cors_with_regex" then
    let orgReg := Options.CorsAllowOriginRegex opts in
    if str_eqb orgReg "" then Err ErrCorsAllowOriginRegexEmpty
    else if negb (ValidateRegexProgramSize orgReg GoogleRE2MaxProgramSize)
    then Err ErrCorsRegexInvalid
    else Ok (Some (policy (StringMatcher_SafeRegex orgReg)))
  else if str_eqb (Options.CorsPreset opts) "" then
    if negb (str_eqb (Options.CorsAllowMethods opts) "")
       || negb (str_eqb (Options.CorsAllowHeaders opts) "")
       || negb (str_eqb (Options.CorsExposeHeaders opts) "")
       || Options.CorsAllowCredentials opts
    then Err ErrCorsPresetRequired
    else Ok None
  else Err ErrCorsPresetInvalid.

Definition corsRoute (s : ServiceInfo) : Route :=
  {| Match_ := {| PathSpecifier_ := RouteMatch_Prefix "/";
                  Headers := [{| HeaderName := ":method"; ExactMatch := "OPTIONS" |}] |};
     Action := {| Cluster := LocalBackendClusterName s; Timeout := None;
                  RetryPolicy_ := None; HostRewriteLiteral := None |};
     DecoratorOperation := SpanNamePrefix;
     TypedPerFilterConfig := ∅;
     ResponseHeadersToAdd := [] |}.

Definition MakeRouteConfig (s : ServiceInfo) : result RouteConfiguration :=
  (* Per-selector routes for both local and remote backends. *)
  let* brRoutes := makeRouteTable s in
  let* cors := corsPolicyOf (Opts s) in
  let host :=
    match cors with
    | Some c =>
        {| VirtualHostName := virtualHostName; Domains := ["*"];
           Routes := brRoutes ++ [corsRoute s];
           Cors := Some {| AllowOriginStringMatch := AllowOriginStringMatch c;
                           AllowMethods := Options.CorsAllowMethods (Opts s);
                           AllowHeaders := Options.CorsAllowHeaders (Opts s);
                           ExposeHeaders := Options.CorsExposeHeaders (Opts s);
                           AllowCredentials := Some (Options.CorsAllowCredentials (Opts s)) |} |}
    | None =>
        {| VirtualHostName := virtualHostName; Domains := ["*"]; Routes := brRoutes;
           Cors := None |}
    end in
  Ok {| RouteConfigName := routeName; VirtualHosts := [host] |}.

(** The two outputs of a build: the route list of the virtual host and the
    list of backend clusters (local first). *)
Definition routeList (s : ServiceInfo) : result (list Route) :=
  let* cfg := MakeRouteConfig s in
  Ok (concat (map Routes (VirtualHosts cfg))).

Definition clusterList (s : ServiceInfo) : list BackendRoutingCluster :=
  match LocalBackendCluster s with
  | Some c => c :: RemoteBackendClusters s
  | None => RemoteBackendClusters s
  end.

End Model.

(* ===================================================================== *)
(** * A reference instance of the interface [Externals] *)
(* ===================================================================== *)

(** The theorems below hold for every instance of [Externals]. The concrete
    runs (witnesses and failing inputs) need one instance; it follows what
    the specification says of the helpers. *)
Module Fixture.

Fixpoint parse_uint_aux (s : string) (acc : Z) : option Z :=
  match s with
  | EmptyString => Some acc
  | String c s' =>
      let n := Z.of_nat (nat_of_ascii c) in
      if (48 <=? n) && (n <=? 57) then parse_uint_aux s' (10 * acc + (n - 48)) else None
  end.

Definition parse_uint (s : string) : option Z :=
  match s with
  | EmptyString => None
  | _ => parse_uint_aux s 0
  end.

Definition HasSuffix (s suffix : string) : bool :=
  String.prefix (String.rev suffix) (String.rev s).

Definition TrimSuffix (s suffix : string) : string :=
  if HasSuffix s suffix
  then String.substring 0 (String.length s - String.length suffix) s else s.

(** Modelled from the spec: [util.ParseURI] is not part of the sources; the
    builder "parses the address as a URI and derives scheme, host, port,
    path" (phase 1 and phase 5). This model reads [scheme://host[:port][/path]],
    takes [https] when there is no scheme, and port 443 or 80 after the
    scheme when there is no port. *)
Definition parseURI (uri : string) : option (string * string * Z * string) :=
  match uri with
  | EmptyString => None
  | _ =>
      let '(scheme, rest) :=
        match String.index 0 "://" uri with
        | Some i => (String.substring 0 i uri,
                     String.substring (i + 3) (String.length uri - (i + 3)) uri)
        | None => ("https", uri)
        end in
      let '(authority, path) :=
        match String.index 0 "/" rest with
        | Some i => (String.substring 0 i rest,
                     String.substring i (String.length rest - i) rest)
        | None => (rest, "")
        end in
      let '(hostname, port) :=
        match String.index 0 ":" authority with
        | Some i => (String.substring 0 i authority,
                     parse_uint (String.substring (i + 1)
                                   (String.length authority - (i + 1)) authority))
        | None => (authority, Some (if HasSuffix scheme "s" then 443 else 80))
        end in
      match hostname, port with
      | EmptyString, _ => None
      | _, None => None
      | _, Some p => Some (scheme, hostname, p, TrimSuffix path "/")
      end
  end.

(** Modelled from the spec: [util.ParseBackendProtocol] is not part of the
    sources; it "maps the scheme to (protocol, tlsFlag)" with protocol one of
    HTTP1, HTTP2, GRPC, and [grpcs]/[https] are the TLS schemes. *)
Definition parseBackendProtocol (scheme httpProtocol : string)
  : BackendProtocol * bool * bool :=
  let tls := HasSuffix scheme "s" in
  let scheme := TrimSuffix scheme "s" in
  if str_eqb scheme "http" then
    if str_eqb httpProtocol "" || str_eqb httpProtocol "http/1.1" then (HTTP1, tls, false)
    else if str_eqb httpProtocol "h2" then (HTTP2, tls, false)
    else (UNKNOWN, tls, true)
  else if str_eqb scheme "grpc" then (GRPC, tls, false)
  else (UNKNOWN, tls, true).

(** Modelled from the spec: URI templates ([httppattern.UriTemplate]) are
    not part of the sources. This model has the literal segments, the
    wildcards [*] and [**] and the captures [{name}] of section 4.1;
    captures with a sub-pattern are not parsed. *)
Inductive segment : Type :=
| Literal (s : string)
| SingleWildcard
| DoubleWildcard
| Capture (name : string).

Record Template := { tOrigin : string; tSegments : list segment }.

Definition has_char (c : ascii) (s : string) : bool :=
  match String.index 0 (String c EmptyString) s with Some _ => true | None => false end.

Definition parse_segment (s : string) : option segment :=
  if str_eqb s "*" then Some SingleWildcard
  else if str_eqb s "**" then Some DoubleWildcard
  else if String.prefix "{" s && HasSuffix s "}" then
    let name := String.substring 1 (String.length s - 2) s in
    if has_char "{" name || has_char "}" name || has_char "=" name || str_eqb name ""
    then None else Some (Capture name)
  else if has_char "{" s || has_char "}" s || has_char "*" s || str_eqb s "" then None
  else Some (Literal s).

Definition parseUriTemplate (path : string) : option Template :=
  match path with
  | String "/" EmptyString => Some {| tOrigin := path; tSegments := [] |}
  | String "/" rest =>
      (fun segs => {| tOrigin := path; tSegments := segs |})
        <$> mapM parse_segment (Split rest "/")
  | _ => None
  end.

Definition segment_regex (g : segment) : string :=
  match g with
  | Literal s => s
  | SingleWildcard => "[^/]+"
  | DoubleWildcard => ".*"
  | Capture _ => "[^/]+"
  end.

Definition regex (t : Template) : string :=
  "^" ++ (match tSegments t with
          | [] => "/"
          | segs => String.concat "" (map (fun g => "/" ++ segment_regex g) segs)
          end) ++ "$".

Definition is_literal (g : segment) : bool :=
  match g with Literal _ => true | _ => false end.

Definition is_capture (g : segment) : bool :=
  match g with Capture _ => true | _ => false end.

Definition isExactMatch (t : Template) : bool := forallb is_literal (tSegments t).

Definition segment_string (g : segment) : string :=
  match g with
  | Literal s => s
  | SingleWildcard => "*"
  | DoubleWildcard => "**"
  | Capture name => "{" ++ name ++ "}"
  end.

Definition exactMatchString (t : Template) (trailingSlash : bool) : string :=
  match tSegments t with
  | [] => "/"
  | segs =>
      String.concat "" (map (fun g => "/" ++ segment_string g) segs)
        ++ (if trailingSlash then "/" else "")
  end.

Definition replaceVariableField (t : Template) (m : gmap string string) : Template :=
  {| tOrigin := tOrigin t;
     tSegments := map (fun g => match g with
                               | Capture name => Capture (default name (m !! name))
                               | _ => g
                               end) (tSegments t) |}.

(** Modelled from the spec: [httppattern.Sort] is not part of the sources.
    Section 4.2: exact paths before regex paths; fewer wildcards first, then
    segment by segment literal < single wildcard < capture < double
    wildcard; a verb before the wildcard verb; OPTIONS first; the order is
    applied by a stable sort, so ties keep the [Operations] order. *)
Definition segment_rank (g : segment) : nat :=
  match g with
  | Literal _ => 0
  | SingleWildcard => 1
  | Capture _ => 2
  | DoubleWildcard => 3
  end.

Definition sort_key (pm : PatternMethod Template) : list nat :=
  let verb := HttpMethod (Pattern_ pm) in
  match UriTemplate (Pattern_ pm) with
  | None => []
  | Some t =>
      [if isExactMatch t then 0 else 1;
       length (filter (fun g => is_literal g = false) (tSegments t))]%nat
      ++ map segment_rank (tSegments t)
      ++ [4; if str_eqb verb "*" then 1 else 0; if str_eqb verb OPTIONS then 0 else 1]%nat
  end.

Fixpoint key_leb (a b : list nat) : bool :=
  match a, b with
  | [], _ => true
  | _ :: _, [] => false
  | x :: a', y :: b' => (x <? y)%nat || ((x =? y)%nat && key_leb a' b')
  end.

Fixpoint insert_sorted (pm : PatternMethod Template) (l : list (PatternMethod Template))
  : list (PatternMethod Template) :=
  match l with
  | [] => [pm]
  | x :: l' =>
      if key_leb (sort_key x) (sort_key pm) then x :: insert_sorted pm l' else pm :: l
  end.

Definition sort (l : list (PatternMethod Template))
  : option (list (PatternMethod Template)) :=
  Some (foldl (fun sorted pm => insert_sorted pm sorted) [] l).

(** Modelled from the spec: the constants of package [util] are not part of
    the sources; these are the names the specification and the code
    comments give (cluster names, generated operation names, the 15 s
    default deadline, HSTS, the four filters). [int64] of a float it cannot
    hold is the smallest [int64], as the amd64 conversion gives. *)
Definition ext : Externals := {|
  ParseURI := parseURI;
  ParseBackendProtocol := parseBackendProtocol;
  BackendClusterName := fun address => "backend-cluster-" ++ address;
  DefaultResponseDeadline := 15 * Second;
  TypeUrlPrefix := "type.googleapis.com/";
  EspOperation := "espv2_deployment";
  AutogeneratedOperationPrefix := "ESPv2_Autogenerated";
  DefaultJwtQueryParamAccessToken := "access_token";
  DefaultApiKeyQueryParamKey := "key";
  DefaultApiKeyQueryParamApiKey := "api_key";
  ApiKeyParameterName := "api_key";
  LoopbackIPv4Addr := "127.0.0.1";
  TokenAgentAccessTokenPath := "/local/access_token";
  TokenAgentClusterName := "token-agent-cluster";
  AccessTokenPath := "/v1/instance/service-accounts/default/token";
  MetadataServerClusterName := "metadata-cluster";
  SpanNamePrefix := "ingress";
  HSTSHeaderKey := "Strict-Transport-Security";
  HSTSHeaderValue := "max-age=31536000; includeSubdomains";
  ServiceControl := "service-control";
  BackendAuth := "backend-auth";
  PathRewrite := "path-rewrite";
  JwtAuthn := "jwt-authn";
  ResolveJwksUriUsingOpenID := fun _ => None;
  ValidateRegexProgramSize := fun regex maxSize => Z.of_nat (String.length regex) <=? maxSize;
  GoogleRE2MaxProgramSize := 1000;
  UriTemplateT := Template;
  ParseUriTemplate := parseUriTemplate;
  Origin := tOrigin;
  Regex := regex;
  NumVariables := fun t => length (filter (fun g => is_capture g = true) (tSegments t));
  IsExactMatch := isExactMatch;
  ExactMatchString := exactMatchString;
  ReplaceVariableField := replaceVariableField;
  HttpMethodWildCard := "*";
  Sort := sort;
  int64_unrepresentable := fun _ => min_int64 |}.

End Fixture.

(** Two runs of the Go runtime: [range] visits the keys of every map in
    the order of the model's key list, or in the opposite order. *)
Definition ord_forward : MapOrder :=
  {| range_keys := fun _ l => l; range_keys_perm := fun _ l => reflexivity l |}.

Definition ord_backward : MapOrder :=
  {| range_keys := fun _ l => reverse l; range_keys_perm := fun _ l => reverse_Permutation l |}.

(** Inputs of the concrete runs. *)
Module Examples.
#[local] Existing Instance Fixture.ext.

Definition opts0 : Options.t :=
  {| Options.BackendAddress := "http://127.0.0.1:8082"; Options.CorsPreset := "";
     Options.CorsAllowOrigin := ""; Options.CorsAllowOriginRegex := "";
     Options.CorsAllowMethods := ""; Options.CorsAllowHeaders := "";
     Options.CorsExposeHeaders := ""; Options.CorsAllowCredentials := false;
     Options.Healthz := ""; Options.BackendRetryOns := "reset";
     Options.BackendRetryNum := 1; Options.HttpRequestTimeout := 30 * Second;
     Options.ServiceAccountKey := ""; Options.TokenAgentPort := 8791;
     Options.MetadataURL := "http://169.254.169.254";
     Options.DisableOidcDiscovery := false; Options.NonGCP := false;
     Options.EnableHSTS := false; Options.TranscodingIgnoreQueryParameters := "" |}.

Definition unary (name typeName : string) : ApiMethod.t :=
  {| ApiMethod.Name := name;
     ApiMethod.RequestTypeUrl := "type.googleapis.com/" ++ typeName;
     ApiMethod.RequestStreaming := false; ApiMethod.ResponseStreaming := false |}.

Definition backendRule (selector address : string) (deadline : float64)
    (translation : PathTranslation) (auth : BackendRuleAuthentication) : BackendRule.t :=
  {| BackendRule.Selector := selector; BackendRule.Address := address;
     BackendRule.Deadline := deadline; BackendRule.Protocol := "";
     BackendRule.PathTranslation_ := translation; BackendRule.Authentication := auth |}.

(** A service with one API [A] and one method [Foo], nothing else. *)
Definition svc_plain : Service.t :=
  {| Service.Name := "svc";
     Service.Apis := [{| Api.Name := "A"; Api.Version := "v1";
                         Api.Methods := [unary "Foo" "T1"] |}];
     Service.Types := []; Service.HttpRules := []; Service.BackendRules := [];
     Service.UsageRules := []; Service.MetricRules := []; Service.AuthProviders := [];
     Service.AuthRules := []; Service.SystemParameterRules := [];
     Service.Endpoints := [] |}.

Definition with_HttpRules (rules : list HttpRule.t) (c : Service.t) : Service.t :=
  {| Service.Name := Service.Name c; Service.Apis := Service.Apis c;
     Service.Types := Service.Types c; Service.HttpRules := rules;
     Service.BackendRules := Service.BackendRules c;
     Service.UsageRules := Service.UsageRules c;
     Service.MetricRules := Service.MetricRules c;
     Service.AuthProviders := Service.AuthProviders c;
     Service.AuthRules := Service.AuthRules c;
     Service.SystemParameterRules := Service.SystemParameterRules c;
     Service.Endpoints := Service.Endpoints c |}.

Definition with_BackendRules (rules : list BackendRule.t) (c : Service.t) : Service.t :=
  {| Service.Name := Service.Name c; Service.Apis := Service.Apis c;
     Service.Types := Service.Types c; Service.HttpRules := Service.HttpRules c;
     Service.BackendRules := rules;
     Service.UsageRules := Service.UsageRules c;
     Service.MetricRules := Service.MetricRules c;
     Service.AuthProviders := Service.AuthProviders c;
     Service.AuthRules := Service.AuthRules c;
     Service.SystemParameterRules := Service.SystemParameterRules c;
     Service.Endpoints := Service.Endpoints c |}.

Definition with_MetricRules (rules : list MetricRule.t) (c : Service.t) : Service.t :=
  {| Service.Name := Service.Name c; Service.Apis := Service.Apis c;
     Service.Types := Service.Types c; Service.HttpRules := Service.HttpRules c;
     Service.BackendRules := Service.BackendRules c;
     Service.UsageRules := Service.UsageRules c;
     Service.MetricRules := rules;
     Service.AuthProviders := Service.AuthProviders c;
     Service.AuthRules := Service.AuthRules c;
     Service.SystemParameterRules := Service.SystemParameterRules c;
     Service.Endpoints := Service.Endpoints c |}.

Definition with_AuthRules (rules : list AuthenticationRule.t) (c : Service.t) : Service.t :=
  {| Service.Name := Service.Name c; Service.Apis := Service.Apis c;
     Service.Types := Service.Types c; Service.HttpRules := Service.HttpRules c;
     Service.BackendRules := Service.BackendRules c;
     Service.UsageRules := Service.UsageRules c;
     Service.MetricRules := Service.MetricRules c;
     Service.AuthProviders := Service.AuthProviders c;
     Service.AuthRules := rules;
     Service.SystemParameterRules := Service.SystemParameterRules c;
     Service.Endpoints := Service.Endpoints c |}.

(** [GET /x] on [A.Foo], which requires authentication. *)
Definition svc_get : Service.t :=
  with_AuthRules
    [{| AuthenticationRule.Selector := "A.Foo";
        AuthenticationRule.Requirements :=
          [{| AuthRequirement.ProviderId := "p"; AuthRequirement.Audiences := "" |}] |}]
    (with_HttpRules [HttpRule.Build "A.Foo" (HttpRule_Get "/x") []] svc_plain).

(** The model a build of [c] with options [o] ends with (the initial, empty
    model when the build fails). *)
Definition built (ord : MapOrder) (c : Service.t) (o : Options.t) : ServiceInfo :=
  ok_or (NewServiceInfoFromServiceConfig ord (Some c) "id" o) (newServiceInfo c "id" o).

Definition with_Endpoints (endpoints : list Endpoint.t) (c : Service.t) : Service.t :=
  {| Service.Name := Service.Name c; Service.Apis := Service.Apis c;
     Service.Types := Service.Types c; Service.HttpRules := Service.HttpRules c;
     Service.BackendRules := Service.BackendRules c;
     Service.UsageRules := Service.UsageRules c;
     Service.MetricRules := Service.MetricRules c;
     Service.AuthProviders := Service.AuthProviders c;
     Service.AuthRules := Service.AuthRules c;
     Service.SystemParameterRules := Service.SystemParameterRules c;
     Service.Endpoints := endpoints |}.

Definition with_Apis (apis : list Api.t) (c : Service.t) : Service.t :=
  {| Service.Name := Service.Name c; Service.Apis := apis;
     Service.Types := Service.Types c; Service.HttpRules := Service.HttpRules c;
     Service.BackendRules := Service.BackendRules c;
     Service.UsageRules := Service.UsageRules c;
     Service.MetricRules := Service.MetricRules c;
     Service.AuthProviders := Service.AuthProviders c;
     Service.AuthRules := Service.AuthRules c;
     Service.SystemParameterRules := Service.SystemParameterRules c;
     Service.Endpoints := Service.Endpoints c |}.

Definition with_Types (types : list PType.t) (c : Service.t) : Service.t :=
  {| Service.Name := Service.Name c; Service.Apis := Service.Apis c;
     Service.Types := types; Service.HttpRules := Service.HttpRules c;
     Service.BackendRules := Service.BackendRules c;
     Service.UsageRules := Service.UsageRules c;
     Service.MetricRules := Service.MetricRules c;
     Service.AuthProviders := Service.AuthProviders c;
     Service.AuthRules := Service.AuthRules c;
     Service.SystemParameterRules := Service.SystemParameterRules c;
     Service.Endpoints := Service.Endpoints c |}.

Definition with_Cors (preset origin originRegex methods : string) (o : Options.t)
  : Options.t :=
  {| Options.BackendAddress := Options.BackendAddress o; Options.CorsPreset := preset;
     Options.CorsAllowOrigin := origin; Options.CorsAllowOriginRegex := originRegex;
     Options.CorsAllowMethods := methods;
     Options.CorsAllowHeaders := Options.CorsAllowHeaders o;
     Options.CorsExposeHeaders := Options.CorsExposeHeaders o;
     Options.CorsAllowCredentials := Options.CorsAllowCredentials o;
     Options.Healthz := Options.Healthz o;
     Options.BackendRetryOns := Options.BackendRetryOns o;
     Options.BackendRetryNum := Options.BackendRetryNum o;
     Options.HttpRequestTimeout := Options.HttpRequestTimeout o;
     Options.ServiceAccountKey := Options.ServiceAccountKey o;
     Options.TokenAgentPort := Options.TokenAgentPort o;
     Options.MetadataURL := Options.MetadataURL o;
     Options.DisableOidcDiscovery := Options.DisableOidcDiscovery o;
     Options.NonGCP := Options.NonGCP o; Options.EnableHSTS := Options.EnableHSTS o;
     Options.TranscodingIgnoreQueryParameters :=
       Options.TranscodingIgnoreQueryParameters o |}.

Definition with_BackendAddress (address : string) (o : Options.t) : Options.t :=
  {| Options.BackendAddress := address; Options.CorsPreset := Options.CorsPreset o;
     Options.CorsAllowOrigin := Options.CorsAllowOrigin o;
     Options.CorsAllowOriginRegex := Options.CorsAllowOriginRegex o;
     Options.CorsAllowMethods := Options.CorsAllowMethods o;
     Options.CorsAllowHeaders := Options.CorsAllowHeaders o;
     Options.CorsExposeHeaders := Options.CorsExposeHeaders o;
     Options.CorsAllowCredentials := Options.CorsAllowCredentials o;
     Options.Healthz := Options.Healthz o;
     Options.BackendRetryOns := Options.BackendRetryOns o;
     Options.BackendRetryNum := Options.BackendRetryNum o;
     Options.HttpRequestTimeout := Options.HttpRequestTimeout o;
     Options.ServiceAccountKey := Options.ServiceAccountKey o;
     Options.TokenAgentPort := Options.TokenAgentPort o;
     Options.MetadataURL := Options.MetadataURL o;
     Options.DisableOidcDiscovery := Options.DisableOidcDiscovery o;
     Options.NonGCP := Options.NonGCP o; Options.EnableHSTS := Options.EnableHSTS o;
     Options.TranscodingIgnoreQueryParameters :=
       Options.TranscodingIgnoreQueryParameters o |}.

(** C1: a quota metric rule on [A.Bar], a selector of the right form that
    the API does not declare. *)
Definition svc_quota_unknown : Service.t :=
  with_MetricRules
    [{| MetricRule.Selector := "A.Bar"; MetricRule.MetricCosts := {["reads" := 1]} |}]
    svc_plain.

(** C2: a backend rule on [A.Foo] with a deadline of 10^10 seconds. *)
Definition deadline_1e10 : float64 := f64_of_Z (10 ^ 10).

Definition svc_deadline_1e10 : Service.t :=
  with_BackendRules
    [backendRule "A.Foo" "https://api.example.com" deadline_1e10
       PATH_TRANSLATION_UNSPECIFIED Authentication_unset]
    svc_get.

(** C3: a rule with a remote [grpcs] address and no authentication oneof,
    processed in the model of [svc_plain]. *)
Definition rule_grpcs : BackendRule.t :=
  backendRule "A.Foo" "grpcs://backend.example:8443" f64_zero
    PATH_TRANSLATION_UNSPECIFIED Authentication_unset.

Definition rule_grpcs_state : ServiceInfo * gmap string string :=
  ok_or (processOneBackendRule rule_grpcs (built ord_forward svc_plain opts0, ∅))
        (built ord_forward svc_plain opts0, ∅).


(** C6: allow-origin and allow-origin-regex set, no preset; and allow-methods
    set, no preset. *)
Definition opts_origin_only : Options.t := with_Cors "" "example.com" "^https://.*$" "" opts0.
Definition opts_methods_only : Options.t := with_Cors "" "" "" "GET" opts0.


(** C7: the API declares [Foo] and a method that has the name of the
    generated CORS companion of [Foo]; the request type of [Foo] renames
    field [a] to [b], that of the other method renames [b] to [c]; CORS is
    allowed; [Foo] is [GET /x/{a}] on a remote backend with a constant
    address. *)
Definition svc_cors_clash : Service.t :=
  with_Endpoints [{| Endpoint.Name := "svc"; Endpoint.AllowCors := true |}]
    (with_Types
       [{| PType.Name := "T1";
           PType.Fields := [{| Field.Name := "a"; Field.JsonName := "b" |}] |};
        {| PType.Name := "T2";
           PType.Fields := [{| Field.Name := "b"; Field.JsonName := "c" |}] |}]
       (with_BackendRules
          [backendRule "A.Foo" "https://api.example.com/v1" f64_zero
             CONSTANT_ADDRESS Authentication_unset]
          (with_HttpRules [HttpRule.Build "A.Foo" (HttpRule_Get "/x/{a}") []]
             (with_Apis
                [{| Api.Name := "A"; Api.Version := "v1";
                    Api.Methods := [unary "Foo" "T1";
                                    unary "ESPv2_Autogenerated_CORS_Foo" "T2"] |}]
                svc_plain)))).


Definition opts_grpc : Options.t := with_BackendAddress "grpc://127.0.0.1:8082" opts0.



(** C4: [A.Foo] and [A.Bar] both declare [OPTIONS /x/{a}]. *)
Definition svc_options_twice : Service.t :=
  with_HttpRules
    [HttpRule.Build "A.Foo" (HttpRule_Custom "OPTIONS" "/x/{a}") [];
     HttpRule.Build "A.Bar" (HttpRule_Custom "OPTIONS" "/x/{a}") []]
    svc_plain.


(** The URL templates of the path-rewrite configurations of a route list. *)
Definition urlTemplates (routes : result (list Route)) : list string :=
  match routes with
  | Ok rs =>
      omap (fun r => match TypedPerFilterConfig r !! PathRewrite with
                     | Some (PathRewritePerRoute (PathRewrite_ConstantPath _ t)) => Some t
                     | _ => None
                     end) rs
  | _ => []
  end.


(** The further properties: a service with a streaming method, an HTTP
    rule, a backend rule with a constant address, a usage rule, a quota
    metric rule, a provider with a JWT location in the query, an
    authentication rule, a system parameter rule for the API key, and CORS
    allowed; and options with a health-check path and ignored query
    parameters. *)
Definition svc_full : Service.t :=
  {| Service.Name := "svc";
     Service.Apis :=
       [{| Api.Name := "A"; Api.Version := "v1";
           Api.Methods :=
             [unary "Foo" "T1";
              {| ApiMethod.Name := "Watch";
                 ApiMethod.RequestTypeUrl := "type.googleapis.com/T1";
                 ApiMethod.RequestStreaming := false;
                 ApiMethod.ResponseStreaming := true |}] |}];
     Service.Types := [];
     Service.HttpRules := [HttpRule.Build "A.Foo" (HttpRule_Get "/x/{a}") []];
     Service.BackendRules :=
       [backendRule "A.Foo" "https://api.example.com" f64_zero CONSTANT_ADDRESS
          Authentication_unset];
     Service.UsageRules :=
       [{| UsageRule.Selector := "A.Foo"; UsageRule.AllowUnregisteredCalls := true;
           UsageRule.SkipServiceControl := false |}];
     Service.MetricRules :=
       [{| MetricRule.Selector := "A.Foo"; MetricRule.MetricCosts := {["reads" := 1]} |}];
     Service.AuthProviders :=
       [{| AuthProvider.Id := "p"; AuthProvider.Issuer := "issuer";
           AuthProvider.JwksUri := "https://issuer/jwks";
           AuthProvider.JwtLocations :=
             [{| JwtLocation.In_ := JwtLocation_Query "jwt";
                 JwtLocation.ValuePrefix := "" |}] |}];
     Service.AuthRules :=
       [{| AuthenticationRule.Selector := "A.Foo";
           AuthenticationRule.Requirements :=
             [{| AuthRequirement.ProviderId := "p"; AuthRequirement.Audiences := "" |}] |}];
     Service.SystemParameterRules :=
       [{| SystemParameterRule.Selector := "A.Foo";
           SystemParameterRule.Parameters :=
             [{| SystemParameter.Name := "api_key";
                 SystemParameter.HttpHeader := "x-api-key";
                 SystemParameter.UrlQueryParameter := "apikey" |}] |}];
     Service.Endpoints := [{| Endpoint.Name := "svc"; Endpoint.AllowCors := true |}] |}.

Definition opts_full : Options.t :=
  {| Options.BackendAddress := "http://127.0.0.1:8082"; Options.CorsPreset := "";
     Options.CorsAllowOrigin := ""; Options.CorsAllowOriginRegex := "";
     Options.CorsAllowMethods := ""; Options.CorsAllowHeaders := "";
     Options.CorsExposeHeaders := ""; Options.CorsAllowCredentials := false;
     Options.Healthz := "healthz"; Options.BackendRetryOns := "reset";
     Options.BackendRetryNum := 1; Options.HttpRequestTimeout := 30 * Second;
     Options.ServiceAccountKey := ""; Options.TokenAgentPort := 8791;
     Options.MetadataURL := "http://169.254.169.254";
     Options.DisableOidcDiscovery := false; Options.NonGCP := false;
     Options.EnableHSTS := false; Options.TranscodingIgnoreQueryParameters := "a,b" |}.

(** The model of [svc_full] with [opts_full]. *)
Definition full : ServiceInfo := built ord_forward svc_full opts_full.

End Examples.

(* ===================================================================== *)
(** * Predicates of the properties *)
(* ===================================================================== *)

Section Predicates.
Context `{Ext : Externals}.
Local Open Scope list_scope.


(** The TLS flag [ParseBackendProtocol] gives for a scheme, and the audience
    [http(s)://<host>] derived from a backend address. *)
Definition tlsOf (scheme : string) : bool :=
  let '(_, tls, _) := ParseBackendProtocol scheme "" in tls.

Definition addressAudience (scheme hostname : string) : string :=
  (if tlsOf scheme then "https://" else "http://") +:+ hostname.

(** The scheme and the host [processBackendRule] passes on for a rule: those
    of its address, or empty strings for the local backend. *)
Definition ruleSchemeHost (r : BackendRule.t) : string * string :=
  if str_eqb (BackendRule.Address r) "" then ("", "")
  else match ParseURI (BackendRule.Address r) with
       | Some (scheme, hostname, _, _) => (scheme, hostname)
       | None => ("", "")
       end.

(** The audience computed for a rule before the non-GCP reset. *)
Definition ruleAudience (r : BackendRule.t) : string :=
  determineBackendAuthJwtAud r (ruleSchemeHost r).1 (ruleSchemeHost r).2.


(** The timeout of an emitted route follows the method it was emitted for:
    zero for a streaming method, the stored deadline otherwise. *)
Definition route_timeout_ok (s : ServiceInfo) (r : Route) : Prop :=
  exists operation method b,
    Methods s !! operation = Some method
    /\ BackendInfo method = Some b
    /\ Cluster (Action r) = backendInfo.ClusterName b
    /\ Timeout (Action r) =
         Some (DurationProto (if IsStreaming method then 0 else backendInfo.Deadline b)).


(** The backend clusters of a model. *)
Definition same_backends (s s' : ServiceInfo) : Prop :=
  Name s' = Name s
  /\ GrpcSupportRequired s' = GrpcSupportRequired s
  /\ LocalBackendCluster s' = LocalBackendCluster s
  /\ RemoteBackendClusters s' = RemoteBackendClusters s.

(** What a phase other than the backend phases may do to a method: it may
    mark it as generated, and only a generated method has its binding
    changed (a CORS companion takes the binding of its original). *)
Definition method_evolves (m m' : MethodInfo) : Prop :=
  (IsGenerated m = true -> IsGenerated m' = true)
  /\ (BackendInfo m' = BackendInfo m \/ IsGenerated m' = true).

(** The relations between a method before and after a step that the proofs
    follow through the phases: each is reflexive and transitive, holds
    between a blank method and a created one, and is kept by the writes to
    the fields that no property below reads. *)
Class MethodRel (Rm : MethodInfo -> MethodInfo -> Prop) : Prop := {
  rel_refl : forall m, Rm m m;
  rel_trans : forall m1 m2 m3, Rm m1 m2 -> Rm m2 m3 -> Rm m1 m3;
  rel_new : forall shortName apiName,
    Rm (newMethodInfo "" "") (newMethodInfo shortName apiName);
  rel_ApiVersion : forall v m, Rm m (set_ApiVersion v m);
  rel_IsStreaming : forall v m, Rm m (set_IsStreaming v m);
  rel_RequestTypeName : forall v m, Rm m (set_RequestTypeName v m);
  rel_MetricCosts : forall v m, Rm m (set_MetricCosts v m);
  rel_AllowUnregisteredCalls : forall v m, Rm m (set_AllowUnregisteredCalls v m);
  rel_SkipServiceControl : forall v m, Rm m (set_SkipServiceControl v m);
  rel_ApiKeyLocations : forall v m, Rm m (set_ApiKeyLocations v m);
  rel_RequireAuth : forall v m, Rm m (set_RequireAuth v m) }.

(** [Operations] lists the keys of [Methods], each once. *)
Definition ops_ok (s : ServiceInfo) : Prop :=
  NoDup (Operations s) /\ forall k, k ∈ Operations s <-> is_Some (Methods s !! k).

(** What a step does to the methods: a method is kept and evolves by [Rm],
    a new method evolves from a blank one, [Operations] keeps listing the
    keys, and CORS stays enabled. *)
Definition evolves (Rm : MethodInfo -> MethodInfo -> Prop) (s s' : ServiceInfo) : Prop :=
  (forall k m, Methods s !! k = Some m ->
     exists m', Methods s' !! k = Some m' /\ Rm m m')
  /\ (forall k m', Methods s !! k = None -> Methods s' !! k = Some m' ->
      Rm (newMethodInfo "" "") m')
  /\ (ops_ok s -> ops_ok s')
  /\ (AllowCors s = true -> AllowCors s' = true).

(** What a phase other than the backend phases may do to the model: the
    clusters stay, the service description stays up to the JWKS URIs of its
    providers, the options stay up to the health-check path, and the
    methods evolve. *)
Definition extends_by (Rm : MethodInfo -> MethodInfo -> Prop) (s s' : ServiceInfo) : Prop :=
  same_backends s s'
  /\ Service.set_AuthProviders [] (serviceConfig s')
     = Service.set_AuthProviders [] (serviceConfig s)
  /\ Options.set_Healthz "" (Opts s') = Options.set_Healthz "" (Opts s)
  /\ evolves Rm s s'.

Definition extends : ServiceInfo -> ServiceInfo -> Prop := extends_by method_evolves.









(** [processLocalBackendOperations] on one method. *)
Definition bindLocal (clusterName : string) (opts : Options.t) (m : MethodInfo) : MethodInfo :=
  match BackendInfo m with
  | Some _ => m
  | None => set_BackendInfo (Some (localBackendInfo clusterName opts)) m
  end.


(** The pattern that the renaming of [processTypes] leaves in place of a
    pattern. *)
Definition renamed (names : gmap string string) (p : HttpPattern) : HttpPattern :=
  {| HttpMethod := HttpMethod p;
     UriTemplate := (fun t => ReplaceVariableField t names) <$> UriTemplate p |}.

(** The key of an OPTIONS pattern in [addedRouteMatchWithOptionsSet]: the
    regex of its template. *)
Definition optionKey (p : HttpPattern) : option string :=
  if str_eqb (HttpMethod p) OPTIONS then Regex <$> UriTemplate p else None.

Definition optionKeys (m : MethodInfo) : list (option string) :=
  map optionKey (HttpRule_ m).

(** A step on a method that touches no pattern. *)
Definition same_patterns (m m' : MethodInfo) : Prop :=
  HttpRule_ m' = HttpRule_ m.

(** A step on a method that keeps its OPTIONS patterns and adds none: the
    keys stay, up to patterns of other verbs added at the end. *)
Definition keeps_keys (m m' : MethodInfo) : Prop :=
  exists n, optionKeys m' = optionKeys m ++ replicate n None.

(** Such a step that also keeps a generated method generated. *)
Definition keeps_options (m m' : MethodInfo) : Prop :=
  (IsGenerated m = true -> IsGenerated m' = true) /\ keeps_keys m m'.

(** The number of OPTIONS patterns of a method with the regex [R]. *)
Definition optionsWith (R : string) (m : MethodInfo) : nat :=
  length (filter (fun key => key = Some R) (optionKeys m)).





(** The bindings of the HTTP rules: each rule and its additional bindings,
    in the order [processHttpRule] adds them. *)
Definition httpBindings (rules : list HttpRule.t) : list HttpRule.t :=
  rules ≫= (fun rule => rule :: HttpRule.AdditionalBindings rule).

(** The verb of a binding and the regex of its template. *)
Definition bindingKey (b : HttpRule.t) : option (string * string) :=
  match httpRuleVerbPath b with
  | Some (verb, path) => (fun t => (verb, Regex t)) <$> ParseUriTemplate path
  | None => None
  end.

(** The regex of a binding that declares OPTIONS. *)
Definition explicitOptionKey (b : HttpRule.t) : option string :=
  match bindingKey b with
  | Some (verb, R) => if str_eqb verb OPTIONS then Some R else None
  | None => None
  end.

Definition explicitOptionKeys (rules : list HttpRule.t) : list string :=
  omap explicitOptionKey (httpBindings rules).

(** CORS is enabled by the endpoint that is named as the service. *)
Definition corsEnabled (cfg : Service.t) : Prop :=
  exists endpoint, endpoint ∈ Service.Endpoints cfg
    /\ Endpoint.Name endpoint = Service.Name cfg
    /\ Endpoint.AllowCors endpoint = true.




(** The relations that the writes of [processHttpRule] keep as well: a
    pattern is added to a method, a CORS companion is filled in, the
    companion is recorded in its original, and a method is marked as
    generated. *)
Class HttpRel (Rm : MethodInfo -> MethodInfo -> Prop) : Prop := {
  rel_append : forall p m, Rm m (append_HttpRule p m);
  rel_companion : forall p b v m,
    Rm m (append_HttpRule p (set_IsGenerated true (set_BackendInfo b (set_ApiVersion v m))));
  rel_GeneratedCorsMethod : forall g m, Rm m (set_GeneratedCorsMethod g m);
  rel_IsGenerated : forall m, Rm m (set_IsGenerated true m) }.

(** A step on a method that keeps its patterns, adds patterns at the end,
    and keeps a generated method generated. *)
Definition patterns_grow (m m' : MethodInfo) : Prop :=
  (IsGenerated m = true -> IsGenerated m' = true)
  /\ exists l, HttpRule_ m' = HttpRule_ m ++ l.

(** The method [k] has the pattern [p]. *)
Definition has_pattern (s : ServiceInfo) (k : string) (p : HttpPattern) : Prop :=
  exists m, Methods s !! k = Some m /\ p ∈ HttpRule_ m.







(** An entry of the sorted list that is an OPTIONS pattern with the regex
    [R], and an operation that has such a pattern. *)
Definition optionsEntry (R : string) (e : PatternMethod UriTemplateT) : Prop :=
  optionKey (Pattern_ e) = Some R.

Definition optionsOperation (s : ServiceInfo) (R : string) (operation : string) : Prop :=
  (0 < default 0%nat (optionsWith R <$> Methods s !! operation))%nat.

(** The matcher of a route for the regex [R] and the verb OPTIONS. *)
Definition optionsMatcher (R : string) : RouteMatch :=
  {| PathSpecifier_ := RouteMatch_SafeRegex R;
     Headers := [{| HeaderName := ":method"; ExactMatch := OPTIONS |}] |}.

(** A route that matches the regex [R] and the verb OPTIONS. *)
Definition optionsRoute (R : string) (r : Route) : Prop :=
  Match_ r = optionsMatcher R.


#[global] Instance optionsEntry_dec (R : string) (e : PatternMethod UriTemplateT) :
  Decision (optionsEntry R e).
Proof. unfold optionsEntry. apply _. Defined.

#[global] Instance optionsOperation_dec (s : ServiceInfo) (R : string) (operation : string) :
  Decision (optionsOperation s R operation).
Proof. unfold optionsOperation. apply _. Defined.

#[global] Instance optionsRoute_dec (R : string) (r : Route) : Decision (optionsRoute R r).
Proof. unfold optionsRoute. apply _. Defined.


(** What the methods of a model have of OPTIONS patterns: the selector,
    whether the method is generated, and the keys of its patterns. *)
Definition optionsOf (s : ServiceInfo) : list (string * bool * list (option string)) :=
  (fun km => (km.1, IsGenerated km.2, optionKeys km.2)) <$> map_to_list (Methods s).


(** Any step on a method. *)
Definition any_step (m m' : MethodInfo) : Prop := True.

(** The selectors of the backend, HTTP, usage, quota and system-parameter
    rules. *)
Definition ruleSelectors (cfg : Service.t) : list string :=
  (BackendRule.Selector <$> Service.BackendRules cfg)
  ++ (HttpRule.Selector <$> Service.HttpRules cfg)
  ++ (UsageRule.Selector <$> Service.UsageRules cfg)
  ++ (MetricRule.Selector <$> Service.MetricRules cfg)
  ++ (SystemParameterRule.Selector <$> Service.SystemParameterRules cfg).


(* --------------------------------------------------------------------- *)
(** ** Predicates of the further properties *)
(* --------------------------------------------------------------------- *)

(** The string [s] has the character [sep]. *)
Definition contains (sep : ascii) (s : string) : Prop :=
  exists a b, s = a +:+ String sep b.

(** A selector with a dot: [apiName.methodShortName]. *)
Definition dotted (name : string) : Prop := contains "." name.

(** *** The writes of the builder

    What the phases of the builder that follow [buildLocalBackend] do to the
    model, one write at a time: each constructor is one place of
    [service_info.go] where a field of the model or of a method is assigned,
    with what is known of the value at that place. The last block of
    [processHttpRule], which adds the health check, counts as a phase of its
    own. *)

Inductive phase : Type :=
| ProcessEndpoints
| ProcessApis
| ProcessQuota
| ProcessBackendRule
| ProcessHttpRule
| AddHealthCheck
| ProcessUsageRule
| ProcessAccessToken
| ProcessTypes
| AddGrpcHttpRules
| ProcessTranscodingIgnoredQueryParams
| ProcessApiKeyLocations
| ProcessEmptyJwksUriByOpenID
| ProcessLocalBackendOperations
| ProcessAuthRequirement.

#[global] Instance phase_eq_dec : EqDecision phase.
Proof. solve_decision. Defined.

(** The template [t] is the template of a pattern of the model. *)
Definition templateOf (s : ServiceInfo) (t : UriTemplateT) : Prop :=
  exists k m p, Methods s !! k = Some m /\ p ∈ HttpRule_ m /\ UriTemplate p = Some t.

(** What is known of a binding that [addBackendInfoToMethod] writes: its
    cluster is the local cluster or a remote cluster of the model, its retry
    settings are those of the options, and its path is not empty when the
    address is constant. *)
Definition bindingOf (s : ServiceInfo) (b : backendInfo.t) : Prop :=
  (backendInfo.ClusterName b = LocalBackendClusterName s
   \/ exists c, c ∈ RemoteBackendClusters s /\ ClusterName c = backendInfo.ClusterName b)
  /\ backendInfo.RetryOns b = Options.BackendRetryOns (Opts s)
  /\ backendInfo.RetryNum b = Options.BackendRetryNum (Opts s)
  /\ (backendInfo.TranslationType b = CONSTANT_ADDRESS -> backendInfo.Path b <> "").

(** A provider after [processEmptyJwksUriByOpenID]: as it was when it has a
    JWKS URI, with the URI that OpenID discovery gives otherwise. *)
Definition resolvedProvider (p p' : AuthProvider.t) : Prop :=
  (AuthProvider.JwksUri p <> "" /\ p' = p)
  \/ (AuthProvider.JwksUri p = ""
      /\ exists uri, ResolveJwksUriUsingOpenID (AuthProvider.Issuer p) = Some uri
                     /\ p' = set_JwksUri uri p).

(** The API [api] of the service configuration declares the method
    [method], whose selector is [name]. *)
Definition declares (cfg : Service.t) (api : Api.t) (method : ApiMethod.t)
    (name : string) : Prop :=
  api ∈ Service.Apis cfg /\ method ∈ Api.Methods api
  /\ name = Api.Name api +:+ "." +:+ ApiMethod.Name method.

(** The writes to the method [name] in the model [s]. *)
Inductive methodWrite (s : ServiceInfo) (name : string)
  : phase -> (MethodInfo -> MethodInfo) -> Prop :=
| write_IsStreaming (api : Api.t) (method : ApiMethod.t) :
    declares (serviceConfig s) api method name ->
    ApiMethod.RequestStreaming method || ApiMethod.ResponseStreaming method = true ->
    methodWrite s name ProcessApis (set_IsStreaming true)
| write_ApiVersion (v : string) :
    methodWrite s name ProcessApis (set_ApiVersion v)
| write_RequestTypeName (api : Api.t) (method : ApiMethod.t) :
    declares (serviceConfig s) api method name ->
    HasPrefix (ApiMethod.RequestTypeUrl method) TypeUrlPrefix = true ->
    methodWrite s name ProcessApis
      (set_RequestTypeName (TrimPrefix (ApiMethod.RequestTypeUrl method) TypeUrlPrefix))
| write_MetricCosts (l : list MetricCost) :
    methodWrite s name ProcessQuota (set_MetricCosts l)
| write_BackendInfo (b : backendInfo.t) :
    bindingOf s b ->
    methodWrite s name ProcessBackendRule (set_BackendInfo (Some b))
| write_pattern (verb path : string) (t : UriTemplateT) :
    ParseUriTemplate path = Some t ->
    methodWrite s name ProcessHttpRule
      (append_HttpRule {| HttpMethod := verb; UriTemplate := Some t |})
| write_companion (k : string) (original : MethodInfo) (t : UriTemplateT) :
    Methods s !! k = Some original ->
    name = corsOperation (ApiName original) (ShortName original) ->
    templateOf s t ->
    methodWrite s name ProcessHttpRule
      (fun method =>
         append_HttpRule {| HttpMethod := OPTIONS; UriTemplate := ParseUriTemplate (Origin t) |}
           (set_IsGenerated true
              (set_BackendInfo (BackendInfo original)
                 (set_ApiVersion (ApiVersion original) method))))
| write_GeneratedCorsMethod (original companion : MethodInfo) :
    Methods s !! name = Some original ->
    Methods s !! corsOperation (ApiName original) (ShortName original) = Some companion ->
    IsGenerated companion = true ->
    methodWrite s name ProcessHttpRule
      (set_GeneratedCorsMethod (Some (corsOperation (ApiName original) (ShortName original))))
| write_healthCheck :
    name = healthCheckOperation ->
    HasPrefix (Options.Healthz (Opts s)) "/" = true ->
    methodWrite s name AddHealthCheck
      (fun hcMethod =>
         set_IsGenerated true
           (set_SkipServiceControl true
              (append_HttpRule
                 {| HttpMethod := GET;
                    UriTemplate := ParseUriTemplate (Options.Healthz (Opts s)) |}
                 hcMethod)))
| write_usage (allowUnregisteredCalls skipServiceControl : bool) :
    methodWrite s name ProcessUsageRule
      (fun method =>
         set_SkipServiceControl skipServiceControl
           (set_AllowUnregisteredCalls allowUnregisteredCalls method))
| write_renamed (names : gmap string string) :
    methodWrite s name ProcessTypes
      (fun mi => set_HttpRule (map (renamed names) (HttpRule_ mi)) mi)
| write_grpc_pattern (path : string) (t : UriTemplateT) :
    ParseUriTemplate path = Some t ->
    methodWrite s name AddGrpcHttpRules
      (append_HttpRule {| HttpMethod := POST; UriTemplate := Some t |})
| write_ApiKeyLocations (l : list ApiKeyLocation) :
    methodWrite s name ProcessApiKeyLocations
      (fun mi => set_ApiKeyLocations (ApiKeyLocations mi ++ l) mi)
| write_localBinding (local : BackendRoutingCluster) :
    LocalBackendCluster s = Some local ->
    methodWrite s name ProcessLocalBackendOperations
      (set_BackendInfo (Some (localBackendInfo (ClusterName local) (Opts s))))
| write_RequireAuth (rule : AuthenticationRule.t) :
    rule ∈ Service.AuthRules (serviceConfig s) ->
    AuthenticationRule.Selector rule = name ->
    AuthenticationRule.Requirements rule <> [] ->
    methodWrite s name ProcessAuthRequirement (set_RequireAuth true).

(** The writes to the model. *)
Inductive write : phase -> ServiceInfo -> ServiceInfo -> Prop :=
| write_create (p : phase) (name : string) (s s' : ServiceInfo) :
    Methods s !! name = None -> getOrCreateMethod name s = Ok s' -> write p s s'
| write_method (p : phase) (name : string) (f : MethodInfo -> MethodInfo) (s : ServiceInfo) :
    methodWrite s name p f -> write p s (modifyMethod name f s)
| write_log (p : phase) (ev : LogEvent) (s : ServiceInfo) :
    write p s (glog ev s)
| write_ignoreQueryParam (p : phase) (name : string) (s : ServiceInfo) :
    p = ProcessTranscodingIgnoredQueryParams \/ p = ProcessApiKeyLocations ->
    write p s (ignoreQueryParam name s)
| write_AllowCors (endpoint : Endpoint.t) (s : ServiceInfo) :
    endpoint ∈ Service.Endpoints (serviceConfig s) ->
    Endpoint.Name endpoint = Service.Name (serviceConfig s) ->
    Endpoint.AllowCors endpoint = true ->
    write ProcessEndpoints s (set_AllowCors true s)
| write_ApiNames (api : Api.t) (s : ServiceInfo) :
    write ProcessApis s (set_ApiNames (ApiNames s ++ [Api.Name api]) s)
| write_GrpcSupportRequired (s : ServiceInfo) :
    write ProcessBackendRule s (set_GrpcSupportRequired true s)
| write_RemoteBackendCluster (c : BackendRoutingCluster) (s : ServiceInfo) :
    write ProcessBackendRule s
      (set_RemoteBackendClusters (RemoteBackendClusters s ++ [c]) s)
| write_Healthz (s : ServiceInfo) :
    Options.Healthz (Opts s) <> "" ->
    HasPrefix (Options.Healthz (Opts s)) "/" = false ->
    write AddHealthCheck s
      (set_Opts (Options.set_Healthz ("/" ++ Options.Healthz (Opts s)) (Opts s)) s)
| write_AccessToken (s : ServiceInfo) :
    write ProcessAccessToken s (processAccessToken s)
| write_JwksUri (providers : list AuthProvider.t) (s : ServiceInfo) :
    Forall2 resolvedProvider (Service.AuthProviders (serviceConfig s)) providers ->
    write ProcessEmptyJwksUriByOpenID s
      (set_serviceConfig (Service.set_AuthProviders providers (serviceConfig s)) s).

(** A run of writes of one phase. *)
Definition writes (p : phase) : ServiceInfo -> ServiceInfo -> Prop := rtc (write p).

(** The invariant of the local map of [processBackendRule] that the writes
    of bindings need: a cluster name of the map is the name of a remote
    cluster of the model. *)
Definition cluster_map_ok (st : ServiceInfo * gmap string string) : Prop :=
  forall a n, st.2 !! a = Some n ->
    exists c, c ∈ RemoteBackendClusters st.1 /\ ClusterName c = n.

(** The key of every entry of [Methods] is [ApiName.ShortName] of the
    entry, split at the last dot. *)
Definition names_ok (s : ServiceInfo) : Prop :=
  forall k m, Methods s !! k = Some m ->
    k = ApiName m +:+ "." +:+ ShortName m /\ ~ dotted (ShortName m).

(** The local backend cluster is there and has the name that
    [LocalBackendClusterName] gives. *)
Definition local_cluster_ok (s : ServiceInfo) : Prop :=
  exists local, LocalBackendCluster s = Some local
                /\ ClusterName local = LocalBackendClusterName s.

(** Every binding of the model points to a cluster of the model, has the
    retry settings of the options, and has a path when its address is
    constant. *)
Definition bindings_ok (s : ServiceInfo) : Prop :=
  forall k m b, Methods s !! k = Some m -> BackendInfo m = Some b ->
    (exists c, c ∈ clusterList s /\ ClusterName c = backendInfo.ClusterName b)
    /\ backendInfo.RetryOns b = Options.BackendRetryOns (Opts s)
    /\ backendInfo.RetryNum b = Options.BackendRetryNum (Opts s)
    /\ (backendInfo.TranslationType b = CONSTANT_ADDRESS -> backendInfo.Path b <> "").

(** What one route of the route table carries besides its timeout: it was
    emitted for a sorted pattern and a method with a binding; its matcher is
    one of the matchers of the pattern and its per-route filter
    configuration is that of the method and the pattern; its cluster and its retry policy are those of the binding (the
    number of retries as a [uint32]); the host is rewritten exactly when the
    binding has a host name; the span is named after the short name of the
    method; and the HSTS header is added exactly when the option is set. *)
Definition route_follows (s : ServiceInfo) (r : Route) : Prop :=
  exists operation pattern method b matchers,
    Methods s !! operation = Some method
    /\ BackendInfo method = Some b
    /\ makeHttpRouteMatchers pattern = Ok matchers
    /\ Match_ r ∈ matchers
    /\ makePerRouteFilterConfig operation method pattern = Ok (TypedPerFilterConfig r)
    /\ Cluster (Action r) = backendInfo.ClusterName b
    /\ RetryPolicy_ (Action r)
       = Some {| RetryOn := backendInfo.RetryOns b;
                 NumRetries := backendInfo.RetryNum b mod 2 ^ 32 |}
    /\ HostRewriteLiteral (Action r)
       = (if str_eqb (backendInfo.Hostname b) "" then None
          else Some (backendInfo.Hostname b))
    /\ DecoratorOperation r = SpanNamePrefix +:+ " " +:+ ShortName method
    /\ ResponseHeadersToAdd r
       = (if Options.EnableHSTS (Opts s) then [(HSTSHeaderKey, HSTSHeaderValue)] else []).

(** The health-check path with its leading slash. *)
Definition healthzPath (h : string) : string :=
  if HasPrefix h "/" then h else "/" +:+ h.

(** The pattern of the health check. *)
Definition healthCheckPattern (h : string) : HttpPattern :=
  {| HttpMethod := GET; UriTemplate := ParseUriTemplate (healthzPath h) |}.

(** The access token of the options: from the token agent when there is a
    service account key, from the metadata server otherwise. *)
Definition accessTokenOf (opts : Options.t) : AccessToken :=
  if str_eqb (Options.ServiceAccountKey opts) "" then
    {| TokenUri := Options.MetadataURL opts +:+ AccessTokenPath;
       TokenCluster := MetadataServerClusterName;
       TokenTimeout := DurationProto (Options.HttpRequestTimeout opts) |}
  else
    {| TokenUri := "http://" +:+ LoopbackIPv4Addr +:+ ":"
                     +:+ fmt_uint (Options.TokenAgentPort opts)
                     +:+ TokenAgentAccessTokenPath;
       TokenCluster := TokenAgentClusterName;
       TokenTimeout := DurationProto (Options.HttpRequestTimeout opts) |}.

(** The method [k] of the model is streaming. *)
Definition streaming (s : ServiceInfo) (k : string) : Prop :=
  exists m, Methods s !! k = Some m /\ IsStreaming m = true.



(** The method [k], when the model has it, has the usage flags [a]
    (unregistered calls allowed) and [sk] (service control skipped). *)
Definition usageFlags (s : ServiceInfo) (k : string) (a sk : bool) : Prop :=
  forall m, Methods s !! k = Some m ->
    AllowUnregisteredCalls m = a /\ SkipServiceControl m = sk.

(** The usage rules of [rules] that name the selector [k]. *)
Definition usageRulesOf (k : string) (rules : list UsageRule.t) : list UsageRule.t :=
  filter (fun r => UsageRule.Selector r = k) rules.

(** Every pattern of the model has a template that was parsed from a
    path. *)
Definition parsed (s : ServiceInfo) : Prop :=
  forall k m p, Methods s !! k = Some m -> p ∈ HttpRule_ m ->
    exists path t, ParseUriTemplate path = Some t /\ UriTemplate p = Some t.

(** What the route generator dereferences: every operation of
    [Operations] is a method of the model, and every method has a binding
    and a template in each of its patterns. *)
Definition routable (s : ServiceInfo) : Prop :=
  ops_ok s
  /\ forall k m, Methods s !! k = Some m ->
       is_Some (BackendInfo m)
       /\ forall p, p ∈ HttpRule_ m -> is_Some (UriTemplate p).

(** The field [f] renames [name] to [json]: these are its snake name and
    its JSON name, and they differ. *)
Definition renames (f : Field.t) (name json : string) : Prop :=
  Field.Name f = name /\ Field.JsonName f = json /\ name <> json.

(** The API key locations that [processApiKeyLocations] takes from a
    system parameter rule: the URL query names, then the headers, of its
    parameters named [ApiKeyParameterName]. *)
Definition apiKeyLocationsOf (rule : SystemParameterRule.t) : list ApiKeyLocation :=
  let parameters :=
    filter (fun parameter => SystemParameter.Name parameter = ApiKeyParameterName)
           (SystemParameterRule.Parameters rule) in
  omap (fun parameter =>
          if str_eqb (SystemParameter.UrlQueryParameter parameter) "" then None
          else Some (ApiKeyLocation_Query (SystemParameter.UrlQueryParameter parameter)))
       parameters
  ++ omap (fun parameter =>
             if str_eqb (SystemParameter.HttpHeader parameter) "" then None
             else Some (ApiKeyLocation_Header (SystemParameter.HttpHeader parameter)))
          parameters.

(** The system parameter rules of [rules] that name the selector [k]. *)
Definition systemParameterRulesOf (k : string) (rules : list SystemParameterRule.t)
  : list SystemParameterRule.t :=
  filter (fun r => SystemParameterRule.Selector r = k) rules.

(** The transcoder ignores the query parameter [q]. *)
Definition ignored (s : ServiceInfo) (q : string) : Prop :=
  AllTranscodingIgnoredQueryParams s !! q = Some true.

(** The API key locations of the method [k], none when the model has no
    such method. *)
Definition locationsAt (s : ServiceInfo) (k : string) : list ApiKeyLocation :=
  default [] (ApiKeyLocations <$> Methods s !! k).

(** The binding that [addBackendInfoToMethod] writes for the rule [r],
    given what [processBackendRule] took from the address of the rule. *)
Definition ruleBinding (opts : Options.t) (r : BackendRule.t)
    (scheme hostname path cluster : string) : backendInfo.t :=
  {| backendInfo.ClusterName := cluster;
     backendInfo.Path :=
       if str_eqb path "" && bool_decide (BackendRule.PathTranslation_ r = CONSTANT_ADDRESS)
       then "/" else path;
     backendInfo.Hostname := hostname;
     backendInfo.TranslationType := BackendRule.PathTranslation_ r;
     backendInfo.Deadline := (backendDeadline (BackendRule.Deadline r)).1;
     backendInfo.RetryOns := Options.BackendRetryOns opts;
     backendInfo.RetryNum := Options.BackendRetryNum opts;
     backendInfo.JwtAudience :=
       if negb (str_eqb (determineBackendAuthJwtAud r scheme hostname) "")
          && Options.NonGCP opts
       then "" else determineBackendAuthJwtAud r scheme hostname |}.

(** The binding of a backend rule of the service [name]: on the local
    cluster when the rule has no address, on the cluster of the
    [host:port] of its address otherwise; none when the address does not
    parse. *)
Definition bindingFor (opts : Options.t) (name : string) (r : BackendRule.t)
  : option backendInfo.t :=
  if str_eqb (BackendRule.Address r) "" then
    Some (ruleBinding opts r "" "" "" (BackendClusterName (name ++ "_local")))
  else
    match ParseURI (BackendRule.Address r) with
    | None => None
    | Some (scheme, hostname, port, path) =>
        Some (ruleBinding opts r scheme hostname path
                (BackendClusterName (hostPort hostname port)))
    end.

(** The backend rules of [rules] that name the selector [k]. *)
Definition backendRulesOf (k : string) (rules : list BackendRule.t) : list BackendRule.t :=
  filter (fun r => BackendRule.Selector r = k) rules.

(** The local map of [processBackendRule] names a cluster after its
    address. *)
Definition cluster_map_named (cm : gmap string string) : Prop :=
  forall a n, cm !! a = Some n -> n = BackendClusterName a.

(** The entries of the metric costs of a rule, as [MetricCost] messages. *)
Definition metricCostList (costs : gmap string Z) : list MetricCost :=
  (fun nc => {| MetricName := nc.1; Cost := nc.2 |}) <$> map_to_list costs.

(** The quota metric rules of [rules] that name the selector [k]. *)
Definition metricRulesOf (k : string) (rules : list MetricRule.t) : list MetricRule.t :=
  filter (fun r => MetricRule.Selector r = k) rules.

(** The metric costs of the method [k], none when the model has no such
    method. *)
Definition costsAt (s : ServiceInfo) (k : string) : list MetricCost :=
  default [] (MetricCosts <$> Methods s !! k).

(** The selectors of the methods that the APIs of the service declare, in
    the order of their declaration. *)
Definition declaredSelectors (cfg : Service.t) : list string :=
  Service.Apis cfg ≫= fun api =>
    (fun method => Api.Name api +:+ "." +:+ ApiMethod.Name method) <$> Api.Methods api.

End Predicates.

(* ===================================================================== *)
(** * Properties *)
(* ===================================================================== *)

Section Proofs.
Context `{Ext : Externals}.
Local Open Scope list_scope.

Lemma bind_Ok {A B : Type} (m : result A) (k : A -> result B) (b : B) :
  bind m k = Ok b -> exists a, m = Ok a /\ k a = Ok b.
Proof. destruct m as [a| |]; simpl; [eauto | discriminate | discriminate]. Qed.

Lemma is_ok_eq {A : Type} (r : result A) (d : A) : is_ok r = true -> r = Ok (ok_or r d).
Proof. by destruct r. Qed.

Lemma is_panic_eq {A : Type} (r : result A) : is_panic r = true -> r = Panic.
Proof. by destruct r. Qed.

(** A property kept by every iteration that returns is kept by the loop. *)
Lemma forM_invariant {A S : Type} (P : S -> Prop) (body : A -> S -> result S)
    (l : list A) :
  (forall x s s', x ∈ l -> P s -> body x s = Ok s' -> P s') ->
  forall s s', P s -> forM l body s = Ok s' -> P s'.
Proof.
  induction l as [|x l IH]; intros Hbody s s' Hs Hrun; simpl in Hrun.
  - by inversion Hrun; subst.
  - apply bind_Ok in Hrun as (s1 & H1 & H2).
    eapply IH; [| |exact H2].
    + intros y t t' Hy. apply Hbody. by right.
    + eapply Hbody; [by left|exact Hs|exact H1].
Qed.

(** The same for a relation between the state before and the state after. *)
Lemma forM_relation {A S : Type} (R : S -> S -> Prop) (body : A -> S -> result S)
    (l : list A) :
  (forall s, R s s) ->
  (forall s1 s2 s3, R s1 s2 -> R s2 s3 -> R s1 s3) ->
  (forall x s s', x ∈ l -> body x s = Ok s' -> R s s') ->
  forall s s', forM l body s = Ok s' -> R s s'.
Proof.
  intros Hrefl Htrans Hbody s s' Hrun.
  apply (forM_invariant (R s) body l) with (s := s); [|apply Hrefl|exact Hrun].
  intros x t t' Hx Ht Hstep. eapply Htrans; [exact Ht|]. by eapply Hbody.
Qed.

Lemma str_eqb_eq (a b : string) : str_eqb a b = true <-> a = b.
Proof. unfold str_eqb. apply bool_decide_eq_true. Qed.

Lemma str_eqb_neq (a b : string) : str_eqb a b = false <-> a <> b.
Proof. unfold str_eqb. apply bool_decide_eq_false. Qed.

(* --------------------------------------------------------------------- *)
(** ** C10: the builder needs a service description with an API *)
(* --------------------------------------------------------------------- *)

(** C10. [NewServiceInfoFromServiceConfig] returns an error, and no model,
    on a nil service description and on one whose list of APIs is empty; so
    a build that succeeds was given a description with at least one API. *)
Theorem C10_builder_precondition (ord : MapOrder) (cfg : option Service.t)
    (id : string) (opts : Options.t) :
  (cfg = None ->
   NewServiceInfoFromServiceConfig ord cfg id opts = Err ErrEmptyServiceConfig)
  /\ (forall c, cfg = Some c -> Service.Apis c = [] ->
      NewServiceInfoFromServiceConfig ord cfg id opts = Err ErrNoApi)
  /\ (forall s, NewServiceInfoFromServiceConfig ord cfg id opts = Ok s ->
      exists c, cfg = Some c /\ (0 < length (Service.Apis c))%nat).
Proof.
  split; [|split].
  - by intros ->.
  - intros c -> Hapis. simpl. by rewrite Hapis.
  - intros s Hs. destruct cfg as [c|]; [|discriminate].
    exists c. split; [done|].
    simpl in Hs. destruct (length (Service.Apis c)) eqn:Hlen; [discriminate | lia].
Qed.

(* --------------------------------------------------------------------- *)
(** ** C6: the CORS preset gates route-config generation *)
(* --------------------------------------------------------------------- *)

Lemma MakeRouteConfig_cors_error (s : ServiceInfo) (e : error) :
  corsPolicyOf (Opts s) = Err e ->
  (forall cfg, MakeRouteConfig s <> Ok cfg)
  /\ (forall routes, makeRouteTable s = Ok routes -> MakeRouteConfig s = Err e).
Proof.
  intros Hcors. unfold MakeRouteConfig. split.
  - intros cfg Hcfg. apply bind_Ok in Hcfg as (routes & _ & Hcfg).
    rewrite Hcors in Hcfg. discriminate.
  - intros routes ->. simpl. by rewrite Hcors.
Qed.

(** C6 (amended). Route-config generation does not succeed, and returns an
    error as soon as the route table itself is generated, when
    - [CorsPreset] is empty and one of allow-methods, allow-headers,
      expose-headers, allow-credentials is set;
    - [CorsPreset] is none of the empty string, "basic", "cors_with_regex";
    - [CorsPreset] is "basic" and [CorsAllowOrigin] is empty;
    - [CorsPreset] is "cors_with_regex" and [CorsAllowOriginRegex] is empty
      or fails the program-size check.
    Allow-origin and allow-origin-regex are not among the fields that need
    a preset. *)
Theorem C6_cors_preset_gating (s : ServiceInfo) :
  (Options.CorsPreset (Opts s) = ""
   /\ (Options.CorsAllowMethods (Opts s) <> ""
       \/ Options.CorsAllowHeaders (Opts s) <> ""
       \/ Options.CorsExposeHeaders (Opts s) <> ""
       \/ Options.CorsAllowCredentials (Opts s) = true))
  \/ (Options.CorsPreset (Opts s) <> ""
      /\ Options.CorsPreset (Opts s) <> "basic"
      /\ Options.CorsPreset (Opts s) <> "cors_with_regex")
  \/ (Options.CorsPreset (Opts s) = "basic" /\ Options.CorsAllowOrigin (Opts s) = "")
  \/ (Options.CorsPreset (Opts s) = "cors_with_regex"
      /\ (Options.CorsAllowOriginRegex (Opts s) = ""
          \/ ValidateRegexProgramSize (Options.CorsAllowOriginRegex (Opts s))
               GoogleRE2MaxProgramSize = false)) ->
  (forall cfg, MakeRouteConfig s <> Ok cfg)
  /\ (forall routes, makeRouteTable s = Ok routes -> exists e, MakeRouteConfig s = Err e).
Proof.
  intros Hbad.
  assert (exists e, corsPolicyOf (Opts s) = Err e) as [e He].
  { unfold corsPolicyOf.
    destruct Hbad as [[Hp Hset]|[(Hp1 & Hp2 & Hp3)|[[Hp Ho]|[Hp Hr]]]].
    - rewrite Hp. simpl.
      destruct Hset as [H|[H|[H|H]]].
      + apply str_eqb_neq in H. rewrite H. simpl. eauto.
      + apply str_eqb_neq in H. rewrite H. simpl. rewrite orb_true_r. simpl. eauto.
      + apply str_eqb_neq in H. rewrite H. simpl. rewrite !orb_true_r. simpl. eauto.
      + rewrite H. rewrite !orb_true_r. eauto.
    - apply str_eqb_neq in Hp1, Hp2, Hp3. rewrite Hp1, Hp2, Hp3. eauto.
    - rewrite Hp, Ho. simpl. eauto.
    - rewrite Hp. simpl. destruct Hr as [Hr|Hr].
      + rewrite Hr. simpl. eauto.
      + destruct (str_eqb (Options.CorsAllowOriginRegex (Opts s)) ""); [eauto|].
        rewrite Hr. simpl. eauto. }
  destruct (MakeRouteConfig_cors_error s e He) as [H1 H2].
  split; [exact H1|]. intros routes Hroutes. exists e. by apply H2 with routes.
Qed.

(* --------------------------------------------------------------------- *)
(** ** C9: the per-route filter configuration *)
(* --------------------------------------------------------------------- *)





(* --------------------------------------------------------------------- *)
(** ** [getOrCreateMethod] and [addBackendInfoToMethod] *)
(* --------------------------------------------------------------------- *)

Lemma alter_insert_lookup {A : Type} (f : A -> A) (k : string) (x : A) (m : gmap string A) :
  m !! k = Some x -> alter f k m = <[k := f x]> m.
Proof.
  intros Hk. apply map_eq. intros j. destruct (decide (k = j)) as [<-|Hne].
  - by rewrite lookup_insert_eq, lookup_alter_eq, Hk.
  - by rewrite lookup_insert_ne, lookup_alter_ne.
Qed.

Lemma getOrCreateMethod_cases (name : string) (s s' : ServiceInfo) :
  getOrCreateMethod name s = Ok s' ->
  (exists m, Methods s !! name = Some m /\ s' = s)
  \/ (Methods s !! name = None
      /\ exists shortName apiName,
           s' = set_Operations (Operations s ++ [name])
                  (set_Methods (<[name := newMethodInfo shortName apiName]> (Methods s)) s)).
Proof.
  unfold getOrCreateMethod. intros H.
  destruct (Methods s !! name) as [m|] eqn:Hm.
  - left. exists m. by inversion H.
  - right. split; [done|].
    destruct (length (Split name ".") <=? 1)%nat; [discriminate|].
    inversion H. eauto.
Qed.

Lemma getOrCreateMethod_lookup (name : string) (s s' : ServiceInfo) :
  getOrCreateMethod name s = Ok s' -> is_Some (Methods s' !! name).
Proof.
  intros H. apply getOrCreateMethod_cases in H as [(m & Hm & ->)|(_ & sn & an & ->)].
  - by exists m.
  - simpl. rewrite lookup_insert_eq. eauto.
Qed.

(** What [addBackendInfoToMethod] stores and logs. *)
Lemma addBackendInfoToMethod_Ok (r : BackendRule.t)
    (scheme hostname path cluster : string) (s s' : ServiceInfo) :
  addBackendInfoToMethod r scheme hostname path cluster s = Ok s' ->
  exists s1 m b,
    getOrCreateMethod (BackendRule.Selector r) s = Ok s1
    /\ Methods s1 !! BackendRule.Selector r = Some m
    /\ Methods s' = <[BackendRule.Selector r := set_BackendInfo (Some b) m]> (Methods s1)
    /\ backendInfo.ClusterName b = cluster
    /\ backendInfo.Hostname b = hostname
    /\ backendInfo.Deadline b = (backendDeadline (BackendRule.Deadline r)).1
    /\ backendInfo.RetryOns b = Options.BackendRetryOns (Opts s)
    /\ backendInfo.RetryNum b = Options.BackendRetryNum (Opts s)
    /\ backendInfo.JwtAudience b =
         (if negb (str_eqb (determineBackendAuthJwtAud r scheme hostname) "")
             && Options.NonGCP (Opts s)
          then "" else determineBackendAuthJwtAud r scheme hostname)
    /\ Log s' =
         (Log s
          ++ (if (backendDeadline (BackendRule.Deadline r)).2
              then [WarnNegativeDeadline (BackendRule.Selector r)] else [])
          ++ (if negb (str_eqb (determineBackendAuthJwtAud r scheme hostname) "")
                 && Options.NonGCP (Opts s)
              then [WarnBackendAuthNonGCP (BackendRule.Selector r)] else []))%list
    /\ Operations s' = Operations s1
    /\ Opts s' = Opts s
    /\ serviceConfig s' = serviceConfig s
    /\ Name s' = Name s
    /\ GrpcSupportRequired s' = GrpcSupportRequired s
    /\ LocalBackendCluster s' = LocalBackendCluster s
    /\ RemoteBackendClusters s' = RemoteBackendClusters s.
Proof.
  unfold addBackendInfoToMethod. intros H.
  apply bind_Ok in H as (s1 & Hs1 & H).
  destruct (getOrCreateMethod_lookup _ _ _ Hs1) as [m Hm].
  assert (Opts s1 = Opts s /\ Log s1 = Log s /\ serviceConfig s1 = serviceConfig s
          /\ Name s1 = Name s /\ GrpcSupportRequired s1 = GrpcSupportRequired s
          /\ LocalBackendCluster s1 = LocalBackendCluster s
          /\ RemoteBackendClusters s1 = RemoteBackendClusters s)
    as (HO & HL & HC & HN & HG & HLB & HR).
  { by apply getOrCreateMethod_cases in Hs1 as [(? & _ & ->)|(_ & ? & ? & ->)]. }
  destruct (backendDeadline (BackendRule.Deadline r)) as [deadline negative] eqn:Hd.
  set (aud := determineBackendAuthJwtAud r scheme hostname) in *.
  assert (forall (c : bool) (ev : LogEvent) (t : ServiceInfo),
             Opts (if c then glog ev t else t) = Opts t) as Hopts
    by (by intros [] ? ?).
  rewrite !Hopts, HO in H.
  destruct negative, (negb (str_eqb aud "") && Options.NonGCP (Opts s));
    inversion H as [Hs']; clear H;
    exists s1, m; eexists;
    (split; [done|]); (split; [done|]);
    (split; [unfold modifyMethod; simpl; by apply alter_insert_lookup|]);
    simpl; rewrite ?HL, ?app_nil_r, <- ?app_assoc; by repeat split.
Qed.

Lemma processOneBackendRule_Ok (r : BackendRule.t) (s s' : ServiceInfo)
    (cm cm' : gmap string string) :
  processOneBackendRule r (s, cm) = Ok (s', cm') ->
  exists s0 cluster path,
    Opts s0 = Opts s /\ Log s0 = Log s
    /\ addBackendInfoToMethod r (ruleSchemeHost r).1 (ruleSchemeHost r).2 path cluster s0
       = Ok s'.
Proof.
  unfold processOneBackendRule, ruleSchemeHost. intros H.
  destruct (str_eqb (BackendRule.Address r) "").
  - apply bind_Ok in H as (s1 & H1 & H). inversion H; subst. simpl. eauto 10.
  - destruct (ParseURI (BackendRule.Address r)) as [[[[scheme hostname] port] path]|];
      [|discriminate].
    apply bind_Ok in H as ([s0 cm0] & H0 & H).
    apply bind_Ok in H as (s1 & H1 & H). inversion H; subst. simpl.
    exists s0. do 2 eexists. unfold createRemoteCluster in H0.
    split; [|split; [|exact H1]].
    + destruct (cm !! hostPort hostname port); [by inversion H0|].
      destruct (ParseBackendProtocol scheme (BackendRule.Protocol r)) as [[p tls] []];
        [discriminate|].
      inversion H0. by destruct (decide (p = GRPC)).
    + destruct (cm !! hostPort hostname port); [by inversion H0|].
      destruct (ParseBackendProtocol scheme (BackendRule.Protocol r)) as [[p tls] []];
        [discriminate|].
      inversion H0. by destruct (decide (p = GRPC)).
Qed.

(* --------------------------------------------------------------------- *)
(** ** C3: the backend-auth JWT audience of a backend rule *)
(* --------------------------------------------------------------------- *)

(** C3. After a backend rule is processed, the binding of its method carries
    this audience. The rule's audience is its [JwtAudience] when that oneof
    is set, empty when [DisableAuth = true] is set, and otherwise, for a rule
    with a remote address, [https://<host>] or [http://<host>] after the TLS
    flag of the address's scheme. Off GCP ([Options.NonGCP]) the binding
    carries no audience, and a rule audience that was not empty is reported
    by the warning, which is then the last entry of the log; on GCP the
    binding carries the rule's audience. *)
Theorem C3_backend_auth_audience (r : BackendRule.t) (s s' : ServiceInfo)
    (cm cm' : gmap string string) :
  processOneBackendRule r (s, cm) = Ok (s', cm') ->
  exists method b,
    Methods s' !! BackendRule.Selector r = Some method
    /\ BackendInfo method = Some b
    /\ (forall aud, BackendRule.Authentication r = BackendRule_JwtAudience aud ->
        ruleAudience r = aud)
    /\ (BackendRule.Authentication r = BackendRule_DisableAuth true -> ruleAudience r = "")
    /\ (forall scheme hostname port path,
        BackendRule.Authentication r = Authentication_unset
        \/ BackendRule.Authentication r = BackendRule_DisableAuth false ->
        BackendRule.Address r <> "" ->
        ParseURI (BackendRule.Address r) = Some (scheme, hostname, port, path) ->
        ruleAudience r = addressAudience scheme hostname)
    /\ (Options.NonGCP (Opts s) = false -> backendInfo.JwtAudience b = ruleAudience r)
    /\ (Options.NonGCP (Opts s) = true ->
        backendInfo.JwtAudience b = ""
        /\ (ruleAudience r <> "" ->
            last (Log s') = Some (WarnBackendAuthNonGCP (BackendRule.Selector r)))).
Proof.
  intros H. apply processOneBackendRule_Ok in H as (s0 & cluster & path & HO & HL & H).
  apply addBackendInfoToMethod_Ok in H
    as (s1 & m & b & _ & _ & HM & _ & _ & _ & _ & _ & Haud & Hlog & _).
  exists (set_BackendInfo (Some b) m), b.
  split; [by rewrite HM, lookup_insert_eq|]. split; [done|].
  fold (ruleAudience r) in Haud, Hlog. rewrite HO in Haud, Hlog.
  split; [|split; [|split; [|split]]].
  - intros aud Ha. unfold ruleAudience, determineBackendAuthJwtAud. by rewrite Ha.
  - intros Ha. unfold ruleAudience, determineBackendAuthJwtAud. by rewrite Ha.
  - intros scheme hostname port path' Ha Haddr Hparse.
    apply str_eqb_neq in Haddr.
    unfold ruleAudience, ruleSchemeHost, determineBackendAuthJwtAud.
    rewrite Haddr, Hparse. simpl.
    unfold addressAudience, tlsOf, getJwtAudienceFromBackendAddr.
    destruct Ha as [-> | ->]; destruct (ParseBackendProtocol scheme "") as [[? []] ?];
      reflexivity.
  - intros Hgcp. rewrite Haud, Hgcp. by rewrite andb_false_r.
  - intros Hgcp. rewrite Hgcp, andb_true_r in Haud, Hlog. split.
    + rewrite Haud. destruct (str_eqb (ruleAudience r) "") eqn:E; [|done].
      simpl. by apply str_eqb_eq.
    + intros Hne. apply str_eqb_neq in Hne. rewrite Hlog, Hne. simpl.
      by rewrite app_assoc, last_snoc.
Qed.

(* --------------------------------------------------------------------- *)
(** ** C2: deadlines and route timeouts *)
(* --------------------------------------------------------------------- *)

(** The three cases of the deadline of a backend rule. *)
Lemma backendDeadline_policy (d : float64) :
  (f64_eqb d f64_zero = true -> backendDeadline d = (DefaultResponseDeadline, false))
  /\ (f64_eqb d f64_zero = false -> f64_ltb d f64_zero = true ->
      backendDeadline d = (DefaultResponseDeadline, true))
  /\ (f64_eqb d f64_zero = false -> f64_ltb d f64_zero = false ->
      backendDeadline d =
        (Duration_mul
           (int64_of_float64 int64_unrepresentable (math_Round (f64_mul d (f64_of_Z 1000))))
           Millisecond,
         false)).
Proof.
  unfold backendDeadline. repeat split.
  - by intros ->.
  - by intros -> ->.
  - by intros -> ->.
Qed.

Lemma wrap64_small (z : Z) : min_int64 <= z <= max_int64 -> wrap64 z = z.
Proof.
  unfold wrap64, min_int64, max_int64. intros Hz.
  rewrite Z.mod_small; lia.
Qed.

(** A positive deadline whose millisecond count [n] fits a 64-bit count of
    nanoseconds is stored as [n] milliseconds. *)
Lemma backendDeadline_in_range (d : float64) (n : Z) :
  f64_eqb d f64_zero = false -> f64_ltb d f64_zero = false ->
  f64_trunc (math_Round (f64_mul d (f64_of_Z 1000))) = Some n ->
  0 <= n -> n * Millisecond <= max_int64 ->
  backendDeadline d = (n * Millisecond, false).
Proof.
  intros Hz Hneg Hn Hpos Hmax.
  destruct (backendDeadline_policy d) as (_ & _ & Hd). rewrite (Hd Hz Hneg).
  unfold int64_of_float64. rewrite Hn.
  assert (min_int64 <= n <= max_int64) as Hrange
    by (unfold min_int64, max_int64, Millisecond in *; lia).
  destruct (Z.leb_spec min_int64 n), (Z.leb_spec n max_int64); try lia. simpl.
  unfold Duration_mul. rewrite wrap64_small; [done|].
  unfold min_int64, Millisecond in *. lia.
Qed.

(** The deadline a backend rule stores in the binding of its method, and
    the warning on a negative deadline. *)
Lemma stored_deadline (r : BackendRule.t) (s s' : ServiceInfo)
    (cm cm' : gmap string string) :
  processOneBackendRule r (s, cm) = Ok (s', cm') ->
  exists method b,
    Methods s' !! BackendRule.Selector r = Some method
    /\ BackendInfo method = Some b
    /\ backendInfo.Deadline b = (backendDeadline (BackendRule.Deadline r)).1
    /\ ((backendDeadline (BackendRule.Deadline r)).2 = true ->
        WarnNegativeDeadline (BackendRule.Selector r) ∈ drop (length (Log s)) (Log s')).
Proof.
  intros H. apply processOneBackendRule_Ok in H as (s0 & cluster & path & HO & HL & H).
  apply addBackendInfoToMethod_Ok in H
    as (s1 & m & b & _ & _ & HM & _ & _ & Hd & _ & _ & _ & Hlog & _).
  exists (set_BackendInfo (Some b) m), b.
  split; [by rewrite HM, lookup_insert_eq|]. split; [done|]. split; [done|].
  intros Hneg. rewrite Hlog, Hneg, HL, drop_app_length. set_solver.
Qed.

Lemma routesOf_timeout (s : ServiceInfo) (pm : PatternMethod UriTemplateT)
    (routes : list Route) :
  routesOf s pm = Ok routes -> Forall (route_timeout_ok s) routes.
Proof.
  intros Hroutes. unfold routesOf in Hroutes.
  destruct (Methods s !! Operation pm) as [method|] eqn:Hmethod; [|discriminate].
  apply bind_Ok in Hroutes as (respTimeout & Ht & Hroutes).
  apply bind_Ok in Hroutes as (routeMatchers & _ & Hroutes).
  revert Hroutes. apply forM_invariant; [|constructor].
  intros routeMatcher acc acc' _ Hacc Hstep.
  destruct (BackendInfo method) as [b|] eqn:Hb; [|discriminate].
  apply bind_Ok in Hstep as (cfg & Hcfg & Hstep). inversion Hstep; subst acc'.
  apply Forall_app. split; [exact Hacc|]. constructor; [|constructor].
  exists (Operation pm), method, b. simpl. repeat split; [done..|].
  destruct (IsStreaming method); by inversion Ht.
Qed.

(** Every emitted route has timeout 0 when its method is streaming and the
    stored deadline of its method otherwise. *)
Lemma route_timeout_policy (s : ServiceInfo) (routes : list Route) :
  makeRouteTable s = Ok routes -> forall r, r ∈ routes -> route_timeout_ok s r.
Proof.
  intros Hroutes. apply Forall_forall.
  unfold makeRouteTable in Hroutes.
  apply bind_Ok in Hroutes as (sorted & _ & Hroutes).
  revert Hroutes. apply forM_invariant; [|constructor].
  intros pm acc acc' _ Hacc Hstep.
  apply bind_Ok in Hstep as (rs & Hrs & Hstep). inversion Hstep; subst acc'.
  apply Forall_app. split; [exact Hacc|]. by eapply routesOf_timeout.
Qed.

(* --------------------------------------------------------------------- *)
(** ** What the phases keep *)
(* --------------------------------------------------------------------- *)

Lemma method_evolves_refl (m : MethodInfo) : method_evolves m m.
Proof. split; auto. Qed.

Lemma method_evolves_trans (m1 m2 m3 : MethodInfo) :
  method_evolves m1 m2 -> method_evolves m2 m3 -> method_evolves m1 m3.
Proof.
  intros [Hg1 Hb1] [Hg2 Hb2]. split; [auto|].
  destruct Hb2 as [Hb2|Hb2]; [|by right].
  destruct Hb1 as [Hb1|Hb1]; [left; congruence | right; auto].
Qed.

#[local] Instance method_evolves_rel : MethodRel method_evolves.
Proof.
  split; [apply method_evolves_refl | apply method_evolves_trans | ..];
    intros; split; simpl; auto.
Qed.

Section Evolution.
Context {Rm : MethodInfo -> MethodInfo -> Prop} `{!MethodRel Rm}.

Lemma evolves_refl (s : ServiceInfo) : evolves Rm s s.
Proof.
  split; [|split; [|done]].
  - intros k m Hk. exists m. split; [done|apply rel_refl].
  - intros k m' Hnone Hsome. congruence.
Qed.

Lemma evolves_trans (s1 s2 s3 : ServiceInfo) :
  evolves Rm s1 s2 -> evolves Rm s2 s3 -> evolves Rm s1 s3.
Proof.
  intros (HM1 & HF1 & HO1 & HA1) (HM2 & HF2 & HO2 & HA2). split; [|split; [|auto]].
  - intros k m Hk. destruct (HM1 k m Hk) as (m' & Hk' & He1).
    destruct (HM2 k m' Hk') as (m'' & Hk'' & He2).
    exists m''. split; [done|]. by eapply rel_trans.
  - intros k m'' Hnone Hsome.
    destruct (Methods s2 !! k) as [m'|] eqn:Hk2.
    + destruct (HM2 k m' Hk2) as (m3 & Hk3 & He).
      assert (m3 = m'') as -> by congruence.
      eapply rel_trans; [by eapply HF1|done].
    + by eapply HF2.
Qed.

(** A step that leaves the methods alone. *)
Lemma evolves_same_methods (s s' : ServiceInfo) :
  Methods s' = Methods s -> Operations s' = Operations s ->
  (AllowCors s = true -> AllowCors s' = true) -> evolves Rm s s'.
Proof.
  intros HM HO HA. unfold evolves, ops_ok. rewrite HM, HO. split; [|split; [|done]].
  - intros k m Hk. exists m. split; [done|apply rel_refl].
  - intros k m' Hnone Hsome. congruence.
Qed.

Lemma evolves_getOrCreateMethod (name : string) (s s' : ServiceInfo) :
  getOrCreateMethod name s = Ok s' -> evolves Rm s s'.
Proof.
  intros H. apply getOrCreateMethod_cases in H as [(m & Hm & ->)|(Hnone & sn & an & ->)].
  - apply evolves_refl.
  - unfold evolves, ops_ok. simpl. split; [|split; [|split; [|done]]].
    + intros k m Hk. exists m. split; [|apply rel_refl].
      rewrite lookup_insert_ne; [done|congruence].
    + intros k m' Hk Hk'. destruct (decide (name = k)) as [<-|Hne].
      * rewrite lookup_insert_eq in Hk'. inversion Hk'. apply rel_new.
      * rewrite lookup_insert_ne in Hk' by done. congruence.
    + intros [Hnd Hops]. split.
      * apply NoDup_app. split; [done|]. split; [|apply NoDup_singleton].
        intros k Hk Hk'. apply list_elem_of_singleton in Hk' as ->.
        apply Hops in Hk as [m Hm]. congruence.
      * intros k. rewrite elem_of_app, list_elem_of_singleton, Hops.
        destruct (decide (name = k)) as [<-|Hne].
        -- rewrite lookup_insert_eq. split; [eauto|by right].
        -- rewrite lookup_insert_ne by done. split; [|by left].
           intros [Hk| ->]; [done|congruence].
Qed.

Lemma evolves_modifyMethod (name : string) (f : MethodInfo -> MethodInfo)
    (s : ServiceInfo) :
  (forall m, Rm m (f m)) -> evolves Rm s (modifyMethod name f s).
Proof.
  intros Hf. unfold evolves, ops_ok. simpl. split; [|split; [|split; [|done]]].
  - intros k m Hk. destruct (decide (name = k)) as [<-|Hne].
    + exists (f m). by rewrite lookup_alter_eq, Hk.
    + exists m. rewrite lookup_alter_ne by done. split; [done|apply rel_refl].
  - intros k m' Hk Hk'. destruct (decide (name = k)) as [<-|Hne].
    + by rewrite lookup_alter_eq, Hk in Hk'.
    + rewrite lookup_alter_ne in Hk' by done. congruence.
  - intros [Hnd Hops]. split; [done|]. intros k. rewrite Hops.
    destruct (decide (name = k)) as [<-|Hne].
    + rewrite lookup_alter_eq. destruct (Methods s !! name); simpl; split; eauto.
      all: intros [x Hx]; discriminate.
    + by rewrite lookup_alter_ne.
Qed.

Lemma evolves_forM {A : Type} (body : A -> ServiceInfo -> result ServiceInfo)
    (l : list A) (s s' : ServiceInfo) :
  (forall x t t', x ∈ l -> body x t = Ok t' -> evolves Rm t t') ->
  forM l body s = Ok s' -> evolves Rm s s'.
Proof.
  intros Hbody. apply forM_relation; [apply evolves_refl|apply evolves_trans|exact Hbody].
Qed.

(** The same for a loop that carries a local variable besides the model. *)
Lemma evolves_forM_pair {A B : Type}
    (body : A -> ServiceInfo * B -> result (ServiceInfo * B))
    (l : list A) (st st' : ServiceInfo * B) :
  (forall x t t', x ∈ l -> body x t = Ok t' -> evolves Rm t.1 t'.1) ->
  forM l body st = Ok st' -> evolves Rm st.1 st'.1.
Proof.
  intros Hbody.
  apply (forM_relation (fun t t' => evolves Rm t.1 t'.1));
    [intros; apply evolves_refl | intros; by eapply evolves_trans | exact Hbody].
Qed.

Lemma evolves_foldl {A : Type} (step : ServiceInfo -> A -> ServiceInfo)
    (l : list A) (s : ServiceInfo) :
  (forall t x, evolves Rm t (step t x)) -> evolves Rm s (foldl step s l).
Proof.
  intros Hstep. revert s. induction l as [|x l IH]; intros s; simpl.
  - apply evolves_refl.
  - eapply evolves_trans; [apply Hstep|apply IH].
Qed.

Lemma extends_refl (s : ServiceInfo) : extends_by Rm s s.
Proof.
  split; [done|]. split; [done|]. split; [done|]. apply evolves_refl.
Qed.

Lemma extends_trans (s1 s2 s3 : ServiceInfo) :
  extends_by Rm s1 s2 -> extends_by Rm s2 s3 -> extends_by Rm s1 s3.
Proof.
  intros ((HN1 & HG1 & HL1 & HR1) & HC1 & HO1 & HM1)
         ((HN2 & HG2 & HL2 & HR2) & HC2 & HO2 & HM2).
  split; [repeat split; congruence|].
  split; [congruence|]. split; [congruence|]. by eapply evolves_trans.
Qed.

(** A step that leaves the methods and the clusters alone. *)
Lemma extends_same_methods (s s' : ServiceInfo) :
  Methods s' = Methods s -> Operations s' = Operations s ->
  (AllowCors s = true -> AllowCors s' = true) -> same_backends s s' ->
  Service.set_AuthProviders [] (serviceConfig s')
  = Service.set_AuthProviders [] (serviceConfig s) ->
  Options.set_Healthz "" (Opts s') = Options.set_Healthz "" (Opts s) ->
  extends_by Rm s s'.
Proof.
  intros HM HOp HA HB HC HO. split; [done|]. split; [done|]. split; [done|].
  by apply evolves_same_methods.
Qed.

Lemma extends_glog (ev : LogEvent) (s : ServiceInfo) : extends_by Rm s (glog ev s).
Proof. by apply extends_same_methods. Qed.

Lemma extends_ignoreQueryParam (name : string) (s : ServiceInfo) :
  extends_by Rm s (ignoreQueryParam name s).
Proof. by apply extends_same_methods. Qed.

Lemma extends_getOrCreateMethod (name : string) (s s' : ServiceInfo) :
  getOrCreateMethod name s = Ok s' -> extends_by Rm s s'.
Proof.
  intros H. split; [|split; [|split]]; [..|by eapply evolves_getOrCreateMethod].
  all: apply getOrCreateMethod_cases in H as [(m & Hm & ->)|(Hnone & sn & an & ->)]; done.
Qed.

Lemma extends_modifyMethod (name : string) (f : MethodInfo -> MethodInfo)
    (s : ServiceInfo) :
  (forall m, Rm m (f m)) -> extends_by Rm s (modifyMethod name f s).
Proof.
  intros Hf. split; [done|]. split; [done|]. split; [done|].
  by apply evolves_modifyMethod.
Qed.

Lemma extends_forM {A : Type} (body : A -> ServiceInfo -> result ServiceInfo)
    (l : list A) (s s' : ServiceInfo) :
  (forall x t t', x ∈ l -> body x t = Ok t' -> extends_by Rm t t') ->
  forM l body s = Ok s' -> extends_by Rm s s'.
Proof.
  intros Hbody. apply forM_relation; [apply extends_refl|apply extends_trans|exact Hbody].
Qed.

Lemma extends_forM_pair {A B : Type}
    (body : A -> ServiceInfo * B -> result (ServiceInfo * B))
    (l : list A) (st st' : ServiceInfo * B) :
  (forall x t t', x ∈ l -> body x t = Ok t' -> extends_by Rm t.1 t'.1) ->
  forM l body st = Ok st' -> extends_by Rm st.1 st'.1.
Proof.
  intros Hbody.
  apply (forM_relation (fun t t' => extends_by Rm t.1 t'.1));
    [intros; apply extends_refl | intros; by eapply extends_trans | exact Hbody].
Qed.

Lemma extends_foldl {A : Type} (step : ServiceInfo -> A -> ServiceInfo)
    (l : list A) (s : ServiceInfo) :
  (forall t x, extends_by Rm t (step t x)) -> extends_by Rm s (foldl step s l).
Proof.
  intros Hstep. revert s. induction l as [|x l IH]; intros s; simpl.
  - apply extends_refl.
  - eapply extends_trans; [apply Hstep|apply IH].
Qed.

End Evolution.

(** Closes [Rm m (f m)] for a composition of writes to the fields that every
    relation of the class allows. *)
Ltac rel_fields :=
  intros; cbv beta;
  repeat first
    [ apply rel_refl
    | apply rel_ApiVersion | apply rel_IsStreaming | apply rel_RequestTypeName
    | apply rel_MetricCosts | apply rel_AllowUnregisteredCalls
    | apply rel_SkipServiceControl | apply rel_ApiKeyLocations | apply rel_RequireAuth
    | match goal with
      | |- ?R ?m (?g ?v ?m') =>
          tryif constr_eq m m' then fail else apply (rel_trans (Rm := R) m m' (g v m'))
      end ].

(** Closes [method_evolves m (f m)] for a composition of field updates. *)
Ltac evolves_by_fields :=
  intros; split; simpl; auto.

(** Peels the writes of a step off its final state, outermost first. *)
Ltac extends_peel :=
  repeat match goal with
  | |- extends_by ?R ?s ?s => apply extends_refl
  | |- extends_by ?R ?s (modifyMethod ?n ?f ?t) =>
      apply (extends_trans (Rm := R) s t);
        [|apply (extends_modifyMethod (Rm := R)); first [by rel_fields|evolves_by_fields]]
  | |- extends_by ?R ?s (glog ?e ?t) =>
      apply (extends_trans (Rm := R) s t); [|by apply extends_glog]
  | |- extends_by ?R ?s (ignoreQueryParam ?e ?t) =>
      apply (extends_trans (Rm := R) s t); [|by apply extends_ignoreQueryParam]
  | |- extends_by ?R ?s (set_ApiNames ?e ?t) =>
      apply (extends_trans (Rm := R) s t); [|by apply extends_same_methods]
  | |- extends_by ?R ?s (set_Opts (Options.set_Healthz ?h (Opts ?t)) ?t) =>
      apply (extends_trans (Rm := R) s t); [|by apply extends_same_methods]
  | |- extends_by ?R ?s (if ?c then _ else _) => destruct c
  end.

Lemma extends_processEndpoints {Rm} `{!MethodRel Rm} (s : ServiceInfo) :
  extends_by Rm s (processEndpoints s).
Proof.
  unfold processEndpoints.
  generalize (Service.Name (serviceConfig s)). intros name.
  apply extends_foldl. intros t endpoint.
  destruct (_ && _); [by apply extends_same_methods | apply extends_refl].
Qed.

Lemma extends_processApis {Rm} `{!MethodRel Rm} (s s' : ServiceInfo) :
  processApis s = Ok s' -> extends_by Rm s s'.
Proof.
  unfold processApis. generalize (Service.Apis (serviceConfig s)). intros apis.
  apply extends_forM. intros api t t' _ Hm.
  apply (extends_trans (Rm := Rm) _ (set_ApiNames (ApiNames t ++ [Api.Name api]) t));
    [by apply extends_same_methods|].
  revert Hm. apply extends_forM.
  intros method u u' _ Hstep. unfold processApiMethod in Hstep.
  destruct (getOrCreateMethod _ u) as [u1| |] eqn:Hget; try discriminate.
  eapply extends_trans; [by eapply extends_getOrCreateMethod|].
  destruct (HasPrefix _ _); inversion Hstep; extends_peel.
Qed.

Lemma extends_processQuota {Rm} `{!MethodRel Rm} (ord : MapOrder) (s s' : ServiceInfo) :
  processQuota ord s = Ok s' -> extends_by Rm s s'.
Proof.
  unfold processQuota. generalize (imap pair (Service.MetricRules (serviceConfig s))).
  intros rules. apply extends_forM. intros [i rule] t t' _ Hstep.
  destruct (Methods t !! _); inversion Hstep.
  apply extends_modifyMethod. rel_fields.
Qed.

Lemma extends_addHttpRule {Rm} `{!MethodRel Rm} `{!HttpRel Rm} (method : string)
    (r : HttpRule.t) (st st' : ServiceInfo * gmap string bool) :
  addHttpRule method r st = Ok st' -> extends_by Rm st.1 st'.1.
Proof.
  destruct st as [s added]. unfold addHttpRule. intros H.
  destruct (httpRuleVerbPath r) as [[verb path]|]; [|discriminate].
  destruct (ParseUriTemplate path); inversion H. simpl.
  apply extends_modifyMethod. intros m. apply rel_append.
Qed.

Lemma extends_addOptionMethod {Rm} `{!MethodRel Rm} `{!HttpRel Rm} (original : string)
    (httpRule : HttpPattern) (s s' : ServiceInfo) :
  addOptionMethod original httpRule s = Ok s' -> extends_by Rm s s'.
Proof.
  unfold addOptionMethod. intros H.
  destruct (negb _); [discriminate|].
  destruct (Methods s !! original) as [orig|]; [|discriminate].
  apply bind_Ok in H as (s1 & H1 & H). inversion H.
  eapply extends_trans; [by eapply extends_getOrCreateMethod|].
  eapply extends_trans; apply extends_modifyMethod; intros m;
    [apply rel_companion|apply rel_GeneratedCorsMethod].
Qed.

Lemma extends_addCorsForPattern {Rm} `{!MethodRel Rm} `{!HttpRel Rm} (selector : string)
    (httpRule : HttpPattern) (st st' : ServiceInfo * gmap string bool) :
  addCorsForPattern selector httpRule st = Ok st' -> extends_by Rm st.1 st'.1.
Proof.
  destruct st as [s added]. unfold addCorsForPattern. intros H.
  destruct (str_eqb _ _); [inversion H; apply extends_refl|].
  destruct (UriTemplate httpRule) as [t|]; [|discriminate].
  destruct (added !! Regex t); [inversion H; apply extends_refl|].
  apply bind_Ok in H as (s1 & H1 & H). inversion H. simpl.
  by eapply extends_addOptionMethod.
Qed.

(** The health check adds a GET pattern to a generated method. *)
Lemma extends_addHealthCheck {Rm} `{!MethodRel Rm} (s s' : ServiceInfo) :
  (forall t m, Rm m (append_HttpRule {| HttpMethod := GET; UriTemplate := t |} m)) ->
  (forall m, Rm m (set_IsGenerated true m)) ->
  addHealthCheck s = Ok s' -> extends_by Rm s s'.
Proof.
  intros Hget Hgen. unfold addHealthCheck. intros H.
  destruct (str_eqb _ _); [inversion H; apply extends_refl|].
  apply bind_Ok in H as (s1 & H1 & H).
  eapply extends_trans; [by eapply extends_getOrCreateMethod|].
  assert (forall t m, Rm m (set_IsGenerated true
                              (set_SkipServiceControl true
                                 (append_HttpRule {| HttpMethod := GET; UriTemplate := t |} m))))
    as Hhc.
  { intros t m. eapply rel_trans; [apply Hget|].
    eapply rel_trans; [apply rel_SkipServiceControl|apply Hgen]. }
  destruct (HasPrefix _ _); inversion H.
  - apply extends_modifyMethod. intros m. apply Hhc.
  - eapply extends_trans; [|apply extends_modifyMethod; intros m; apply Hhc].
    by apply extends_same_methods.
Qed.

Lemma extends_addHttpRules {Rm} `{!MethodRel Rm} `{!HttpRel Rm} (method : string)
    (bs : list HttpRule.t) (st st' : ServiceInfo * gmap string bool) :
  forM bs (addHttpRule method) st = Ok st' -> extends_by Rm st.1 st'.1.
Proof. apply extends_forM_pair. intros b u u' _. apply extends_addHttpRule. Qed.

Lemma extends_addCorsForPatterns {Rm} `{!MethodRel Rm} `{!HttpRel Rm} (selector : string)
    (l : list HttpPattern) (st st' : ServiceInfo * gmap string bool) :
  forM l (addCorsForPattern selector) st = Ok st' -> extends_by Rm st.1 st'.1.
Proof. apply extends_forM_pair. intros b u u' _. apply extends_addCorsForPattern. Qed.

(** The first loop of [processHttpRule]. *)
Lemma extends_httpRules {Rm} `{!MethodRel Rm} `{!HttpRel Rm} (rules : list HttpRule.t)
    (st st' : ServiceInfo * gmap string bool) :
  forM rules
    (fun rule '(s, added) =>
       let* s := getOrCreateMethod (HttpRule.Selector rule) s in
       let* st := addHttpRule (HttpRule.Selector rule) rule (s, added) in
       forM (HttpRule.AdditionalBindings rule) (addHttpRule (HttpRule.Selector rule)) st)
    st = Ok st' ->
  extends_by Rm st.1 st'.1.
Proof.
  apply extends_forM_pair. intros rule [t added] t' _ Hstep.
  apply bind_Ok in Hstep as (t1 & Hget & Hstep).
  eapply extends_trans; [by eapply extends_getOrCreateMethod|].
  by apply (extends_addHttpRules (HttpRule.Selector rule)
              (rule :: HttpRule.AdditionalBindings rule) (t1, added) t').
Qed.

(** The CORS loop of [processHttpRule]. *)
Lemma extends_corsRules {Rm} `{!MethodRel Rm} `{!HttpRel Rm} (rules : list HttpRule.t)
    (st st' : ServiceInfo * gmap string bool) :
  forM rules
    (fun r '(s, added) =>
       match Methods s !! HttpRule.Selector r with
       | None => Panic
       | Some method =>
           forM (HttpRule_ method) (addCorsForPattern (HttpRule.Selector r)) (s, added)
       end)
    st = Ok st' ->
  extends_by Rm st.1 st'.1.
Proof.
  apply extends_forM_pair. intros r [t added] t' _ Hstep.
  destruct (Methods t !! HttpRule.Selector r) as [method|]; [|discriminate].
  by apply (extends_addCorsForPatterns (HttpRule.Selector r) (HttpRule_ method) (t, added) t').
Qed.

(** The two loops of [processHttpRule]. *)
Lemma extends_httpRuleLoops {Rm} `{!MethodRel Rm} `{!HttpRel Rm} (s s' : ServiceInfo) :
  processHttpRule s = Ok s' ->
  exists s2, extends_by Rm s s2 /\ addHealthCheck s2 = Ok s'.
Proof.
  unfold processHttpRule. intros H.
  apply bind_Ok in H as (st & H1 & H).
  apply bind_Ok in H as ([s2 added2] & H2 & H).
  exists s2. split; [|done].
  apply extends_httpRules in H1.
  eapply extends_trans; [exact H1|].
  destruct (AllowCors st.1); [|inversion H2; apply extends_refl].
  by apply extends_corsRules in H2.
Qed.

#[local] Instance method_evolves_http : HttpRel method_evolves.
Proof. split; intros; split; simpl; auto. Qed.

Lemma extends_processHttpRule (s s' : ServiceInfo) :
  processHttpRule s = Ok s' -> extends s s'.
Proof.
  intros H. apply extends_httpRuleLoops in H as (s2 & H2 & H).
  eapply extends_trans; [exact H2|].
  revert H. apply extends_addHealthCheck; evolves_by_fields.
Qed.

Lemma extends_processUsageRule {Rm} `{!MethodRel Rm} (s s' : ServiceInfo) :
  processUsageRule s = Ok s' -> extends_by Rm s s'.
Proof.
  unfold processUsageRule. generalize (Service.UsageRules (serviceConfig s)). intros rules.
  apply extends_forM. intros r t t' _ Hstep.
  apply bind_Ok in Hstep as (t1 & Hget & Hstep). inversion Hstep.
  eapply extends_trans; [by eapply extends_getOrCreateMethod|].
  apply extends_modifyMethod. rel_fields.
Qed.

Lemma extends_processAccessToken {Rm} `{!MethodRel Rm} (s : ServiceInfo) :
  extends_by Rm s (processAccessToken s).
Proof. unfold processAccessToken. destruct (negb _); by apply extends_same_methods. Qed.

Lemma extends_snakeNameToJsonName {Rm} `{!MethodRel Rm} (m : string)
    (names : gmap string string) (s : ServiceInfo) :
  (forall names mi, Rm mi (set_HttpRule (map (renamed names) (HttpRule_ mi)) mi)) ->
  extends_by Rm s (snakeNameToJsonNameForUriTemplates m names s).
Proof. intros Hren. apply extends_modifyMethod. intros mi. apply Hren. Qed.

(** [processTypes] renames the templates; a relation that allows it is kept. *)
Lemma extends_processTypes {Rm} `{!MethodRel Rm} (ord : MapOrder) (s s' : ServiceInfo) :
  (forall names mi, Rm mi (set_HttpRule (map (renamed names) (HttpRule_ mi)) mi)) ->
  processTypes ord s = Ok s' -> extends_by Rm s s'.
Proof.
  intros Hren.
  unfold processTypes. generalize (rangeMethods ord site_processTypes s). intros keys.
  apply extends_forM. intros operation t t' _ Hstep. unfold processTypesOf in Hstep.
  destruct (Methods t !! operation) as [mi|]; [|inversion Hstep; apply extends_refl].
  destruct (str_eqb _ _); [inversion Hstep; apply extends_glog|].
  destruct (typesByTypeName t !! _) as [requestType|];
    [|inversion Hstep; apply extends_glog].
  apply bind_Ok in Hstep as (names & _ & Hstep).
  destruct (bool_decide _); [inversion Hstep; apply extends_refl|].
  destruct (GeneratedCorsMethod mi); inversion Hstep.
  - eapply extends_trans; by apply extends_snakeNameToJsonName.
  - by apply extends_snakeNameToJsonName.
Qed.

(** [addGrpcHttpRules] appends POST patterns; a relation that allows it is
    kept. *)
Lemma extends_addGrpcHttpRules {Rm} `{!MethodRel Rm} (s s' : ServiceInfo) :
  (forall t mi, Rm mi (append_HttpRule {| HttpMethod := POST; UriTemplate := Some t |} mi)) ->
  addGrpcHttpRules s = Ok s' -> extends_by Rm s s'.
Proof.
  intros Hpost.
  unfold addGrpcHttpRules. destruct (negb _); [intros H; inversion H; apply extends_refl|].
  generalize (Service.Apis (serviceConfig s)). intros apis.
  apply extends_forM. intros api t t' _. apply extends_forM. intros method u u' _ Hstep.
  destruct (ParseUriTemplate _); [|discriminate].
  destruct (getOrCreateMethod _ u) as [u1| |] eqn:Hget; inversion Hstep.
  eapply extends_trans; [by eapply extends_getOrCreateMethod|].
  apply extends_modifyMethod. intros mi. apply Hpost.
Qed.

Lemma extends_processTranscodingIgnoredQueryParams {Rm} `{!MethodRel Rm} (s s' : ServiceInfo) :
  processTranscodingIgnoredQueryParams s = Ok s' -> extends_by Rm s s'.
Proof.
  unfold processTranscodingIgnoredQueryParams. intros H.
  apply bind_Ok in H as (s1 & H1 & H).
  assert (extends_by Rm s s1) as H01.
  { revert H1. apply extends_forM. intros provider t t' _ Hstep.
    destruct (AuthProvider.JwtLocations provider) as [|loc locs].
    - inversion Hstep. apply extends_ignoreQueryParam.
    - revert Hstep. apply extends_forM. intros jwtLocation u u' _ Hstep.
      destruct (JwtLocation.In_ jwtLocation); try (inversion Hstep; apply extends_refl).
      destruct (negb (str_eqb (JwtLocation.ValuePrefix jwtLocation) ""));
        inversion Hstep. apply extends_ignoreQueryParam. }
  eapply extends_trans; [exact H01|].
  destruct (negb _); inversion H; [|apply extends_refl].
  apply extends_foldl. intros t p. apply extends_ignoreQueryParam.
Qed.

Lemma extends_extractApiKeyLocations {Rm} `{!MethodRel Rm} (method : string)
    (parameters : list SystemParameter.t) (s : ServiceInfo) :
  extends_by Rm s (extractApiKeyLocations method parameters s).
Proof.
  unfold extractApiKeyLocations.
  eapply extends_trans; [|apply extends_modifyMethod; rel_fields].
  apply extends_foldl. intros t p.
  destruct (str_eqb _ _); [apply extends_refl|apply extends_ignoreQueryParam].
Qed.

Lemma extends_processApiKeyLocations {Rm} `{!MethodRel Rm} (ord : MapOrder)
    (s s' : ServiceInfo) :
  processApiKeyLocations ord s = Ok s' -> extends_by Rm s s'.
Proof.
  unfold processApiKeyLocations. intros H.
  apply bind_Ok in H as (s1 & H1 & H). inversion H.
  assert (extends_by Rm s s1) as H01.
  { revert H1. apply extends_forM. intros rule t t' _ Hstep.
    apply bind_Ok in Hstep as (t1 & Hget & Hstep). inversion Hstep.
    eapply extends_trans; [by eapply extends_getOrCreateMethod|].
    apply extends_extractApiKeyLocations. }
  eapply extends_trans; [exact H01|].
  apply extends_foldl. intros t operation.
  destruct (Methods t !! operation) as [method|]; [|apply extends_refl].
  destruct (ApiKeyLocations method); [|apply extends_refl].
  eapply extends_trans; apply extends_ignoreQueryParam.
Qed.

Lemma extends_processEmptyJwksUriByOpenID {Rm} `{!MethodRel Rm} (s s' : ServiceInfo) :
  processEmptyJwksUriByOpenID s = Ok s' -> extends_by Rm s s'.
Proof.
  unfold processEmptyJwksUriByOpenID. intros H.
  apply bind_Ok in H as ([providers s1] & H1 & H). inversion H.
  assert (extends_by Rm s s1) as H01.
  { change s with (([] : list AuthProvider.t), s).2.
    change s1 with (providers, s1).2.
    revert H1.
    apply (forM_relation (fun t t' : list AuthProvider.t * ServiceInfo => extends_by Rm t.2 t'.2));
      [intros; apply extends_refl | intros; by eapply extends_trans |].
    intros provider [done t] t' _ Hstep. simpl.
    destruct (str_eqb _ _); [|inversion Hstep; apply extends_refl].
    destruct (Options.DisableOidcDiscovery _); [discriminate|].
    destruct (ResolveJwksUriUsingOpenID _); inversion Hstep. apply extends_glog. }
  eapply extends_trans; [exact H01|].
  by apply extends_same_methods.
Qed.

Lemma extends_processAuthRequirement {Rm} `{!MethodRel Rm} (s s' : ServiceInfo) :
  processAuthRequirement s = Ok s' -> extends_by Rm s s'.
Proof.
  unfold processAuthRequirement. generalize (Service.AuthRules (serviceConfig s)).
  intros rules. apply extends_forM. intros rule t t' _ Hstep.
  destruct (AuthenticationRule.Requirements rule); [inversion Hstep; apply extends_refl|].
  destruct (Methods t !! _); inversion Hstep.
  apply extends_modifyMethod. rel_fields.
Qed.

(** The phases of a build that succeeds, with the model after each. *)
Lemma build_phases (ord : MapOrder) (cfg : Service.t) (id : string) (opts : Options.t)
    (s : ServiceInfo) :
  NewServiceInfoFromServiceConfig ord (Some cfg) id opts = Ok s ->
  exists s1 s3 s4 s5 s6 s7 s9 s10 s11 s12 s13 s14,
    buildLocalBackend (newServiceInfo cfg id opts) = Ok s1
    /\ processApis (processEndpoints s1) = Ok s3
    /\ processQuota ord s3 = Ok s4
    /\ processBackendRule s4 = Ok s5
    /\ processHttpRule s5 = Ok s6
    /\ processUsageRule s6 = Ok s7
    /\ processTypes ord (processAccessToken s7) = Ok s9
    /\ addGrpcHttpRules s9 = Ok s10
    /\ processTranscodingIgnoredQueryParams s10 = Ok s11
    /\ processApiKeyLocations ord s11 = Ok s12
    /\ processEmptyJwksUriByOpenID s12 = Ok s13
    /\ processLocalBackendOperations ord s13 = Ok s14
    /\ processAuthRequirement s14 = Ok s.
Proof.
  unfold NewServiceInfoFromServiceConfig. intros H.
  destruct (length (Service.Apis cfg) =? 0)%nat; [discriminate|].
  apply bind_Ok in H as (s1 & H1 & H). apply bind_Ok in H as (s3 & H3 & H).
  apply bind_Ok in H as (s4 & H4 & H). apply bind_Ok in H as (s5 & H5 & H).
  apply bind_Ok in H as (s6 & H6 & H). apply bind_Ok in H as (s7 & H7 & H).
  apply bind_Ok in H as (s9 & H9 & H). apply bind_Ok in H as (s10 & H10 & H).
  apply bind_Ok in H as (s11 & H11 & H). apply bind_Ok in H as (s12 & H12 & H).
  apply bind_Ok in H as (s13 & H13 & H). apply bind_Ok in H as (s14 & H14 & H).
  apply bind_Ok in H as (s15 & H15 & H). inversion H; subst s15.
  exists s1, s3, s4, s5, s6, s7, s9, s10, s11, s12, s13, s14. by repeat split.
Qed.

Lemma extends_before_backend (ord : MapOrder) (s1 s3 s4 : ServiceInfo) :
  processApis (processEndpoints s1) = Ok s3 -> processQuota ord s3 = Ok s4 ->
  extends s1 s4.
Proof.
  intros H3 H4.
  eapply extends_trans; [apply extends_processEndpoints|].
  eapply extends_trans; [by eapply extends_processApis|].
  by eapply extends_processQuota.
Qed.

Lemma extends_after_backend (ord : MapOrder) (s5 s6 s7 s9 s10 s11 s12 s13 : ServiceInfo) :
  processHttpRule s5 = Ok s6 -> processUsageRule s6 = Ok s7 ->
  processTypes ord (processAccessToken s7) = Ok s9 ->
  addGrpcHttpRules s9 = Ok s10 ->
  processTranscodingIgnoredQueryParams s10 = Ok s11 ->
  processApiKeyLocations ord s11 = Ok s12 ->
  processEmptyJwksUriByOpenID s12 = Ok s13 ->
  extends s5 s13.
Proof.
  intros H6 H7 H9 H10 H11 H12 H13.
  eapply extends_trans; [by eapply extends_processHttpRule|].
  eapply extends_trans; [by eapply extends_processUsageRule|].
  eapply extends_trans; [apply extends_processAccessToken|].
  eapply extends_trans; [eapply extends_processTypes; [evolves_by_fields|done]|].
  eapply extends_trans; [eapply extends_addGrpcHttpRules; [evolves_by_fields|done]|].
  eapply extends_trans; [by eapply extends_processTranscodingIgnoredQueryParams|].
  eapply extends_trans; [by eapply extends_processApiKeyLocations|].
  by eapply extends_processEmptyJwksUriByOpenID.
Qed.

Lemma extends_BackendRules (s s' : ServiceInfo) :
  extends s s' ->
  Service.BackendRules (serviceConfig s') = Service.BackendRules (serviceConfig s).
Proof.
  intros (_ & HC & _). by apply (f_equal Service.BackendRules) in HC.
Qed.

(** A property of each element that its iteration establishes and the
    later iterations keep holds of every element after the loop. *)
Lemma forM_each {A S : Type} (P : S -> Prop) (Q : A -> S -> Prop)
    (body : A -> S -> result S) (l : list A) :
  (forall x s s', x ∈ l -> P s -> body x s = Ok s' -> P s' /\ Q x s') ->
  (forall x y s s', y ∈ l -> P s -> Q x s -> body y s = Ok s' -> Q x s') ->
  forall s s', P s -> forM l body s = Ok s' -> P s' /\ forall x, x ∈ l -> Q x s'.
Proof.
  induction l as [|y l IH]; intros Hest Hkeep s s' Hs Hrun; simpl in Hrun.
  - inversion Hrun; subst. split; [done|]. intros x Hx. by apply elem_of_nil in Hx.
  - apply bind_Ok in Hrun as (s1 & H1 & H2).
    destruct (Hest y s s1) as [HP1 HQ1]; [by left|done|done|].
    assert (P s' /\ Q y s') as [HP' HQy].
    { apply (forM_invariant (fun t => P t /\ Q y t) body l) with (s := s1);
        [|done|done].
      intros z t t' Hz [HP HQ] Hstep. split.
      - apply (Hest z t t'); [by right|done|done].
      - apply (Hkeep y z t t'); [by right|done|done|done]. }
    split; [done|]. intros x Hx. apply elem_of_cons in Hx as [->|Hx]; [done|].
    apply (IH (fun x t t' Hx => Hest x t t' (proj2 (elem_of_cons _ _ _) (or_intror Hx)))
              (fun x z t t' Hz => Hkeep x z t t' (proj2 (elem_of_cons _ _ _) (or_intror Hz)))
              s1 s' HP1 H2); done.
Qed.

(* --------------------------------------------------------------------- *)
(** ** C8: the backend clusters *)
(* --------------------------------------------------------------------- *)

Lemma buildLocalBackend_Ok (s s' : ServiceInfo) :
  buildLocalBackend s = Ok s' ->
  exists local,
    LocalBackendCluster s' = Some local
    /\ ClusterName local = BackendClusterName (Name s ++ "_local")
    /\ (GrpcSupportRequired s' = true <->
        GrpcSupportRequired s = true \/ Protocol local = GRPC)
    /\ RemoteBackendClusters s' = RemoteBackendClusters s
    /\ Name s' = Name s /\ Methods s' = Methods s /\ Operations s' = Operations s
    /\ serviceConfig s' = serviceConfig s /\ Opts s' = Opts s.
Proof.
  unfold buildLocalBackend. intros H.
  destruct (ParseURI _) as [[[[scheme hostname] port] path]|]; [|discriminate].
  destruct (ParseBackendProtocol scheme "") as [[protocol tls] []]; [discriminate|].
  inversion H. eexists. split; [reflexivity|]. simpl.
  destruct (decide (protocol = GRPC)) as [->|Hne]; simpl;
    repeat split; try done; try tauto.
Qed.



Lemma addBackendInfoToMethod_backends (r : BackendRule.t)
    (scheme hostname path cluster : string) (s s' : ServiceInfo) :
  addBackendInfoToMethod r scheme hostname path cluster s = Ok s' -> same_backends s s'.
Proof.
  intros H. apply addBackendInfoToMethod_Ok in H
    as (s1 & m & b & _ & _ & _ & _ & _ & _ & _ & _ & _ & _ & _ & _ & _ & HN & HG & HL & HR).
  by repeat split.
Qed.




(* --------------------------------------------------------------------- *)
(** ** C5: every method ends with a binding *)
(* --------------------------------------------------------------------- *)

Lemma getOrCreateMethod_other (name k : string) (s s' : ServiceInfo) :
  getOrCreateMethod name s = Ok s' -> name <> k -> Methods s' !! k = Methods s !! k.
Proof.
  intros H Hne. apply getOrCreateMethod_cases in H as [(m & Hm & ->)|(_ & sn & an & ->)].
  - done.
  - simpl. by rewrite lookup_insert_ne.
Qed.

Lemma elem_of_rangeMethods (ord : MapOrder) (site : nat) (s : ServiceInfo) (k : string) :
  k ∈ rangeMethods ord site s <-> is_Some (Methods s !! k).
Proof.
  unfold rangeMethods. rewrite (range_keys_perm ord site).
  rewrite list_elem_of_fmap. split.
  - intros ([k' m] & -> & Hin). apply elem_of_map_to_list in Hin. simpl. eauto.
  - intros [m Hm]. exists (k, m). split; [done|]. by apply elem_of_map_to_list.
Qed.




(** The loop of [processLocalBackendOperations] binds every unbound method
    to the local cluster and leaves the others as they are. *)
Lemma processLocalBackendOperations_Ok (ord : MapOrder) (s s' : ServiceInfo)
    (local : BackendRoutingCluster) :
  LocalBackendCluster s = Some local ->
  processLocalBackendOperations ord s = Ok s' ->
  forall k, Methods s' !! k = bindLocal (ClusterName local) (Opts s) <$> Methods s !! k.
Proof.
  intros Hlocal H. unfold processLocalBackendOperations in H.
  set (fill := bindLocal (ClusterName local) (Opts s)).
  destruct (forM_each
              (fun t => LocalBackendCluster t = Some local /\ Opts t = Opts s
                        /\ forall k, Methods t !! k = Methods s !! k
                                     \/ Methods t !! k = fill <$> Methods s !! k)
              (fun k t => forall m, Methods t !! k = Some m -> is_Some (BackendInfo m))
              processLocalBackendOperation
              (rangeMethods ord site_processLocalBackendOperations s))
    with (s := s) (s' := s') as [(_ & _ & Hkeys) Hbound]; [| | |exact H|].
  - (* an iteration keeps the invariant and binds its method *)
    intros k t t' _ (HL & HO & HM) Hstep. unfold processLocalBackendOperation in Hstep.
    destruct (Methods t !! k) as [m|] eqn:Hk.
    + destruct (BackendInfo m) as [b|] eqn:Hb.
      * inversion Hstep; subst t'. split; [done|]. intros m0 Hm0.
        assert (m0 = m) as -> by congruence. rewrite Hb. eauto.
      * rewrite HL in Hstep. inversion Hstep; subst t'; clear Hstep. simpl.
        split; [split; [done|split; [done|]]|].
        -- intros k'. destruct (decide (k = k')) as [<-|Hne].
           ++ right. rewrite lookup_alter_eq, Hk. simpl.
              destruct (HM k) as [Hs|Hs]; rewrite Hk in Hs.
              ** rewrite <- Hs. simpl. unfold fill, bindLocal. by rewrite Hb, HO.
              ** destruct (Methods s !! k) as [m0|]; [|done]. simpl in Hs.
                 inversion Hs as [Hm]. unfold fill, bindLocal in Hm.
                 destruct (BackendInfo m0) eqn:Hb0; [congruence|].
                 rewrite Hm in Hb. simpl in Hb. discriminate.
           ++ rewrite lookup_alter_ne by done. apply HM.
        -- intros m0. rewrite lookup_alter_eq, Hk. simpl. intros Hm0.
           inversion Hm0. simpl. eauto.
    + inversion Hstep; subst t'. split; [done|]. intros m0 Hm0. congruence.
  - (* a bound method stays bound *)
    intros k y t t' _ _ HQ Hstep m Hm. unfold processLocalBackendOperation in Hstep.
    destruct (Methods t !! y) as [my|] eqn:Hy; [|inversion Hstep; subst; by apply HQ].
    destruct (BackendInfo my) eqn:Hby; [inversion Hstep; subst; by apply HQ|].
    destruct (LocalBackendCluster t); [|discriminate].
    inversion Hstep; subst t'; clear Hstep. simpl in Hm.
    destruct (decide (y = k)) as [->|Hne].
    + rewrite lookup_alter_eq, Hy in Hm. inversion Hm. simpl. eauto.
    + rewrite lookup_alter_ne in Hm by done. by apply HQ.
  - split; [done|]. split; [done|]. intros k. by left.
  - intros k. destruct (Hkeys k) as [Hk|Hk]; [|done].
    rewrite Hk. destruct (Methods s !! k) as [m|] eqn:Hm; [|done]. simpl.
    assert (is_Some (BackendInfo m)) as [b Hb].
    { apply (Hbound k); [|by rewrite Hk].
      apply elem_of_rangeMethods. rewrite Hm. eauto. }
    unfold fill, bindLocal. by rewrite Hb.
Qed.

Lemma processAuthRequirement_methods (s s' : ServiceInfo) :
  processAuthRequirement s = Ok s' ->
  forall k m', Methods s' !! k = Some m' ->
    exists m, Methods s !! k = Some m
              /\ BackendInfo m' = BackendInfo m /\ IsGenerated m' = IsGenerated m.
Proof.
  unfold processAuthRequirement. generalize (Service.AuthRules (serviceConfig s)).
  intros rules.
  apply (forM_relation
           (fun t t' : ServiceInfo =>
              forall k m', Methods t' !! k = Some m' ->
                exists m, Methods t !! k = Some m
                          /\ BackendInfo m' = BackendInfo m
                          /\ IsGenerated m' = IsGenerated m)).
  - intros t k m' Hk. eauto.
  - intros t1 t2 t3 H12 H23 k m3 Hk3.
    destruct (H23 k m3 Hk3) as (m2 & Hk2 & Hb2 & Hg2).
    destruct (H12 k m2 Hk2) as (m1 & Hk1 & Hb1 & Hg1).
    exists m1. repeat split; congruence.
  - intros rule t t' _ Hstep k m' Hk.
    destruct (AuthenticationRule.Requirements rule); [inversion Hstep; subst; eauto|].
    destruct (Methods t !! AuthenticationRule.Selector rule) eqn:Hsel; inversion Hstep.
    subst t'. simpl in Hk.
    destruct (decide (AuthenticationRule.Selector rule = k)) as [<-|Hne].
    + rewrite lookup_alter_eq, Hsel in Hk. inversion Hk. eauto.
    + rewrite lookup_alter_ne in Hk by done. eauto.
Qed.

Lemma processOneBackendRule_frame (r : BackendRule.t)
    (st st' : ServiceInfo * gmap string string) :
  processOneBackendRule r st = Ok st' ->
  LocalBackendCluster st'.1 = LocalBackendCluster st.1
  /\ Opts st'.1 = Opts st.1 /\ serviceConfig st'.1 = serviceConfig st.1.
Proof.
  destruct st as [s cm]. unfold processOneBackendRule. intros H.
  destruct (str_eqb (BackendRule.Address r) "").
  - apply bind_Ok in H as (s1 & H1 & H). inversion H; subst st'. simpl.
    apply addBackendInfoToMethod_Ok in H1
      as (t1 & m & b & _ & _ & _ & _ & _ & _ & _ & _ & _ & _ & _ & HO & HC & _ & _ & HL & _).
    done.
  - destruct (ParseURI (BackendRule.Address r)) as [[[[scheme hostname] port] path]|];
      [|discriminate].
    apply bind_Ok in H as ([s0 cm0] & H0 & H).
    apply bind_Ok in H as (s1 & H1 & H). inversion H; subst st'. simpl.
    apply addBackendInfoToMethod_Ok in H1
      as (t1 & m & b & _ & _ & _ & _ & _ & _ & _ & _ & _ & _ & _ & HO & HC & _ & _ & HL & _).
    rewrite HO, HC, HL. unfold createRemoteCluster in H0.
    destruct (cm !! hostPort hostname port); [by inversion H0|].
    destruct (ParseBackendProtocol scheme (BackendRule.Protocol r)) as [[p tls] []];
      [discriminate|].
    inversion H0. by destruct (decide (p = GRPC)).
Qed.

Lemma processBackendRule_frame (s s' : ServiceInfo) :
  processBackendRule s = Ok s' ->
  LocalBackendCluster s' = LocalBackendCluster s
  /\ Opts s' = Opts s /\ serviceConfig s' = serviceConfig s.
Proof.
  unfold processBackendRule. intros H.
  apply bind_Ok in H as ([s1 cm1] & H & Hs'). inversion Hs'; subst s1; clear Hs'.
  change s with (s, (∅ : gmap string string)).1.
  change s' with (s', cm1).1.
  revert H. generalize (Service.BackendRules (serviceConfig (s, (∅ : gmap string string)).1)).
  intros rules.
  apply (forM_relation
           (fun t t' : ServiceInfo * gmap string string =>
              LocalBackendCluster t'.1 = LocalBackendCluster t.1
              /\ Opts t'.1 = Opts t.1 /\ serviceConfig t'.1 = serviceConfig t.1)).
  - done.
  - intros t1 t2 t3 (? & ? & ?) (? & ? & ?). repeat split; congruence.
  - intros r t t' _. apply processOneBackendRule_frame.
Qed.


(* --------------------------------------------------------------------- *)
(** ** C4: the OPTIONS patterns *)
(* --------------------------------------------------------------------- *)

#[local] Instance same_patterns_rel : MethodRel same_patterns.
Proof. split; unfold same_patterns; intros; simpl; congruence. Qed.

Lemma keeps_options_same (m m' : MethodInfo) :
  IsGenerated m' = IsGenerated m -> HttpRule_ m' = HttpRule_ m -> keeps_options m m'.
Proof.
  intros Hg Hp. split; [congruence|]. exists 0%nat.
  unfold optionKeys. by rewrite Hp, app_nil_r.
Qed.

#[local] Instance keeps_options_rel : MethodRel keeps_options.
Proof.
  split; try (intros; by apply keeps_options_same).
  intros m1 m2 m3 [Hg1 [n1 H1]] [Hg2 [n2 H2]]. split; [auto|].
  exists (n1 + n2)%nat. by rewrite H2, H1, replicate_add, app_assoc.
Qed.























#[local] Instance patterns_grow_rel : MethodRel patterns_grow.
Proof.
  split; try (intros; split; [done|]; exists []; by rewrite app_nil_r).
  intros m1 m2 m3 [Hg1 [l1 H1]] [Hg2 [l2 H2]]. split; [auto|].
  exists (l1 ++ l2). by rewrite H2, H1, app_assoc.
Qed.

#[local] Instance patterns_grow_http : HttpRel patterns_grow.
Proof.
  split; intros; (split; [done|]); simpl;
    first [by exists []; rewrite app_nil_r | by eexists].
Qed.






















(** The backend phases write bindings; a relation that allows it is kept. *)
Lemma evolves_addBackendInfoToMethod {Rm} `{!MethodRel Rm} (r : BackendRule.t)
    (scheme hostname path cluster : string) (s s' : ServiceInfo) :
  (forall b m, Rm m (set_BackendInfo b m)) ->
  addBackendInfoToMethod r scheme hostname path cluster s = Ok s' -> evolves Rm s s'.
Proof.
  intros Hb H. unfold addBackendInfoToMethod in H.
  apply bind_Ok in H as (s1 & Hget & H).
  eapply evolves_trans; [by eapply evolves_getOrCreateMethod|].
  destruct (backendDeadline (BackendRule.Deadline r)) as [deadline negative].
  inversion H; subst s'; clear H.
  eapply evolves_trans; [|by apply evolves_modifyMethod].
  destruct (negb _ && _); (eapply evolves_trans; [|by apply evolves_same_methods]);
    destruct negative; first [apply evolves_refl|by apply evolves_same_methods].
Qed.

Lemma evolves_processOneBackendRule {Rm} `{!MethodRel Rm} (r : BackendRule.t)
    (st st' : ServiceInfo * gmap string string) :
  (forall b m, Rm m (set_BackendInfo b m)) ->
  processOneBackendRule r st = Ok st' -> evolves Rm st.1 st'.1.
Proof.
  intros Hb Hstep. destruct st as [t cm]. unfold processOneBackendRule in Hstep.
  destruct (str_eqb (BackendRule.Address r) "").
  - apply bind_Ok in Hstep as (t1 & H1 & Hstep). inversion Hstep; subst st'. simpl.
    by eapply evolves_addBackendInfoToMethod.
  - destruct (ParseURI (BackendRule.Address r)) as [[[[scheme hostname] port] path]|];
      [|discriminate].
    apply bind_Ok in Hstep as ([t0 cm0] & H0 & Hstep).
    apply bind_Ok in Hstep as (t1 & H1 & Hstep). inversion Hstep; subst st'. simpl.
    eapply evolves_trans; [|by eapply evolves_addBackendInfoToMethod].
    unfold createRemoteCluster in H0.
    destruct (cm !! hostPort hostname port); [inversion H0; apply evolves_refl|].
    destruct (ParseBackendProtocol scheme (BackendRule.Protocol r)) as [[p tls] []];
      [discriminate|].
    inversion H0. apply evolves_same_methods; by destruct (decide (p = GRPC)).
Qed.

Lemma evolves_processBackendRule {Rm} `{!MethodRel Rm} (s s' : ServiceInfo) :
  (forall b m, Rm m (set_BackendInfo b m)) ->
  processBackendRule s = Ok s' -> evolves Rm s s'.
Proof.
  intros Hb H. unfold processBackendRule in H.
  apply bind_Ok in H as ([s1 cm1] & H & Hs'). inversion Hs'; subst s1; clear Hs'.
  change s with (s, (∅ : gmap string string)).1.
  change s' with (s', cm1).1.
  revert H. apply evolves_forM_pair. intros r st st' _.
  by apply evolves_processOneBackendRule.
Qed.

Lemma extends_processLocalBackendOperations {Rm} `{!MethodRel Rm} (ord : MapOrder)
    (s s' : ServiceInfo) :
  (forall b m, Rm m (set_BackendInfo b m)) ->
  processLocalBackendOperations ord s = Ok s' -> extends_by Rm s s'.
Proof.
  intros Hb. unfold processLocalBackendOperations.
  generalize (rangeMethods ord site_processLocalBackendOperations s). intros keys.
  apply extends_forM. intros operation t t' _ Hstep.
  unfold processLocalBackendOperation in Hstep.
  destruct (Methods t !! operation) as [method|]; [|inversion Hstep; apply extends_refl].
  destruct (BackendInfo method); [inversion Hstep; apply extends_refl|].
  destruct (LocalBackendCluster t); inversion Hstep.
  by apply extends_modifyMethod.
Qed.

(** CORS is enabled by [processEndpoints]. *)
Lemma processEndpoints_AllowCors (s : ServiceInfo) :
  corsEnabled (serviceConfig s) -> AllowCors (processEndpoints s) = true.
Proof.
  intros (endpoint & Hin & Hname & Hallow). unfold processEndpoints.
  revert Hin. generalize (Service.Endpoints (serviceConfig s)). intros endpoints Hin.
  assert (forall l t, serviceConfig t = serviceConfig s ->
            (AllowCors t = true \/ endpoint ∈ l) ->
            AllowCors
              (foldl (fun s endpoint =>
                        if str_eqb (Endpoint.Name endpoint) (Service.Name (serviceConfig s))
                           && Endpoint.AllowCors endpoint
                        then set_AllowCors true s else s) t l) = true) as Hfold.
  { induction l as [|e l IH]; intros t Hcfg Hor; simpl.
    - destruct Hor as [H|H]; [done|by apply elem_of_nil in H].
    - apply IH; [by destruct (_ && _)|].
      destruct Hor as [H|H]; [left; by destruct (_ && _)|].
      apply elem_of_cons in H as [<-|H]; [left|by right].
      rewrite Hcfg, Hname, Hallow, (proj2 (str_eqb_eq _ _) eq_refl). done. }
  apply Hfold; [done|by right].
Qed.


(* --------------------------------------------------------------------- *)
(** ** C4: the OPTIONS routes *)
(* --------------------------------------------------------------------- *)















Lemma extends_evolves {Rm} (s s' : ServiceInfo) : extends_by Rm s s' -> evolves Rm s s'.
Proof. by intros (_ & _ & _ & He). Qed.

(** The phases before [processHttpRule] keep a relation that the writes of
    bindings keep. *)
Lemma before_processHttpRule {Rm} `{!MethodRel Rm} (ord : MapOrder)
    (s1 s3 s4 s5 : ServiceInfo) :
  (forall b m, Rm m (set_BackendInfo b m)) ->
  processApis (processEndpoints s1) = Ok s3 -> processQuota ord s3 = Ok s4 ->
  processBackendRule s4 = Ok s5 ->
  extends_by Rm s1 (processEndpoints s1)
  /\ extends_by Rm (processEndpoints s1) s3
  /\ extends_by Rm s3 s4
  /\ evolves Rm s4 s5
  /\ serviceConfig s5 = serviceConfig s4.
Proof.
  intros Hb H3 H4 H5.
  split; [apply extends_processEndpoints|].
  split; [by apply extends_processApis|].
  split; [by eapply extends_processQuota|].
  split; [by eapply evolves_processBackendRule|].
  by destruct (processBackendRule_frame s4 s5 H5) as (_ & _ & HC5).
Qed.

(** The phases after [processHttpRule] keep a relation that the renaming of
    templates, the POST patterns of gRPC and the writes of bindings keep. *)
Lemma after_processHttpRule {Rm} `{!MethodRel Rm} (ord : MapOrder)
    (s6 s7 s9 s10 s11 s12 s13 s14 s : ServiceInfo) :
  (forall names mi, Rm mi (set_HttpRule (map (renamed names) (HttpRule_ mi)) mi)) ->
  (forall t mi, Rm mi (append_HttpRule {| HttpMethod := POST; UriTemplate := Some t |} mi)) ->
  (forall b m, Rm m (set_BackendInfo b m)) ->
  processUsageRule s6 = Ok s7 ->
  processTypes ord (processAccessToken s7) = Ok s9 ->
  addGrpcHttpRules s9 = Ok s10 ->
  processTranscodingIgnoredQueryParams s10 = Ok s11 ->
  processApiKeyLocations ord s11 = Ok s12 ->
  processEmptyJwksUriByOpenID s12 = Ok s13 ->
  processLocalBackendOperations ord s13 = Ok s14 ->
  processAuthRequirement s14 = Ok s ->
  extends_by Rm s6 s7 /\ extends_by Rm s7 s11 /\ extends_by Rm s11 s12
  /\ extends_by Rm s12 s.
Proof.
  intros Hren Hpost Hb H7 H9 H10 H11 H12 H13 H14 H15.
  split; [by eapply extends_processUsageRule|].
  split; [|split; [by eapply extends_processApiKeyLocations|]].
  - eapply extends_trans; [apply extends_processAccessToken|].
    eapply extends_trans; [by eapply extends_processTypes|].
    eapply extends_trans; [by eapply extends_addGrpcHttpRules|].
    by eapply extends_processTranscodingIgnoredQueryParams.
  - eapply extends_trans; [by eapply extends_processEmptyJwksUriByOpenID|].
    eapply extends_trans; [by eapply extends_processLocalBackendOperations|].
    by eapply extends_processAuthRequirement.
Qed.



(* --------------------------------------------------------------------- *)
(** ** C1: the selectors of the rule sets *)
(* --------------------------------------------------------------------- *)

#[local] Instance any_step_rel : MethodRel any_step.
Proof. by split. Qed.

#[local] Instance any_step_http : HttpRel any_step.
Proof. by split. Qed.

(** A method stays. *)
Lemma resolves_evolves {Rm} (s s' : ServiceInfo) (k : string) :
  evolves Rm s s' -> is_Some (Methods s !! k) -> is_Some (Methods s' !! k).
Proof. intros (HM & _) [m Hm]. destruct (HM k m Hm) as (m' & Hm' & _). eauto. Qed.

(** A loop whose iteration for [x] leaves the method of [x] in the model has
    the methods of all its elements at its end. *)
Lemma forM_resolves {A S : Type} (model : S -> ServiceInfo) (sel : A -> string)
    (body : A -> S -> result S) (l : list A) :
  (forall x t t', body x t = Ok t' ->
     is_Some (Methods (model t') !! sel x) /\ evolves any_step (model t) (model t')) ->
  forall s s', forM l body s = Ok s' ->
    forall x, x ∈ l -> is_Some (Methods (model s') !! sel x).
Proof.
  intros Hbody s s' Hrun.
  assert (forall x t t', x ∈ l -> True -> body x t = Ok t' ->
            True /\ is_Some (Methods (model t') !! sel x)) as Hest.
  { intros x t t' _ _ Hstep. split; [done|]. exact (proj1 (Hbody x t t' Hstep)). }
  assert (forall x y t t', y ∈ l -> True -> is_Some (Methods (model t) !! sel x) ->
            body y t = Ok t' -> is_Some (Methods (model t') !! sel x)) as Hkeep.
  { intros x y t t' _ _ Hx Hstep. destruct (Hbody y t t' Hstep) as [_ He].
    by eapply resolves_evolves. }
  exact (proj2 (forM_each (fun _ => True)
                  (fun x t => is_Some (Methods (model t) !! sel x))
                  body l Hest Hkeep s s' I Hrun)).
Qed.

Lemma processQuota_resolves (ord : MapOrder) (s s' : ServiceInfo) :
  processQuota ord s = Ok s' ->
  forall rule, rule ∈ Service.MetricRules (serviceConfig s) ->
    is_Some (Methods s' !! MetricRule.Selector rule).
Proof.
  unfold processQuota. intros H rule Hrule.
  apply list_elem_of_lookup in Hrule as [i Hi].
  apply (forM_resolves id (fun ir : nat * MetricRule.t => MetricRule.Selector ir.2)
           _ _ ) with (x := (i, rule)) in H; [done| |].
  - intros [j r] t t' Hstep. simpl.
    destruct (Methods t !! MetricRule.Selector r) as [m|] eqn:Hm; inversion Hstep.
    split; [simpl; rewrite lookup_alter_eq, Hm; eauto|].
    by apply evolves_modifyMethod.
  - apply elem_of_lookup_imap. eauto.
Qed.

Lemma processBackendRule_resolves (s s' : ServiceInfo) :
  processBackendRule s = Ok s' ->
  forall r, r ∈ Service.BackendRules (serviceConfig s) ->
    is_Some (Methods s' !! BackendRule.Selector r).
Proof.
  unfold processBackendRule. intros H r Hr.
  apply bind_Ok in H as ([s1 cm1] & H & Hs'). inversion Hs'; subst s1; clear Hs'.
  apply (forM_resolves fst BackendRule.Selector _ _) with (x := r) in H; [done| |done].
  intros r0 st st' Hstep. split; [|by eapply evolves_processOneBackendRule].
  destruct st as [t cm]. unfold processOneBackendRule in Hstep.
  assert (forall scheme hostname path cluster t0 t1,
            addBackendInfoToMethod r0 scheme hostname path cluster t0 = Ok t1 ->
            is_Some (Methods t1 !! BackendRule.Selector r0)) as Hadd.
  { intros scheme hostname path cluster t0 t1 Ht.
    apply addBackendInfoToMethod_Ok in Ht as (t2 & m & b & _ & _ & HM & _).
    rewrite HM, lookup_insert_eq. eauto. }
  destruct (str_eqb (BackendRule.Address r0) "").
  - apply bind_Ok in Hstep as (t1 & H1 & Hstep). inversion Hstep; subst st'. simpl.
    by eapply Hadd.
  - destruct (ParseURI (BackendRule.Address r0)) as [[[[scheme hostname] port] path]|];
      [|discriminate].
    apply bind_Ok in Hstep as ([t0 cm0] & H0 & Hstep).
    apply bind_Ok in Hstep as (t1 & H1 & Hstep). inversion Hstep; subst st'. simpl.
    by eapply Hadd.
Qed.

Lemma processHttpRule_resolves (s s' : ServiceInfo) :
  processHttpRule s = Ok s' ->
  forall rule, rule ∈ Service.HttpRules (serviceConfig s) ->
    is_Some (Methods s' !! HttpRule.Selector rule).
Proof.
  unfold processHttpRule. intros H rule Hrule.
  apply bind_Ok in H as (st & H1 & H).
  apply bind_Ok in H as ([s2 added2] & H2 & H).
  apply (forM_resolves fst HttpRule.Selector _ _) with (x := rule) in H1; [| |done].
  - apply (resolves_evolves (Rm := any_step) s2 s').
    { apply (extends_addHealthCheck (Rm := any_step)) in H as (_ & _ & _ & He); done. }
    destruct (AllowCors st.1); [|by inversion H2; subst].
    apply (extends_corsRules (Rm := any_step)) in H2 as (_ & _ & _ & He).
    by apply (resolves_evolves (Rm := any_step) st.1 s2).
  - intros r [t added] t' Hstep.
    apply bind_Ok in Hstep as (t1 & Hget & Hstep).
    apply (extends_addHttpRules (Rm := any_step) (HttpRule.Selector r)
             (r :: HttpRule.AdditionalBindings r) (t1, added) t')
      in Hstep as (_ & _ & _ & He).
    split.
    + apply (resolves_evolves (Rm := any_step) t1 t'.1); [done|].
      by eapply getOrCreateMethod_lookup.
    + eapply evolves_trans; [by eapply evolves_getOrCreateMethod|done].
Qed.

Lemma processUsageRule_resolves (s s' : ServiceInfo) :
  processUsageRule s = Ok s' ->
  forall r, r ∈ Service.UsageRules (serviceConfig s) ->
    is_Some (Methods s' !! UsageRule.Selector r).
Proof.
  unfold processUsageRule. intros H r Hr.
  apply (forM_resolves id UsageRule.Selector _ _) with (x := r) in H; [done| |done].
  intros r0 t t' Hstep. simpl.
  apply bind_Ok in Hstep as (t1 & Hget & Hstep). inversion Hstep; subst t'.
  assert (evolves any_step t1 (modifyMethod (UsageRule.Selector r0)
            (fun method =>
               set_SkipServiceControl (UsageRule.SkipServiceControl r0)
                 (set_AllowUnregisteredCalls (UsageRule.AllowUnregisteredCalls r0) method))
            t1)) as He by (by apply evolves_modifyMethod).
  split.
  - apply (resolves_evolves _ _ _ He). by eapply getOrCreateMethod_lookup.
  - eapply evolves_trans; [by eapply evolves_getOrCreateMethod|done].
Qed.

Lemma processApiKeyLocations_resolves (ord : MapOrder) (s s' : ServiceInfo) :
  processApiKeyLocations ord s = Ok s' ->
  forall rule, rule ∈ Service.SystemParameterRules (serviceConfig s) ->
    is_Some (Methods s' !! SystemParameterRule.Selector rule).
Proof.
  intros H rule Hrule. unfold processApiKeyLocations in H.
  apply bind_Ok in H as (s1 & H1 & H). inversion H as [Hs']; clear H Hs'.
  apply (forM_resolves id SystemParameterRule.Selector _ _) with (x := rule) in H1;
    [| |done].
  - revert H1. apply (resolves_evolves (Rm := any_step)). apply evolves_foldl.
    intros t operation. destruct (Methods t !! operation) as [method|];
      [|apply evolves_refl].
    destruct (ApiKeyLocations method); [|apply evolves_refl].
    by apply evolves_same_methods.
  - intros r0 t t' Hstep. simpl.
    apply bind_Ok in Hstep as (t1 & Hget & Hstep). inversion Hstep; subst t'.
    pose proof (extends_extractApiKeyLocations (Rm := any_step)
                  (SystemParameterRule.Selector r0)
                  (filter (fun parameter => SystemParameter.Name parameter = ApiKeyParameterName)
                     (SystemParameterRule.Parameters r0)) t1) as (_ & _ & _ & He).
    split.
    + apply (resolves_evolves _ _ _ He). by eapply getOrCreateMethod_lookup.
    + eapply evolves_trans; [by eapply evolves_getOrCreateMethod|done].
Qed.


Lemma rules_up_to_providers (c c' : Service.t) :
  Service.set_AuthProviders [] c' = Service.set_AuthProviders [] c ->
  Service.BackendRules c' = Service.BackendRules c
  /\ Service.HttpRules c' = Service.HttpRules c
  /\ Service.UsageRules c' = Service.UsageRules c
  /\ Service.MetricRules c' = Service.MetricRules c
  /\ Service.SystemParameterRules c' = Service.SystemParameterRules c
  /\ Service.AuthRules c' = Service.AuthRules c.
Proof.
  intros H.
  split; [exact (f_equal Service.BackendRules H)|].
  split; [exact (f_equal Service.HttpRules H)|].
  split; [exact (f_equal Service.UsageRules H)|].
  split; [exact (f_equal Service.MetricRules H)|].
  split; [exact (f_equal Service.SystemParameterRules H)|].
  exact (f_equal Service.AuthRules H).
Qed.

(** An authentication rule with a requirement whose selector names no
    method makes [processAuthRequirement] return an error. *)
Lemma processAuthRequirement_unknown (s : ServiceInfo) (rule : AuthenticationRule.t) :
  rule ∈ Service.AuthRules (serviceConfig s) ->
  AuthenticationRule.Requirements rule <> [] ->
  Methods s !! AuthenticationRule.Selector rule = None ->
  exists e, processAuthRequirement s = Err e.
Proof.
  unfold processAuthRequirement. generalize (Service.AuthRules (serviceConfig s)).
  intros rules Hin Hreq. revert s Hin.
  induction rules as [|r0 rules IH]; intros t Hin Hnone; [by apply elem_of_nil in Hin|].
  simpl. apply elem_of_cons in Hin as [<-|Hin].
  - destruct (AuthenticationRule.Requirements rule); [done|].
    rewrite Hnone. simpl. eauto.
  - destruct (AuthenticationRule.Requirements r0); [simpl; by apply IH|].
    destruct (Methods t !! AuthenticationRule.Selector r0) as [m0|] eqn:Hm0;
      [|simpl; eauto].
    simpl. apply IH; [done|]. simpl.
    destruct (decide (AuthenticationRule.Selector r0 = AuthenticationRule.Selector rule))
      as [Heq|Hne]; [congruence|]. by rewrite lookup_alter_ne.
Qed.

(** C1, the part of the claim that holds. After a build that succeeds the
    selector of every backend, HTTP, usage, quota and system-parameter rule
    names a method, and so does the selector of every authentication rule
    with a requirement. *)
Theorem selectors_resolve (ord : MapOrder) (cfg : Service.t) (id : string)
    (opts : Options.t) (s : ServiceInfo) :
  NewServiceInfoFromServiceConfig ord (Some cfg) id opts = Ok s ->
  (forall selector, selector ∈ ruleSelectors cfg -> is_Some (Methods s !! selector))
  /\ (forall rule, rule ∈ Service.AuthRules cfg ->
        AuthenticationRule.Requirements rule <> [] ->
        is_Some (Methods s !! AuthenticationRule.Selector rule)).
Proof.
  intros Hbuild.
  destruct (build_phases ord cfg id opts s Hbuild)
    as (s1 & s3 & s4 & s5 & s6 & s7 & s9 & s10 & s11 & s12 & s13 & s14
        & H1 & H3 & H4 & H5 & H6 & H7 & H9 & H10 & H11 & H12 & H13 & H14 & H15).
  destruct (buildLocalBackend_Ok _ _ H1) as (local & _ & _ & _ & _ & _ & _ & _ & HC1 & _).
  simpl in HC1.
  destruct (before_processHttpRule (Rm := any_step) ord s1 s3 s4 s5)
    as (E2 & E3 & E4 & E5 & HC5); [done..|].
  destruct (after_processHttpRule (Rm := any_step) ord s6 s7 s9 s10 s11 s12 s13 s14 s)
    as (E7 & E11 & E12 & E15); [done..|].
  pose proof (extends_processHttpRule s5 s6 H6) as E6.
  pose proof (extends_processEmptyJwksUriByOpenID (Rm := any_step) s12 s13 H13) as E13.
  assert (extends_by any_step s13 s14) as E14
    by (by eapply extends_processLocalBackendOperations).
  pose proof (extends_processAuthRequirement (Rm := any_step) s14 s H15) as E15'.
  set (same c := Service.set_AuthProviders [] c = Service.set_AuthProviders [] cfg).
  assert (same (serviceConfig s3)) as K3.
  { unfold same. destruct E3 as (_ & -> & _), E2 as (_ & -> & _). by rewrite HC1. }
  assert (same (serviceConfig s4)) as K4.
  { unfold same. by destruct E4 as (_ & -> & _). }
  assert (same (serviceConfig s5)) as K5 by (unfold same; by rewrite HC5).
  assert (same (serviceConfig s6)) as K6.
  { unfold same. by destruct E6 as (_ & -> & _). }
  assert (same (serviceConfig s11)) as K11.
  { unfold same. destruct E11 as (_ & -> & _), E7 as (_ & -> & _). done. }
  assert (same (serviceConfig s14)) as K14.
  { unfold same. destruct E14 as (_ & -> & _), E13 as (_ & -> & _), E12 as (_ & -> & _).
    done. }
  assert (forall k, is_Some (Methods s12 !! k) -> is_Some (Methods s !! k)) as P12.
  { intros k. apply (resolves_evolves (Rm := any_step)). by apply extends_evolves. }
  assert (forall k, is_Some (Methods s7 !! k) -> is_Some (Methods s !! k)) as P7.
  { intros k Hk. apply P12. revert Hk. apply (resolves_evolves (Rm := any_step)).
    apply extends_evolves. by eapply extends_trans. }
  assert (forall k, is_Some (Methods s6 !! k) -> is_Some (Methods s !! k)) as P6.
  { intros k Hk. apply P7. revert Hk. apply (resolves_evolves (Rm := any_step)).
    by apply extends_evolves. }
  assert (forall k, is_Some (Methods s5 !! k) -> is_Some (Methods s !! k)) as P5.
  { intros k Hk. apply P6. revert Hk. apply (resolves_evolves (Rm := method_evolves)).
    by apply extends_evolves. }
  assert (forall k, is_Some (Methods s4 !! k) -> is_Some (Methods s !! k)) as P4.
  { intros k Hk. apply P5. revert Hk. by apply (resolves_evolves (Rm := any_step)). }
  split.
  - intros selector Hsel. unfold ruleSelectors in Hsel.
    rewrite !elem_of_app, !list_elem_of_fmap in Hsel.
    destruct Hsel as [(r & -> & Hr)|[(r & -> & Hr)|[(r & -> & Hr)|[(r & -> & Hr)|(r & -> & Hr)]]]].
    + apply P5. apply (processBackendRule_resolves s4 s5 H5).
      by destruct (rules_up_to_providers _ _ K4) as (-> & _).
    + apply P6. apply (processHttpRule_resolves s5 s6 H6).
      by destruct (rules_up_to_providers _ _ K5) as (_ & -> & _).
    + apply P7. apply (processUsageRule_resolves s6 s7 H7).
      by destruct (rules_up_to_providers _ _ K6) as (_ & _ & -> & _).
    + apply P4. apply (processQuota_resolves ord s3 s4 H4).
      by destruct (rules_up_to_providers _ _ K3) as (_ & _ & _ & -> & _).
    + apply P12. apply (processApiKeyLocations_resolves ord s11 s12 H12).
      by destruct (rules_up_to_providers _ _ K11) as (_ & _ & _ & _ & -> & _).
  - intros rule Hrule Hreq.
    destruct (Methods s14 !! AuthenticationRule.Selector rule) as [m|] eqn:Hm.
    + apply (resolves_evolves (Rm := any_step) s14 s); [by apply extends_evolves|eauto].
    + destruct (processAuthRequirement_unknown s14 rule) as [e He]; [|done|done|congruence].
      by destruct (rules_up_to_providers _ _ K14) as (_ & _ & _ & _ & _ & ->).
Qed.


(* --------------------------------------------------------------------- *)
(** ** C7: the cluster list does not depend on the run *)
(* --------------------------------------------------------------------- *)

Lemma same_backends_sym (s s' : ServiceInfo) : same_backends s s' -> same_backends s' s.
Proof. intros (? & ? & ? & ?). by repeat split. Qed.

Lemma same_backends_trans (s1 s2 s3 : ServiceInfo) :
  same_backends s1 s2 -> same_backends s2 s3 -> same_backends s1 s3.
Proof. intros (? & ? & ? & ?) (? & ? & ? & ?). repeat split; congruence. Qed.

(** Two runs of a loop from related states end in related states, when
    each iteration keeps the relation. *)
Lemma forM_sim {A S : Type} (R : S -> S -> Prop) (body : A -> S -> result S) (l : list A) :
  (forall x s1 s2 s1' s2', R s1 s2 -> body x s1 = Ok s1' -> body x s2 = Ok s2' ->
     R s1' s2') ->
  forall s1 s2 s1' s2', R s1 s2 -> forM l body s1 = Ok s1' -> forM l body s2 = Ok s2' ->
    R s1' s2'.
Proof.
  intros Hbody. induction l as [|x l IH]; intros s1 s2 s1' s2' HR H1 H2; simpl in H1, H2.
  - inversion H1; inversion H2; by subst.
  - apply bind_Ok in H1 as (t1 & Hx1 & H1). apply bind_Ok in H2 as (t2 & Hx2 & H2).
    eapply IH; [|exact H1|exact H2]. by eapply Hbody.
Qed.

Lemma processOneBackendRule_sim (r : BackendRule.t)
    (st1 st2 st1' st2' : ServiceInfo * gmap string string) :
  same_backends st1.1 st2.1 /\ st1.2 = st2.2 ->
  processOneBackendRule r st1 = Ok st1' -> processOneBackendRule r st2 = Ok st2' ->
  same_backends st1'.1 st2'.1 /\ st1'.2 = st2'.2.
Proof.
  destruct st1 as [s1 cm], st2 as [s2 cm2]. intros [HB Hcm] H1 H2. simpl in HB, Hcm.
  subst cm2. unfold processOneBackendRule in H1, H2.
  destruct (str_eqb (BackendRule.Address r) "").
  - apply bind_Ok in H1 as (t1 & Ht1 & H1). apply bind_Ok in H2 as (t2 & Ht2 & H2).
    inversion H1; inversion H2; subst. simpl. split; [|done].
    apply addBackendInfoToMethod_backends in Ht1, Ht2.
    eapply same_backends_trans; [|exact Ht2].
    eapply same_backends_trans; [apply same_backends_sym; exact Ht1|exact HB].
  - destruct (ParseURI (BackendRule.Address r)) as [[[[scheme hostname] port] path]|];
      [|discriminate].
    apply bind_Ok in H1 as ([u1 cm1] & Hc1 & H1).
    apply bind_Ok in H2 as ([u2 cm2] & Hc2 & H2).
    apply bind_Ok in H1 as (t1 & Ht1 & H1). apply bind_Ok in H2 as (t2 & Ht2 & H2).
    inversion H1; inversion H2; subst. simpl.
    apply addBackendInfoToMethod_backends in Ht1, Ht2.
    assert (same_backends u1 u2 /\ cm1 = cm2) as [HU ->].
    { unfold createRemoteCluster in Hc1, Hc2. destruct HB as (HN & HG & HL & HR).
      destruct (cm !! hostPort hostname port);
        [inversion Hc1; inversion Hc2; subst; by repeat split|].
      destruct (ParseBackendProtocol scheme (BackendRule.Protocol r)) as [[p tls] []];
        [discriminate|].
      inversion Hc1; inversion Hc2; subst. split; [|done].
      destruct (decide (p = GRPC)); repeat split; simpl; congruence. }
    split; [|done].
    eapply same_backends_trans; [|exact Ht2].
    eapply same_backends_trans; [apply same_backends_sym; exact Ht1|exact HU].
Qed.

Lemma processLocalBackendOperations_backends (ord : MapOrder) (s s' : ServiceInfo) :
  processLocalBackendOperations ord s = Ok s' -> same_backends s s'.
Proof.
  intros H. by apply (extends_processLocalBackendOperations (Rm := any_step)) in H as (HB & _).
Qed.

(** C7, the part of the claim that holds: two builds of one service
    description with the same options, whatever the order in which each
    ranges over its maps, give the same cluster list. *)
Theorem cluster_list_run_independent (ord ord' : MapOrder) (cfg : Service.t) (id : string)
    (opts : Options.t) (s s' : ServiceInfo) :
  NewServiceInfoFromServiceConfig ord (Some cfg) id opts = Ok s ->
  NewServiceInfoFromServiceConfig ord' (Some cfg) id opts = Ok s' ->
  clusterList s = clusterList s'.
Proof.
  intros H H'.
  assert (forall o t, NewServiceInfoFromServiceConfig o (Some cfg) id opts = Ok t ->
            exists s1 s4 s5,
              buildLocalBackend (newServiceInfo cfg id opts) = Ok s1
              /\ processBackendRule s4 = Ok s5
              /\ same_backends s1 s4 /\ same_backends s5 t
              /\ Service.BackendRules (serviceConfig s4) = Service.BackendRules cfg)
    as Hphases.
  { intros o t Ht. apply build_phases in Ht
      as (s1 & s3 & s4 & s5 & s6 & s7 & s9 & s10 & s11 & s12 & s13 & s14
          & H1 & H3 & H4 & H5 & H6 & H7 & H9 & H10 & H11 & H12 & H13 & H14 & H15).
    exists s1, s4, s5. split; [done|]. split; [done|].
    pose proof (extends_before_backend o s1 s3 s4 H3 H4) as E14.
    pose proof (extends_after_backend o _ _ _ _ _ _ _ _ H6 H7 H9 H10 H11 H12 H13) as E513.
    pose proof (extends_processAuthRequirement (Rm := method_evolves) _ _ H15) as E15.
    destruct (buildLocalBackend_Ok _ _ H1) as (_ & _ & _ & _ & _ & _ & _ & _ & HC1 & _).
    split; [by destruct E14|]. split.
    - eapply same_backends_trans; [by destruct E513|].
      eapply same_backends_trans; [by eapply processLocalBackendOperations_backends|].
      by destruct E15.
    - by rewrite (extends_BackendRules _ _ E14), HC1. }
  destruct (Hphases ord s H) as (s1 & s4 & s5 & H1 & H5 & B14 & B5 & Hrules).
  destruct (Hphases ord' s' H') as (s1' & s4' & s5' & H1' & H5' & B14' & B5' & Hrules').
  assert (s1' = s1) as -> by congruence.
  assert (same_backends s5 s5') as B55.
  { unfold processBackendRule in H5, H5'. rewrite Hrules in H5. rewrite Hrules' in H5'.
    apply bind_Ok in H5 as ([t5 cm5] & H5 & Heq). inversion Heq; subst t5; clear Heq.
    apply bind_Ok in H5' as ([t5' cm5'] & H5' & Heq). inversion Heq; subst t5'; clear Heq.
    assert (same_backends s4 s4') as B44.
    { eapply same_backends_trans; [apply same_backends_sym; exact B14|exact B14']. }
    exact (proj1 (forM_sim (fun st st' : ServiceInfo * gmap string string =>
                              same_backends st.1 st'.1 /\ st.2 = st'.2)
                    processOneBackendRule (Service.BackendRules cfg)
                    (fun r => processOneBackendRule_sim r)
                    (s4, ∅) (s4', ∅) (s5, cm5) (s5', cm5') (conj B44 eq_refl) H5 H5')). }
  assert (same_backends s s') as (_ & _ & HL & HR).
  { eapply same_backends_trans; [apply same_backends_sym; exact B5|].
    eapply same_backends_trans; [exact B55|exact B5']. }
  unfold clusterList. by rewrite HL, HR.
Qed.


(* --------------------------------------------------------------------- *)
(** ** Further properties: strings *)
(* --------------------------------------------------------------------- *)

Lemma String_app_cons (c : ascii) (a b : string) : String c a +:+ b = String c (a +:+ b).
Proof. done. Qed.

Lemma String_app_assoc (a b c : string) : (a +:+ b) +:+ c = a +:+ (b +:+ c).
Proof.
  induction a as [|x a IH]; [done|]. by rewrite !String_app_cons, IH.
Qed.

Lemma String_app_nil_r (a : string) : a +:+ "" = a.
Proof. induction a as [|x a IH]; [done|]. by rewrite String_app_cons, IH. Qed.

Lemma String_length_app (a b : string) :
  String.length (a +:+ b) = (String.length a + String.length b)%nat.
Proof.
  induction a as [|x a IH]; [done|]. rewrite String_app_cons. simpl. by rewrite IH.
Qed.

Lemma substring_prefix (a b : string) : String.substring 0 (String.length a) (a +:+ b) = a.
Proof.
  induction a as [|x a IH]; [by destruct b|]. rewrite String_app_cons. simpl. by rewrite IH.
Qed.

Lemma String_rev_app (a b : string) : String.rev_app a b = String.rev a +:+ b.
Proof.
  unfold String.rev. revert b. induction a as [|x a IH]; intros b; [done|]. simpl.
  rewrite (IH (String x b)), (IH (String x "")), String_app_assoc. done.
Qed.

Lemma String_rev_cons (c : ascii) (a b : string) :
  String.rev (String c a) +:+ b = String.rev a +:+ String c b.
Proof.
  unfold String.rev at 1. simpl. by rewrite String_rev_app, String_app_assoc.
Qed.

Lemma contains_cons (sep c : ascii) (s : string) :
  contains sep (String c s) <-> c = sep \/ contains sep s.
Proof.
  split.
  - intros ([|x a] & b & H); [inversion H; by left|].
    rewrite String_app_cons in H. inversion H; subst. right. by exists a, b.
  - intros [->|(a & b & ->)]; [by exists "", s|by exists (String c a), b].
Qed.

Lemma contains_nil (sep : ascii) : ~ contains sep "".
Proof. intros ([|x a] & b & H); discriminate. Qed.

(** [strings.Split]: without the separator the string is the one part;
    with it there are two parts or more, and the last part is what follows
    the last separator. *)
Lemma Split_aux_last (sep : ascii) (s cur : string) :
  (Split_aux sep s cur = [String.rev cur +:+ s] /\ ~ contains sep s)
  \/ ((1 < length (Split_aux sep s cur))%nat
      /\ exists pre,
           String.rev cur +:+ s = pre +:+ String sep (List.last (Split_aux sep s cur) "")
           /\ ~ contains sep (List.last (Split_aux sep s cur) "")).
Proof.
  revert cur. induction s as [|c s IH]; intros cur; simpl.
  - left. split; [by rewrite String_app_nil_r|apply contains_nil].
  - destruct (Ascii.eqb_spec c sep) as [->|Hne].
    + right. destruct (IH "") as [[Heq Hno]|(Hlen & pre & Heq & Hno)].
      * rewrite Heq. simpl. split; [lia|]. by exists (String.rev cur).
      * split; [simpl; lia|].
        destruct (Split_aux sep s "") as [|x l] eqn:E; [simpl in Hlen; lia|].
        exists (String.rev cur +:+ String sep pre).
        split; [|done]. rewrite String_app_assoc, String_app_cons.
        change (String.rev "" +:+ s) with s in Heq. by rewrite Heq.
    + destruct (IH (String c cur)) as [[Heq Hno]|(Hlen & pre & Heq & Hno)].
      * left. rewrite Heq, String_rev_cons. split; [done|].
        rewrite contains_cons. intros [?|?]; [congruence|done].
      * right. split; [done|]. exists pre. by rewrite <-String_rev_cons.
Qed.

(* --------------------------------------------------------------------- *)
(** ** Further properties: the entries of [Methods] *)
(* --------------------------------------------------------------------- *)

(** The two outcomes of [getOrCreateMethod] on a selector without entry. *)
Lemma getOrCreateMethod_split (name : string) (s : ServiceInfo) :
  Methods s !! name = None ->
  (~ dotted name /\ getOrCreateMethod name s = Err (ErrMethodFormat name))
  \/ (dotted name
      /\ exists shortName apiName,
           name = apiName +:+ "." +:+ shortName
           /\ ~ dotted shortName
           /\ getOrCreateMethod name s
              = Ok (set_Operations (Operations s ++ [name])
                      (set_Methods (<[name := newMethodInfo shortName apiName]> (Methods s))
                         s))).
Proof.
  intros Hnone. unfold getOrCreateMethod, Split. rewrite Hnone.
  destruct (Split_aux_last "." name "") as [[Heq Hno]|(Hlen & pre & Heq & Hno)].
  - left. rewrite Heq. by simpl.
  - change (String.rev "" +:+ name) with name in Heq.
    right. split; [by eexists _, _|].
    destruct (length (Split_aux "." name "") <=? 1)%nat eqn:E;
      [apply Nat.leb_le in E; lia|].
    remember (List.last (Split_aux "." name "") "") as short eqn:Hs.
    exists short, pre. split; [done|]. split; [done|].
    assert (String.substring 0 (String.length name - String.length short - 1) name = pre)
      as ->; [|done].
    clear Hs Hlen E Hno Hnone. subst name. rewrite String_length_app. simpl.
    replace (String.length pre + S (String.length short) - String.length short - 1)%nat
      with (String.length pre) by lia.
    apply substring_prefix.
Qed.

(** X1 (the name of a created method). For a selector that has no entry in
    [Methods], [getOrCreateMethod] fails with the format error exactly when
    the selector has no dot. Otherwise it creates the entry and appends the
    selector to [Operations]; the short name of the entry is what follows
    the last dot (it has no dot itself), the API name is what precedes that
    dot, so [ApiName.ShortName] is the selector again. *)
Theorem getOrCreateMethod_names (name : string) (s : ServiceInfo) :
  Methods s !! name = None ->
  (~ dotted name <-> getOrCreateMethod name s = Err (ErrMethodFormat name))
  /\ (dotted name ->
      exists shortName apiName,
        name = apiName +:+ "." +:+ shortName
        /\ ~ dotted shortName
        /\ getOrCreateMethod name s
           = Ok (set_Operations (Operations s ++ [name])
                   (set_Methods (<[name := newMethodInfo shortName apiName]> (Methods s)) s))).
Proof.
  intros Hnone.
  destruct (getOrCreateMethod_split name s Hnone)
    as [[Hno Herr]|(Hdot & sh & api & Hname & Hsh & Hok)].
  - split; [done|]. intros Hdot. by destruct Hno.
  - split; [|intros _; by exists sh, api].
    split; [intros Hno; by destruct Hno|]. rewrite Hok. discriminate.
Qed.


(* --------------------------------------------------------------------- *)
(** ** Further properties: the writes of the phases *)
(* --------------------------------------------------------------------- *)

Lemma writes_refl (p : phase) (s : ServiceInfo) : writes p s s.
Proof. apply rtc_refl. Qed.

Lemma writes_trans (p : phase) (s1 s2 s3 : ServiceInfo) :
  writes p s1 s2 -> writes p s2 s3 -> writes p s1 s3.
Proof. apply rtc_trans. Qed.

Lemma writes_once (p : phase) (s s' : ServiceInfo) : write p s s' -> writes p s s'.
Proof. apply rtc_once. Qed.

Lemma writes_then (p : phase) (s1 s2 s3 : ServiceInfo) :
  writes p s1 s2 -> write p s2 s3 -> writes p s1 s3.
Proof. intros H12 H23. by eapply rtc_r. Qed.

(** A property that every write of a phase keeps is kept by the phase. *)
Lemma writes_invariant (p : phase) (P : ServiceInfo -> Prop) :
  (forall s s', P s -> write p s s' -> P s') ->
  forall s s', writes p s s' -> P s -> P s'.
Proof.
  intros Hstep s s' Hrun. induction Hrun as [s|s t s' Hw _ IH]; [done|].
  intros HP. apply IH. by eapply Hstep.
Qed.

(** [getOrCreateMethod] writes [Methods] and [Operations] only. *)
Lemma getOrCreateMethod_fields (name : string) (s s' : ServiceInfo) :
  getOrCreateMethod name s = Ok s' ->
  Name s' = Name s /\ Opts s' = Opts s /\ serviceConfig s' = serviceConfig s
  /\ LocalBackendCluster s' = LocalBackendCluster s
  /\ RemoteBackendClusters s' = RemoteBackendClusters s
  /\ AllowCors s' = AllowCors s.
Proof.
  intros H.
  by destruct (getOrCreateMethod_cases name s s' H) as [(m & _ & ->)|(_ & sh & api & ->)].
Qed.

Lemma writes_getOrCreateMethod (p : phase) (name : string) (s s' : ServiceInfo) :
  getOrCreateMethod name s = Ok s' -> writes p s s'.
Proof.
  intros H. destruct (getOrCreateMethod_cases name s s' H) as [(m & _ & ->)|[Hnone _]].
  - apply writes_refl.
  - apply writes_once. by eapply write_create.
Qed.

Lemma writes_forM {A : Type} (p : phase) (body : A -> ServiceInfo -> result ServiceInfo)
    (l : list A) (s s' : ServiceInfo) :
  (forall x t t', x ∈ l -> writes p s t -> body x t = Ok t' -> writes p t t') ->
  forM l body s = Ok s' -> writes p s s'.
Proof.
  intros Hbody Hrun.
  refine (forM_invariant (fun t => writes p s t) body l _ s s' (writes_refl p s) Hrun).
  intros x t t' Hx Ht Hstep. eapply writes_trans; [done|]. by eapply Hbody.
Qed.

Lemma writes_foldl {A : Type} (p : phase) (step : ServiceInfo -> A -> ServiceInfo)
    (l : list A) (s : ServiceInfo) :
  (forall x t, x ∈ l -> writes p s t -> writes p t (step t x)) ->
  writes p s (foldl step s l).
Proof.
  intros Hstep.
  assert (forall l' t, l' ⊆ l -> writes p s t -> writes p s (foldl step t l')) as H.
  { induction l' as [|x l' IH]; intros t Hsub Ht; simpl; [done|].
    apply IH; [set_solver|]. eapply writes_trans; [done|]. apply Hstep; [set_solver|done]. }
  apply H; [done|apply writes_refl].
Qed.

(** Peels the writes of a step off its final state, outermost first. *)
Ltac writes_peel :=
  repeat match goal with
  | |- writes ?p ?s ?s => apply writes_refl
  | |- writes ?p ?s (modifyMethod ?n ?f ?t) =>
      apply (writes_then p s t); [|apply write_method]
  | |- writes ?p ?s (glog ?e ?t) =>
      apply (writes_then p s t); [|apply write_log]
  | |- writes ?p ?s (ignoreQueryParam ?e ?t) =>
      apply (writes_then p s t); [|apply write_ignoreQueryParam; auto]
  | |- writes ?p ?s (if ?c then _ else _) => destruct c eqn:?
  end.

(** What the writes of a phase leave as it is. *)
Lemma write_frame (p : phase) (s s' : ServiceInfo) :
  write p s s' ->
  Name s' = Name s /\ ConfigID s' = ConfigID s
  /\ LocalBackendCluster s' = LocalBackendCluster s
  /\ (p <> ProcessApis -> ApiNames s' = ApiNames s)
  /\ (p <> ProcessEndpoints -> AllowCors s' = AllowCors s)
  /\ (p <> ProcessAccessToken -> AccessToken_ s' = AccessToken_ s)
  /\ (p <> ProcessBackendRule ->
      GrpcSupportRequired s' = GrpcSupportRequired s
      /\ RemoteBackendClusters s' = RemoteBackendClusters s)
  /\ (p <> ProcessEmptyJwksUriByOpenID -> serviceConfig s' = serviceConfig s)
  /\ (p <> AddHealthCheck -> Opts s' = Opts s)
  /\ (p <> ProcessTranscodingIgnoredQueryParams -> p <> ProcessApiKeyLocations ->
      AllTranscodingIgnoredQueryParams s' = AllTranscodingIgnoredQueryParams s).
Proof.
  intros Hw. destruct Hw as [p name s s' Hnone Hget| | | | | | | | | |];
    try (unfold processAccessToken; destruct (negb _)); simpl; try by repeat split.
  - destruct (getOrCreateMethod_cases name s s' Hget) as [(m & _ & ->)|(_ & sh & api & ->)];
      by repeat split.
  - destruct H as [->| ->]; by repeat split.
Qed.

Lemma writes_frame (p : phase) (s s' : ServiceInfo) :
  writes p s s' ->
  Name s' = Name s /\ ConfigID s' = ConfigID s
  /\ LocalBackendCluster s' = LocalBackendCluster s
  /\ (p <> ProcessApis -> ApiNames s' = ApiNames s)
  /\ (p <> ProcessEndpoints -> AllowCors s' = AllowCors s)
  /\ (p <> ProcessAccessToken -> AccessToken_ s' = AccessToken_ s)
  /\ (p <> ProcessBackendRule ->
      GrpcSupportRequired s' = GrpcSupportRequired s
      /\ RemoteBackendClusters s' = RemoteBackendClusters s)
  /\ (p <> ProcessEmptyJwksUriByOpenID -> serviceConfig s' = serviceConfig s)
  /\ (p <> AddHealthCheck -> Opts s' = Opts s)
  /\ (p <> ProcessTranscodingIgnoredQueryParams -> p <> ProcessApiKeyLocations ->
      AllTranscodingIgnoredQueryParams s' = AllTranscodingIgnoredQueryParams s).
Proof.
  intros Hrun. induction Hrun as [s|s t s' Hw _ IH]; [by repeat split|].
  apply write_frame in Hw.
  destruct Hw as (W1 & W2 & W3 & W4 & W5 & W6 & W7 & W8 & W9 & W10).
  destruct IH as (I1 & I2 & I3 & I4 & I5 & I6 & I7 & I8 & I9 & I10).
  split; [congruence|]. split; [congruence|]. split; [congruence|].
  split; [intros H; rewrite I4, W4; done|].
  split; [intros H; rewrite I5, W5; done|].
  split; [intros H; rewrite I6, W6; done|].
  split; [intros H; destruct (I7 H) as [-> ->]; by apply W7|].
  split; [intros H; rewrite I8, W8; done|].
  split; [intros H; rewrite I9, W9; done|].
  intros H H'. rewrite I10, W10; done.
Qed.

Lemma writes_processEndpoints (s : ServiceInfo) :
  writes ProcessEndpoints s (processEndpoints s).
Proof.
  unfold processEndpoints. apply writes_foldl. intros endpoint t Hin Ht.
  destruct (writes_frame _ _ _ Ht) as (_ & _ & _ & _ & _ & _ & _ & HC & _).
  destruct (str_eqb _ _) eqn:Hname; simpl; [|apply writes_refl].
  destruct (Endpoint.AllowCors endpoint) eqn:Hallow; [|apply writes_refl].
  apply writes_once. apply (write_AllowCors endpoint); [|by apply str_eqb_eq|done].
  by rewrite HC.
Qed.

Lemma writes_processApis (s s' : ServiceInfo) :
  processApis s = Ok s' -> writes ProcessApis s s'.
Proof.
  unfold processApis. apply writes_forM. intros api t t' Hapi Ht.
  intros Hrun.
  pose proof (writes_once _ _ _ (write_ApiNames api t)) as Hnames.
  eapply writes_trans; [exact Hnames|].
  revert Hrun. apply writes_forM. intros method u u' Hmethod Hu. unfold processApiMethod.
  destruct (getOrCreateMethod _ u) as [u1| |] eqn:Hget; [|discriminate..].
  intros Hstep. eapply writes_trans; [by eapply writes_getOrCreateMethod|].
  assert (serviceConfig u1 = serviceConfig s) as HC.
  { destruct (getOrCreateMethod_fields _ _ _ Hget) as (_ & _ & -> & _).
    destruct (writes_frame _ _ _ Hu) as (_ & _ & _ & _ & _ & _ & _ & HCu & _).
    destruct (writes_frame _ _ _ Hnames) as (_ & _ & _ & _ & _ & _ & _ & HCn & _).
    destruct (writes_frame _ _ _ Ht) as (_ & _ & _ & _ & _ & _ & _ & HCt & _).
    rewrite (HCu ltac:(discriminate)), (HCn ltac:(discriminate)).
    exact (HCt ltac:(discriminate)). }
  assert (forall v, declares (serviceConfig v) api method
                      (Api.Name api +:+ "." +:+ ApiMethod.Name method)
                    <-> api ∈ Service.Apis (serviceConfig v)) as Hdecl
    by (intros v; unfold declares; split; [by intros [? _]|by intros ?]).
  destruct (HasPrefix _ _) eqn:Hprefix; inversion Hstep; subst u'; writes_peel;
    try apply write_ApiVersion;
    try (apply (write_IsStreaming _ _ api method); [apply Hdecl; simpl; by rewrite HC|done]).
  apply (write_RequestTypeName _ _ api method); [|done].
  apply Hdecl. simpl. by destruct (_ || _); simpl; rewrite HC.
Qed.

Lemma writes_processQuota (ord : MapOrder) (s s' : ServiceInfo) :
  processQuota ord s = Ok s' -> writes ProcessQuota s s'.
Proof.
  unfold processQuota. apply writes_forM. intros [i rule] t t' _ _.
  destruct (Methods t !! _); [|discriminate]. intros H; inversion H.
  writes_peel. constructor.
Qed.

Lemma writes_processUsageRule (s s' : ServiceInfo) :
  processUsageRule s = Ok s' -> writes ProcessUsageRule s s'.
Proof.
  unfold processUsageRule. apply writes_forM. intros r t t' _ _ Hstep.
  apply bind_Ok in Hstep as (t1 & Hget & Hstep). inversion Hstep.
  eapply writes_trans; [by eapply writes_getOrCreateMethod|].
  writes_peel. apply write_usage.
Qed.

Lemma writes_processAccessToken (s : ServiceInfo) :
  writes ProcessAccessToken s (processAccessToken s).
Proof. apply writes_once, write_AccessToken. Qed.

Lemma writes_addBackendInfoToMethod (r : BackendRule.t)
    (scheme hostname path cluster : string) (s s' : ServiceInfo) :
  cluster = LocalBackendClusterName s
  \/ (exists c, c ∈ RemoteBackendClusters s /\ ClusterName c = cluster) ->
  addBackendInfoToMethod r scheme hostname path cluster s = Ok s' ->
  writes ProcessBackendRule s s'.
Proof.
  intros Hcluster H. unfold addBackendInfoToMethod in H.
  apply bind_Ok in H as (s1 & Hget & H).
  eapply writes_trans; [by eapply writes_getOrCreateMethod|].
  destruct (getOrCreateMethod_fields _ _ _ Hget) as (HN & _ & _ & _ & HRem & _).
  destruct (backendDeadline (BackendRule.Deadline r)) as [deadline negative].
  inversion H; subst s'; clear H.
  apply (writes_trans _ _
           (if negb (str_eqb (determineBackendAuthJwtAud r scheme hostname) "")
               && Options.NonGCP
                    (Opts (if negative
                           then glog (WarnNegativeDeadline (BackendRule.Selector r)) s1
                           else s1))
            then glog (WarnBackendAuthNonGCP (BackendRule.Selector r))
                   (if negative
                    then glog (WarnNegativeDeadline (BackendRule.Selector r)) s1 else s1)
            else if negative
                 then glog (WarnNegativeDeadline (BackendRule.Selector r)) s1 else s1)).
  { destruct (negb _ && _), negative; writes_peel. }
  apply writes_once, write_method, write_BackendInfo.
  split; [|split; [done|split; [done|]]]; simpl.
  - destruct Hcluster as [->|(c & Hc & Hname)].
    + left. unfold LocalBackendClusterName. by destruct (negb _ && _), negative; simpl; rewrite HN.
    + right. exists c. split; [|done]. by destruct (negb _ && _), negative; simpl; rewrite HRem.
  - intros Hconst. rewrite Hconst, bool_decide_eq_true_2, andb_true_r by done.
    destruct (str_eqb path "") eqn:E; [done|]. by apply str_eqb_neq.
Qed.

Lemma writes_processOneBackendRule (r : BackendRule.t)
    (st st' : ServiceInfo * gmap string string) :
  cluster_map_ok st -> processOneBackendRule r st = Ok st' ->
  writes ProcessBackendRule st.1 st'.1 /\ cluster_map_ok st'.
Proof.
  intros Hmap Hstep. destruct st as [t cm]. unfold processOneBackendRule in Hstep.
  destruct (str_eqb (BackendRule.Address r) "").
  - apply bind_Ok in Hstep as (t1 & H1 & Hstep). inversion Hstep; subst st'. simpl.
    assert (writes ProcessBackendRule t t1) as Hw
      by (eapply writes_addBackendInfoToMethod; [by left|done]).
    split; [done|]. intros a n Ha. destruct (Hmap a n Ha) as (c & Hc & Hn).
    exists c. split; [|done].
    destruct (addBackendInfoToMethod_backends _ _ _ _ _ _ _ H1) as (_ & _ & _ & HRem).
    simpl. by rewrite HRem.
  - destruct (ParseURI (BackendRule.Address r)) as [[[[scheme hostname] port] path]|];
      [|discriminate].
    apply bind_Ok in Hstep as ([t0 cm0] & H0 & Hstep).
    apply bind_Ok in Hstep as (t1 & H1 & Hstep). inversion Hstep; subst st'. simpl.
    assert (writes ProcessBackendRule t t0 /\ cluster_map_ok (t0, cm0)
            /\ is_Some (cm0 !! hostPort hostname port)) as (Hw0 & Hmap0 & Hsome).
    { unfold createRemoteCluster in H0.
      destruct (cm !! hostPort hostname port) eqn:Hcm.
      { inversion H0; subst. split; [apply writes_refl|]. split; [done|by eexists]. }
      destruct (ParseBackendProtocol scheme (BackendRule.Protocol r)) as [[p tls] []];
        [discriminate|].
      inversion H0; subst t0 cm0; clear H0. split.
      - eapply writes_then; [|apply write_RemoteBackendCluster].
        destruct (decide (p = GRPC)); [|apply writes_refl].
        apply writes_once, write_GrpcSupportRequired.
      - split; [|rewrite lookup_insert_eq; by eexists].
        intros a n Ha. simpl in *.
        destruct (decide (a = hostPort hostname port)) as [->|Hne].
        + rewrite lookup_insert_eq in Ha. inversion Ha; subst n.
          exists {| ClusterName := BackendClusterName (hostPort hostname port);
                    UseTLS := tls; Protocol := p; Hostname := hostname; Port := port |}.
          split; [set_solver|done].
        + rewrite lookup_insert_ne in Ha by done.
          destruct (Hmap a n Ha) as (c & Hc & Hn). exists c. split; [|done].
          simpl in Hc. destruct (decide (p = GRPC)); set_solver. }
    destruct Hsome as [n Hn]. rewrite Hn in H1. simpl in H1.
    assert (writes ProcessBackendRule t0 t1) as Hw1.
    { eapply writes_addBackendInfoToMethod; [right|done]. by apply (Hmap0 _ _ Hn). }
    split; [by eapply writes_trans|].
    intros a n' Ha. destruct (Hmap0 a n' Ha) as (c & Hc & Hn').
    exists c. split; [|done].
    destruct (addBackendInfoToMethod_backends _ _ _ _ _ _ _ H1) as (_ & _ & _ & HRem).
    simpl in *. by rewrite HRem.
Qed.

Lemma writes_processBackendRule (s s' : ServiceInfo) :
  processBackendRule s = Ok s' -> writes ProcessBackendRule s s'.
Proof.
  intros H. unfold processBackendRule in H.
  apply bind_Ok in H as ([s1 cm1] & H & Hs'). inversion Hs'; subst s1; clear Hs'.
  refine (proj1 (forM_invariant
                   (fun st => writes ProcessBackendRule s st.1 /\ cluster_map_ok st)
                   processOneBackendRule _ _ (s, ∅) (s', cm1) _ H)).
  - intros r st st' _ [Hw Hmap] Hstep.
    destruct (writes_processOneBackendRule r st st' Hmap Hstep) as [Hw' Hmap'].
    split; [by eapply writes_trans|done].
  - split; [apply writes_refl|]. intros a n Ha. simpl in Ha. by rewrite lookup_empty in Ha.
Qed.

Lemma writes_forM_pair {A B : Type} (p : phase)
    (body : A -> ServiceInfo * B -> result (ServiceInfo * B))
    (l : list A) (st st' : ServiceInfo * B) :
  (forall x t t', x ∈ l -> writes p st.1 t.1 -> body x t = Ok t' -> writes p t.1 t'.1) ->
  forM l body st = Ok st' -> writes p st.1 st'.1.
Proof.
  intros Hbody Hrun.
  refine (forM_invariant (fun t => writes p st.1 t.1) body l _ st st' (writes_refl p _) Hrun).
  intros x t t' Hx Ht Hstep. eapply writes_trans; [done|]. by eapply Hbody.
Qed.

(** [getOrCreateMethod] keeps the entries there are. *)
Lemma getOrCreateMethod_keeps (name k : string) (m : MethodInfo) (s s' : ServiceInfo) :
  getOrCreateMethod name s = Ok s' -> Methods s !! k = Some m -> Methods s' !! k = Some m.
Proof.
  intros H Hk.
  destruct (getOrCreateMethod_cases name s s' H) as [(m0 & _ & ->)|(Hnone & sh & api & ->)];
    [done|].
  simpl. rewrite lookup_insert_ne; [done|]. intros ->. congruence.
Qed.

(** What one write does to the entry of a selector: nothing, or the entry
    is created, or it is written by one of the writes to a method. *)
Lemma write_lookup (p : phase) (s s' : ServiceInfo) (k : string) :
  write p s s' ->
  Methods s' !! k = Methods s !! k
  \/ (Methods s !! k = None
      /\ exists shortName apiName,
           k = apiName +:+ "." +:+ shortName /\ ~ dotted shortName
           /\ Methods s' !! k = Some (newMethodInfo shortName apiName))
  \/ (exists m f, Methods s !! k = Some m /\ methodWrite s k p f
                  /\ Methods s' !! k = Some (f m)).
Proof.
  intros Hw. destruct Hw as [p name s s' Hnone Hget|p name f s Hf| | | | | | | | |];
    try (unfold processAccessToken; destruct (negb _)); try by left.
  - destruct (decide (name = k)) as [->|Hne];
      [|left; by eapply getOrCreateMethod_other].
    right; left. split; [done|].
    destruct (getOrCreateMethod_split k s Hnone)
      as [[_ Herr]|(_ & sh & api & Hk & Hsh & Heq)]; [congruence|].
    rewrite Heq in Hget. inversion Hget. exists sh, api. split; [done|]. split; [done|].
    simpl. by rewrite lookup_insert_eq.
  - destruct (decide (name = k)) as [->|Hne].
    + destruct (Methods s !! k) as [m|] eqn:Hk.
      * right; right. exists m, f. split; [done|]. split; [done|].
        unfold modifyMethod. simpl. by rewrite lookup_alter_eq, Hk.
      * left. unfold modifyMethod. simpl. by rewrite lookup_alter_eq, Hk.
    + left. unfold modifyMethod. simpl. by rewrite lookup_alter_ne.
Qed.

(** Except for the renaming of [processTypes], a write to a method keeps
    its patterns and adds patterns at the end. *)
Lemma methodWrite_patterns (s : ServiceInfo) (k : string) (p : phase)
    (f : MethodInfo -> MethodInfo) (m : MethodInfo) :
  methodWrite s k p f -> p <> ProcessTypes ->
  exists l, HttpRule_ (f m) = HttpRule_ m ++ l.
Proof.
  intros Hf Hp. destruct Hf; simpl; try (exists []; by rewrite app_nil_r); try done;
    by eexists [_].
Qed.

Lemma write_has_pattern (p : phase) (s s' : ServiceInfo) (k : string) (pat : HttpPattern) :
  p <> ProcessTypes -> write p s s' -> has_pattern s k pat -> has_pattern s' k pat.
Proof.
  intros Hp Hw (m & Hk & Hin).
  destruct (write_lookup p s s' k Hw) as [Heq|[[Hnone _]|(m0 & f & Hk0 & Hf & Hk')]].
  - exists m. by rewrite Heq.
  - congruence.
  - rewrite Hk in Hk0. inversion Hk0; subst m0. exists (f m). split; [done|].
    destruct (methodWrite_patterns s k p f m Hf Hp) as [l ->]. set_solver.
Qed.

Lemma writes_templateOf (p : phase) (s s' : ServiceInfo) (t : UriTemplateT) :
  p <> ProcessTypes -> writes p s s' -> templateOf s t -> templateOf s' t.
Proof.
  intros Hp Hrun. revert s s' Hrun. apply writes_invariant.
  intros u u' (k & m & pat & Hk & Hin & Ht) Hw.
  destruct (write_has_pattern p u u' k pat Hp Hw) as (m' & Hk' & Hin'); [by exists m|].
  by exists k, m', pat.
Qed.

Lemma writes_addHttpRule (method : string) (r : HttpRule.t)
    (st st' : ServiceInfo * gmap string bool) :
  addHttpRule method r st = Ok st' -> writes ProcessHttpRule st.1 st'.1.
Proof.
  destruct st as [s added]. unfold addHttpRule.
  destruct (httpRuleVerbPath r) as [[verb path]|]; [|discriminate].
  destruct (ParseUriTemplate path) as [t|] eqn:Hparse; [|discriminate].
  intros H; inversion H; subst st'; clear H. simpl.
  apply writes_once, write_method. by eapply write_pattern.
Qed.

Lemma writes_addCorsForPattern (selector : string) (httpRule : HttpPattern)
    (st st' : ServiceInfo * gmap string bool) :
  (forall t, UriTemplate httpRule = Some t -> templateOf st.1 t) ->
  addCorsForPattern selector httpRule st = Ok st' -> writes ProcessHttpRule st.1 st'.1.
Proof.
  destruct st as [s added]. intros Htpl. unfold addCorsForPattern.
  destruct (str_eqb (HttpMethod httpRule) OPTIONS);
    [intros H; inversion H; apply writes_refl|].
  destruct (UriTemplate httpRule) as [t|] eqn:Ht; [|discriminate].
  destruct (added !! Regex t); [intros H; inversion H; apply writes_refl|].
  intros H. apply bind_Ok in H as (s' & Hopt & H). inversion H; subst st'; clear H. simpl.
  unfold addOptionMethod in Hopt. simpl in Hopt.
  destruct (negb (str_eqb OPTIONS OPTIONS)) eqn:E; [discriminate|]. clear E.
  destruct (Methods s !! selector) as [original|] eqn:Horig; [|discriminate].
  apply bind_Ok in Hopt as (s1 & Hget & Hopt). inversion Hopt; subst s'; clear Hopt.
  pose proof (writes_getOrCreateMethod ProcessHttpRule _ _ _ Hget) as H1.
  pose proof (getOrCreateMethod_keeps _ _ _ _ _ Hget Horig) as Horig1.
  destruct (getOrCreateMethod_lookup _ _ _ Hget) as [g Hg].
  eapply writes_trans; [done|].
  eapply writes_then; [apply writes_once, write_method|apply write_method].
  - apply (write_companion s1 _ selector original t); [done|done|].
    eapply writes_templateOf; [|done|by apply Htpl]. done.
  - set (gen := corsOperation (ApiName original) (ShortName original)) in *.
    set (F := fun method : MethodInfo =>
                append_HttpRule
                  {| HttpMethod := OPTIONS; UriTemplate := ParseUriTemplate (Origin t) |}
                  (set_IsGenerated true
                     (set_BackendInfo (BackendInfo original)
                        (set_ApiVersion (ApiVersion original) method)))).
    assert (exists original',
              Methods (modifyMethod gen F s1) !! selector = Some original'
              /\ ApiName original' = ApiName original
              /\ ShortName original' = ShortName original) as (original' & Ho & Ha & Hs).
    { unfold modifyMethod. simpl. destruct (decide (gen = selector)) as [Heq|Hne].
      - exists (F original). rewrite Heq, lookup_alter_eq, Horig1. done.
      - exists original. by rewrite lookup_alter_ne. }
    assert (Methods (modifyMethod gen F s1) !! gen = Some (F g)) as Hgen.
    { unfold modifyMethod. simpl. by rewrite lookup_alter_eq, Hg. }
    unfold gen at 2. rewrite <- Ha, <- Hs.
    apply (write_GeneratedCorsMethod _ _ original' (F g)); [done| |done].
    by rewrite Ha, Hs.
Qed.

Lemma writes_addHealthCheck (s s' : ServiceInfo) :
  addHealthCheck s = Ok s' -> writes AddHealthCheck s s'.
Proof.
  unfold addHealthCheck. destruct (str_eqb (Options.Healthz (Opts s)) "") eqn:Hempty;
    [intros H; inversion H; apply writes_refl|].
  apply str_eqb_neq in Hempty.
  intros H. apply bind_Ok in H as (s1 & Hget & H). inversion H; subst s'; clear H.
  eapply writes_trans; [by eapply writes_getOrCreateMethod|].
  destruct (getOrCreateMethod_fields _ _ _ Hget) as (_ & HO & _).
  destruct (HasPrefix (Options.Healthz (Opts s1)) "/") eqn:Hprefix.
  - apply writes_once, write_method. by apply write_healthCheck.
  - eapply writes_then; [apply writes_once, write_Healthz; [by rewrite HO|done]|].
    apply write_method. apply write_healthCheck; [done|]. simpl.
    by destruct (Options.Healthz (Opts s1)).
Qed.

Lemma writes_processHttpRule (s s' : ServiceInfo) :
  processHttpRule s = Ok s' ->
  exists s2, writes ProcessHttpRule s s2 /\ addHealthCheck s2 = Ok s'.
Proof.
  intros H. unfold processHttpRule in H.
  apply bind_Ok in H as ([s1 added1] & H1 & H).
  apply bind_Ok in H as ([s2 added2] & H2 & H).
  assert (writes ProcessHttpRule s s1) as W1.
  { change s with (s, (∅ : gmap string bool)).1. change s1 with (s1, added1).1.
    revert H1. apply writes_forM_pair. intros rule [t added] t' _ _ Hstep.
    apply bind_Ok in Hstep as (u & Hget & Hstep).
    apply bind_Ok in Hstep as (st & Hadd & Hstep).
    eapply writes_trans; [by eapply writes_getOrCreateMethod|].
    eapply writes_trans; [by apply (writes_addHttpRule _ _ _ _ Hadd)|].
    revert Hstep. apply writes_forM_pair. intros b v v' _ _. apply writes_addHttpRule. }
  assert (writes ProcessHttpRule s1 s2) as W2.
  { simpl in H2. destruct (AllowCors s1); [|inversion H2; apply writes_refl].
    change s1 with (s1, added1).1. change s2 with (s2, added2).1.
    revert H2. apply writes_forM_pair. intros r [t added] t' _ _.
    destruct (Methods t !! HttpRule.Selector r) as [method|] eqn:Hm; [|discriminate].
    apply writes_forM_pair. intros pat v v' Hin Hv. simpl in Hv.
    apply writes_addCorsForPattern. intros tpl Htpl.
    eapply writes_templateOf; [|done|]; [done|]. by exists (HttpRule.Selector r), method, pat. }
  exists s2. split; [by eapply writes_trans|done].
Qed.

Lemma writes_processTypes (ord : MapOrder) (s s' : ServiceInfo) :
  processTypes ord s = Ok s' -> writes ProcessTypes s s'.
Proof.
  unfold processTypes. apply writes_forM. intros operation t t' _ _ Hstep.
  unfold processTypesOf in Hstep.
  destruct (Methods t !! operation) as [mi|]; [|inversion Hstep; apply writes_refl].
  destruct (str_eqb _ _); [inversion Hstep; apply writes_once, write_log|].
  destruct (typesByTypeName t !! _) as [requestType|];
    [|inversion Hstep; apply writes_once, write_log].
  apply bind_Ok in Hstep as (names & _ & Hstep).
  destruct (bool_decide _); [inversion Hstep; apply writes_refl|].
  unfold snakeNameToJsonNameForUriTemplates in Hstep.
  destruct (GeneratedCorsMethod mi); inversion Hstep; writes_peel;
    apply (write_renamed _ _ names).
Qed.

Lemma writes_addGrpcHttpRules (s s' : ServiceInfo) :
  addGrpcHttpRules s = Ok s' -> writes AddGrpcHttpRules s s'.
Proof.
  unfold addGrpcHttpRules. destruct (negb _); [intros H; inversion H; apply writes_refl|].
  apply writes_forM. intros api t t' _ _. apply writes_forM. intros method u u' _ _ Hstep.
  destruct (ParseUriTemplate _) as [tpl|] eqn:Hparse; [|discriminate].
  destruct (getOrCreateMethod _ u) as [u1| |] eqn:Hget; inversion Hstep.
  eapply writes_trans; [by eapply writes_getOrCreateMethod|].
  apply writes_once, write_method. by eapply write_grpc_pattern.
Qed.

Lemma writes_processTranscodingIgnoredQueryParams (s s' : ServiceInfo) :
  processTranscodingIgnoredQueryParams s = Ok s' ->
  writes ProcessTranscodingIgnoredQueryParams s s'.
Proof.
  unfold processTranscodingIgnoredQueryParams. intros H.
  apply bind_Ok in H as (s1 & H1 & H).
  assert (writes ProcessTranscodingIgnoredQueryParams s s1) as H01.
  { revert H1. apply writes_forM. intros provider t t' _ _ Hstep.
    destruct (AuthProvider.JwtLocations provider) as [|loc locs].
    - inversion Hstep. apply writes_once, write_ignoreQueryParam. by left.
    - revert Hstep. apply writes_forM. intros jwtLocation u u' _ _ Hstep.
      destruct (JwtLocation.In_ jwtLocation); try (inversion Hstep; apply writes_refl).
      destruct (negb (str_eqb (JwtLocation.ValuePrefix jwtLocation) ""));
        inversion Hstep. apply writes_once, write_ignoreQueryParam. by left. }
  eapply writes_trans; [exact H01|].
  destruct (negb _); inversion H; [|apply writes_refl].
  apply writes_foldl. intros param t _ _. apply writes_once, write_ignoreQueryParam. by left.
Qed.

Lemma writes_extractApiKeyLocations (method : string)
    (parameters : list SystemParameter.t) (s : ServiceInfo) :
  writes ProcessApiKeyLocations s (extractApiKeyLocations method parameters s).
Proof.
  unfold extractApiKeyLocations.
  eapply writes_then; [|apply write_method, write_ApiKeyLocations].
  apply writes_foldl. intros param t _ _.
  destruct (str_eqb _ _); [apply writes_refl|].
  apply writes_once, write_ignoreQueryParam. by right.
Qed.

Lemma writes_processApiKeyLocations (ord : MapOrder) (s s' : ServiceInfo) :
  processApiKeyLocations ord s = Ok s' -> writes ProcessApiKeyLocations s s'.
Proof.
  unfold processApiKeyLocations. intros H.
  apply bind_Ok in H as (s1 & H1 & H). inversion H.
  assert (writes ProcessApiKeyLocations s s1) as H01.
  { revert H1. apply writes_forM. intros rule t t' _ _ Hstep.
    apply bind_Ok in Hstep as (t1 & Hget & Hstep). inversion Hstep.
    eapply writes_trans; [by eapply writes_getOrCreateMethod|].
    apply writes_extractApiKeyLocations. }
  eapply writes_trans; [exact H01|].
  apply writes_foldl. intros operation t _ _.
  destruct (Methods t !! operation) as [method|]; [|apply writes_refl].
  destruct (ApiKeyLocations method); [|apply writes_refl].
  eapply writes_then; [apply writes_once|]; apply write_ignoreQueryParam; by right.
Qed.

(** The loop of [processEmptyJwksUriByOpenID]: the providers it adds to
    those done are the providers of the list, resolved. *)
Lemma resolve_providers (l done providers : list AuthProvider.t) (s s' : ServiceInfo) :
  forM l
    (fun provider '(done, s) =>
       if str_eqb (AuthProvider.JwksUri provider) "" then
         if Options.DisableOidcDiscovery (Opts s)
         then Err (ErrJwksUriEmpty (AuthProvider.Id provider))
         else
           let s := glog (InfoOpenIDDiscovery (AuthProvider.Id provider)) s in
           match ResolveJwksUriUsingOpenID (AuthProvider.Issuer provider) with
           | None => Err (ErrOpenIDDiscovery (AuthProvider.Id provider))
           | Some jwksUriByOpenID =>
               Ok ((done ++ [set_JwksUri jwksUriByOpenID provider])%list, s)
           end
       else Ok ((done ++ [provider])%list, s))
    (done, s) = Ok (providers, s') ->
  exists resolved,
    providers = done ++ resolved /\ Forall2 resolvedProvider l resolved
    /\ serviceConfig s' = serviceConfig s
    /\ writes ProcessEmptyJwksUriByOpenID s s'.
Proof.
  revert done s. induction l as [|provider l IH]; intros done s Hrun; simpl in Hrun.
  - inversion Hrun. exists []. rewrite app_nil_r.
    split; [done|]. split; [constructor|]. split; [done|apply writes_refl].
  - apply bind_Ok in Hrun as ([done1 s1] & Hstep & Hrun).
    destruct (IH done1 s1 Hrun) as (resolved & -> & Hall & HC & Hw).
    destruct (str_eqb (AuthProvider.JwksUri provider) "") eqn:Huri.
    + destruct (Options.DisableOidcDiscovery (Opts s)); [discriminate|].
      destruct (ResolveJwksUriUsingOpenID _) as [uri|] eqn:Hres; [|discriminate].
      inversion Hstep; subst done1 s1; clear Hstep.
      exists (set_JwksUri uri provider :: resolved). rewrite <- app_assoc.
      split; [done|]. split; [|split; [done|]].
      * constructor; [|done]. right. split; [by apply str_eqb_eq|]. by exists uri.
      * eapply writes_trans; [apply writes_once, write_log|done].
    + inversion Hstep; subst done1 s1; clear Hstep.
      exists (provider :: resolved). rewrite <- app_assoc.
      split; [done|]. split; [|split; [done|done]].
      constructor; [|done]. left. split; [by apply str_eqb_neq|done].
Qed.

Lemma writes_processEmptyJwksUriByOpenID (s s' : ServiceInfo) :
  processEmptyJwksUriByOpenID s = Ok s' -> writes ProcessEmptyJwksUriByOpenID s s'.
Proof.
  unfold processEmptyJwksUriByOpenID. intros H.
  apply bind_Ok in H as ([providers s1] & H1 & H). inversion H.
  destruct (resolve_providers _ _ _ _ _ H1) as (resolved & -> & Hall & HC & Hw).
  eapply writes_then; [done|]. apply write_JwksUri. by rewrite HC.
Qed.

Lemma writes_processLocalBackendOperations (ord : MapOrder) (s s' : ServiceInfo) :
  processLocalBackendOperations ord s = Ok s' -> writes ProcessLocalBackendOperations s s'.
Proof.
  unfold processLocalBackendOperations. apply writes_forM. intros operation t t' _ _ Hstep.
  unfold processLocalBackendOperation in Hstep.
  destruct (Methods t !! operation) as [method|]; [|inversion Hstep; apply writes_refl].
  destruct (BackendInfo method); [inversion Hstep; apply writes_refl|].
  destruct (LocalBackendCluster t) as [local|] eqn:Hlocal; inversion Hstep.
  apply writes_once, write_method. by apply write_localBinding.
Qed.

Lemma writes_processAuthRequirement (s s' : ServiceInfo) :
  processAuthRequirement s = Ok s' -> writes ProcessAuthRequirement s s'.
Proof.
  unfold processAuthRequirement. apply writes_forM. intros rule t t' Hin Ht Hstep.
  destruct (AuthenticationRule.Requirements rule) eqn:Hreq;
    [inversion Hstep; apply writes_refl|].
  destruct (Methods t !! _); inversion Hstep.
  apply writes_once, write_method. apply (write_RequireAuth _ _ rule); [|done|by rewrite Hreq].
  destruct (writes_frame _ _ _ Ht) as (_ & _ & _ & _ & _ & _ & _ & HC & _).
  by rewrite HC.
Qed.

(* --------------------------------------------------------------------- *)
(** ** Further properties: the run of a build *)
(* --------------------------------------------------------------------- *)

(** [buildLocalBackend] writes [GrpcSupportRequired] and
    [LocalBackendCluster] only. *)
Lemma buildLocalBackend_fields (s s' : ServiceInfo) :
  buildLocalBackend s = Ok s' ->
  ConfigID s' = ConfigID s /\ ApiNames s' = ApiNames s /\ AllowCors s' = AllowCors s
  /\ AccessToken_ s' = AccessToken_ s
  /\ AllTranscodingIgnoredQueryParams s' = AllTranscodingIgnoredQueryParams s
  /\ Log s' = Log s.
Proof.
  unfold buildLocalBackend.
  destruct (ParseURI _) as [[[[scheme hostname] port] path]|]; [|discriminate].
  destruct (ParseBackendProtocol scheme "") as [[protocol tls] []]; [discriminate|].
  intros H; inversion H. by destruct (decide (protocol = GRPC)).
Qed.

(** The run of a build that succeeds: the model after each phase, and the
    writes of each phase after [buildLocalBackend], in calling order. *)
Lemma build_run (ord : MapOrder) (cfg : Service.t) (id : string) (opts : Options.t)
    (s : ServiceInfo) :
  NewServiceInfoFromServiceConfig ord (Some cfg) id opts = Ok s ->
  exists s1 s2 s3 s4 s5 sh s6 s7 s8 s9 s10 s11 s12 s13 s14,
    (buildLocalBackend (newServiceInfo cfg id opts) = Ok s1
     /\ s2 = processEndpoints s1
     /\ processApis s2 = Ok s3
     /\ processQuota ord s3 = Ok s4
     /\ processBackendRule s4 = Ok s5
     /\ processHttpRule s5 = Ok s6
     /\ addHealthCheck sh = Ok s6
     /\ processUsageRule s6 = Ok s7
     /\ s8 = processAccessToken s7
     /\ processTypes ord s8 = Ok s9
     /\ addGrpcHttpRules s9 = Ok s10
     /\ processTranscodingIgnoredQueryParams s10 = Ok s11
     /\ processApiKeyLocations ord s11 = Ok s12
     /\ processEmptyJwksUriByOpenID s12 = Ok s13
     /\ processLocalBackendOperations ord s13 = Ok s14
     /\ processAuthRequirement s14 = Ok s)
    /\ writes ProcessEndpoints s1 s2
    /\ writes ProcessApis s2 s3
    /\ writes ProcessQuota s3 s4
    /\ writes ProcessBackendRule s4 s5
    /\ writes ProcessHttpRule s5 sh
    /\ writes AddHealthCheck sh s6
    /\ writes ProcessUsageRule s6 s7
    /\ writes ProcessAccessToken s7 s8
    /\ writes ProcessTypes s8 s9
    /\ writes AddGrpcHttpRules s9 s10
    /\ writes ProcessTranscodingIgnoredQueryParams s10 s11
    /\ writes ProcessApiKeyLocations s11 s12
    /\ writes ProcessEmptyJwksUriByOpenID s12 s13
    /\ writes ProcessLocalBackendOperations s13 s14
    /\ writes ProcessAuthRequirement s14 s.
Proof.
  intros Hbuild.
  destruct (build_phases ord cfg id opts s Hbuild)
    as (s1 & s3 & s4 & s5 & s6 & s7 & s9 & s10 & s11 & s12 & s13 & s14
        & H1 & H3 & H4 & H5 & H6 & H7 & H9 & H10 & H11 & H12 & H13 & H14 & H15).
  destruct (writes_processHttpRule s5 s6 H6) as (sh & Wh & Hh).
  exists s1, (processEndpoints s1), s3, s4, s5, sh, s6, s7, (processAccessToken s7),
    s9, s10, s11, s12, s13, s14.
  split; [by repeat split|].
  split; [apply writes_processEndpoints|].
  split; [by apply writes_processApis|]. split; [by eapply writes_processQuota|].
  split; [by apply writes_processBackendRule|]. split; [done|].
  split; [by apply writes_addHealthCheck|].
  split; [by apply writes_processUsageRule|]. split; [apply writes_processAccessToken|].
  split; [by eapply writes_processTypes|]. split; [by apply writes_addGrpcHttpRules|].
  split; [by apply writes_processTranscodingIgnoredQueryParams|].
  split; [by eapply writes_processApiKeyLocations|].
  split; [by apply writes_processEmptyJwksUriByOpenID|].
  split; [by eapply writes_processLocalBackendOperations|].
  by apply writes_processAuthRequirement.
Qed.

(** A property of the model after [buildLocalBackend] that every write
    keeps holds of the model the build returns. *)
Lemma build_invariant (P : ServiceInfo -> Prop) (ord : MapOrder) (cfg : Service.t)
    (id : string) (opts : Options.t) (s : ServiceInfo) :
  NewServiceInfoFromServiceConfig ord (Some cfg) id opts = Ok s ->
  (forall s1, buildLocalBackend (newServiceInfo cfg id opts) = Ok s1 -> P s1) ->
  (forall p t t', P t -> write p t t' -> P t') ->
  P s.
Proof.
  intros Hbuild Hinit Hstep.
  destruct (build_run ord cfg id opts s Hbuild)
    as (s1 & s2 & s3 & s4 & s5 & sh & s6 & s7 & s8 & s9 & s10 & s11 & s12 & s13 & s14
        & (H1 & _)
        & H2 & H3 & H4 & H5 & H6 & Hh & H7 & H8 & H9 & H10 & H11 & H12 & H13 & H14 & H15).
  pose proof (fun p => writes_invariant p P (Hstep p)) as Hrun.
  eapply Hrun; [exact H15|]. eapply Hrun; [exact H14|]. eapply Hrun; [exact H13|].
  eapply Hrun; [exact H12|]. eapply Hrun; [exact H11|]. eapply Hrun; [exact H10|].
  eapply Hrun; [exact H9|]. eapply Hrun; [exact H8|]. eapply Hrun; [exact H7|].
  eapply Hrun; [exact Hh|]. eapply Hrun; [exact H6|]. eapply Hrun; [exact H5|]. eapply Hrun; [exact H4|].
  eapply Hrun; [exact H3|]. eapply Hrun; [exact H2|]. by apply Hinit.
Qed.

(** The writes to a method keep its names. *)
Lemma methodWrite_names (s : ServiceInfo) (k : string) (p : phase)
    (f : MethodInfo -> MethodInfo) (m : MethodInfo) :
  methodWrite s k p f -> ApiName (f m) = ApiName m /\ ShortName (f m) = ShortName m.
Proof. intros Hf. by destruct Hf. Qed.

(** The model after [buildLocalBackend] has no method. *)
Lemma buildLocalBackend_empty (cfg : Service.t) (id : string) (opts : Options.t)
    (s1 : ServiceInfo) :
  buildLocalBackend (newServiceInfo cfg id opts) = Ok s1 ->
  Methods s1 = ∅ /\ Operations s1 = [].
Proof.
  intros H. by destruct (buildLocalBackend_Ok _ _ H) as (_ & _ & _ & _ & _ & _ & -> & -> & _).
Qed.

(** X2 (the keys of [Methods]). In the model of a build that succeeds,
    every method is stored under the selector [ApiName.ShortName] made of
    its own two names, and its short name has no dot: the selector of a
    method, its API name and its short name always agree, whichever rule
    created the method. *)
Theorem build_names (ord : MapOrder) (cfg : Service.t) (id : string) (opts : Options.t)
    (s : ServiceInfo) :
  NewServiceInfoFromServiceConfig ord (Some cfg) id opts = Ok s ->
  forall k m, Methods s !! k = Some m ->
    k = ApiName m +:+ "." +:+ ShortName m /\ ~ dotted (ShortName m).
Proof.
  intros Hbuild. change (names_ok s).
  apply (build_invariant names_ok ord cfg id opts s Hbuild).
  - intros s1 H1 k m Hk. destruct (buildLocalBackend_empty _ _ _ _ H1) as [HM _].
    by rewrite HM, lookup_empty in Hk.
  - intros p t t' Hinv Hw k m' Hk.
    destruct (write_lookup p t t' k Hw)
      as [Heq|[(_ & sh & api & Hname & Hsh & Hnew)|(m & f & Hm & Hf & Hfm)]].
    + rewrite Heq in Hk. by apply Hinv.
    + rewrite Hnew in Hk. inversion Hk. done.
    + rewrite Hfm in Hk. inversion Hk; subst m'.
      destruct (methodWrite_names t k p f m Hf) as [-> ->]. by apply Hinv.
Qed.

(** What every write keeps: the remote clusters grow, and the options stay
    up to the health-check path. *)
Lemma write_grow (p : phase) (s s' : ServiceInfo) :
  write p s s' ->
  (exists extra, RemoteBackendClusters s' = RemoteBackendClusters s ++ extra)
  /\ Options.set_Healthz "" (Opts s') = Options.set_Healthz "" (Opts s).
Proof.
  intros Hw.
  assert (p = ProcessBackendRule \/ p <> ProcessBackendRule) as [->|Hp]
    by (destruct (decide (p = ProcessBackendRule)); auto).
  - split.
    + inversion Hw; subst; simpl; try (exists []; by rewrite app_nil_r); [|by eexists].
      destruct (getOrCreateMethod_fields _ _ _ H0) as (_ & _ & _ & _ & -> & _).
      exists []. by rewrite app_nil_r.
    + destruct (write_frame _ _ _ Hw) as (_ & _ & _ & _ & _ & _ & _ & _ & HO & _).
      by rewrite HO.
  - destruct (write_frame _ _ _ Hw) as (_ & _ & _ & _ & _ & _ & HR & _ & _).
    destruct (HR Hp) as [_ ->]. split; [exists []; by rewrite app_nil_r|].
    inversion Hw; subst; simpl; try done.
    + by destruct (getOrCreateMethod_fields _ _ _ H0) as (_ & -> & _).
    + unfold processAccessToken. by destruct (negb _).
Qed.

Lemma write_clusterList (p : phase) (s s' : ServiceInfo) (c : BackendRoutingCluster) :
  write p s s' -> c ∈ clusterList s -> c ∈ clusterList s'.
Proof.
  intros Hw. destruct (write_grow p s s' Hw) as [[extra HR] _].
  destruct (write_frame p s s' Hw) as (_ & _ & HL & _).
  unfold clusterList. rewrite HL, HR.
  destruct (LocalBackendCluster s); rewrite ?elem_of_cons, !elem_of_app; tauto.
Qed.

Lemma write_retry (p : phase) (s s' : ServiceInfo) :
  write p s s' ->
  Options.BackendRetryOns (Opts s') = Options.BackendRetryOns (Opts s)
  /\ Options.BackendRetryNum (Opts s') = Options.BackendRetryNum (Opts s).
Proof.
  intros Hw. destruct (write_grow p s s' Hw) as [_ HO].
  split;
    [apply (f_equal Options.BackendRetryOns) in HO
    |apply (f_equal Options.BackendRetryNum) in HO]; done.
Qed.

Lemma write_local_cluster_ok (p : phase) (s s' : ServiceInfo) :
  write p s s' -> local_cluster_ok s -> local_cluster_ok s'.
Proof.
  intros Hw (local & Hl & Hn). destruct (write_frame p s s' Hw) as (HN & _ & HL & _).
  exists local. unfold LocalBackendClusterName in *. by rewrite HL, HN.
Qed.

Lemma write_bindings_ok (p : phase) (s s' : ServiceInfo) :
  write p s s' -> local_cluster_ok s -> bindings_ok s -> bindings_ok s'.
Proof.
  intros Hw (local & Hl & Hn) Hinv k m' b Hk Hb.
  destruct (write_retry p s s' Hw) as [-> ->].
  assert (forall b0 : backendInfo.t,
            (exists c, c ∈ clusterList s /\ ClusterName c = backendInfo.ClusterName b0) ->
            exists c, c ∈ clusterList s' /\ ClusterName c = backendInfo.ClusterName b0)
    as Hgrow.
  { intros b0 (c & Hc & Hname). exists c. split; [by eapply write_clusterList|done]. }
  assert (local ∈ clusterList s) as Hlocal by (unfold clusterList; rewrite Hl; set_solver).
  destruct (write_lookup p s s' k Hw)
    as [Heq|[(_ & sh & api & _ & _ & Hnew)|(m & f & Hm & Hf & Hfm)]].
  - rewrite Heq in Hk. destruct (Hinv k m' b Hk Hb) as (Hc & ? & ? & ?). auto.
  - rewrite Hnew in Hk. inversion Hk; subst m'. discriminate.
  - rewrite Hfm in Hk. inversion Hk; subst m'; clear Hk.
    destruct Hf; simpl in Hb;
      try (destruct (Hinv k m b Hm Hb) as (Hc & ? & ? & ?); by auto).
    + injection Hb as ->. destruct H as ([Hcl|(c & Hc & Hcl)] & ? & ? & ?).
      * split; [|done]. apply Hgrow. exists local. split; [done|]. by rewrite Hcl.
      * split; [|done]. apply Hgrow. exists c. split; [|done].
        unfold clusterList. destruct (LocalBackendCluster s); set_solver.
    + destruct (Hinv k0 original b H Hb) as (Hc & ? & ? & ?). auto.
    + injection Hb as <-. split; [|done].
      apply (Hgrow (localBackendInfo (ClusterName local0) (Opts s))).
      exists local0. split; [|done]. unfold clusterList. rewrite H. apply list_elem_of_here.
Qed.

(** The bindings of the model of a build that succeeds. *)
Lemma build_bindings (ord : MapOrder) (cfg : Service.t) (id : string) (opts : Options.t)
    (s : ServiceInfo) :
  NewServiceInfoFromServiceConfig ord (Some cfg) id opts = Ok s ->
  local_cluster_ok s /\ bindings_ok s.
Proof.
  intros Hbuild.
  apply (build_invariant (fun s => local_cluster_ok s /\ bindings_ok s)
           ord cfg id opts s Hbuild).
  - intros s1 H1. destruct (buildLocalBackend_empty _ _ _ _ H1) as [HM _].
    destruct (buildLocalBackend_Ok _ _ H1) as (local & Hl & Hn & _ & _ & HN & _).
    split.
    + exists local. split; [done|]. unfold LocalBackendClusterName. by rewrite HN.
    + intros k m b Hk. by rewrite HM, lookup_empty in Hk.
  - intros p t t' [Hlocal Hinv] Hw.
    split; [by eapply write_local_cluster_ok|by eapply write_bindings_ok].
Qed.

(* --------------------------------------------------------------------- *)
(** ** Further properties: the routes *)
(* --------------------------------------------------------------------- *)

(** The entries that are sorted are the patterns of the methods. *)
Lemma httpPatternMethodsOf_elem (s : ServiceInfo) (l : list (PatternMethod UriTemplateT))
    (pm : PatternMethod UriTemplateT) :
  httpPatternMethodsOf s = Ok l -> pm ∈ l ->
  exists method, Methods s !! Operation pm = Some method /\ Pattern_ pm ∈ HttpRule_ method.
Proof.
  unfold httpPatternMethodsOf. intros Hrun. revert pm.
  refine (forM_invariant
            (fun acc => forall pm, pm ∈ acc ->
               exists method, Methods s !! Operation pm = Some method
                              /\ Pattern_ pm ∈ HttpRule_ method)
            _ _ _ [] l _ Hrun).
  - intros operation acc acc' _ Hacc Hstep.
    destruct (Methods s !! operation) as [method|] eqn:Hm; [|discriminate].
    inversion Hstep; subst acc'. intros pm Hin.
    apply elem_of_app in Hin as [Hin|Hin]; [by apply Hacc|].
    apply list_elem_of_fmap in Hin as (p & -> & Hp). by exists method.
  - intros pm Hin. by apply elem_of_nil in Hin.
Qed.

Lemma routesOf_follows (s : ServiceInfo) (pm : PatternMethod UriTemplateT)
    (routes : list Route) :
  routesOf s pm = Ok routes -> Forall (route_follows s) routes.
Proof.
  intros Hroutes. unfold routesOf in Hroutes.
  destruct (Methods s !! Operation pm) as [method|] eqn:Hmethod; [|discriminate].
  assert ({| HttpMethod := HttpMethod (Pattern_ pm);
             UriTemplate := UriTemplate (Pattern_ pm) |} = Pattern_ pm) as Heta
    by (by destruct (Pattern_ pm)).
  rewrite Heta in Hroutes.
  apply bind_Ok in Hroutes as (respTimeout & Ht & Hroutes).
  apply bind_Ok in Hroutes as (routeMatchers & Hms & Hroutes).
  revert Hroutes.
  refine (forM_invariant (Forall (route_follows s)) _ _ _ [] routes (Forall_nil_2 _)).
  intros routeMatcher acc acc' Hm Hacc Hstep.
  destruct (BackendInfo method) as [b|] eqn:Hb; [|discriminate].
  apply bind_Ok in Hstep as (cfg & Hcfg & Hstep). inversion Hstep; subst acc'.
  apply Forall_app. split; [exact Hacc|]. constructor; [|constructor].
  exists (Operation pm), (Pattern_ pm), method, b, routeMatchers. simpl.
  repeat split; try done. by destruct (str_eqb (backendInfo.Hostname b) "").
Qed.

(** Every route of the route table follows a sorted pattern and its
    method. *)
Lemma makeRouteTable_follows (s : ServiceInfo) (routes : list Route) :
  makeRouteTable s = Ok routes -> forall r, r ∈ routes -> route_follows s r.
Proof.
  intros Hroutes. apply Forall_forall.
  unfold makeRouteTable in Hroutes.
  apply bind_Ok in Hroutes as (sorted & Hsorted & Hroutes).
  revert Hroutes.
  refine (forM_invariant (Forall (route_follows s)) _ _ _ [] routes (Forall_nil_2 _)).
  intros pm acc acc' Hpm Hacc Hstep.
  apply bind_Ok in Hstep as (rs & Hrs & Hstep). inversion Hstep; subst acc'.
  apply Forall_app. split; [exact Hacc|]. by eapply routesOf_follows.
Qed.

(** The route list is the route table, followed by the CORS route when
    there is a CORS policy. *)
Lemma routeList_Ok (s : ServiceInfo) (routes : list Route) :
  routeList s = Ok routes ->
  exists brRoutes cors,
    makeRouteTable s = Ok brRoutes /\ corsPolicyOf (Opts s) = Ok cors
    /\ routes = brRoutes ++ (if cors is Some _ then [corsRoute s] else []).
Proof.
  intros Hroutes. unfold routeList in Hroutes.
  apply bind_Ok in Hroutes as (cfg & Hcfg & Hroutes). unfold MakeRouteConfig in Hcfg.
  apply bind_Ok in Hcfg as (brRoutes & Hbr & Hcfg).
  apply bind_Ok in Hcfg as (cors & Hcors & Hcfg).
  exists brRoutes, cors. split; [done|]. split; [done|].
  inversion Hcfg; subst cfg; clear Hcfg. inversion Hroutes; subst routes. simpl.
  rewrite app_nil_r. destruct cors; [done|by rewrite app_nil_r].
Qed.

(** A path-rewrite message of a per-route configuration is the one
    [MakePathRewriteConfig] returns, whatever the names of the filters. *)
Lemma makePerRouteFilterConfig_pathRewrite (operation : string) (method : MethodInfo)
    (httpRule : HttpPattern) (cfg : gmap string PerRouteFilterConfig) (key : string)
    (pr : PathRewriteConfig) :
  makePerRouteFilterConfig operation method httpRule = Ok cfg ->
  cfg !! key = Some (PathRewritePerRoute pr) ->
  MakePathRewriteConfig method httpRule = Some pr.
Proof.
  unfold makePerRouteFilterConfig. intros H; inversion H; subst cfg; clear H.
  destruct (RequireAuth method), (MakePathRewriteConfig method httpRule) as [pr0|],
    (BackendInfo method) as [b|];
    try destruct (negb (str_eqb (backendInfo.JwtAudience b) ""));
    intros Hk;
    repeat (apply lookup_insert_Some in Hk as [[_ Hk]|[_ Hk]]; [congruence|]);
    by rewrite lookup_empty in Hk.
Qed.

Lemma MakePathRewriteConfig_constant (method : MethodInfo) (httpRule : HttpPattern)
    (path tpl : string) :
  MakePathRewriteConfig method httpRule = Some (PathRewrite_ConstantPath path tpl) ->
  exists b, BackendInfo method = Some b
            /\ backendInfo.TranslationType b = CONSTANT_ADDRESS
            /\ path = backendInfo.Path b.
Proof.
  unfold MakePathRewriteConfig. destruct (BackendInfo method) as [b|]; [|discriminate].
  destruct (_ && _); [discriminate|].
  destruct (bool_decide (backendInfo.TranslationType b = CONSTANT_ADDRESS)) eqn:E;
    [|discriminate].
  apply bool_decide_eq_true in E. intros H; inversion H. by exists b.
Qed.

(** X3 (routes and clusters). For the model of a build that succeeds,
    every route of the route list, the CORS route included, is routed to a
    cluster of the cluster list: the local backend cluster or one of the
    remote backend clusters. *)
Theorem routes_to_clusters (ord : MapOrder) (cfg : Service.t) (id : string)
    (opts : Options.t) (s : ServiceInfo) (routes : list Route) :
  NewServiceInfoFromServiceConfig ord (Some cfg) id opts = Ok s ->
  routeList s = Ok routes ->
  forall r, r ∈ routes ->
    exists c, c ∈ clusterList s /\ ClusterName c = Cluster (Action r).
Proof.
  intros Hbuild Hroutes r Hr.
  destruct (build_bindings ord cfg id opts s Hbuild) as [(local & Hl & Hn) Hb].
  destruct (routeList_Ok s routes Hroutes) as (brRoutes & cors & Hbr & _ & ->).
  apply elem_of_app in Hr as [Hr|Hr].
  - destruct (makeRouteTable_follows s brRoutes Hbr r Hr)
      as (operation & pattern & method & b & ms & Hm & Hbind & _ & _ & _ & -> & _).
    by destruct (Hb operation method b Hm Hbind) as [Hc _].
  - destruct cors; [|by apply elem_of_nil in Hr].
    apply list_elem_of_singleton in Hr as ->. exists local. split; [|done].
    unfold clusterList. rewrite Hl. apply list_elem_of_here.
Qed.

(** The retry settings of the options of the model are those the build
    was given. *)
Lemma build_retry (ord : MapOrder) (cfg : Service.t) (id : string) (opts : Options.t)
    (s : ServiceInfo) :
  NewServiceInfoFromServiceConfig ord (Some cfg) id opts = Ok s ->
  Options.BackendRetryOns (Opts s) = Options.BackendRetryOns opts
  /\ Options.BackendRetryNum (Opts s) = Options.BackendRetryNum opts.
Proof.
  intros Hbuild.
  apply (build_invariant
           (fun s => Options.BackendRetryOns (Opts s) = Options.BackendRetryOns opts
                     /\ Options.BackendRetryNum (Opts s) = Options.BackendRetryNum opts)
           ord cfg id opts s Hbuild).
  - intros s1 H1.
    by destruct (buildLocalBackend_Ok _ _ H1) as (_ & _ & _ & _ & _ & _ & _ & _ & _ & ->).
  - intros p t t' [? ?] Hw. destruct (write_retry p t t' Hw) as [-> ->]. done.
Qed.

(** X4 (the retry policy of the routes). For the model of a build that
    succeeds, every route of the route table has the retry policy of the
    options the build was given: it retries on [BackendRetryOns], and
    [BackendRetryNum] times (as a [uint32]), whether the method is bound by
    a backend rule, by default to the local backend, or is generated. *)
Theorem routes_retry_policy (ord : MapOrder) (cfg : Service.t) (id : string)
    (opts : Options.t) (s : ServiceInfo) (routes : list Route) :
  NewServiceInfoFromServiceConfig ord (Some cfg) id opts = Ok s ->
  makeRouteTable s = Ok routes ->
  forall r, r ∈ routes ->
    RetryPolicy_ (Action r)
    = Some {| RetryOn := Options.BackendRetryOns opts;
              NumRetries := Options.BackendRetryNum opts mod 2 ^ 32 |}.
Proof.
  intros Hbuild Hroutes r Hr.
  destruct (build_bindings ord cfg id opts s Hbuild) as [_ Hb].
  destruct (build_retry ord cfg id opts s Hbuild) as [Hons Hnum].
  destruct (makeRouteTable_follows s routes Hroutes r Hr)
    as (operation & pattern & method & b & ms & Hm & Hbind & _ & _ & _ & _ & -> & _).
  destruct (Hb operation method b Hm Hbind) as (_ & -> & -> & _). by rewrite Hons, Hnum.
Qed.

(** X5 (the constant path is never empty). For the model of a build that
    succeeds, a route whose path-rewrite configuration replaces the path by
    a constant path has a constant path that is not empty, so that the
    rewritten request never has an empty [:path] header. *)
Theorem routes_constant_path (ord : MapOrder) (cfg : Service.t) (id : string)
    (opts : Options.t) (s : ServiceInfo) (routes : list Route) :
  NewServiceInfoFromServiceConfig ord (Some cfg) id opts = Ok s ->
  makeRouteTable s = Ok routes ->
  forall r path urlTemplate, r ∈ routes ->
    TypedPerFilterConfig r !! PathRewrite
    = Some (PathRewritePerRoute (PathRewrite_ConstantPath path urlTemplate)) ->
    path <> "".
Proof.
  intros Hbuild Hroutes r path tpl Hr Hcfg.
  destruct (build_bindings ord cfg id opts s Hbuild) as [_ Hb].
  destruct (makeRouteTable_follows s routes Hroutes r Hr)
    as (operation & pattern & method & b & ms & Hm & Hbind & _ & _ & Hmk & _).
  pose proof (makePerRouteFilterConfig_pathRewrite _ _ _ _ _ _ Hmk Hcfg) as Hpr.
  destruct (MakePathRewriteConfig_constant _ _ _ _ Hpr) as (b' & Hb' & Hconst & ->).
  rewrite Hbind in Hb'. inversion Hb'; subst b'.
  destruct (Hb operation method b Hm Hbind) as (_ & _ & _ & Hpath). by apply Hpath.
Qed.

(** The fields of the model and the phases that write them: what the run
    of a build leaves as it is before and after each of these phases. *)
Lemma run_frame (s1 s2 s3 s4 s5 sh s6 s7 s8 s9 s10 s11 s12 s13 s14 s : ServiceInfo) :
  writes ProcessEndpoints s1 s2 ->
  writes ProcessApis s2 s3 ->
  writes ProcessQuota s3 s4 ->
  writes ProcessBackendRule s4 s5 ->
  writes ProcessHttpRule s5 sh ->
  writes AddHealthCheck sh s6 ->
  writes ProcessUsageRule s6 s7 ->
  writes ProcessAccessToken s7 s8 ->
  writes ProcessTypes s8 s9 ->
  writes AddGrpcHttpRules s9 s10 ->
  writes ProcessTranscodingIgnoredQueryParams s10 s11 ->
  writes ProcessApiKeyLocations s11 s12 ->
  writes ProcessEmptyJwksUriByOpenID s12 s13 ->
  writes ProcessLocalBackendOperations s13 s14 ->
  writes ProcessAuthRequirement s14 s ->
  (Name s = Name s1 /\ ConfigID s = ConfigID s1
   /\ LocalBackendCluster s = LocalBackendCluster s1)
  /\ AllowCors s = AllowCors s2
  /\ (ApiNames s2 = ApiNames s1 /\ ApiNames s = ApiNames s3)
  /\ (AccessToken_ s7 = AccessToken_ s1 /\ AccessToken_ s = AccessToken_ s8)
  /\ (RemoteBackendClusters s4 = RemoteBackendClusters s1
      /\ GrpcSupportRequired s4 = GrpcSupportRequired s1
      /\ RemoteBackendClusters s = RemoteBackendClusters s5
      /\ GrpcSupportRequired s = GrpcSupportRequired s5)
  /\ (serviceConfig s12 = serviceConfig s1 /\ serviceConfig s = serviceConfig s13)
  /\ (Opts sh = Opts s1 /\ Opts s = Opts s6)
  /\ (AllTranscodingIgnoredQueryParams s10 = AllTranscodingIgnoredQueryParams s1
      /\ AllTranscodingIgnoredQueryParams s = AllTranscodingIgnoredQueryParams s12).
Proof.
  intros H2 H3 H4 H5 H6 Hh H7 H8 H9 H10 H11 H12 H13 H14 H15.
  repeat match goal with
  | H : writes _ _ _ |- _ =>
      apply writes_frame in H;
      destruct H as (?N & ?I & ?L & ?A & ?C & ?T & ?R & ?S & ?O & ?Q)
  end.
  repeat match goal with
  | H : ?p <> ?q -> _ |- _ =>
      first [ specialize (H ltac:(discriminate)) | clear H ]
  end.
  repeat match goal with H : _ /\ _ |- _ => destruct H end.
  repeat split; congruence.
Qed.

(* --------------------------------------------------------------------- *)
(** ** Further properties: the fields of the model *)
(* --------------------------------------------------------------------- *)

(** X6 (when CORS is allowed). The model of a build that succeeds has
    [AllowCors] set exactly when the service configuration has an endpoint
    that is named as the service and allows CORS; an endpoint with another
    name does not enable it, and no later phase changes the flag. *)
Theorem build_AllowCors (ord : MapOrder) (cfg : Service.t) (id : string)
    (opts : Options.t) (s : ServiceInfo) :
  NewServiceInfoFromServiceConfig ord (Some cfg) id opts = Ok s ->
  AllowCors s = true <-> corsEnabled cfg.
Proof.
  intros Hbuild.
  destruct (build_run ord cfg id opts s Hbuild)
    as (s1 & s2 & s3 & s4 & s5 & sh & s6 & s7 & s8 & s9 & s10 & s11 & s12 & s13 & s14
        & (H1 & -> & _)
        & W2 & W3 & W4 & W5 & W6 & Wh & W7 & W8 & W9 & W10 & W11 & W12 & W13 & W14 & W15).
  destruct (run_frame _ _ _ _ _ _ _ _ _ _ _ _ _ _ _ _
              W2 W3 W4 W5 W6 Wh W7 W8 W9 W10 W11 W12 W13 W14 W15) as (_ & -> & _).
  destruct (buildLocalBackend_Ok _ _ H1) as (_ & _ & _ & _ & _ & _ & _ & _ & HC & _).
  destruct (buildLocalBackend_fields _ _ H1) as (_ & _ & HA & _).
  simpl in HC, HA. split.
  - intros Hallow. rewrite <- HC.
    destruct (writes_frame _ _ _ W2) as (_ & _ & _ & _ & _ & _ & _ & HS2 & _).
    rewrite <- (HS2 ltac:(discriminate)).
    refine (writes_invariant ProcessEndpoints
              (fun t => AllowCors t = true -> corsEnabled (serviceConfig t))
              _ s1 (processEndpoints s1) W2 _ Hallow); [|by rewrite HA].
    intros t t' Ht Hw. destruct (write_frame _ _ _ Hw) as (_ & _ & _ & _ & _ & _ & _ & HS & _).
    rewrite (HS ltac:(discriminate)).
    inversion Hw; subst; try done.
    + by destruct (getOrCreateMethod_fields _ _ _ H0) as (_ & _ & _ & _ & _ & ->).
    + intros _. by exists endpoint.
  - intros Hcors. apply processEndpoints_AllowCors. by rewrite HC.
Qed.

Lemma set_Healthz_same (o : Options.t) : Options.set_Healthz (Options.Healthz o) o = o.
Proof. by destruct o. Qed.

(** The health check: what [addHealthCheck] leaves when the option is set. *)
Lemma addHealthCheck_Ok (s s' : ServiceInfo) :
  addHealthCheck s = Ok s' -> Options.Healthz (Opts s) <> "" ->
  Opts s' = Options.set_Healthz (healthzPath (Options.Healthz (Opts s))) (Opts s)
  /\ exists m0,
       Methods s' !! healthCheckOperation
       = Some (set_IsGenerated true
                 (set_SkipServiceControl true
                    (append_HttpRule (healthCheckPattern (Options.Healthz (Opts s))) m0)))
       /\ (Methods s !! healthCheckOperation = Some m0
           \/ (Methods s !! healthCheckOperation = None
               /\ m0 = newMethodInfo (ShortName m0) (ApiName m0))).
Proof.
  unfold addHealthCheck. intros H Hset.
  destruct (str_eqb (Options.Healthz (Opts s)) "") eqn:E;
    [by apply str_eqb_eq in E|]. clear E.
  apply bind_Ok in H as (s1 & Hget & H). inversion H; subst s'; clear H.
  destruct (getOrCreateMethod_fields _ _ _ Hget) as (_ & HO & _).
  assert (exists m0,
            Methods s1 !! healthCheckOperation = Some m0
            /\ (Methods s !! healthCheckOperation = Some m0
                \/ (Methods s !! healthCheckOperation = None
                    /\ m0 = newMethodInfo (ShortName m0) (ApiName m0))))
    as (m0 & Hm0 & Horigin).
  { destruct (getOrCreateMethod_cases _ _ _ Hget) as [(m & Hm & ->)|(Hn & sh & api & ->)].
    - exists m. split; [done|by left].
    - exists (newMethodInfo sh api). simpl. rewrite lookup_insert_eq.
      split; [done|]. right. by split. }
  unfold healthCheckPattern, healthzPath. rewrite <- HO.
  destruct (HasPrefix (Options.Healthz (Opts s1)) "/") eqn:Hprefix; simpl.
  - split; [by rewrite set_Healthz_same|]. exists m0. rewrite lookup_alter_eq, Hm0.
    split; [done|done].
  - split; [done|]. exists m0. rewrite lookup_alter_eq, Hm0. split; [|done].
    simpl. by destruct (Options.Healthz (Opts s1)).
Qed.

(** X7 (the health check). When the health-check option is set, a run of
    [processHttpRule] that succeeds leaves the option with a leading slash,
    and the method [healthCheckOperation] in the model: it is generated, it
    skips service control, and its last pattern is GET on the health-check
    path. The error of parsing the path is dropped, so the pattern has no
    template when the path is not a URI template. *)
Theorem processHttpRule_healthCheck (s s' : ServiceInfo) :
  processHttpRule s = Ok s' -> Options.Healthz (Opts s) <> "" ->
  Options.Healthz (Opts s') = healthzPath (Options.Healthz (Opts s))
  /\ HasPrefix (Options.Healthz (Opts s')) "/" = true
  /\ exists m,
       Methods s' !! healthCheckOperation = Some m
       /\ IsGenerated m = true /\ SkipServiceControl m = true
       /\ last (HttpRule_ m) = Some (healthCheckPattern (Options.Healthz (Opts s))).
Proof.
  intros Hrun Hset.
  destruct (writes_processHttpRule s s' Hrun) as (sh & Wh & Hh).
  destruct (writes_frame _ _ _ Wh) as (_ & _ & _ & _ & _ & _ & _ & _ & HO & _).
  specialize (HO ltac:(discriminate)).
  destruct (addHealthCheck_Ok sh s' Hh) as (HO' & m0 & Hm & _); [by rewrite HO|].
  rewrite HO in HO', Hm. rewrite HO'. simpl. split; [done|]. split.
  - unfold healthzPath. destruct (HasPrefix (Options.Healthz (Opts s)) "/") eqn:E; [done|].
    by destruct (Options.Healthz (Opts s)).
  - eexists. split; [exact Hm|]. simpl. repeat split. by rewrite last_snoc.
Qed.

Lemma writes_grow (p : phase) (s s' : ServiceInfo) :
  writes p s s' ->
  (exists extra, RemoteBackendClusters s' = RemoteBackendClusters s ++ extra)
  /\ Options.set_Healthz "" (Opts s') = Options.set_Healthz "" (Opts s).
Proof.
  intros Hrun. induction Hrun as [s|s t s' Hw _ IH].
  - split; [exists []; by rewrite app_nil_r|done].
  - destruct (write_grow p s t Hw) as [[e1 H1] H2]. destruct IH as [[e2 H3] H4].
    split; [|congruence]. exists (e1 ++ e2). by rewrite H3, H1, app_assoc.
Qed.

(** [processApis] does not fail: the selector of an API method has a dot,
    so [getOrCreateMethod] finds or creates its entry. *)
Lemma processApiMethod_Ok (api : Api.t) (method : ApiMethod.t) (s : ServiceInfo) :
  exists s', processApiMethod api method s = Ok s' /\ ApiNames s' = ApiNames s
             /\ serviceConfig s' = serviceConfig s.
Proof.
  unfold processApiMethod.
  set (selector := (Api.Name api ++ "." ++ ApiMethod.Name method)%string).
  assert (exists s1, getOrCreateMethod selector s = Ok s1 /\ ApiNames s1 = ApiNames s
                     /\ serviceConfig s1 = serviceConfig s)
    as (s1 & -> & HA & HC).
  { destruct (Methods s !! selector) as [m|] eqn:Hm.
    - exists s. unfold getOrCreateMethod. by rewrite Hm.
    - destruct (getOrCreateMethod_split selector s Hm)
        as [[Hno _]|(_ & sh & a & _ & _ & ->)]; [|by eexists].
      destruct Hno. by exists (Api.Name api), (ApiMethod.Name method). }
  destruct (HasPrefix _ _); eexists; (split; [reflexivity|]);
    by destruct (ApiMethod.RequestStreaming method || ApiMethod.ResponseStreaming method).
Qed.

Lemma processApiMethods_Ok (api : Api.t) (methods : list ApiMethod.t) (s : ServiceInfo) :
  exists s', forM methods (processApiMethod api) s = Ok s' /\ ApiNames s' = ApiNames s
             /\ serviceConfig s' = serviceConfig s.
Proof.
  revert s. induction methods as [|method methods IH]; intros s; simpl; [by exists s|].
  destruct (processApiMethod_Ok api method s) as (s1 & -> & HA & HC). simpl.
  destruct (IH s1) as (s' & -> & HA' & HC'). exists s'. split; [done|]. split; congruence.
Qed.

Lemma processApis_Ok (s : ServiceInfo) :
  exists s', processApis s = Ok s'
             /\ ApiNames s' = ApiNames s ++ (Api.Name <$> Service.Apis (serviceConfig s))
             /\ serviceConfig s' = serviceConfig s.
Proof.
  unfold processApis. generalize (Service.Apis (serviceConfig s)). intros apis.
  revert s. induction apis as [|api apis IH]; intros s; simpl.
  - exists s. by rewrite app_nil_r.
  - destruct (processApiMethods_Ok api (Api.Methods api)
                (set_ApiNames (ApiNames s ++ [Api.Name api]) s)) as (s1 & -> & HA & HC).
    simpl. destruct (IH s1) as (s' & -> & HA' & HC'). exists s'. split; [done|].
    split; [|by rewrite HC', HC]. rewrite HA', HA. simpl. by rewrite <- app_assoc.
Qed.

(** X8 (the access token). The model of a build that succeeds has the
    access token that the options the build was given tell: fetched from
    the token agent on the loopback address, at the token-agent port, when
    there is a service account key, and from the metadata server at
    [MetadataURL] otherwise, with the HTTP request timeout in both cases. *)
Theorem build_AccessToken (ord : MapOrder) (cfg : Service.t) (id : string)
    (opts : Options.t) (s : ServiceInfo) :
  NewServiceInfoFromServiceConfig ord (Some cfg) id opts = Ok s ->
  AccessToken_ s = Some (accessTokenOf opts).
Proof.
  intros Hbuild.
  destruct (build_run ord cfg id opts s Hbuild)
    as (s1 & s2 & s3 & s4 & s5 & sh & s6 & s7 & s8 & s9 & s10 & s11 & s12 & s13 & s14
        & (H1 & _ & _ & _ & _ & _ & _ & _ & -> & _)
        & W2 & W3 & W4 & W5 & W6 & Wh & W7 & W8 & W9 & W10 & W11 & W12 & W13 & W14 & W15).
  destruct (run_frame _ _ _ _ _ _ _ _ _ _ _ _ _ _ _ _
              W2 W3 W4 W5 W6 Wh W7 W8 W9 W10 W11 W12 W13 W14 W15)
    as (_ & _ & _ & [_ ->] & _ & _ & [HOh _] & _).
  destruct (buildLocalBackend_Ok _ _ H1) as (_ & _ & _ & _ & _ & _ & _ & _ & _ & HO1).
  simpl in HO1.
  assert (Options.set_Healthz "" (Opts s7) = Options.set_Healthz "" opts) as HO.
  { destruct (writes_frame _ _ _ W7) as (_ & _ & _ & _ & _ & _ & _ & _ & HO7 & _).
    rewrite (HO7 ltac:(discriminate)).
    destruct (writes_grow _ _ _ Wh) as [_ ->]. by rewrite HOh, HO1. }
  unfold processAccessToken, accessTokenOf.
  assert (Options.ServiceAccountKey (Opts s7) = Options.ServiceAccountKey opts) as ->
    by exact (f_equal Options.ServiceAccountKey HO).
  assert (Options.TokenAgentPort (Opts s7) = Options.TokenAgentPort opts) as ->
    by exact (f_equal Options.TokenAgentPort HO).
  assert (Options.MetadataURL (Opts s7) = Options.MetadataURL opts) as ->
    by exact (f_equal Options.MetadataURL HO).
  assert (Options.HttpRequestTimeout (Opts s7) = Options.HttpRequestTimeout opts) as ->
    by exact (f_equal Options.HttpRequestTimeout HO).
  by destruct (str_eqb (Options.ServiceAccountKey opts) "").
Qed.

(** The providers after [processEmptyJwksUriByOpenID]. *)
Lemma processEmptyJwksUriByOpenID_resolved (s s' : ServiceInfo) :
  processEmptyJwksUriByOpenID s = Ok s' ->
  exists providers,
    serviceConfig s' = Service.set_AuthProviders providers (serviceConfig s)
    /\ Forall2 resolvedProvider (Service.AuthProviders (serviceConfig s)) providers.
Proof.
  unfold processEmptyJwksUriByOpenID. intros H.
  apply bind_Ok in H as ([providers s1] & H1 & H). inversion H; subst s'; clear H.
  destruct (resolve_providers _ _ _ _ _ H1) as (resolved & -> & Hall & HC & _).
  exists resolved. simpl. by rewrite HC.
Qed.

(** [processEmptyJwksUriByOpenID] with discovery disabled fails at the
    first provider without JWKS URI. *)
Lemma resolve_providers_disabled (l done : list AuthProvider.t) (s : ServiceInfo) :
  Options.DisableOidcDiscovery (Opts s) = true ->
  (exists provider, provider ∈ l /\ AuthProvider.JwksUri provider = "") ->
  exists provider,
    provider ∈ l /\ AuthProvider.JwksUri provider = ""
    /\ forM l
         (fun provider '(done, s) =>
            if str_eqb (AuthProvider.JwksUri provider) "" then
              if Options.DisableOidcDiscovery (Opts s)
              then Err (ErrJwksUriEmpty (AuthProvider.Id provider))
              else
                let s := glog (InfoOpenIDDiscovery (AuthProvider.Id provider)) s in
                match ResolveJwksUriUsingOpenID (AuthProvider.Issuer provider) with
                | None => Err (ErrOpenIDDiscovery (AuthProvider.Id provider))
                | Some jwksUriByOpenID =>
                    Ok ((done ++ [set_JwksUri jwksUriByOpenID provider])%list, s)
                end
            else Ok ((done ++ [provider])%list, s))
         (done, s) = Err (ErrJwksUriEmpty (AuthProvider.Id provider)).
Proof.
  intros Hdis. revert done. induction l as [|p l IH]; intros done (q & Hq & Hempty).
  - by apply elem_of_nil in Hq.
  - destruct (str_eqb (AuthProvider.JwksUri p) "") eqn:E.
    + exists p. split; [apply list_elem_of_here|]. split; [by apply str_eqb_eq|].
      simpl. by rewrite E, Hdis.
    + apply elem_of_cons in Hq as [->|Hq]; [apply str_eqb_neq in E; congruence|].
      destruct (IH (done ++ [p]) (ex_intro _ q (conj Hq Hempty))) as (r & Hr & Hre & Hrun).
      exists r. split; [by apply list_elem_of_further|]. split; [done|].
      simpl. rewrite E. exact Hrun.
Qed.

(** X9 (the JWKS URIs of the providers). A run of
    [processEmptyJwksUriByOpenID] that succeeds leaves every provider with
    a JWKS URI as it is and gives every other provider the URI that OpenID
    discovery returns for its issuer; nothing else of the service
    configuration changes. With OpenID discovery disabled, a provider
    without JWKS URI makes the phase fail, with the error that names the
    first such provider. *)
Theorem processEmptyJwksUriByOpenID_providers (s : ServiceInfo) :
  (forall s', processEmptyJwksUriByOpenID s = Ok s' ->
     exists providers,
       serviceConfig s' = Service.set_AuthProviders providers (serviceConfig s)
       /\ Forall2 resolvedProvider (Service.AuthProviders (serviceConfig s)) providers)
  /\ (Options.DisableOidcDiscovery (Opts s) = true ->
      (exists provider, provider ∈ Service.AuthProviders (serviceConfig s)
                        /\ AuthProvider.JwksUri provider = "") ->
      exists provider,
        provider ∈ Service.AuthProviders (serviceConfig s)
        /\ AuthProvider.JwksUri provider = ""
        /\ processEmptyJwksUriByOpenID s = Err (ErrJwksUriEmpty (AuthProvider.Id provider))).
Proof.
  split; [apply processEmptyJwksUriByOpenID_resolved|].
  intros Hdis Hempty.
  destruct (resolve_providers_disabled _ [] s Hdis Hempty) as (p & Hp & He & Hrun).
  exists p. split; [done|]. split; [done|].
  unfold processEmptyJwksUriByOpenID.
  match goal with
  | |- bind ?run _ = _ =>
      replace run
        with (Err (ErrJwksUriEmpty (AuthProvider.Id p))
              : result (list AuthProvider.t * ServiceInfo))
        by (symmetry; exact Hrun)
  end.
  done.
Qed.

(** X10 (what a build keeps of its inputs). The model of a build that
    succeeds has the name of the service configuration and the
    configuration id it was given; [ApiNames] lists the names of the APIs
    in their order; the options are those given, except that a health-check
    path that is set has a leading slash; and the service configuration is
    the one given, except for the JWKS URIs that OpenID discovery
    resolved. *)
Theorem build_keeps_inputs (ord : MapOrder) (cfg : Service.t) (id : string)
    (opts : Options.t) (s : ServiceInfo) :
  NewServiceInfoFromServiceConfig ord (Some cfg) id opts = Ok s ->
  Name s = Service.Name cfg
  /\ ConfigID s = id
  /\ ApiNames s = Api.Name <$> Service.Apis cfg
  /\ Opts s = (if str_eqb (Options.Healthz opts) "" then opts
               else Options.set_Healthz (healthzPath (Options.Healthz opts)) opts)
  /\ exists providers,
       serviceConfig s = Service.set_AuthProviders providers cfg
       /\ Forall2 resolvedProvider (Service.AuthProviders cfg) providers.
Proof.
  intros Hbuild.
  destruct (build_run ord cfg id opts s Hbuild)
    as (s1 & s2 & s3 & s4 & s5 & sh & s6 & s7 & s8 & s9 & s10 & s11 & s12 & s13 & s14
        & (H1 & _ & H3 & _ & _ & _ & Hh & _ & _ & _ & _ & _ & _ & H13 & _)
        & W2 & W3 & W4 & W5 & W6 & Wh & W7 & W8 & W9 & W10 & W11 & W12 & W13 & W14 & W15).
  destruct (run_frame _ _ _ _ _ _ _ _ _ _ _ _ _ _ _ _
              W2 W3 W4 W5 W6 Wh W7 W8 W9 W10 W11 W12 W13 W14 W15)
    as ((HN & HI & _) & _ & [HA2 HA] & _ & _ & [HC12 HC] & [HOh HO] & _).
  destruct (buildLocalBackend_Ok _ _ H1)
    as (_ & _ & _ & _ & _ & HN1 & _ & _ & HC1 & HO1).
  destruct (buildLocalBackend_fields _ _ H1) as (HI1 & HA1 & _).
  simpl in HN1, HC1, HO1, HI1, HA1.
  split; [congruence|]. split; [congruence|]. split; [|split].
  - destruct (processApis_Ok s2) as (s3' & H3' & HA3 & _).
    rewrite H3 in H3'. inversion H3'; subst s3'.
    destruct (writes_frame _ _ _ W2) as (_ & _ & _ & _ & _ & _ & _ & HC2 & _).
    rewrite HA, HA3, HA2, HA1, (HC2 ltac:(discriminate)), HC1. done.
  - rewrite HO. rewrite HO1 in HOh.
    destruct (str_eqb (Options.Healthz opts) "") eqn:E.
    + unfold addHealthCheck in Hh. rewrite HOh, E in Hh. inversion Hh. congruence.
    + apply str_eqb_neq in E.
      destruct (addHealthCheck_Ok sh s6 Hh) as [-> _]; by rewrite HOh.
  - destruct (processEmptyJwksUriByOpenID_resolved s12 s13 H13) as (providers & Hp & Hall).
    rewrite HC12, HC1 in Hp, Hall. exists providers. by rewrite HC, Hp.
Qed.

(** Every write keeps the service configuration up to the JWKS URIs of
    its providers. *)
Lemma write_config (p : phase) (s s' : ServiceInfo) :
  write p s s' ->
  Service.set_AuthProviders [] (serviceConfig s')
  = Service.set_AuthProviders [] (serviceConfig s).
Proof.
  intros Hw.
  assert (p = ProcessEmptyJwksUriByOpenID \/ p <> ProcessEmptyJwksUriByOpenID) as [->|Hp]
    by (destruct (decide (p = ProcessEmptyJwksUriByOpenID)); auto).
  - inversion Hw; subst; try done.
    by destruct (getOrCreateMethod_fields _ _ _ H0) as (_ & _ & -> & _).
  - destruct (write_frame _ _ _ Hw) as (_ & _ & _ & _ & _ & _ & _ & HC & _).
    by rewrite (HC Hp).
Qed.

(** Only [processAuthRequirement] sets [RequireAuth], and only for the
    selector of an authentication rule with requirements. *)
Lemma methodWrite_RequireAuth (s : ServiceInfo) (k : string) (p : phase)
    (f : MethodInfo -> MethodInfo) (m : MethodInfo) :
  methodWrite s k p f -> RequireAuth (f m) = true ->
  RequireAuth m = true
  \/ exists rule, rule ∈ Service.AuthRules (serviceConfig s)
                  /\ AuthenticationRule.Selector rule = k
                  /\ AuthenticationRule.Requirements rule <> [].
Proof.
  intros Hf. destruct Hf; simpl; auto. intros _. right. by exists rule.
Qed.

(** After [processAuthRequirement] the method of every rule with
    requirements requires authentication. *)
Lemma processAuthRequirement_set (s s' : ServiceInfo) (rule : AuthenticationRule.t) :
  processAuthRequirement s = Ok s' ->
  rule ∈ Service.AuthRules (serviceConfig s) ->
  AuthenticationRule.Requirements rule <> [] ->
  exists m, Methods s' !! AuthenticationRule.Selector rule = Some m
            /\ RequireAuth m = true.
Proof.
  intros Hrun Hin Hreq. unfold processAuthRequirement in Hrun.
  refine (proj2 (forM_each (fun _ => True)
                   (fun rule t =>
                      AuthenticationRule.Requirements rule <> [] ->
                      exists m, Methods t !! AuthenticationRule.Selector rule = Some m
                                /\ RequireAuth m = true)
                   _ _ _ _ s s' I Hrun) rule Hin Hreq).
  - intros x t t' _ _ Hstep. split; [done|]. intros Hx.
    destruct (AuthenticationRule.Requirements x); [done|].
    destruct (Methods t !! AuthenticationRule.Selector x) as [m|] eqn:Hm; [|discriminate].
    inversion Hstep. exists (set_RequireAuth true m). simpl.
    by rewrite lookup_alter_eq, Hm.
  - intros x y t t' _ _ Hq Hstep Hx. destruct (Hq Hx) as (m & Hm & Hr).
    destruct (AuthenticationRule.Requirements y); [inversion Hstep; subst t'; by exists m|].
    destruct (Methods t !! AuthenticationRule.Selector y) as [my|] eqn:Hy; [|discriminate].
    inversion Hstep. simpl.
    destruct (decide (AuthenticationRule.Selector y = AuthenticationRule.Selector x))
      as [Heq|Hne].
    + rewrite Heq, lookup_alter_eq, Hm. by exists (set_RequireAuth true m).
    + rewrite lookup_alter_ne by done. by exists m.
Qed.

(** X11 (which methods require authentication). In the model of a build
    that succeeds, a method requires authentication exactly when an
    authentication rule of the service configuration names its selector and
    has a requirement; a rule without requirements does not turn it on, and
    no other phase does. *)
Theorem build_RequireAuth (ord : MapOrder) (cfg : Service.t) (id : string)
    (opts : Options.t) (s : ServiceInfo) :
  NewServiceInfoFromServiceConfig ord (Some cfg) id opts = Ok s ->
  forall k m, Methods s !! k = Some m ->
    (RequireAuth m = true <->
     exists rule, rule ∈ Service.AuthRules cfg
                  /\ AuthenticationRule.Selector rule = k
                  /\ AuthenticationRule.Requirements rule <> []).
Proof.
  intros Hbuild k m Hk. split.
  - revert k m Hk.
    refine (proj2 (build_invariant
                     (fun s => Service.AuthRules (serviceConfig s) = Service.AuthRules cfg
                               /\ forall k m, Methods s !! k = Some m ->
                                    RequireAuth m = true ->
                                    exists rule, rule ∈ Service.AuthRules cfg
                                      /\ AuthenticationRule.Selector rule = k
                                      /\ AuthenticationRule.Requirements rule <> [])
                     ord cfg id opts s Hbuild _ _)).
    + intros s1 H1. destruct (buildLocalBackend_empty _ _ _ _ H1) as [HM _].
      destruct (buildLocalBackend_Ok _ _ H1) as (_ & _ & _ & _ & _ & _ & _ & _ & HC & _).
      split; [by rewrite HC|]. intros k m Hk. by rewrite HM, lookup_empty in Hk.
    + intros p t t' [HC Hinv] Hw. split.
      { rewrite <- HC. exact (f_equal Service.AuthRules (write_config p t t' Hw)). }
      intros k m' Hk Hauth.
      destruct (write_lookup p t t' k Hw)
        as [Heq|[(_ & sh & api & _ & _ & Hnew)|(m & f & Hm & Hf & Hfm)]].
      * rewrite Heq in Hk. by eapply Hinv.
      * rewrite Hnew in Hk. inversion Hk; subst m'. discriminate.
      * rewrite Hfm in Hk. inversion Hk; subst m'.
        destruct (methodWrite_RequireAuth t k p f m Hf Hauth) as [Hm'|Hrule];
          [by eapply Hinv|]. by rewrite HC in Hrule.
  - intros (rule & Hin & Hsel & Hreq).
    destruct (build_run ord cfg id opts s Hbuild)
      as (s1 & s2 & s3 & s4 & s5 & sh & s6 & s7 & s8 & s9 & s10 & s11 & s12 & s13 & s14
          & (H1 & _ & _ & _ & _ & _ & _ & _ & _ & _ & _ & _ & _ & H13 & _ & H15)
          & W2 & W3 & W4 & W5 & W6 & Wh & W7 & W8 & W9 & W10 & W11 & W12 & W13 & W14 & W15).
    destruct (run_frame _ _ _ _ _ _ _ _ _ _ _ _ _ _ _ _
                W2 W3 W4 W5 W6 Wh W7 W8 W9 W10 W11 W12 W13 W14 W15)
      as (_ & _ & _ & _ & _ & [HC12 _] & _).
    destruct (buildLocalBackend_Ok _ _ H1) as (_ & _ & _ & _ & _ & _ & _ & _ & HC1 & _).
    destruct (processEmptyJwksUriByOpenID_resolved s12 s13 H13) as (providers & Hp & _).
    destruct (writes_frame _ _ _ W14) as (_ & _ & _ & _ & _ & _ & _ & HC14 & _).
    assert (Service.AuthRules (serviceConfig s14) = Service.AuthRules cfg) as HR.
    { rewrite (HC14 ltac:(discriminate)), Hp, HC12, HC1. done. }
    destruct (processAuthRequirement_set s14 s rule H15) as (m' & Hm' & Hauth);
      [by rewrite HR|done|].
    rewrite Hsel, Hk in Hm'. by inversion Hm'.
Qed.

(* --------------------------------------------------------------------- *)
(** ** Further properties: the methods of the APIs *)
(* --------------------------------------------------------------------- *)

(** A streaming method stays streaming. *)
Lemma methodWrite_streaming (s : ServiceInfo) (k : string) (p : phase)
    (f : MethodInfo -> MethodInfo) (m : MethodInfo) :
  methodWrite s k p f -> IsStreaming m = true -> IsStreaming (f m) = true.
Proof. intros Hf. by destruct Hf. Qed.

Lemma write_streaming (p : phase) (s s' : ServiceInfo) (k : string) :
  write p s s' ->
  (exists m, Methods s !! k = Some m /\ IsStreaming m = true) ->
  exists m', Methods s' !! k = Some m' /\ IsStreaming m' = true.
Proof.
  intros Hw (m & Hm & Hs).
  destruct (write_lookup p s s' k Hw) as [Heq|[[Hnone _]|(m0 & f & Hm0 & Hf & Hfm)]].
  - exists m. by rewrite Heq.
  - congruence.
  - rewrite Hm in Hm0. inversion Hm0; subst m0. exists (f m).
    split; [done|by eapply methodWrite_streaming].
Qed.

(** Where the request type name and the streaming flag of a method come
    from. *)
Lemma methodWrite_api (s : ServiceInfo) (k : string) (p : phase)
    (f : MethodInfo -> MethodInfo) (m : MethodInfo) :
  methodWrite s k p f ->
  (IsStreaming (f m) = true ->
   IsStreaming m = true
   \/ exists api method,
        declares (serviceConfig s) api method k
        /\ ApiMethod.RequestStreaming method || ApiMethod.ResponseStreaming method = true)
  /\ (RequestTypeName (f m) = RequestTypeName m
      \/ exists api method,
           declares (serviceConfig s) api method k
           /\ HasPrefix (ApiMethod.RequestTypeUrl method) TypeUrlPrefix = true
           /\ RequestTypeName (f m)
              = TrimPrefix (ApiMethod.RequestTypeUrl method) TypeUrlPrefix).
Proof.
  intros Hf. destruct Hf; simpl; (split; [auto|by left]) || split.
  - intros _. right. by exists api, method.
  - auto.
  - right. by exists api, method.
Qed.

(** [processApiMethod] on a streaming method leaves its entry streaming. *)
Lemma processApiMethod_streaming (api : Api.t) (method : ApiMethod.t) (s s' : ServiceInfo) :
  processApiMethod api method s = Ok s' ->
  ApiMethod.RequestStreaming method || ApiMethod.ResponseStreaming method = true ->
  exists m, Methods s' !! (Api.Name api +:+ "." +:+ ApiMethod.Name method) = Some m
            /\ IsStreaming m = true.
Proof.
  unfold processApiMethod. intros H Hstream. rewrite Hstream in H.
  destruct (getOrCreateMethod _ s) as [s1| |] eqn:Hget; [|discriminate..].
  destruct (getOrCreateMethod_lookup _ _ _ Hget) as [m Hm].
  destruct (HasPrefix _ _); inversion H; subst s'; simpl;
    rewrite !lookup_alter_eq, Hm; by eexists.
Qed.

Lemma modifyMethod_streaming (name : string) (f : MethodInfo -> MethodInfo)
    (s : ServiceInfo) (k : string) :
  (forall m, IsStreaming m = true -> IsStreaming (f m) = true) ->
  streaming s k -> streaming (modifyMethod name f s) k.
Proof.
  intros Hf (m & Hm & Hs). unfold streaming, modifyMethod. simpl.
  destruct (decide (name = k)) as [->|Hne].
  - exists (f m). rewrite lookup_alter_eq, Hm. split; [done|by apply Hf].
  - exists m. by rewrite lookup_alter_ne.
Qed.

Lemma processApiMethod_keeps_streaming (api : Api.t) (method : ApiMethod.t)
    (s s' : ServiceInfo) (k : string) :
  processApiMethod api method s = Ok s' -> streaming s k -> streaming s' k.
Proof.
  unfold processApiMethod. intros H (m & Hm & Hs).
  destruct (getOrCreateMethod _ s) as [s1| |] eqn:Hget; [|discriminate..].
  assert (streaming s1 k) as H1 by (exists m; split; [by eapply getOrCreateMethod_keeps|done]).
  destruct (HasPrefix _ _), (_ || _); inversion H; subst s';
    repeat (apply modifyMethod_streaming; [by intros|]); done.
Qed.

Lemma processApiMethods_keep_streaming (api : Api.t) (methods : list ApiMethod.t)
    (s s' : ServiceInfo) (k : string) :
  forM methods (processApiMethod api) s = Ok s' -> streaming s k -> streaming s' k.
Proof.
  intros Hrun Hs.
  refine (forM_invariant (fun t => streaming t k) _ _ _ s s' Hs Hrun).
  intros method t t' _ Ht Hstep. by eapply processApiMethod_keeps_streaming.
Qed.

(** After [processApis] every method that an API declares as streaming is
    streaming. *)
Lemma processApis_streaming (s s' : ServiceInfo) (api : Api.t) (method : ApiMethod.t) :
  processApis s = Ok s' ->
  api ∈ Service.Apis (serviceConfig s) -> method ∈ Api.Methods api ->
  ApiMethod.RequestStreaming method || ApiMethod.ResponseStreaming method = true ->
  streaming s' (Api.Name api +:+ "." +:+ ApiMethod.Name method).
Proof.
  intros Hrun Hapi Hmethod Hstream. unfold processApis in Hrun.
  refine (proj2 (forM_each (fun _ => True)
                   (fun api t =>
                      forall method, method ∈ Api.Methods api ->
                        ApiMethod.RequestStreaming method
                        || ApiMethod.ResponseStreaming method = true ->
                        streaming t (Api.Name api +:+ "." +:+ ApiMethod.Name method))
                   _ _ _ _ s s' I Hrun) api Hapi method Hmethod Hstream).
  - intros a t t' _ _ Hstep. split; [done|].
    refine (proj2 (forM_each (fun _ => True)
                     (fun method u =>
                        ApiMethod.RequestStreaming method
                        || ApiMethod.ResponseStreaming method = true ->
                        streaming u (Api.Name a +:+ "." +:+ ApiMethod.Name method))
                     _ _ _ _ _ t' I Hstep)).
    + intros x u u' _ _ Hx. split; [done|].
      exact (processApiMethod_streaming a x u u' Hx).
    + intros x y u u' _ _ Hq Hy Hsx.
      exact (processApiMethod_keeps_streaming a y u u' _ Hy (Hq Hsx)).
  - intros a b t t' _ _ Hq Hstep x Hx Hsx.
    exact (processApiMethods_keep_streaming b _ _ t' _ Hstep (Hq x Hx Hsx)).
Qed.

(** X12 (the streaming methods). In the model of a build that succeeds, a
    method is streaming exactly when an API of the service configuration
    declares a method with its selector whose requests or responses are
    streamed; and the request type name of a method, when it has one, is
    the type URL, without the type-URL prefix, of a method that an API
    declares with its selector. *)
Theorem build_api_methods (ord : MapOrder) (cfg : Service.t) (id : string)
    (opts : Options.t) (s : ServiceInfo) :
  NewServiceInfoFromServiceConfig ord (Some cfg) id opts = Ok s ->
  forall k m, Methods s !! k = Some m ->
    (IsStreaming m = true <->
     exists api method,
       declares cfg api method k
       /\ ApiMethod.RequestStreaming method || ApiMethod.ResponseStreaming method = true)
    /\ (RequestTypeName m <> "" ->
        exists api method,
          declares cfg api method k
          /\ HasPrefix (ApiMethod.RequestTypeUrl method) TypeUrlPrefix = true
          /\ RequestTypeName m = TrimPrefix (ApiMethod.RequestTypeUrl method) TypeUrlPrefix).
Proof.
  intros Hbuild.
  assert (Service.Apis (serviceConfig s) = Service.Apis cfg
          /\ forall k m, Methods s !! k = Some m ->
               (IsStreaming m = true ->
                exists api method,
                  declares cfg api method k
                  /\ ApiMethod.RequestStreaming method
                     || ApiMethod.ResponseStreaming method = true)
               /\ (RequestTypeName m <> "" ->
                   exists api method,
                     declares cfg api method k
                     /\ HasPrefix (ApiMethod.RequestTypeUrl method) TypeUrlPrefix = true
                     /\ RequestTypeName m
                        = TrimPrefix (ApiMethod.RequestTypeUrl method) TypeUrlPrefix))
    as [_ Hfrom].
  { apply (build_invariant
             (fun s => Service.Apis (serviceConfig s) = Service.Apis cfg
                       /\ forall k m, Methods s !! k = Some m ->
                            (IsStreaming m = true ->
                             exists api method,
                               declares cfg api method k
                               /\ ApiMethod.RequestStreaming method
                                  || ApiMethod.ResponseStreaming method = true)
                            /\ (RequestTypeName m <> "" ->
                                exists api method,
                                  declares cfg api method k
                                  /\ HasPrefix (ApiMethod.RequestTypeUrl method)
                                       TypeUrlPrefix = true
                                  /\ RequestTypeName m
                                     = TrimPrefix (ApiMethod.RequestTypeUrl method)
                                         TypeUrlPrefix))
             ord cfg id opts s Hbuild).
    - intros s1 H1. destruct (buildLocalBackend_empty _ _ _ _ H1) as [HM _].
      destruct (buildLocalBackend_Ok _ _ H1) as (_ & _ & _ & _ & _ & _ & _ & _ & HC & _).
      split; [by rewrite HC|]. intros k m Hk. by rewrite HM, lookup_empty in Hk.
    - intros p t t' [HC Hinv] Hw.
      assert (forall api method k,
                declares (serviceConfig t) api method k -> declares cfg api method k)
        as Hdecl by (unfold declares; intros api method k; by rewrite HC).
      split.
      { rewrite <- HC. exact (f_equal Service.Apis (write_config p t t' Hw)). }
      intros k m' Hk.
      destruct (write_lookup p t t' k Hw)
        as [Heq|[(_ & sh & api & _ & _ & Hnew)|(m & f & Hm & Hf & Hfm)]].
      + rewrite Heq in Hk. by apply Hinv.
      + rewrite Hnew in Hk. inversion Hk; subst m'. by split.
      + rewrite Hfm in Hk. inversion Hk; subst m'.
        destruct (Hinv k m Hm) as [Hs Hr].
        destruct (methodWrite_api t k p f m Hf) as [Hs' Hr']. split.
        * intros Hfs. destruct (Hs' Hfs) as [?|(a & x & Hd & Hx)]; [auto|].
          exists a, x. auto.
        * destruct Hr' as [->|(a & x & Hd & Hx & Hname)]; [done|].
          intros _. exists a, x. auto. }
  intros k m Hk. destruct (Hfrom k m Hk) as [Hs Hr]. split; [split; [done|]|done].
  intros (api & method & (Hapi & Hmethod & ->) & Hstream).
  destruct (build_run ord cfg id opts s Hbuild)
    as (s1 & s2 & s3 & s4 & s5 & sh & s6 & s7 & s8 & s9 & s10 & s11 & s12 & s13 & s14
        & (H1 & _ & H3 & _)
        & W2 & W3 & W4 & W5 & W6 & Wh & W7 & W8 & W9 & W10 & W11 & W12 & W13 & W14 & W15).
  destruct (buildLocalBackend_Ok _ _ H1) as (_ & _ & _ & _ & _ & _ & _ & _ & HC1 & _).
  destruct (writes_frame _ _ _ W2) as (_ & _ & _ & _ & _ & _ & _ & HC2 & _).
  assert (streaming s3 (Api.Name api +:+ "." +:+ ApiMethod.Name method)) as H3s.
  { eapply processApis_streaming; [exact H3| |done|done].
    by rewrite (HC2 ltac:(discriminate)), HC1. }
  pose proof (fun p => writes_invariant p
                         (fun t => streaming t (Api.Name api +:+ "." +:+ ApiMethod.Name method))
                         (fun t t' Ht Hw => write_streaming p t t' _ Hw Ht)) as Hkeep.
  assert (streaming s (Api.Name api +:+ "." +:+ ApiMethod.Name method)) as (m' & Hm' & Hsm).
  { eapply Hkeep; [exact W15|]. eapply Hkeep; [exact W14|]. eapply Hkeep; [exact W13|].
    eapply Hkeep; [exact W12|]. eapply Hkeep; [exact W11|]. eapply Hkeep; [exact W10|].
    eapply Hkeep; [exact W9|]. eapply Hkeep; [exact W8|]. eapply Hkeep; [exact W7|].
    eapply Hkeep; [exact Wh|]. eapply Hkeep; [exact W6|]. eapply Hkeep; [exact W5|].
    eapply Hkeep; [exact W4|]. exact H3s. }
  rewrite Hk in Hm'. by inversion Hm'.
Qed.

(** *** What panics and what does not *)

Lemma bind_not_Panic {A B : Type} (m : result A) (k : A -> result B) :
  m <> Panic -> (forall a, m = Ok a -> k a <> Panic) -> bind m k <> Panic.
Proof. destruct m as [a|e|]; simpl; intros Hm Hk; [by apply Hk|done|done]. Qed.




Lemma write_keeps_method (p : phase) (s s' : ServiceInfo) (k : string) :
  write p s s' -> is_Some (Methods s !! k) -> is_Some (Methods s' !! k).
Proof.
  intros Hw [m Hm].
  destruct (write_lookup p s s' k Hw) as [Heq|[[Hnone _]|(m0 & f & _ & _ & Hfm)]].
  - by rewrite Heq, Hm.
  - congruence.
  - by rewrite Hfm.
Qed.

Lemma writes_keep_method (p : phase) (s s' : ServiceInfo) (k : string) :
  writes p s s' -> is_Some (Methods s !! k) -> is_Some (Methods s' !! k).
Proof.
  apply (writes_invariant p (fun t => is_Some (Methods t !! k))).
  intros t t' Ht Hw. by eapply write_keeps_method.
Qed.





Lemma modifyMethod_domain (name : string) (f : MethodInfo -> MethodInfo)
    (s : ServiceInfo) (k : string) :
  is_Some (Methods (modifyMethod name f s) !! k) <-> is_Some (Methods s !! k).
Proof.
  unfold modifyMethod. simpl. rewrite <- !not_eq_None_Some. by rewrite lookup_alter_None.
Qed.

Lemma getOrCreateMethod_domain (name : string) (s s' : ServiceInfo) (k : string) :
  getOrCreateMethod name s = Ok s' ->
  is_Some (Methods s' !! k) <-> k = name \/ is_Some (Methods s !! k).
Proof.
  intros Hget. destruct (decide (k = name)) as [->|Hne].
  - split; [by left|]. intros _. by eapply getOrCreateMethod_lookup.
  - rewrite (getOrCreateMethod_other _ _ _ _ Hget) by done. split; [by right|].
    by intros [?|?].
Qed.

Lemma processApiMethod_domain (api : Api.t) (method : ApiMethod.t)
    (s s' : ServiceInfo) (k : string) :
  processApiMethod api method s = Ok s' ->
  is_Some (Methods s' !! k)
  <-> k = Api.Name api +:+ "." +:+ ApiMethod.Name method \/ is_Some (Methods s !! k).
Proof.
  unfold processApiMethod. intros H.
  destruct (getOrCreateMethod _ s) as [s1| |] eqn:Hget; [|discriminate..].
  rewrite <- (getOrCreateMethod_domain _ _ _ k Hget).
  destruct (HasPrefix _ _), (_ || _); inversion H; subst s'; clear H;
    try change (Methods (glog ?ev ?t)) with (Methods t);
    by rewrite ?modifyMethod_domain.
Qed.

























Lemma processEndpoints_Methods (s : ServiceInfo) :
  Methods (processEndpoints s) = Methods s.
Proof.
  unfold processEndpoints. generalize (Service.Name (serviceConfig s)). intros name.
  generalize (Service.Endpoints (serviceConfig s)). intros l. revert s.
  induction l as [|e l IH]; intros s; simpl; [done|]. rewrite IH.
  by destruct (_ && _).
Qed.


(** *** The generated methods *)

Lemma methodWrite_generated (s : ServiceInfo) (k : string) (p : phase)
    (f : MethodInfo -> MethodInfo) (m : MethodInfo) :
  methodWrite s k p f ->
  (IsGenerated m = true -> IsGenerated (f m) = true)
  /\ (IsGenerated (f m) = true ->
      IsGenerated m = true
      \/ (k = healthCheckOperation /\ Options.Healthz (Opts s) <> "")
      \/ exists k0 original,
           Methods s !! k0 = Some original
           /\ k = corsOperation (ApiName original) (ShortName original))
  /\ (forall g, GeneratedCorsMethod (f m) = Some g ->
        GeneratedCorsMethod m = Some g
        \/ exists original companion,
             Methods s !! k = Some original
             /\ g = corsOperation (ApiName original) (ShortName original)
             /\ Methods s !! g = Some companion
             /\ IsGenerated companion = true).
Proof.
  intros Hf. destruct Hf; simpl; try (split; [done|]; split; [by left|by left]).
  - split; [done|]. split; [|by left]. intros _. right. right. by exists k0, original.
  - split; [done|]. split; [by left|]. intros g Hg. inversion Hg; subst g. right.
    by exists original, companion.
  - split; [done|]. split; [|by left]. intros _. right. left. split; [done|].
    intros Hempty. by rewrite Hempty in *.
Qed.

Lemma write_kept (p : phase) (s s' : ServiceInfo) (k : string) (m : MethodInfo) :
  write p s s' -> Methods s !! k = Some m ->
  exists m', Methods s' !! k = Some m'
             /\ ApiName m' = ApiName m /\ ShortName m' = ShortName m
             /\ (IsGenerated m = true -> IsGenerated m' = true).
Proof.
  intros Hw Hm.
  destruct (write_lookup p s s' k Hw) as [Heq|[[Hnone _]|(m0 & f & Hm0 & Hf & Hfm)]].
  - exists m. by rewrite Heq.
  - congruence.
  - rewrite Hm in Hm0. inversion Hm0; subst m0. exists (f m).
    destruct (methodWrite_names s k p f m Hf) as [Ha Hs].
    destruct (methodWrite_generated s k p f m Hf) as (Hg & _).
    done.
Qed.

Lemma write_Healthz_set (p : phase) (s s' : ServiceInfo) :
  write p s s' -> Options.Healthz (Opts s') <> "" -> Options.Healthz (Opts s) <> "".
Proof.
  intros Hw. destruct (decide (p = AddHealthCheck)) as [->|Hne].
  - inversion Hw; subst; try done.
    match goal with H : getOrCreateMethod _ _ = Ok _ |- _ =>
      destruct (getOrCreateMethod_fields _ _ _ H) as (_ & -> & _) end. done.
  - destruct (write_frame p s s' Hw) as (_ & _ & _ & _ & _ & _ & _ & _ & HO & _).
    by rewrite (HO Hne).
Qed.

(** X14 (the generated methods). In the model of a build that succeeds, a
    generated method is the health check, and then the options have a
    health-check path, or the CORS companion of a method of the model,
    named [ApiName.ESPv2_Autogenerated_CORS_ShortName] after it; and the
    generated CORS method that a method points to has that name for the
    method, is a method of the model and is generated. *)
Theorem build_generated (ord : MapOrder) (cfg : Service.t) (id : string)
    (opts : Options.t) (s : ServiceInfo) :
  NewServiceInfoFromServiceConfig ord (Some cfg) id opts = Ok s ->
  forall k m, Methods s !! k = Some m ->
    (IsGenerated m = true ->
     (k = healthCheckOperation /\ Options.Healthz opts <> "")
     \/ exists k0 original,
          Methods s !! k0 = Some original
          /\ k = corsOperation (ApiName original) (ShortName original))
    /\ (forall g, GeneratedCorsMethod m = Some g ->
          g = corsOperation (ApiName m) (ShortName m)
          /\ exists companion, Methods s !! g = Some companion
                               /\ IsGenerated companion = true).
Proof.
  intros Hbuild.
  apply (build_invariant
           (fun s =>
              (Options.Healthz (Opts s) <> "" -> Options.Healthz opts <> "")
              /\ forall k m, Methods s !! k = Some m ->
                   (IsGenerated m = true ->
                    (k = healthCheckOperation /\ Options.Healthz opts <> "")
                    \/ exists k0 original,
                         Methods s !! k0 = Some original
                         /\ k = corsOperation (ApiName original) (ShortName original))
                   /\ (forall g, GeneratedCorsMethod m = Some g ->
                         g = corsOperation (ApiName m) (ShortName m)
                         /\ exists companion, Methods s !! g = Some companion
                                              /\ IsGenerated companion = true))
           ord cfg id opts s Hbuild).
  - intros s1 H1. destruct (buildLocalBackend_empty _ _ _ _ H1) as [HM _].
    destruct (buildLocalBackend_Ok _ _ H1) as (_ & _ & _ & _ & _ & _ & _ & _ & _ & HO).
    split; [by rewrite HO|]. intros k m Hk. by rewrite HM, lookup_empty in Hk.
  - intros p t t' [HO Hinv] Hw.
    assert (forall k0 original,
              Methods t !! k0 = Some original ->
              exists original', Methods t' !! k0 = Some original'
                /\ corsOperation (ApiName original') (ShortName original')
                   = corsOperation (ApiName original) (ShortName original)) as Horig.
    { intros k0 original Hk0.
      destruct (write_kept p t t' k0 original Hw Hk0) as (o' & Ho' & Ha & Hs & _).
      exists o'. by rewrite Ha, Hs. }
    assert (forall g companion,
              Methods t !! g = Some companion -> IsGenerated companion = true ->
              exists companion', Methods t' !! g = Some companion'
                                 /\ IsGenerated companion' = true) as Hcomp.
    { intros g companion Hg Hgen.
      destruct (write_kept p t t' g companion Hw Hg) as (c' & Hc' & _ & _ & Hgen').
      exists c'. split; [done|by apply Hgen']. }
    split; [intros Hnonempty; apply HO; by eapply write_Healthz_set|].
    intros k m' Hk.
    destruct (write_lookup p t t' k Hw)
      as [Heq|[(_ & sh & api & _ & _ & Hnew)|(m & f & Hm & Hf & Hfm)]].
    + rewrite Heq in Hk. destruct (Hinv k m' Hk) as [Hgen Hlink]. split.
      * intros Hg. destruct (Hgen Hg) as [?|(k0 & original & Hk0 & ->)]; [by left|].
        right. destruct (Horig k0 original Hk0) as (o' & Ho' & <-). by exists k0, o'.
      * intros g Hg. destruct (Hlink g Hg) as (-> & companion & Hc & Hcg).
        split; [done|]. by eapply Hcomp.
    + rewrite Hnew in Hk. inversion Hk; subst m'. by split.
    + rewrite Hfm in Hk. inversion Hk; subst m'.
      destruct (Hinv k m Hm) as [Hgen Hlink].
      destruct (methodWrite_names t k p f m Hf) as [Ha Hs].
      destruct (methodWrite_generated t k p f m Hf) as (_ & Hg' & Hl'). split.
      * intros Hg.
        destruct (Hg' Hg) as [Hold|[[-> Hh]|(k0 & original & Hk0 & ->)]].
        -- destruct (Hgen Hold) as [?|(k0 & original & Hk0 & ->)]; [by left|].
           right. destruct (Horig k0 original Hk0) as (o' & Ho' & <-). by exists k0, o'.
        -- left. split; [done|by apply HO].
        -- right. destruct (Horig k0 original Hk0) as (o' & Ho' & <-). by exists k0, o'.
      * intros g Hg. rewrite Ha, Hs.
        destruct (Hl' g Hg) as [Hold|(original & companion & Ho & -> & Hc & Hcg)].
        -- destruct (Hlink g Hold) as (-> & companion & Hc & Hcg).
           split; [done|]. by eapply Hcomp.
        -- rewrite Hm in Ho. inversion Ho; subst original.
           split; [done|]. by eapply Hcomp.
Qed.

(** *** The usage rules *)

Lemma methodWrite_usageFlags (s : ServiceInfo) (k : string) (p : phase)
    (f : MethodInfo -> MethodInfo) (m : MethodInfo) :
  methodWrite s k p f -> p <> ProcessUsageRule -> p <> AddHealthCheck ->
  AllowUnregisteredCalls (f m) = AllowUnregisteredCalls m
  /\ SkipServiceControl (f m) = SkipServiceControl m.
Proof. intros Hf H1 H2. by destruct Hf. Qed.

Lemma writes_usageFlags (p : phase) (s s' : ServiceInfo) (k : string) (a sk : bool) :
  p <> ProcessUsageRule -> p <> AddHealthCheck -> writes p s s' ->
  (is_Some (Methods s !! k) \/ (a = false /\ sk = false)) /\ usageFlags s k a sk ->
  (is_Some (Methods s' !! k) \/ (a = false /\ sk = false)) /\ usageFlags s' k a sk.
Proof.
  intros H1 H2.
  apply (writes_invariant p
           (fun t => (is_Some (Methods t !! k) \/ (a = false /\ sk = false))
                     /\ usageFlags t k a sk)).
  intros t t' [Hor Hflags] Hw. split.
  { destruct Hor as [?|?]; [left; by eapply write_keeps_method|by right]. }
  intros m' Hk.
  destruct (write_lookup p t t' k Hw)
    as [Heq|[(Hnone & sh & api & _ & _ & Hnew)|(m & f & Hm & Hf & Hfm)]].
  - rewrite Heq in Hk. by apply Hflags.
  - rewrite Hnew in Hk. inversion Hk; subst m'. simpl.
    destruct Hor as [[m Hm]|[-> ->]]; [congruence|done].
  - rewrite Hfm in Hk. inversion Hk; subst m'.
    destruct (methodWrite_usageFlags t k p f m Hf H1 H2) as [-> ->]. by apply Hflags.
Qed.

Lemma addHealthCheck_others (s s' : ServiceInfo) (k : string) :
  addHealthCheck s = Ok s' -> k <> healthCheckOperation ->
  Methods s' !! k = Methods s !! k.
Proof.
  unfold addHealthCheck. destruct (str_eqb (Options.Healthz (Opts s)) "");
    [by intros H; inversion H|].
  intros H Hne. apply bind_Ok in H as (s1 & Hget & H). inversion H; subst s'; clear H.
  rewrite <- (getOrCreateMethod_other _ k _ _ Hget) by done.
  destruct (HasPrefix _ _); simpl; by rewrite lookup_alter_ne.
Qed.

(** The loop of [processUsageRule]: the last rule that names a method
    decides its flags, and a method that no rule names is left as it
    was. *)
Lemma processUsageRule_loop (rules : list UsageRule.t) (s s' : ServiceInfo)
    (k : string) (m' : MethodInfo) :
  forM rules
       (fun r s =>
          let* s := getOrCreateMethod (UsageRule.Selector r) s in
          Ok (modifyMethod (UsageRule.Selector r)
                (fun method =>
                   set_SkipServiceControl (UsageRule.SkipServiceControl r)
                     (set_AllowUnregisteredCalls (UsageRule.AllowUnregisteredCalls r) method))
                s))
       s = Ok s' ->
  Methods s' !! k = Some m' ->
  (forall rule, last (usageRulesOf k rules) = Some rule ->
     AllowUnregisteredCalls m' = UsageRule.AllowUnregisteredCalls rule
     /\ SkipServiceControl m' = UsageRule.SkipServiceControl rule)
  /\ (usageRulesOf k rules = [] -> Methods s !! k = Some m').
Proof.
  revert s. induction rules as [|r rules IH]; intros s Hrun Hk; simpl in Hrun.
  - inversion Hrun; subst s'. by split.
  - apply bind_Ok in Hrun as (s1 & H1 & Hrun).
    apply bind_Ok in H1 as (s0 & Hget & H1). inversion H1; subst s1; clear H1.
    destruct (IH _ Hrun Hk) as [Hlast Hnone]. unfold usageRulesOf in *.
    rewrite filter_cons. destruct (decide (UsageRule.Selector r = k)) as [Heq|Hne].
    + split; [|done]. intros rule Hrule.
      destruct (filter _ rules) as [|x xs] eqn:Hf.
      * inversion Hrule; subst rule. specialize (Hnone eq_refl).
        unfold modifyMethod in Hnone. simpl in Hnone. rewrite Heq in Hnone.
        rewrite lookup_alter_eq in Hnone.
        destruct (Methods s0 !! k) as [m0|]; inversion Hnone; subst m'. done.
      * apply Hlast. exact Hrule.
    + split; [exact Hlast|]. intros Hempty. specialize (Hnone Hempty).
      unfold modifyMethod in Hnone. simpl in Hnone.
      rewrite lookup_alter_ne in Hnone by done.
      by rewrite (getOrCreateMethod_other _ k _ _ Hget) in Hnone.
Qed.

Lemma usageRulesOf_nil (k : string) (rules : list UsageRule.t) :
  usageRulesOf k rules = [] <-> forall rule, rule ∈ rules -> UsageRule.Selector rule <> k.
Proof.
  unfold usageRulesOf. split.
  - intros Hnil rule Hin Heq.
    assert (rule ∈ filter (fun r => UsageRule.Selector r = k) rules) as Hf
      by (by apply list_elem_of_filter).
    rewrite Hnil in Hf. by apply elem_of_nil in Hf.
  - intros Hall. destruct (filter _ rules) as [|x xs] eqn:Hf; [done|].
    assert (x ∈ filter (fun r => UsageRule.Selector r = k) rules) as Hx
      by (rewrite Hf; by left).
    apply list_elem_of_filter in Hx as [Hsel Hin]. by destruct (Hall x Hin).
Qed.

Lemma last_elem_of {A : Type} (l : list A) (x : A) : last l = Some x -> x ∈ l.
Proof.
  induction l as [|y [|z l] IH]; simpl; [done| |].
  - intros H; inversion H. by left.
  - intros H. right. by apply IH.
Qed.

(** X15 (the usage rules). In the model of a build that succeeds, the flags
    "allow unregistered calls" and "skip service control" of a method that
    usage rules name are those of the last of these rules; a method that no
    usage rule names does not allow unregistered calls, and skips service
    control exactly when it is the health check of a build whose options
    have a health-check path. *)
Theorem build_usage (ord : MapOrder) (cfg : Service.t) (id : string)
    (opts : Options.t) (s : ServiceInfo) :
  NewServiceInfoFromServiceConfig ord (Some cfg) id opts = Ok s ->
  forall k m, Methods s !! k = Some m ->
    (forall rule, last (usageRulesOf k (Service.UsageRules cfg)) = Some rule ->
       AllowUnregisteredCalls m = UsageRule.AllowUnregisteredCalls rule
       /\ SkipServiceControl m = UsageRule.SkipServiceControl rule)
    /\ ((forall rule, rule ∈ Service.UsageRules cfg -> UsageRule.Selector rule <> k) ->
        AllowUnregisteredCalls m = false
        /\ (SkipServiceControl m = true
            <-> k = healthCheckOperation /\ Options.Healthz opts <> "")).
Proof.
  intros Hbuild k m Hk.
  destruct (build_run ord cfg id opts s Hbuild)
    as (s1 & s2 & s3 & s4 & s5 & sh & s6 & s7 & s8 & s9 & s10 & s11 & s12 & s13 & s14
        & (H1 & _ & _ & _ & _ & _ & Hh & H7 & _)
        & W2 & W3 & W4 & W5 & W6 & Wh & W7 & W8 & W9 & W10 & W11 & W12 & W13 & W14 & W15).
  destruct (run_frame _ _ _ _ _ _ _ _ _ _ _ _ _ _ _ _
              W2 W3 W4 W5 W6 Wh W7 W8 W9 W10 W11 W12 W13 W14 W15)
    as (_ & _ & _ & _ & _ & [HC12 _] & [HOh _] & _).
  destruct (buildLocalBackend_empty _ _ _ _ H1) as [HM1 _].
  destruct (buildLocalBackend_Ok _ _ H1) as (_ & _ & _ & _ & _ & _ & _ & _ & HC1 & HO1).
  simpl in HC1, HO1.
  (* before the health check no flag is set *)
  assert (forall k, usageFlags sh k false false) as Hsh.
  { intros k0.
    refine (proj2 (writes_usageFlags _ _ _ k0 false false _ _ W6 _)); [done..|].
    refine (writes_usageFlags _ _ _ k0 false false _ _ W5 _); [done..|].
    refine (writes_usageFlags _ _ _ k0 false false _ _ W4 _); [done..|].
    refine (writes_usageFlags _ _ _ k0 false false _ _ W3 _); [done..|].
    refine (writes_usageFlags _ _ _ k0 false false _ _ W2 _); [done..|].
    split; [by right|]. intros m0 Hm0. by rewrite HM1, lookup_empty in Hm0. }
  (* after it, the health check skips service control *)
  assert (Options.Healthz (Opts sh) = Options.Healthz opts) as HOpts by (by rewrite HOh, HO1).
  assert (forall k m6, Methods s6 !! k = Some m6 ->
            AllowUnregisteredCalls m6 = false
            /\ (SkipServiceControl m6 = true
                <-> k = healthCheckOperation /\ Options.Healthz opts <> "")) as H6flags.
  { intros k0 m6 Hm6. destruct (decide (k0 = healthCheckOperation
                                        /\ Options.Healthz opts <> "")) as [[-> Hset]|Hno].
    - destruct (addHealthCheck_Ok sh s6 Hh) as (_ & m0 & Hm & Horigin); [by rewrite HOpts|].
      rewrite Hm in Hm6. inversion Hm6; subst m6. simpl. split; [|done].
      destruct Horigin as [Hin| [_ ->]]; [by apply (Hsh _ m0 Hin)|done].
    - assert (Methods s6 !! k0 = Methods sh !! k0) as Heq.
      { destruct (decide (k0 = healthCheckOperation)) as [->|Hne];
          [|by apply addHealthCheck_others].
        assert (Options.Healthz opts = "") as Hempty.
        { destruct (decide (Options.Healthz opts = "")); [done|]. destruct Hno. by split. }
        unfold addHealthCheck in Hh. rewrite HOpts, Hempty in Hh. simpl in Hh.
        by inversion Hh. }
      rewrite Heq in Hm6. destruct (Hsh k0 m6 Hm6) as [-> ->]. split; [done|].
      split; [done|]. intros ?. by destruct Hno. }
  assert (Options.Healthz opts <> "" -> is_Some (Methods s6 !! healthCheckOperation))
    as Hhc.
  { intros Hset. destruct (addHealthCheck_Ok sh s6 Hh) as (_ & m0 & -> & _);
      [by rewrite HOpts|done]. }
  (* the usage rules *)
  assert (Service.UsageRules (serviceConfig s6) = Service.UsageRules cfg) as HU.
  { destruct (writes_frame _ _ _ Wh) as (_ & _ & _ & _ & _ & _ & _ & HCh & _).
    destruct (writes_frame _ _ _ W6) as (_ & _ & _ & _ & _ & _ & _ & HC6 & _).
    destruct (writes_frame _ _ _ W5) as (_ & _ & _ & _ & _ & _ & _ & HC5 & _).
    destruct (writes_frame _ _ _ W4) as (_ & _ & _ & _ & _ & _ & _ & HC4 & _).
    destruct (writes_frame _ _ _ W3) as (_ & _ & _ & _ & _ & _ & _ & HC3 & _).
    destruct (writes_frame _ _ _ W2) as (_ & _ & _ & _ & _ & _ & _ & HC2 & _).
    rewrite (HCh ltac:(discriminate)), (HC6 ltac:(discriminate)),
      (HC5 ltac:(discriminate)), (HC4 ltac:(discriminate)), (HC3 ltac:(discriminate)),
      (HC2 ltac:(discriminate)). by rewrite HC1. }
  unfold processUsageRule in H7. rewrite HU in H7.
  assert (forall a sk,
            (is_Some (Methods s7 !! k) \/ (a = false /\ sk = false))
            /\ usageFlags s7 k a sk ->
            AllowUnregisteredCalls m = a /\ SkipServiceControl m = sk) as Hlater.
  { intros a sk H. refine (proj2 (writes_usageFlags _ _ _ k a sk _ _ W15 _) m Hk); [done..|].
    refine (writes_usageFlags _ _ _ k a sk _ _ W14 _); [done..|].
    refine (writes_usageFlags _ _ _ k a sk _ _ W13 _); [done..|].
    refine (writes_usageFlags _ _ _ k a sk _ _ W12 _); [done..|].
    refine (writes_usageFlags _ _ _ k a sk _ _ W11 _); [done..|].
    refine (writes_usageFlags _ _ _ k a sk _ _ W10 _); [done..|].
    refine (writes_usageFlags _ _ _ k a sk _ _ W9 _); [done..|].
    refine (writes_usageFlags _ _ _ k a sk _ _ W8 _); [done..|]. exact H. }
  destruct (Methods s7 !! k) as [m7|] eqn:Hm7.
  - destruct (processUsageRule_loop _ _ _ k m7 H7 Hm7) as [Hlast Hnone].
    destruct (Hlater (AllowUnregisteredCalls m7) (SkipServiceControl m7)) as [-> ->].
    { split; [left; by eexists|]. intros m0 Hm0. rewrite Hm7 in Hm0. by inversion Hm0. }
    split; [exact Hlast|]. intros Hno. apply H6flags. apply Hnone.
    by apply usageRulesOf_nil.
  - assert (forall rule, rule ∈ Service.UsageRules cfg -> UsageRule.Selector rule <> k)
      as Hnot.
    { intros rule Hin <-.
      assert (is_Some (Methods s7 !! UsageRule.Selector rule)) as [? ?]; [|congruence].
      revert H7. generalize s6. clear -Hin.
      induction (Service.UsageRules cfg) as [|r rules IH]; intros t Hrun;
        [by apply elem_of_nil in Hin|].
      simpl in Hrun. apply bind_Ok in Hrun as (t1 & H1 & Hrun).
      apply elem_of_cons in Hin as [->|Hin]; [|by eapply IH].
      apply bind_Ok in H1 as (t0 & Hget & H1). inversion H1; subst t1; clear H1.
      eapply writes_keep_method.
      - eapply (writes_forM ProcessUsageRule); [|exact Hrun].
        intros x u u' _ _ Hx. apply bind_Ok in Hx as (u0 & Hg & Hx).
        inversion Hx; subst u'. eapply writes_then; [by eapply writes_getOrCreateMethod|].
        apply write_method. apply write_usage.
      - apply modifyMethod_domain. by eapply getOrCreateMethod_lookup. }
    destruct (Hlater false false) as [-> ->].
    { split; [by right|]. intros m0 Hm0. congruence. }
    split.
    + intros rule Hrule. apply last_elem_of in Hrule.
      apply list_elem_of_filter in Hrule as [Hsel Hin]. by destruct (Hnot rule Hin).
    + intros _. split; [done|]. split; [done|]. intros [-> Hset].
      destruct (Hhc Hset) as [m6 Hm6].
      assert (is_Some (Methods s7 !! healthCheckOperation)) as [? ?]; [|congruence].
      eapply writes_keep_method; [exact W7|by rewrite Hm6].
Qed.

(** *** The route generator on a built model *)

Lemma forM_all_Ok {A S : Type} (body : A -> S -> result S) (l : list A) :
  (forall x acc, x ∈ l -> exists acc', body x acc = Ok acc') ->
  forall acc, exists r, forM l body acc = Ok r.
Proof.
  induction l as [|x l IH]; intros Hbody acc; simpl; [by exists acc|].
  destruct (Hbody x acc) as [acc' ->]; [by left|]. simpl.
  apply IH. intros y a Hy. apply Hbody. by right.
Qed.

Lemma write_ops_ok (p : phase) (s s' : ServiceInfo) :
  write p s s' -> ops_ok s -> ops_ok s'.
Proof.
  intros Hw [Hnodup Hkeys]. inversion Hw; subst; try done.
  - match goal with H : getOrCreateMethod _ _ = Ok _ |- _ =>
      destruct (getOrCreateMethod_cases _ _ _ H)
        as [(m & Hm & ->)|(Hnone & sh & api & ->)] end; [done|].
    split; simpl.
    + apply NoDup_app. split; [done|]. split; [|apply NoDup_singleton].
      intros k Hk ->%list_elem_of_singleton. apply Hkeys in Hk as [m Hm]. congruence.
    + intros k. rewrite elem_of_app, list_elem_of_singleton, Hkeys.
      destruct (decide (k = name)) as [->|Hne].
      * rewrite lookup_insert_eq. split; [by eexists|by right].
      * rewrite lookup_insert_ne by done. split; [by intros [?|?]|by left].
  - split; [done|]. intros k. rewrite Hkeys. symmetry. apply modifyMethod_domain.
  - unfold processAccessToken. by destruct (negb _).
Qed.

Lemma methodWrite_parsed (s : ServiceInfo) (k : string) (p : phase)
    (f : MethodInfo -> MethodInfo) (m : MethodInfo) (pat : HttpPattern) :
  (forall path t, ParseUriTemplate path = Some t -> Origin t = path) ->
  methodWrite s k p f -> p <> AddHealthCheck -> p <> ProcessTypes ->
  parsed s -> pat ∈ HttpRule_ (f m) ->
  pat ∈ HttpRule_ m
  \/ exists path t, ParseUriTemplate path = Some t /\ UriTemplate pat = Some t.
Proof.
  intros Hparse Hf H1 H2 Hs Hin.
  destruct Hf; simpl in Hin; try (by left); try done;
    (apply elem_of_app in Hin as [Hin|Hin%list_elem_of_singleton]; [by left|subst pat]).
  - right. by exists path, t.
  - right. match goal with H : templateOf _ _ |- _ => destruct H as (k1 & m1 & p1 & Hk1 & Hp1 & Ht1) end.
    destruct (Hs k1 m1 p1 Hk1 Hp1) as (path & t1 & Hpath & Ht).
    rewrite Ht1 in Ht. inversion Ht; subst t1.
    exists path, t. simpl. by rewrite (Hparse path t Hpath).
  - right. by exists path, t.
Qed.

Lemma writes_parsed (p : phase) (s s' : ServiceInfo) :
  (forall path t, ParseUriTemplate path = Some t -> Origin t = path) ->
  p <> AddHealthCheck -> p <> ProcessTypes ->
  writes p s s' -> parsed s -> parsed s'.
Proof.
  intros Hparse H1 H2. apply (writes_invariant p parsed). intros t t' Ht Hw k m' pat Hk Hin.
  destruct (write_lookup p t t' k Hw)
    as [Heq|[(_ & sh & api & _ & _ & Hnew)|(m & f & Hm & Hf & Hfm)]].
  - rewrite Heq in Hk. by eapply Ht.
  - rewrite Hnew in Hk. inversion Hk; subst m'. by apply elem_of_nil in Hin.
  - rewrite Hfm in Hk. inversion Hk; subst m'.
    destruct (methodWrite_parsed t k p f m pat Hparse Hf H1 H2 Ht Hin) as [Hold|?]; [|done].
    by eapply Ht.
Qed.

Lemma methodWrite_binding_templates (s : ServiceInfo) (k : string) (p : phase)
    (f : MethodInfo -> MethodInfo) (m : MethodInfo) :
  methodWrite s k p f -> p <> AddHealthCheck -> p <> ProcessHttpRule ->
  (is_Some (BackendInfo m) -> is_Some (BackendInfo (f m)))
  /\ ((forall pat, pat ∈ HttpRule_ m -> is_Some (UriTemplate pat)) ->
      forall pat, pat ∈ HttpRule_ (f m) -> is_Some (UriTemplate pat)).
Proof.
  intros Hf H1 H2. destruct Hf; simpl; try done; (split; [done|]); intros Hall pat Hin.
  - apply list_elem_of_fmap in Hin as (pat0 & -> & Hin0). simpl.
    destruct (Hall pat0 Hin0) as [t ->]. by eexists.
  - apply elem_of_app in Hin as [Hin|Hin%list_elem_of_singleton]; [by apply Hall|].
    subst pat. by eexists.
Qed.

Lemma processAuthRequirement_patterns (s s' : ServiceInfo) :
  processAuthRequirement s = Ok s' ->
  Operations s' = Operations s
  /\ forall k m', Methods s' !! k = Some m' ->
       exists m, Methods s !! k = Some m
                 /\ BackendInfo m' = BackendInfo m /\ HttpRule_ m' = HttpRule_ m.
Proof.
  unfold processAuthRequirement. generalize (Service.AuthRules (serviceConfig s)).
  intros rules.
  apply (forM_invariant
           (fun t => Operations t = Operations s
                     /\ forall k m', Methods t !! k = Some m' ->
                          exists m, Methods s !! k = Some m
                                    /\ BackendInfo m' = BackendInfo m
                                    /\ HttpRule_ m' = HttpRule_ m)); [|by split; [|eauto]].
  intros rule t t' _ [HO HM] Hstep.
  destruct (AuthenticationRule.Requirements rule); [by inversion Hstep; subst|].
  destruct (Methods t !! AuthenticationRule.Selector rule) as [m0|] eqn:Hm0;
    inversion Hstep; subst t'; clear Hstep.
  split; [done|]. intros k m'. unfold modifyMethod. simpl.
  destruct (decide (AuthenticationRule.Selector rule = k)) as [<-|Hne].
  - rewrite lookup_alter_eq, Hm0. intros H; inversion H; subst m'. simpl. by apply HM.
  - rewrite lookup_alter_ne by done. apply HM.
Qed.

(** On a model that has what the route generator dereferences, the route
    table is made whenever the patterns can be sorted. *)
Lemma makeRouteTable_total (s : ServiceInfo) :
  (forall l l', Sort l = Some l' -> l' ≡ₚ l) ->
  routable s ->
  exists l, httpPatternMethodsOf s = Ok l
            /\ (Sort l = None -> makeRouteTable s = Err ErrSortRouteMatch)
            /\ (is_Some (Sort l) -> exists routes, makeRouteTable s = Ok routes).
Proof.
  intros Hsort [[_ Hops] Hall].
  destruct (forM_all_Ok
              (fun operation httpPatternMethods =>
                 match Methods s !! operation with
                 | None => Panic
                 | Some method =>
                     Ok (httpPatternMethods ++
                           map (fun httpRule =>
                                  {| Pattern_ := httpRule; Operation := operation |})
                               (HttpRule_ method))%list
                 end)
              (Operations s)) with (acc := @nil (PatternMethod UriTemplateT)) as [l Hl].
  { intros operation acc Hin. apply Hops in Hin as [method ->]. by eexists. }
  fold (httpPatternMethodsOf s) in Hl. exists l. split; [done|].
  unfold makeRouteTable, getSortMethodsByHttpPattern. rewrite Hl. cbn [bind].
  split; [by intros ->|]. intros [sorted Hsorted]. rewrite Hsorted. cbn [bind].
  apply forM_all_Ok. intros pm acc Hpm.
  assert (pm ∈ l) as Hin by (by rewrite <- (Hsort l sorted Hsorted)).
  destruct (httpPatternMethodsOf_elem s l pm Hl Hin) as (method & Hm & Hpat).
  destruct (Hall _ _ Hm) as [[b Hb] Htpl]. destruct (Htpl _ Hpat) as [t Ht].
  assert (exists routes, routesOf s pm = Ok routes) as [routes ->]; [|by eexists].
  unfold routesOf. rewrite Hm, Hb.
  assert ((if IsStreaming method then Ok 0 else Ok (backendInfo.Deadline b))
          = Ok (if IsStreaming method then 0 else backendInfo.Deadline b)) as ->
    by (by destruct (IsStreaming method)).
  cbn [bind]. unfold makeHttpRouteMatchers. cbn [UriTemplate HttpMethod]. rewrite Ht.
  destruct (negb (str_eqb (HttpMethod (Pattern_ pm)) HttpMethodWildCard)); cbn [bind];
    apply forM_all_Ok; intros matcher routes _; by eexists.
Qed.

(** X16 (the route generator on a built model). Take [Origin] to be the
    string a template was parsed from and [Sort] to rearrange its input.
    When the health-check path of the options, if there is one, is a URI
    template, the route generator dereferences no nil pointer on the model
    of a build that succeeds: the patterns of the methods are collected,
    the route table is made when [Sort] sorts them and is refused with the
    sort error otherwise, and [MakeRouteConfig] does not panic. *)
Theorem build_routes_total (ord : MapOrder) (cfg : Service.t) (id : string)
    (opts : Options.t) (s : ServiceInfo) :
  (forall path t, ParseUriTemplate path = Some t -> Origin t = path) ->
  (forall l l', Sort l = Some l' -> l' ≡ₚ l) ->
  NewServiceInfoFromServiceConfig ord (Some cfg) id opts = Ok s ->
  (Options.Healthz opts = ""
   \/ is_Some (ParseUriTemplate (healthzPath (Options.Healthz opts)))) ->
  (exists l, httpPatternMethodsOf s = Ok l
             /\ (Sort l = None -> makeRouteTable s = Err ErrSortRouteMatch)
             /\ (is_Some (Sort l) -> exists routes, makeRouteTable s = Ok routes))
  /\ MakeRouteConfig s <> Panic.
Proof.
  intros Hparse Hsort Hbuild Hhealth.
  assert (routable s) as Hroutable.
  { split.
    { apply (build_invariant ops_ok ord cfg id opts s Hbuild).
      - intros s1 H1. destruct (buildLocalBackend_empty _ _ _ _ H1) as [HM HO].
        split; rewrite HO; [apply NoDup_nil_2|]. intros k. rewrite HM, lookup_empty.
        split; [by intros H%elem_of_nil|by intros [x Hx]].
      - intros p t t' Ht Hw. by eapply write_ops_ok. }
    destruct (build_run ord cfg id opts s Hbuild)
      as (s1 & s2 & s3 & s4 & s5 & sh & s6 & s7 & s8 & s9 & s10 & s11 & s12 & s13 & s14
          & (H1 & _ & _ & _ & _ & _ & Hh & _ & _ & _ & _ & _ & _ & _ & H14 & H15)
          & W2 & W3 & W4 & W5 & W6 & Wh & W7 & W8 & W9 & W10 & W11 & W12 & W13 & W14 & W15).
    destruct (run_frame _ _ _ _ _ _ _ _ _ _ _ _ _ _ _ _
                W2 W3 W4 W5 W6 Wh W7 W8 W9 W10 W11 W12 W13 W14 W15)
      as (_ & _ & _ & _ & _ & _ & [HOh _] & _).
    destruct (buildLocalBackend_empty _ _ _ _ H1) as [HM1 _].
    destruct (buildLocalBackend_Ok _ _ H1)
      as (local & HL1 & _ & _ & _ & _ & _ & _ & _ & HO1).
    simpl in HO1.
    (* the templates before the health check *)
    assert (parsed sh) as Hsh.
    { eapply writes_parsed; [done| | |exact W6|]; [done..|].
      eapply writes_parsed; [done| | |exact W5|]; [done..|].
      eapply writes_parsed; [done| | |exact W4|]; [done..|].
      eapply writes_parsed; [done| | |exact W3|]; [done..|].
      eapply writes_parsed; [done| | |exact W2|]; [done..|].
      intros k m pat Hk. by rewrite HM1, lookup_empty in Hk. }
    (* the templates after it *)
    assert (forall k m pat, Methods s6 !! k = Some m -> pat ∈ HttpRule_ m ->
              is_Some (UriTemplate pat)) as H6.
    { intros k m pat Hk Hin.
      assert (Options.Healthz (Opts sh) = Options.Healthz opts) as HOpts
        by (by rewrite HOh, HO1).
      assert (forall m0, Methods sh !! k = Some m0 -> pat ∈ HttpRule_ m0 ->
                is_Some (UriTemplate pat)) as Hold.
      { intros m0 Hm0 Hin0. destruct (Hsh k m0 pat Hm0 Hin0) as (path & t & _ & ->).
        by eexists. }
      destruct (decide (k = healthCheckOperation /\ Options.Healthz opts <> ""))
        as [[-> Hset]|Hno].
      - destruct (addHealthCheck_Ok sh s6 Hh) as (_ & m0 & Hm & Horigin);
          [by rewrite HOpts|].
        rewrite Hm in Hk. inversion Hk; subst m. simpl in Hin.
        apply elem_of_app in Hin as [Hin|Hin%list_elem_of_singleton].
        + destruct Horigin as [Hin0|[_ Hnew]]; [by eapply Hold|].
          rewrite Hnew in Hin. by apply elem_of_nil in Hin.
        + subst pat. simpl. rewrite HOpts. by destruct Hhealth.
      - assert (Methods s6 !! k = Methods sh !! k) as Heq.
        { destruct (decide (k = healthCheckOperation)) as [->|Hne];
            [|by apply addHealthCheck_others].
          assert (Options.Healthz opts = "") as Hempty.
          { destruct (decide (Options.Healthz opts = "")); [done|]. destruct Hno.
            by split. }
          unfold addHealthCheck in Hh. rewrite HOpts, Hempty in Hh. simpl in Hh.
          by inversion Hh. }
        rewrite Heq in Hk. by eapply Hold. }
    (* through the phases up to the default bindings *)
    assert (forall p t t', p <> AddHealthCheck -> p <> ProcessHttpRule -> writes p t t' ->
              (forall k m pat, Methods t !! k = Some m -> pat ∈ HttpRule_ m ->
                 is_Some (UriTemplate pat)) ->
              forall k m pat, Methods t' !! k = Some m -> pat ∈ HttpRule_ m ->
                is_Some (UriTemplate pat)) as Hkeep.
    { intros p t t' Hp1 Hp2.
      apply (writes_invariant p
               (fun t => forall k m pat, Methods t !! k = Some m -> pat ∈ HttpRule_ m ->
                           is_Some (UriTemplate pat))).
      intros u u' Hu Hw k m' pat Hk Hin.
      destruct (write_lookup p u u' k Hw)
        as [Heq|[(Hnone & sh' & api & _ & _ & Hnew)|(m & f & Hm & Hf & Hfm)]].
      - rewrite Heq in Hk. by eapply Hu.
      - rewrite Hnew in Hk. inversion Hk; subst m'. by apply elem_of_nil in Hin.
      - rewrite Hfm in Hk. inversion Hk; subst m'.
        destruct (methodWrite_binding_templates u k p f m Hf Hp1 Hp2) as [_ Ht'].
        apply Ht'; [|done]. intros pat0 Hin0. by eapply Hu. }
    assert (forall k m pat, Methods s13 !! k = Some m -> pat ∈ HttpRule_ m ->
              is_Some (UriTemplate pat)) as H13.
    { eapply Hkeep; [| |exact W13|]; [done..|]. eapply Hkeep; [| |exact W12|]; [done..|].
      eapply Hkeep; [| |exact W11|]; [done..|]. eapply Hkeep; [| |exact W10|]; [done..|].
      eapply Hkeep; [| |exact W9|]; [done..|]. eapply Hkeep; [| |exact W8|]; [done..|].
      eapply Hkeep; [| |exact W7|]; [done..|]. exact H6. }
    assert (LocalBackendCluster s13 = Some local) as HL13.
    { destruct (run_frame _ _ _ _ _ _ _ _ _ _ _ _ _ _ _ _
                  W2 W3 W4 W5 W6 Wh W7 W8 W9 W10 W11 W12 W13 (writes_refl _ s13)
                  (writes_refl _ s13)) as ((_ & _ & ->) & _). exact HL1. }
    pose proof (processLocalBackendOperations_Ok ord s13 s14 local HL13 H14) as HM14.
    destruct (processAuthRequirement_patterns s14 s H15) as [_ HM15].
    intros k m Hk. destruct (HM15 k m Hk) as (m14 & Hm14 & -> & ->).
    rewrite HM14 in Hm14. destruct (Methods s13 !! k) as [m13|] eqn:Hm13; [|done].
    inversion Hm14; subst m14. unfold bindLocal.
    destruct (BackendInfo m13) as [b|] eqn:Hb.
    - rewrite Hb. split; [by eexists|]. intros pat Hin. by eapply H13.
    - simpl. split; [by eexists|]. intros pat Hin. by eapply H13. }
  destruct (makeRouteTable_total s Hsort Hroutable) as (l & Hl & Hnone & Hsome).
  split; [by exists l|].
  unfold MakeRouteConfig. apply bind_not_Panic.
  - destruct (Sort l) as [sorted|] eqn:Hs.
    + destruct Hsome as [routes ->]; [by eexists|done].
    + by rewrite Hnone.
  - intros routes _. apply bind_not_Panic; [|by intros [c|] _].
    unfold corsPolicyOf.
    repeat match goal with |- context [if ?b then _ else _] => destruct b end; done.
Qed.

(** *** The patterns of gRPC *)

Lemma writes_has_pattern (p : phase) (s s' : ServiceInfo) (k : string) (pat : HttpPattern) :
  p <> ProcessTypes -> writes p s s' -> has_pattern s k pat -> has_pattern s' k pat.
Proof.
  intros Hp. apply (writes_invariant p (fun t => has_pattern t k pat)).
  intros t t' Ht Hw. by eapply write_has_pattern.
Qed.

(** With a gRPC backend, [addGrpcHttpRules] gives every method that an API
    declares the pattern [POST /Api/Method]. *)
Lemma addGrpcHttpRules_patterns (s s' : ServiceInfo) (api : Api.t) (method : ApiMethod.t) :
  addGrpcHttpRules s = Ok s' -> GrpcSupportRequired s = true ->
  api ∈ Service.Apis (serviceConfig s) -> method ∈ Api.Methods api ->
  exists t,
    ParseUriTemplate ("/" +:+ Api.Name api +:+ "/" +:+ ApiMethod.Name method) = Some t
    /\ has_pattern s' (Api.Name api +:+ "." +:+ ApiMethod.Name method)
         {| HttpMethod := POST; UriTemplate := Some t |}.
Proof.
  unfold addGrpcHttpRules. intros Hrun Hgrpc Hapi Hmethod. rewrite Hgrpc in Hrun.
  simpl in Hrun.
  assert (forall (a : Api.t) (x : ApiMethod.t) (u u' : ServiceInfo),
            (let selector := Api.Name a +:+ "." +:+ ApiMethod.Name x in
             let mi := getOrCreateMethod selector u in
             let path := "/" +:+ Api.Name a +:+ "/" +:+ ApiMethod.Name x in
             match ParseUriTemplate path with
             | None => Err (ErrGrpcHttpRule (Api.Name a) (ApiMethod.Name x))
             | Some uriTemplate =>
                 match mi with
                 | Ok s =>
                     Ok (modifyMethod selector
                           (append_HttpRule
                              {| HttpMethod := POST; UriTemplate := Some uriTemplate |})
                           s)
                 | _ => Panic
                 end
             end) = Ok u' ->
            writes AddGrpcHttpRules u u'
            /\ exists t,
                 ParseUriTemplate ("/" +:+ Api.Name a +:+ "/" +:+ ApiMethod.Name x) = Some t
                 /\ has_pattern u' (Api.Name a +:+ "." +:+ ApiMethod.Name x)
                      {| HttpMethod := POST; UriTemplate := Some t |}) as Hbody.
  { intros a x u u' Hstep. cbv zeta in Hstep.
    destruct (ParseUriTemplate _) as [tpl|] eqn:Hparse; [|discriminate].
    destruct (getOrCreateMethod _ u) as [u1| |] eqn:Hget; inversion Hstep; subst u'.
    split.
    - eapply writes_trans; [by eapply writes_getOrCreateMethod|].
      apply writes_once, write_method. by eapply write_grpc_pattern.
    - exists tpl. split; [done|]. destruct (getOrCreateMethod_lookup _ _ _ Hget) as [m Hm].
      exists (append_HttpRule {| HttpMethod := POST; UriTemplate := Some tpl |} m).
      unfold modifyMethod. simpl. rewrite lookup_alter_eq, Hm. split; [done|].
      simpl. apply elem_of_app. right. by left. }
  assert (forall (a : Api.t) (u u' : ServiceInfo),
            forM (Api.Methods a)
                 (fun method s =>
                    let selector := Api.Name a +:+ "." +:+ ApiMethod.Name method in
                    let mi := getOrCreateMethod selector s in
                    let path := "/" +:+ Api.Name a +:+ "/" +:+ ApiMethod.Name method in
                    match ParseUriTemplate path with
                    | None => Err (ErrGrpcHttpRule (Api.Name a) (ApiMethod.Name method))
                    | Some uriTemplate =>
                        match mi with
                        | Ok s =>
                            Ok (modifyMethod selector
                                  (append_HttpRule
                                     {| HttpMethod := POST; UriTemplate := Some uriTemplate |})
                                  s)
                        | _ => Panic
                        end
                    end) u = Ok u' ->
            writes AddGrpcHttpRules u u'
            /\ forall x, x ∈ Api.Methods a ->
                 exists t,
                   ParseUriTemplate ("/" +:+ Api.Name a +:+ "/" +:+ ApiMethod.Name x) = Some t
                   /\ has_pattern u' (Api.Name a +:+ "." +:+ ApiMethod.Name x)
                        {| HttpMethod := POST; UriTemplate := Some t |}) as Hinner.
  { intros a u u' Hstep.
    refine (forM_each (fun t => writes AddGrpcHttpRules u t)
              (fun x t =>
                 exists tpl,
                   ParseUriTemplate ("/" +:+ Api.Name a +:+ "/" +:+ ApiMethod.Name x)
                   = Some tpl
                   /\ has_pattern t (Api.Name a +:+ "." +:+ ApiMethod.Name x)
                        {| HttpMethod := POST; UriTemplate := Some tpl |})
              _ _ _ _ u u' (writes_refl _ _) Hstep).
    - intros x t t' _ Hw Hx. destruct (Hbody a x t t' Hx) as [Hw' Hpat].
      split; [by eapply writes_trans|done].
    - intros x y t t' _ _ (tpl & Hparse & Hpat) Hy. destruct (Hbody a y t t' Hy) as [Hw' _].
      exists tpl. split; [done|]. eapply writes_has_pattern; [|exact Hw'|done]. done. }
  refine (proj2 (forM_each (fun _ => True)
                   (fun a t =>
                      forall x, x ∈ Api.Methods a ->
                        exists tpl,
                          ParseUriTemplate ("/" +:+ Api.Name a +:+ "/" +:+ ApiMethod.Name x)
                          = Some tpl
                          /\ has_pattern t (Api.Name a +:+ "." +:+ ApiMethod.Name x)
                               {| HttpMethod := POST; UriTemplate := Some tpl |})
                   _ _ _ _ s s' I Hrun) api Hapi method Hmethod).
  - intros a t t' _ _ Hstep. split; [done|]. by apply (Hinner a t t').
  - intros a b t t' _ _ Hq Hstep x Hx. destruct (Hq x Hx) as (tpl & Hparse & Hpat).
    exists tpl. split; [done|].
    eapply writes_has_pattern; [|exact (proj1 (Hinner b t t' Hstep))|done]. done.
Qed.

(** X17 (the patterns of gRPC). When the model of a build that succeeds
    needs gRPC support, every method that an API of the service declares
    has the pattern [POST /Api/Method], with the template that the path
    parses to (the renaming of [processTypes] has run before and does not
    touch it). *)
Theorem build_grpc_patterns (ord : MapOrder) (cfg : Service.t) (id : string)
    (opts : Options.t) (s : ServiceInfo) :
  NewServiceInfoFromServiceConfig ord (Some cfg) id opts = Ok s ->
  GrpcSupportRequired s = true ->
  forall api method k, declares cfg api method k ->
    exists t,
      ParseUriTemplate ("/" +:+ Api.Name api +:+ "/" +:+ ApiMethod.Name method) = Some t
      /\ has_pattern s k {| HttpMethod := POST; UriTemplate := Some t |}.
Proof.
  intros Hbuild Hgrpc api method k (Hapi & Hmethod & ->).
  destruct (build_run ord cfg id opts s Hbuild)
    as (s1 & s2 & s3 & s4 & s5 & sh & s6 & s7 & s8 & s9 & s10 & s11 & s12 & s13 & s14
        & (H1 & _ & _ & _ & _ & _ & _ & _ & _ & _ & H10 & _)
        & W2 & W3 & W4 & W5 & W6 & Wh & W7 & W8 & W9 & W10 & W11 & W12 & W13 & W14 & W15).
  destruct (run_frame _ _ _ _ _ _ _ _ _ _ _ _ _ _ _ _
              W2 W3 W4 W5 W6 Wh W7 W8 W9 W10 W11 W12 W13 W14 W15)
    as (_ & _ & _ & _ & (_ & _ & _ & HG5) & [HC12 _] & _).
  destruct (buildLocalBackend_Ok _ _ H1) as (_ & _ & _ & _ & _ & _ & _ & _ & HC1 & _).
  simpl in HC1.
  assert (GrpcSupportRequired s9 = GrpcSupportRequired s5) as HG9.
  { destruct (writes_frame _ _ _ W6) as (_ & _ & _ & _ & _ & _ & HG6 & _).
    destruct (writes_frame _ _ _ Wh) as (_ & _ & _ & _ & _ & _ & HGh & _).
    destruct (writes_frame _ _ _ W7) as (_ & _ & _ & _ & _ & _ & HG7 & _).
    destruct (writes_frame _ _ _ W8) as (_ & _ & _ & _ & _ & _ & HG8 & _).
    destruct (writes_frame _ _ _ W9) as (_ & _ & _ & _ & _ & _ & HG9 & _).
    rewrite (proj1 (HG9 ltac:(discriminate))), (proj1 (HG8 ltac:(discriminate))),
      (proj1 (HG7 ltac:(discriminate))), (proj1 (HGh ltac:(discriminate))).
    exact (proj1 (HG6 ltac:(discriminate))). }
  assert (serviceConfig s9 = cfg) as HC9.
  { destruct (writes_frame _ _ _ W10) as (_ & _ & _ & _ & _ & _ & _ & HC10 & _).
    destruct (writes_frame _ _ _ W11) as (_ & _ & _ & _ & _ & _ & _ & HC11 & _).
    destruct (writes_frame _ _ _ W12) as (_ & _ & _ & _ & _ & _ & _ & HC12' & _).
    rewrite <- (HC10 ltac:(discriminate)), <- (HC11 ltac:(discriminate)),
      <- (HC12' ltac:(discriminate)). by rewrite HC12. }
  destruct (addGrpcHttpRules_patterns s9 s10 api method H10) as (t & Hparse & Hpat);
    [congruence|by rewrite HC9|done|].
  exists t. split; [done|].
  eapply writes_has_pattern; [|exact W15|]; [done|].
  eapply writes_has_pattern; [|exact W14|]; [done|].
  eapply writes_has_pattern; [|exact W13|]; [done|].
  eapply writes_has_pattern; [|exact W12|]; [done|].
  eapply writes_has_pattern; [|exact W11|]; [done|]. exact Hpat.
Qed.

(** *** The renaming of [processTypes] *)

Lemma snakeToJsonOf_loop (operation : string) (fields done : list Field.t)
    (acc : gmap string string) :
  (forall name json, acc !! name = Some json <-> exists f, f ∈ done /\ renames f name json) ->
  (exists names,
     forM fields
       (fun field snakeToJson =>
          if str_eqb (Field.Name field) (Field.JsonName field) then Ok snakeToJson
          else
            match snakeToJson !! Field.Name field with
            | Some prevJsonName =>
                if str_eqb prevJsonName (Field.JsonName field)
                then Ok (<[Field.Name field := Field.JsonName field]> snakeToJson)
                else Err (ErrSnakeJsonConflict operation (Field.Name field))
            | None => Ok (<[Field.Name field := Field.JsonName field]> snakeToJson)
            end) acc = Ok names
     /\ forall name json,
          names !! name = Some json <-> exists f, f ∈ done ++ fields /\ renames f name json)
  \/ (exists f1 f2 name json1 json2,
        f1 ∈ done ++ fields /\ f2 ∈ done ++ fields
        /\ renames f1 name json1 /\ renames f2 name json2 /\ json1 <> json2
        /\ forM fields
             (fun field snakeToJson =>
                if str_eqb (Field.Name field) (Field.JsonName field) then Ok snakeToJson
                else
                  match snakeToJson !! Field.Name field with
                  | Some prevJsonName =>
                      if str_eqb prevJsonName (Field.JsonName field)
                      then Ok (<[Field.Name field := Field.JsonName field]> snakeToJson)
                      else Err (ErrSnakeJsonConflict operation (Field.Name field))
                  | None => Ok (<[Field.Name field := Field.JsonName field]> snakeToJson)
                  end) acc = Err (ErrSnakeJsonConflict operation name)).
Proof.
  revert done acc. induction fields as [|f fields IH]; intros done acc Hacc.
  - left. exists acc. split; [done|]. intros name json. by rewrite app_nil_r.
  - cbn [forM].
    assert (forall acc' : gmap string string,
              (forall name json,
                 acc' !! name = Some json <-> exists g, g ∈ done ++ [f] /\ renames g name json) ->
              (exists names,
                 forM fields
                   (fun field snakeToJson =>
                      if str_eqb (Field.Name field) (Field.JsonName field) then Ok snakeToJson
                      else
                        match snakeToJson !! Field.Name field with
                        | Some prevJsonName =>
                            if str_eqb prevJsonName (Field.JsonName field)
                            then Ok (<[Field.Name field := Field.JsonName field]> snakeToJson)
                            else Err (ErrSnakeJsonConflict operation (Field.Name field))
                        | None =>
                            Ok (<[Field.Name field := Field.JsonName field]> snakeToJson)
                        end) acc' = Ok names
                 /\ forall name json,
                      names !! name = Some json
                      <-> exists g, g ∈ done ++ f :: fields /\ renames g name json)
              \/ (exists f1 f2 name json1 json2,
                    f1 ∈ done ++ f :: fields /\ f2 ∈ done ++ f :: fields
                    /\ renames f1 name json1 /\ renames f2 name json2 /\ json1 <> json2
                    /\ forM fields
                         (fun field snakeToJson =>
                            if str_eqb (Field.Name field) (Field.JsonName field)
                            then Ok snakeToJson
                            else
                              match snakeToJson !! Field.Name field with
                              | Some prevJsonName =>
                                  if str_eqb prevJsonName (Field.JsonName field)
                                  then Ok (<[Field.Name field := Field.JsonName field]>
                                             snakeToJson)
                                  else Err (ErrSnakeJsonConflict operation (Field.Name field))
                              | None =>
                                  Ok (<[Field.Name field := Field.JsonName field]> snakeToJson)
                              end) acc' = Err (ErrSnakeJsonConflict operation name))) as Hnext.
    { intros acc' Hacc'. specialize (IH (done ++ [f]) acc' Hacc').
      by rewrite <- app_assoc in IH. }
    assert (forall name json,
              <[Field.Name f := Field.JsonName f]> acc !! name = Some json ->
              Field.Name f <> Field.JsonName f ->
              (forall prev, acc !! Field.Name f = Some prev -> prev = Field.JsonName f) ->
              exists g, g ∈ done ++ [f] /\ renames g name json) as Hins1.
    { intros name json Hl Hne Hprev. apply lookup_insert_Some in Hl as [[<- <-]|[Hn Hl]].
      - exists f. split; [apply elem_of_app; right; by left|done].
      - apply Hacc in Hl as (g & Hg & Hr). exists g. split; [|done].
        apply elem_of_app. by left. }
    assert (forall name json g,
              g ∈ done ++ [f] -> renames g name json ->
              (forall prev, acc !! Field.Name f = Some prev -> prev = Field.JsonName f) ->
              <[Field.Name f := Field.JsonName f]> acc !! name = Some json) as Hins2.
    { intros name json g Hg Hr Hprev.
      apply elem_of_app in Hg as [Hg|Hg%list_elem_of_singleton].
      - assert (acc !! name = Some json) as Hl by (apply Hacc; by exists g).
        destruct (decide (Field.Name f = name)) as [Heq|Hne].
        + subst name. rewrite lookup_insert_eq. f_equal. symmetry. by apply Hprev.
        + by rewrite lookup_insert_ne.
      - subst g. destruct Hr as (<- & <- & _). by rewrite lookup_insert_eq. }
    destruct (str_eqb (Field.Name f) (Field.JsonName f)) eqn:Hsame.
    + apply str_eqb_eq in Hsame. cbn [bind]. apply Hnext. intros name json.
      rewrite Hacc. split.
      * intros (g & Hg & Hr). exists g. split; [apply elem_of_app; by left|done].
      * intros (g & [Hg|Hg%list_elem_of_singleton]%elem_of_app & Hr); [by exists g|].
        subst g. destruct Hr as (<- & <- & Hne). done.
    + apply str_eqb_neq in Hsame. destruct (acc !! Field.Name f) as [prev|] eqn:Hprev.
      * destruct (str_eqb prev (Field.JsonName f)) eqn:Hp.
        -- apply str_eqb_eq in Hp. cbn [bind]. apply Hnext. intros name json. split.
           ++ intros Hl. apply (Hins1 name json Hl Hsame). intros p Hp'. congruence.
           ++ intros (g & Hg & Hr). apply (Hins2 name json g Hg Hr). intros p Hp'.
              congruence.
        -- apply str_eqb_neq in Hp. cbn [bind]. right.
           apply Hacc in Hprev as (g & Hg & Hr).
           exists g, f, (Field.Name f), prev, (Field.JsonName f).
           split; [apply elem_of_app; by left|].
           split; [apply elem_of_app; right; by left|]. done.
      * cbn [bind]. apply Hnext. intros name json. split.
        -- intros Hl. apply (Hins1 name json Hl Hsame). intros p Hp'. congruence.
        -- intros (g & Hg & Hr). apply (Hins2 name json g Hg Hr). intros p Hp'.
           congruence.
Qed.

(** X18 (the renaming map of a request type). [snakeToJsonOf] has two
    outcomes. It gives the map that sends the snake name of every field
    whose JSON name differs from it to that JSON name; or two such fields
    have one snake name and different JSON names, and it refuses the type
    with the error that carries the operation and the snake name. *)
Theorem snakeToJsonOf_outcome (operation : string) (requestType : PType.t) :
  (exists names,
     snakeToJsonOf operation requestType = Ok names
     /\ forall name json,
          names !! name = Some json
          <-> exists f, f ∈ PType.Fields requestType /\ renames f name json)
  \/ (exists f1 f2 name json1 json2,
        f1 ∈ PType.Fields requestType /\ f2 ∈ PType.Fields requestType
        /\ renames f1 name json1 /\ renames f2 name json2 /\ json1 <> json2
        /\ snakeToJsonOf operation requestType = Err (ErrSnakeJsonConflict operation name)).
Proof.
  unfold snakeToJsonOf.
  apply (snakeToJsonOf_loop operation (PType.Fields requestType) [] ∅).
  intros name json. rewrite lookup_empty. split; [done|].
  by intros (f & Hf%elem_of_nil & _).
Qed.

(** *** The API key locations *)

Lemma ignoreQueryParam_mono (name q : string) (s : ServiceInfo) :
  ignored s q -> ignored (ignoreQueryParam name s) q.
Proof.
  unfold ignored, ignoreQueryParam. simpl.
  intros Hq. destruct (decide (name = q)) as [->|Hne];
    [by rewrite lookup_insert_eq|by rewrite lookup_insert_ne].
Qed.

Lemma ignoreQueryParam_here (name : string) (s : ServiceInfo) :
  ignored (ignoreQueryParam name s) name.
Proof. unfold ignored, ignoreQueryParam. simpl. by rewrite lookup_insert_eq. Qed.

(** The loop of [extractApiKeyLocations] that marks the query names. *)
Lemma extract_ignored (parameters : list SystemParameter.t) (s : ServiceInfo) :
  Methods (foldl (fun s parameter =>
                    if str_eqb (SystemParameter.UrlQueryParameter parameter) "" then s
                    else ignoreQueryParam (SystemParameter.UrlQueryParameter parameter) s)
                 s parameters) = Methods s
  /\ (forall q, ignored s q ->
        ignored (foldl (fun s parameter =>
                          if str_eqb (SystemParameter.UrlQueryParameter parameter) "" then s
                          else ignoreQueryParam
                                 (SystemParameter.UrlQueryParameter parameter) s)
                       s parameters) q)
  /\ (forall parameter, parameter ∈ parameters ->
        SystemParameter.UrlQueryParameter parameter <> "" ->
        ignored (foldl (fun s parameter =>
                          if str_eqb (SystemParameter.UrlQueryParameter parameter) "" then s
                          else ignoreQueryParam
                                 (SystemParameter.UrlQueryParameter parameter) s)
                       s parameters)
                (SystemParameter.UrlQueryParameter parameter)).
Proof.
  revert s. induction parameters as [|x l IH]; intros s; simpl.
  - split; [done|]. split; [done|]. by intros p Hp%elem_of_nil.
  - destruct (IH (if str_eqb (SystemParameter.UrlQueryParameter x) "" then s
                  else ignoreQueryParam (SystemParameter.UrlQueryParameter x) s))
      as (HM & Hmono & Hall).
    split; [rewrite HM; by destruct (str_eqb _ _)|]. split.
    + intros q Hq. apply Hmono. destruct (str_eqb _ _); [done|].
      by apply ignoreQueryParam_mono.
    + intros p [->|Hp]%elem_of_cons Hne; [|by apply Hall].
      apply Hmono. apply str_eqb_neq in Hne. rewrite Hne. apply ignoreQueryParam_here.
Qed.

Lemma elem_of_apiKeyLocationsOf_query (rule : SystemParameterRule.t) (q : string) :
  ApiKeyLocation_Query q ∈ apiKeyLocationsOf rule ->
  exists parameter,
    parameter ∈ filter (fun parameter => SystemParameter.Name parameter = ApiKeyParameterName)
                       (SystemParameterRule.Parameters rule)
    /\ SystemParameter.UrlQueryParameter parameter = q /\ q <> "".
Proof.
  unfold apiKeyLocationsOf. intros [Hin|Hin]%elem_of_app.
  - apply list_elem_of_omap in Hin as (p & Hp & Hq).
    destruct (str_eqb (SystemParameter.UrlQueryParameter p) "") eqn:E; [done|].
    apply str_eqb_neq in E. inversion Hq; subst q. by exists p.
  - apply list_elem_of_omap in Hin as (p & Hp & Hq).
    by destruct (str_eqb (SystemParameter.HttpHeader p) "").
Qed.

(** One system parameter rule. *)
Lemma apiKeyLocations_step (rule : SystemParameterRule.t) (s s' : ServiceInfo) :
  (let apiKeyLocationParameters :=
     filter (fun parameter => SystemParameter.Name parameter = ApiKeyParameterName)
            (SystemParameterRule.Parameters rule) in
   let* s := getOrCreateMethod (SystemParameterRule.Selector rule) s in
   Ok (extractApiKeyLocations (SystemParameterRule.Selector rule)
         apiKeyLocationParameters s)) = Ok s' ->
  (forall k, locationsAt s' k
             = locationsAt s k
               ++ (if decide (SystemParameterRule.Selector rule = k)
                   then apiKeyLocationsOf rule else []))
  /\ (forall q, ignored s q -> ignored s' q)
  /\ (forall q, ApiKeyLocation_Query q ∈ apiKeyLocationsOf rule -> ignored s' q).
Proof.
  cbv zeta. intros Hstep. apply bind_Ok in Hstep as (s0 & Hget & Hstep).
  inversion Hstep; subst s'; clear Hstep. unfold extractApiKeyLocations.
  set (parameters := filter (fun parameter => SystemParameter.Name parameter
                                              = ApiKeyParameterName)
                            (SystemParameterRule.Parameters rule)).
  destruct (extract_ignored parameters s0) as (HM & Hmono & Hall).
  assert (forall q, ignored s q -> ignored s0 q) as H0.
  { intros q. unfold ignored.
    by destruct (getOrCreateMethod_cases _ _ _ Hget) as [(m & _ & ->)|(_ & sh & api & ->)]. }
  split; [|split].
  - intros k. unfold locationsAt, modifyMethod. cbn [Methods set_Methods]. rewrite HM.
    destruct (decide (SystemParameterRule.Selector rule = k)) as [<-|Hne].
    + rewrite lookup_alter_eq.
      destruct (getOrCreateMethod_cases _ _ _ Hget) as [(m & Hm & ->)|(Hnone & sh & api & ->)].
      * rewrite Hm. done.
      * simpl. rewrite lookup_insert_eq, Hnone. done.
    + rewrite lookup_alter_ne by done.
      rewrite (getOrCreateMethod_other _ k _ _ Hget) by done. by rewrite app_nil_r.
  - intros q Hq. unfold ignored, modifyMethod. simpl. apply Hmono. by apply H0.
  - intros q Hq. apply elem_of_apiKeyLocationsOf_query in Hq as (p & Hp & <- & Hne).
    unfold ignored, modifyMethod. simpl. by apply Hall.
Qed.

(** The loop of [processApiKeyLocations] over the system parameter rules. *)
Lemma apiKeyLocations_loop (rules : list SystemParameterRule.t) (s s' : ServiceInfo) :
  forM rules
       (fun rule s =>
          let apiKeyLocationParameters :=
            filter (fun parameter => SystemParameter.Name parameter = ApiKeyParameterName)
                   (SystemParameterRule.Parameters rule) in
          let* s := getOrCreateMethod (SystemParameterRule.Selector rule) s in
          Ok (extractApiKeyLocations (SystemParameterRule.Selector rule)
                apiKeyLocationParameters s))
       s = Ok s' ->
  (forall k, locationsAt s' k
             = locationsAt s k
               ++ concat (apiKeyLocationsOf <$> systemParameterRulesOf k rules))
  /\ (forall q, ignored s q -> ignored s' q)
  /\ (forall rule q, rule ∈ rules -> ApiKeyLocation_Query q ∈ apiKeyLocationsOf rule ->
        ignored s' q).
Proof.
  revert s. induction rules as [|r rules IH]; intros s Hrun; simpl in Hrun.
  - inversion Hrun; subst s'. split; [intros k; by rewrite app_nil_r|].
    split; [done|]. by intros rule q Hr%elem_of_nil.
  - apply bind_Ok in Hrun as (s1 & H1 & Hrun).
    destruct (apiKeyLocations_step r s s1 H1) as (Hloc1 & Hmono1 & Hq1).
    destruct (IH s1 Hrun) as (Hloc & Hmono & Hq). split; [|split].
    + intros k. rewrite Hloc, Hloc1. unfold systemParameterRulesOf. rewrite filter_cons.
      destruct (decide (SystemParameterRule.Selector r = k)); simpl;
        by rewrite <- ?app_assoc, ?app_nil_r.
    + intros q Hi. by apply Hmono, Hmono1.
    + intros rule q [->|Hin]%elem_of_cons Hloc'; [by apply Hmono, Hq1|by eapply Hq].
Qed.

(** The loop of [processApiKeyLocations] over the methods. *)
Lemma apiKeyDefaults_loop (operations : list string) (s : ServiceInfo) :
  Methods (foldl (fun s operation =>
                    match Methods s !! operation with
                    | Some method =>
                        match ApiKeyLocations method with
                        | [] => ignoreQueryParam DefaultApiKeyQueryParamApiKey
                                  (ignoreQueryParam DefaultApiKeyQueryParamKey s)
                        | _ => s
                        end
                    | None => s
                    end) s operations) = Methods s
  /\ (forall q, ignored s q ->
        ignored (foldl (fun s operation =>
                          match Methods s !! operation with
                          | Some method =>
                              match ApiKeyLocations method with
                              | [] => ignoreQueryParam DefaultApiKeyQueryParamApiKey
                                        (ignoreQueryParam DefaultApiKeyQueryParamKey s)
                              | _ => s
                              end
                          | None => s
                          end) s operations) q)
  /\ (forall k m, k ∈ operations -> Methods s !! k = Some m -> ApiKeyLocations m = [] ->
        ignored (foldl (fun s operation =>
                          match Methods s !! operation with
                          | Some method =>
                              match ApiKeyLocations method with
                              | [] => ignoreQueryParam DefaultApiKeyQueryParamApiKey
                                        (ignoreQueryParam DefaultApiKeyQueryParamKey s)
                              | _ => s
                              end
                          | None => s
                          end) s operations) DefaultApiKeyQueryParamKey
        /\ ignored (foldl (fun s operation =>
                             match Methods s !! operation with
                             | Some method =>
                                 match ApiKeyLocations method with
                                 | [] => ignoreQueryParam DefaultApiKeyQueryParamApiKey
                                           (ignoreQueryParam DefaultApiKeyQueryParamKey s)
                                 | _ => s
                                 end
                             | None => s
                             end) s operations) DefaultApiKeyQueryParamApiKey).
Proof.
  revert s. induction operations as [|x l IH]; intros s; cbn [foldl].
  - split; [done|]. split; [done|]. by intros k m Hk%elem_of_nil.
  - set (s1 := match Methods s !! x with
               | Some method =>
                   match ApiKeyLocations method with
                   | [] => ignoreQueryParam DefaultApiKeyQueryParamApiKey
                             (ignoreQueryParam DefaultApiKeyQueryParamKey s)
                   | _ => s
                   end
               | None => s
               end).
    assert (Methods s1 = Methods s) as HM1.
    { unfold s1. destruct (Methods s !! x) as [m|]; [|done].
      by destruct (ApiKeyLocations m). }
    assert (forall q, ignored s q -> ignored s1 q) as Hmono1.
    { intros q Hq. unfold s1. destruct (Methods s !! x) as [m|]; [|done].
      destruct (ApiKeyLocations m); [|done]. by do 2 apply ignoreQueryParam_mono. }
    destruct (IH s1) as (HM & Hmono & Hall).
    split; [by rewrite HM|]. split; [intros q Hq; by apply Hmono, Hmono1|].
    intros k m [->|Hk]%elem_of_cons Hm Hempty.
    + assert (ignored s1 DefaultApiKeyQueryParamKey
              /\ ignored s1 DefaultApiKeyQueryParamApiKey) as [Ha Hb].
      { unfold s1. rewrite Hm, Hempty. split; [|apply ignoreQueryParam_here].
        apply ignoreQueryParam_mono. apply ignoreQueryParam_here. }
      split; by apply Hmono.
    + apply (Hall k m Hk); [by rewrite HM1|done].
Qed.

Lemma methodWrite_ApiKeyLocations (s : ServiceInfo) (k : string) (p : phase)
    (f : MethodInfo -> MethodInfo) (m : MethodInfo) :
  methodWrite s k p f -> p <> ProcessApiKeyLocations ->
  ApiKeyLocations (f m) = ApiKeyLocations m.
Proof. intros Hf Hp. by destruct Hf. Qed.

Lemma writes_no_locations (p : phase) (s s' : ServiceInfo) :
  p <> ProcessApiKeyLocations -> writes p s s' ->
  (forall k, locationsAt s k = []) -> forall k, locationsAt s' k = [].
Proof.
  intros Hp. apply (writes_invariant p (fun t => forall k, locationsAt t k = [])).
  intros t t' Ht Hw k. specialize (Ht k). unfold locationsAt in *.
  destruct (write_lookup p t t' k Hw)
    as [Heq|[(Hnone & sh & api & _ & _ & Hnew)|(m & f & Hm & Hf & Hfm)]].
  - by rewrite Heq.
  - by rewrite Hnew.
  - rewrite Hfm. rewrite Hm in Ht. simpl in *.
    by rewrite (methodWrite_ApiKeyLocations t k p f m Hf Hp).
Qed.

Lemma processEmptyJwksUriByOpenID_Methods (s s' : ServiceInfo) :
  processEmptyJwksUriByOpenID s = Ok s' -> Methods s' = Methods s.
Proof.
  unfold processEmptyJwksUriByOpenID. intros H.
  apply bind_Ok in H as ([providers t] & Hrun & H). inversion H; subst s'; clear H. simpl.
  refine (forM_invariant (fun st : list AuthProvider.t * ServiceInfo =>
                            Methods st.2 = Methods s)
            _ _ _ ([], s) (providers, t) eq_refl Hrun).
  intros provider [acc u] st' _ Hu Hstep. simpl in Hu. rewrite <- Hu.
  destruct (str_eqb (AuthProvider.JwksUri provider) "");
    [|by inversion Hstep; subst].
  destruct (Options.DisableOidcDiscovery (Opts u)); [discriminate|]. simpl in Hstep.
  destruct (ResolveJwksUriUsingOpenID (AuthProvider.Issuer provider)); [|discriminate].
  by inversion Hstep; subst.
Qed.

Lemma processAuthRequirement_entries (s s' : ServiceInfo) :
  processAuthRequirement s = Ok s' ->
  forall k, locationsAt s' k = locationsAt s k.
Proof.
  unfold processAuthRequirement. generalize (Service.AuthRules (serviceConfig s)).
  intros rules.
  apply (forM_invariant (fun t => forall k, locationsAt t k = locationsAt s k)); [|done].
  intros rule t t' _ Ht Hstep.
  destruct (AuthenticationRule.Requirements rule); [by inversion Hstep; subst|].
  destruct (Methods t !! AuthenticationRule.Selector rule) as [m0|] eqn:Hm0;
    inversion Hstep; subst t'; clear Hstep.
  intros k. rewrite <- Ht. unfold locationsAt, modifyMethod. simpl.
  destruct (decide (AuthenticationRule.Selector rule = k)) as [<-|Hne].
  - by rewrite lookup_alter_eq, Hm0.
  - by rewrite lookup_alter_ne.
Qed.

(** X19 (the API key locations). In the model of a build that succeeds,
    the API key locations of a method are those of the system parameter
    rules that name it, in the order of the rules: for each rule, the URL
    query names and then the headers of its API key parameters. The
    transcoder ignores every URL query name among them, and it ignores the
    two default API key query parameters as soon as some method has no API
    key location. *)
Theorem build_api_keys (ord : MapOrder) (cfg : Service.t) (id : string)
    (opts : Options.t) (s : ServiceInfo) :
  NewServiceInfoFromServiceConfig ord (Some cfg) id opts = Ok s ->
  forall k m, Methods s !! k = Some m ->
    ApiKeyLocations m
    = concat (apiKeyLocationsOf
                <$> systemParameterRulesOf k (Service.SystemParameterRules cfg))
    /\ (forall q, ApiKeyLocation_Query q ∈ ApiKeyLocations m -> ignored s q)
    /\ (ApiKeyLocations m = [] ->
        ignored s DefaultApiKeyQueryParamKey /\ ignored s DefaultApiKeyQueryParamApiKey).
Proof.
  intros Hbuild k m Hk.
  destruct (build_run ord cfg id opts s Hbuild)
    as (s1 & s2 & s3 & s4 & s5 & sh & s6 & s7 & s8 & s9 & s10 & s11 & s12 & s13 & s14
        & (H1 & _ & _ & _ & _ & _ & _ & _ & _ & _ & _ & _ & H12 & H13 & H14 & H15)
        & W2 & W3 & W4 & W5 & W6 & Wh & W7 & W8 & W9 & W10 & W11 & W12 & W13 & W14 & W15).
  destruct (run_frame _ _ _ _ _ _ _ _ _ _ _ _ _ _ _ _
              W2 W3 W4 W5 W6 Wh W7 W8 W9 W10 W11 W12 W13 W14 W15)
    as ((_ & _ & HL) & _ & _ & _ & _ & [HC12 _] & _ & [_ HI]).
  destruct (buildLocalBackend_empty _ _ _ _ H1) as [HM1 _].
  destruct (buildLocalBackend_Ok _ _ H1)
    as (local & HL1 & _ & _ & _ & _ & _ & _ & HC1 & _). simpl in HC1.
  (* before the phase no method has a location *)
  assert (forall k, locationsAt s11 k = []) as H11.
  { eapply writes_no_locations; [|exact W11|]; [done|].
    eapply writes_no_locations; [|exact W10|]; [done|].
    eapply writes_no_locations; [|exact W9|]; [done|].
    eapply writes_no_locations; [|exact W8|]; [done|].
    eapply writes_no_locations; [|exact W7|]; [done|].
    eapply writes_no_locations; [|exact Wh|]; [done|].
    eapply writes_no_locations; [|exact W6|]; [done|].
    eapply writes_no_locations; [|exact W5|]; [done|].
    eapply writes_no_locations; [|exact W4|]; [done|].
    eapply writes_no_locations; [|exact W3|]; [done|].
    eapply writes_no_locations; [|exact W2|]; [done|].
    intros k0. unfold locationsAt. by rewrite HM1, lookup_empty. }
  assert (Service.SystemParameterRules (serviceConfig s11)
          = Service.SystemParameterRules cfg) as HR.
  { destruct (writes_frame _ _ _ W12) as (_ & _ & _ & _ & _ & _ & _ & HC & _).
    by rewrite <- (HC ltac:(discriminate)), HC12, HC1. }
  (* the phase *)
  unfold processApiKeyLocations in H12. apply bind_Ok in H12 as (t & Hloop & H12).
  rewrite HR in Hloop. destruct (apiKeyLocations_loop _ _ _ Hloop) as (Hloc & _ & Hq).
  destruct (apiKeyDefaults_loop (rangeMethods ord site_processApiKeyLocations t) t)
    as (HMt & Hmono & Hdefaults).
  inversion H12 as [H12']. rewrite H12' in HMt, Hmono, Hdefaults. clear H12 H12'.
  (* after it *)
  assert (LocalBackendCluster s13 = Some local) as HL13.
  { destruct (writes_frame _ _ _ W14) as (_ & _ & HL14 & _).
    destruct (writes_frame _ _ _ W15) as (_ & _ & HL15 & _).
    rewrite <- HL14, <- HL15, HL. exact HL1. }
  pose proof (processLocalBackendOperations_Ok ord s13 s14 local HL13 H14) as HM14.
  assert (exists mt, Methods t !! k = Some mt /\ ApiKeyLocations mt = ApiKeyLocations m)
    as (mt & Hmt & Hsame).
  { pose proof (processAuthRequirement_entries s14 s H15 k) as H.
    unfold locationsAt in H. rewrite Hk, HM14 in H.
    rewrite (processEmptyJwksUriByOpenID_Methods _ _ H13), HMt in H.
    destruct (Methods t !! k) as [mt|] eqn:Hmt.
    - exists mt. split; [done|]. simpl in H. rewrite H. unfold bindLocal.
      by destruct (BackendInfo mt).
    - pose proof (processAuthRequirement_patterns s14 s H15) as [_ Hdom].
      destruct (Hdom k m Hk) as (m14 & Hm14 & _). rewrite HM14 in Hm14.
      rewrite (processEmptyJwksUriByOpenID_Methods _ _ H13), HMt, Hmt in Hm14. done. }
  assert (ApiKeyLocations m
          = concat (apiKeyLocationsOf
                      <$> systemParameterRulesOf k (Service.SystemParameterRules cfg)))
    as Hexact.
  { rewrite <- Hsame. specialize (Hloc k). unfold locationsAt in Hloc at 1.
    rewrite Hmt in Hloc. simpl in Hloc. by rewrite Hloc, H11. }
  assert (forall q, ignored s12 q -> ignored s q) as Hfinal.
  { intros q. unfold ignored. by rewrite HI. }
  split; [exact Hexact|]. split.
  - intros q Hin. rewrite Hexact in Hin.
    apply list_elem_of_In, in_concat in Hin as (l & Hl & Hin).
    apply list_elem_of_In in Hl, Hin.
    apply list_elem_of_fmap in Hl as (rule & -> & Hrule).
    apply list_elem_of_filter in Hrule as [_ Hrule].
    apply Hfinal, Hmono. by eapply Hq.
  - intros Hempty. rewrite <- Hsame in Hempty.
    destruct (Hdefaults k mt) as [Ha Hb]; [|done|done|split; by apply Hfinal].
    apply elem_of_rangeMethods. by rewrite Hmt.
Qed.

(** *** The bindings of the backend rules *)

Lemma addBackendInfoToMethod_binding (r : BackendRule.t)
    (scheme hostname path cluster : string) (s s' : ServiceInfo) :
  addBackendInfoToMethod r scheme hostname path cluster s = Ok s' ->
  Opts s' = Opts s /\ Name s' = Name s
  /\ (exists m, Methods s' !! BackendRule.Selector r = Some m
                /\ BackendInfo m
                   = Some (ruleBinding (Opts s) r scheme hostname path cluster))
  /\ forall k, k <> BackendRule.Selector r -> Methods s' !! k = Methods s !! k.
Proof.
  unfold addBackendInfoToMethod. intros H.
  apply bind_Ok in H as (s1 & Hget & H).
  destruct (getOrCreateMethod_lookup _ _ _ Hget) as [m Hm].
  destruct (getOrCreateMethod_fields _ _ _ Hget) as (HN & HO & _).
  destruct (backendDeadline (BackendRule.Deadline r)) as [deadline negative] eqn:Hd.
  assert (forall (c : bool) (ev : LogEvent) (t : ServiceInfo),
             Opts (if c then glog ev t else t) = Opts t) as Hopts
    by (by intros [] ? ?).
  rewrite !Hopts, HO in H. unfold ruleBinding. rewrite Hd. simpl.
  destruct negative, (negb (str_eqb _ "") && Options.NonGCP (Opts s));
    inversion H as [Hs']; clear H; simpl;
    (split; [done|]); (split; [done|]);
    (split; [eexists; rewrite lookup_alter_eq, Hm; simpl; split; reflexivity|]);
    intros k Hne; rewrite lookup_alter_ne by done;
    by apply (getOrCreateMethod_other _ _ _ _ Hget).
Qed.

Lemma processOneBackendRule_binding (r : BackendRule.t)
    (s s' : ServiceInfo) (cm cm' : gmap string string) :
  processOneBackendRule r (s, cm) = Ok (s', cm') -> cluster_map_named cm ->
  cluster_map_named cm' /\ Opts s' = Opts s /\ Name s' = Name s
  /\ (exists m, Methods s' !! BackendRule.Selector r = Some m
                /\ is_Some (BackendInfo m)
                /\ BackendInfo m = bindingFor (Opts s) (Name s) r)
  /\ forall k, k <> BackendRule.Selector r -> Methods s' !! k = Methods s !! k.
Proof.
  unfold processOneBackendRule, bindingFor. intros H Hcm.
  destruct (str_eqb (BackendRule.Address r) "").
  - apply bind_Ok in H as (s1 & H1 & H). inversion H; subst s1 cm'; clear H.
    destruct (addBackendInfoToMethod_binding _ _ _ _ _ _ _ H1) as (HO & HN & (m & Hm & Hb) & Hk).
    split; [done|]. split; [done|]. split; [done|]. split; [|done].
    exists m. split; [done|]. rewrite Hb. split; [by eexists|done].
  - destruct (ParseURI (BackendRule.Address r)) as [[[[scheme hostname] port] path]|];
      [|discriminate].
    apply bind_Ok in H as ([s0 cm0] & H0 & H).
    apply bind_Ok in H as (s1 & H1 & H). inversion H; subst s1 cm0; clear H.
    assert (cluster_map_named cm' /\ Opts s0 = Opts s /\ Name s0 = Name s
            /\ Methods s0 = Methods s
            /\ cm' !! hostPort hostname port
               = Some (BackendClusterName (hostPort hostname port)))
      as (Hcm' & HO0 & HN0 & HM0 & Hlook).
    { unfold createRemoteCluster in H0.
      destruct (cm !! hostPort hostname port) as [n|] eqn:Hn.
      - inversion H0; subst s0 cm'. repeat split; try done.
        by rewrite Hn, (Hcm _ _ Hn).
      - destruct (ParseBackendProtocol scheme (BackendRule.Protocol r)) as [[p tls] []];
          [discriminate|].
        inversion H0; subst s0 cm'; clear H0. split; [|split; [|split; [|split]]].
        + intros a n Ha. apply lookup_insert_Some in Ha as [[<- <-]|[_ Ha]]; [done|].
          by apply Hcm.
        + by destruct (decide (p = GRPC)).
        + by destruct (decide (p = GRPC)).
        + by destruct (decide (p = GRPC)).
        + by rewrite lookup_insert_eq. }
    rewrite Hlook in H1. simpl in H1.
    destruct (addBackendInfoToMethod_binding _ _ _ _ _ _ _ H1) as (HO & HN & (m & Hm & Hb) & Hk).
    split; [done|]. split; [congruence|]. split; [congruence|]. split.
    + exists m. split; [done|]. rewrite Hb, HO0. split; [by eexists|done].
    + intros k Hne. by rewrite Hk, HM0.
Qed.

(** The loop of [processBackendRule]: the last rule that names a method
    decides its binding, and a method that no rule names is left as it
    was. *)
Lemma processBackendRule_loop (rules : list BackendRule.t)
    (s s' : ServiceInfo) (cm cm' : gmap string string) (k : string) :
  forM rules processOneBackendRule (s, cm) = Ok (s', cm') -> cluster_map_named cm ->
  Opts s' = Opts s /\ Name s' = Name s
  /\ (forall r, last (backendRulesOf k rules) = Some r ->
        exists m, Methods s' !! k = Some m
                  /\ is_Some (BackendInfo m)
                  /\ BackendInfo m = bindingFor (Opts s) (Name s) r)
  /\ (backendRulesOf k rules = [] -> Methods s' !! k = Methods s !! k).
Proof.
  revert s cm. induction rules as [|r rules IH]; intros s cm Hrun Hcm; simpl in Hrun.
  - inversion Hrun; subst s' cm'. by repeat split.
  - apply bind_Ok in Hrun as ([s1 cm1] & H1 & Hrun).
    destruct (processOneBackendRule_binding r s s1 cm cm1 H1 Hcm)
      as (Hcm1 & HO1 & HN1 & (m1 & Hm1 & Hsome1 & Hb1) & Hk1).
    destruct (IH s1 cm1 Hrun Hcm1) as (HO & HN & Hlast & Hnone).
    rewrite HO1, HN1 in *. split; [done|]. split; [done|].
    unfold backendRulesOf in *. rewrite filter_cons.
    destruct (decide (BackendRule.Selector r = k)) as [Heq|Hne].
    + split; [|done]. intros r' Hr'.
      destruct (filter _ rules) as [|x xs] eqn:Hf.
      * inversion Hr'; subst r'. exists m1. rewrite (Hnone eq_refl), <- Heq. done.
      * apply Hlast. exact Hr'.
    + split; [exact Hlast|]. intros Hempty. rewrite (Hnone Hempty). by apply Hk1.
Qed.

Lemma methodWrite_binding_kept (s : ServiceInfo) (k : string) (p : phase)
    (f : MethodInfo -> MethodInfo) (m : MethodInfo) :
  methodWrite s k p f -> p <> ProcessBackendRule -> p <> ProcessLocalBackendOperations ->
  IsGenerated (f m) = true \/ BackendInfo (f m) = BackendInfo m.
Proof. intros Hf H1 H2. destruct Hf; simpl; try done; by (left + right). Qed.

Lemma writes_binding_kept (p : phase) (s s' : ServiceInfo) (k : string)
    (b : backendInfo.t) :
  p <> ProcessBackendRule -> p <> ProcessLocalBackendOperations -> writes p s s' ->
  (exists m, Methods s !! k = Some m /\ (IsGenerated m = true \/ BackendInfo m = Some b)) ->
  exists m, Methods s' !! k = Some m /\ (IsGenerated m = true \/ BackendInfo m = Some b).
Proof.
  intros H1 H2.
  apply (writes_invariant p
           (fun t => exists m, Methods t !! k = Some m
                               /\ (IsGenerated m = true \/ BackendInfo m = Some b))).
  intros t t' (m & Hm & Hor) Hw.
  destruct (write_lookup p t t' k Hw) as [Heq|[[Hnone _]|(m0 & f & Hm0 & Hf & Hfm)]].
  - exists m. by rewrite Heq.
  - congruence.
  - rewrite Hm in Hm0. inversion Hm0; subst m0. exists (f m). split; [done|].
    destruct Hor as [Hg|Hb].
    + left. by apply (methodWrite_generated t k p f m Hf).
    + destruct (methodWrite_binding_kept t k p f m Hf H1 H2) as [?|Hsame]; [by left|].
      right. by rewrite Hsame.
Qed.

(** X20 (the bindings of the backend rules). In the model of a build that
    succeeds, a method that backend rules name and that is not generated
    has the binding of the last of these rules: on the local cluster when
    the rule has no address and on the cluster named after the [host:port]
    of the address otherwise, with the host name and the path of the
    address (the path [/] for a constant address without path), the path
    translation and the deadline of the rule, the retry settings of the
    options, and the JWT audience of the rule, dropped on non-GCP. *)
Theorem build_backend_rules (ord : MapOrder) (cfg : Service.t) (id : string)
    (opts : Options.t) (s : ServiceInfo) :
  NewServiceInfoFromServiceConfig ord (Some cfg) id opts = Ok s ->
  forall k m r, Methods s !! k = Some m -> IsGenerated m = false ->
    last (backendRulesOf k (Service.BackendRules cfg)) = Some r ->
    exists b, bindingFor opts (Service.Name cfg) r = Some b /\ BackendInfo m = Some b.
Proof.
  intros Hbuild k m r Hk Hgen Hlast.
  destruct (build_run ord cfg id opts s Hbuild)
    as (s1 & s2 & s3 & s4 & s5 & sh & s6 & s7 & s8 & s9 & s10 & s11 & s12 & s13 & s14
        & (H1 & _ & _ & _ & H5 & _ & _ & _ & _ & _ & _ & _ & _ & _ & H14 & H15)
        & W2 & W3 & W4 & W5 & W6 & Wh & W7 & W8 & W9 & W10 & W11 & W12 & W13 & W14 & W15).
  destruct (buildLocalBackend_Ok _ _ H1)
    as (local & HL1 & _ & _ & _ & HN1 & _ & _ & HC1 & HO1). simpl in HN1, HC1, HO1.
  destruct (writes_frame _ _ _ W2) as (HN2 & _ & _ & _ & _ & _ & _ & HC2 & HO2 & _).
  destruct (writes_frame _ _ _ W3) as (HN3 & _ & _ & _ & _ & _ & _ & HC3 & HO3 & _).
  destruct (writes_frame _ _ _ W4) as (HN4 & _ & _ & _ & _ & _ & _ & HC4 & HO4 & _).
  assert (Opts s4 = opts /\ Name s4 = Service.Name cfg /\ serviceConfig s4 = cfg)
    as (HO & HN & HC).
  { rewrite (HO4 ltac:(discriminate)), (HO3 ltac:(discriminate)), (HO2 ltac:(discriminate)).
    rewrite (HC4 ltac:(discriminate)), (HC3 ltac:(discriminate)), (HC2 ltac:(discriminate)).
    rewrite HN4, HN3, HN2. done. }
  unfold processBackendRule in H5. apply bind_Ok in H5 as ([t cm] & Hloop & H5).
  inversion H5; subst t; clear H5. rewrite HC in Hloop.
  destruct (processBackendRule_loop _ _ _ _ _ k Hloop) as (_ & _ & Hl & _);
    [by intros a n Ha; rewrite lookup_empty in Ha|].
  destruct (Hl r Hlast) as (m5 & Hm5 & [b Hb] & Hfor). rewrite HO, HN in Hfor.
  exists b. split; [by rewrite <- Hfor|].
  assert (exists m13, Methods s13 !! k = Some m13
                      /\ (IsGenerated m13 = true \/ BackendInfo m13 = Some b))
    as (m13 & Hm13 & H13).
  { eapply writes_binding_kept; [| |exact W13|]; [done..|].
    eapply writes_binding_kept; [| |exact W12|]; [done..|].
    eapply writes_binding_kept; [| |exact W11|]; [done..|].
    eapply writes_binding_kept; [| |exact W10|]; [done..|].
    eapply writes_binding_kept; [| |exact W9|]; [done..|].
    eapply writes_binding_kept; [| |exact W8|]; [done..|].
    eapply writes_binding_kept; [| |exact W7|]; [done..|].
    eapply writes_binding_kept; [| |exact Wh|]; [done..|].
    eapply writes_binding_kept; [| |exact W6|]; [done..|].
    exists m5. split; [done|by right]. }
  assert (LocalBackendCluster s13 = Some local) as HL13.
  { destruct (run_frame _ _ _ _ _ _ _ _ _ _ _ _ _ _ _ _
                W2 W3 W4 W5 W6 Wh W7 W8 W9 W10 W11 W12 W13 (writes_refl _ s13)
                (writes_refl _ s13)) as ((_ & _ & ->) & _). exact HL1. }
  pose proof (processLocalBackendOperations_Ok ord s13 s14 local HL13 H14 k) as HM14.
  rewrite Hm13 in HM14. simpl in HM14.
  destruct (processAuthRequirement_methods s14 s H15 k m Hk) as (m14 & Hk14 & Hb14 & Hg14).
  rewrite HM14 in Hk14. inversion Hk14; subst m14. rewrite Hb14.
  rewrite Hgen in Hg14. unfold bindLocal in *.
  destruct H13 as [Hg13|Hb13].
  - destruct (BackendInfo m13); simpl in Hg14; congruence.
  - by rewrite Hb13.
Qed.

(** *** The query parameters that the transcoder ignores *)

Lemma write_ignored (p : phase) (s s' : ServiceInfo) :
  write p s s' ->
  AllTranscodingIgnoredQueryParams s' = AllTranscodingIgnoredQueryParams s
  \/ exists name,
       AllTranscodingIgnoredQueryParams s'
       = <[name := true]> (AllTranscodingIgnoredQueryParams s).
Proof.
  intros Hw. inversion Hw; subst; try (by left).
  - left. match goal with H : getOrCreateMethod _ _ = Ok _ |- _ =>
      by destruct (getOrCreateMethod_cases _ _ _ H) as [(m & _ & ->)|(_ & sh & api & ->)] end.
  - right. by eexists.
  - left. unfold processAccessToken. by destruct (negb _).
Qed.

Lemma writes_ignored (p : phase) (s s' : ServiceInfo) (q : string) :
  writes p s s' -> ignored s q -> ignored s' q.
Proof.
  apply (writes_invariant p (fun t => ignored t q)). intros t t' Ht Hw.
  unfold ignored in *. destruct (write_ignored p t t' Hw) as [->|[name ->]]; [done|].
  destruct (decide (name = q)) as [->|Hne];
    [by rewrite lookup_insert_eq|by rewrite lookup_insert_ne].
Qed.

(** The locations of one provider. *)
Lemma jwtLocations_loop (locations : list JwtLocation.t) (s s' : ServiceInfo) :
  forM locations
       (fun jwtLocation s =>
          match JwtLocation.In_ jwtLocation with
          | JwtLocation_Query q =>
              if negb (str_eqb (JwtLocation.ValuePrefix jwtLocation) "")
              then Err ErrJwtLocationQueryValuePrefix
              else Ok (ignoreQueryParam q s)
          | _ => Ok s
          end) s = Ok s' ->
  (forall q, ignored s q -> ignored s' q)
  /\ forall loc q, loc ∈ locations -> JwtLocation.In_ loc = JwtLocation_Query q ->
       JwtLocation.ValuePrefix loc = "" /\ ignored s' q.
Proof.
  revert s. induction locations as [|x l IH]; intros s Hrun; simpl in Hrun.
  - inversion Hrun; subst s'. split; [done|]. by intros loc q Hloc%elem_of_nil.
  - apply bind_Ok in Hrun as (s1 & H1 & Hrun). destruct (IH s1 Hrun) as [Hmono Hall].
    assert ((forall q, ignored s q -> ignored s1 q)
            /\ forall q, JwtLocation.In_ x = JwtLocation_Query q ->
                 JwtLocation.ValuePrefix x = "" /\ ignored s1 q) as [Hmono1 Hx].
    { destruct (JwtLocation.In_ x) as [h|q0|c|] eqn:Hin;
        try (inversion H1; subst s1; by split).
      destruct (str_eqb (JwtLocation.ValuePrefix x) "") eqn:Hp; [|discriminate].
      apply str_eqb_eq in Hp. inversion H1; subst s1. split.
      - intros q Hq. by apply ignoreQueryParam_mono.
      - intros q Hq. inversion Hq; subst q0. split; [done|apply ignoreQueryParam_here]. }
    split; [intros q Hq; by apply Hmono, Hmono1|].
    intros loc q [->|Hloc]%elem_of_cons Hin; [|by eapply Hall].
    destruct (Hx q Hin) as [Hp Hq]. split; [done|by apply Hmono].
Qed.

(** The loop of [processTranscodingIgnoredQueryParams] over the
    providers. *)
Lemma jwtProviders_loop (providers : list AuthProvider.t) (s s' : ServiceInfo) :
  forM providers
       (fun provider s =>
          match AuthProvider.JwtLocations provider with
          | [] => Ok (ignoreQueryParam DefaultJwtQueryParamAccessToken s)
          | locations =>
              forM locations
                   (fun jwtLocation s =>
                      match JwtLocation.In_ jwtLocation with
                      | JwtLocation_Query q =>
                          if negb (str_eqb (JwtLocation.ValuePrefix jwtLocation) "")
                          then Err ErrJwtLocationQueryValuePrefix
                          else Ok (ignoreQueryParam q s)
                      | _ => Ok s
                      end)
                   s
          end) s = Ok s' ->
  (forall q, ignored s q -> ignored s' q)
  /\ (forall provider, provider ∈ providers -> AuthProvider.JwtLocations provider = [] ->
        ignored s' DefaultJwtQueryParamAccessToken)
  /\ (forall provider loc q, provider ∈ providers ->
        loc ∈ AuthProvider.JwtLocations provider ->
        JwtLocation.In_ loc = JwtLocation_Query q ->
        JwtLocation.ValuePrefix loc = "" /\ ignored s' q).
Proof.
  revert s. induction providers as [|x l IH]; intros s Hrun; simpl in Hrun.
  - inversion Hrun; subst s'. split; [done|].
    split; [by intros p Hp%elem_of_nil|by intros p loc q Hp%elem_of_nil].
  - apply bind_Ok in Hrun as (s1 & H1 & Hrun).
    destruct (IH s1 Hrun) as (Hmono & Hdefault & Hall).
    assert ((forall q, ignored s q -> ignored s1 q)
            /\ (AuthProvider.JwtLocations x = [] ->
                ignored s1 DefaultJwtQueryParamAccessToken)
            /\ (forall loc q, loc ∈ AuthProvider.JwtLocations x ->
                  JwtLocation.In_ loc = JwtLocation_Query q ->
                  JwtLocation.ValuePrefix loc = "" /\ ignored s1 q))
      as (Hmono1 & Hd1 & Hx).
    { destruct (AuthProvider.JwtLocations x) as [|loc0 locs] eqn:Hlocs.
      - inversion H1; subst s1. split; [intros q Hq; by apply ignoreQueryParam_mono|].
        split; [intros _; apply ignoreQueryParam_here|by intros loc q Hloc%elem_of_nil].
      - destruct (jwtLocations_loop (loc0 :: locs) s s1 H1) as [Hm Ha].
        split; [done|]. split; [done|exact Ha]. }
    split; [intros q Hq; by apply Hmono, Hmono1|]. split.
    + intros p [->|Hp]%elem_of_cons Hempty; [by apply Hmono, Hd1|by eapply Hdefault].
    + intros p loc q [->|Hp]%elem_of_cons Hloc Hin; [|by eapply Hall].
      destruct (Hx loc q Hloc Hin) as [Hpre Hq]. split; [done|by apply Hmono].
Qed.

Lemma ignoreFlag_loop (l : list string) (s : ServiceInfo) :
  (forall q, ignored s q -> ignored (foldl (fun s p => ignoreQueryParam p s) s l) q)
  /\ forall q, q ∈ l -> ignored (foldl (fun s p => ignoreQueryParam p s) s l) q.
Proof.
  revert s. induction l as [|x l IH]; intros s; simpl.
  - split; [done|]. by intros q Hq%elem_of_nil.
  - destruct (IH (ignoreQueryParam x s)) as [Hmono Hall]. split.
    + intros q Hq. by apply Hmono, ignoreQueryParam_mono.
    + intros q [->|Hq]%elem_of_cons; [apply Hmono, ignoreQueryParam_here|by apply Hall].
Qed.

(** X21 (the ignored query parameters). In the model of a build that
    succeeds the transcoder ignores: the default JWT query parameter, when
    an authentication provider has no JWT location; every JWT location in
    the query, and such a location has no value prefix; and the parameters
    of the option [TranscodingIgnoreQueryParameters], split at the commas.
    The map [AllTranscodingIgnoredQueryParams] is a set: all its values are
    [true]. *)
Theorem build_ignored_params (ord : MapOrder) (cfg : Service.t) (id : string)
    (opts : Options.t) (s : ServiceInfo) :
  NewServiceInfoFromServiceConfig ord (Some cfg) id opts = Ok s ->
  (forall provider, provider ∈ Service.AuthProviders cfg ->
     AuthProvider.JwtLocations provider = [] ->
     ignored s DefaultJwtQueryParamAccessToken)
  /\ (forall provider loc q, provider ∈ Service.AuthProviders cfg ->
        loc ∈ AuthProvider.JwtLocations provider ->
        JwtLocation.In_ loc = JwtLocation_Query q ->
        JwtLocation.ValuePrefix loc = "" /\ ignored s q)
  /\ (Options.TranscodingIgnoreQueryParameters opts <> "" ->
      forall q, q ∈ Split (Options.TranscodingIgnoreQueryParameters opts) "," ->
        ignored s q)
  /\ (forall q v, AllTranscodingIgnoredQueryParams s !! q = Some v -> v = true).
Proof.
  intros Hbuild.
  assert (forall q v, AllTranscodingIgnoredQueryParams s !! q = Some v -> v = true) as Hset.
  { apply (build_invariant
             (fun s => forall q v, AllTranscodingIgnoredQueryParams s !! q = Some v -> v = true)
             ord cfg id opts s Hbuild).
    - intros s1 H1 q v. destruct (buildLocalBackend_fields _ _ H1) as (_ & _ & _ & _ & -> & _).
      simpl. by rewrite lookup_empty.
    - intros p t t' Ht Hw q v. destruct (write_ignored p t t' Hw) as [->|[name ->]];
        [apply Ht|].
      intros [[_ <-]|[_ Hq]]%lookup_insert_Some; [done|by eapply Ht]. }
  destruct (build_run ord cfg id opts s Hbuild)
    as (s1 & s2 & s3 & s4 & s5 & sh & s6 & s7 & s8 & s9 & s10 & s11 & s12 & s13 & s14
        & (H1 & _ & _ & _ & _ & _ & _ & _ & _ & _ & _ & H11 & _)
        & W2 & W3 & W4 & W5 & W6 & Wh & W7 & W8 & W9 & W10 & W11 & W12 & W13 & W14 & W15).
  destruct (run_frame _ _ _ _ _ _ _ _ _ _ _ _ _ _ _ _
              W2 W3 W4 W5 W6 Wh W7 W8 W9 W10 W11 W12 W13 W14 W15)
    as (_ & _ & _ & _ & _ & [HC12 _] & [HOh _] & [_ HI]).
  destruct (buildLocalBackend_Ok _ _ H1) as (_ & _ & _ & _ & _ & _ & _ & _ & HC1 & HO1).
  simpl in HC1, HO1.
  assert (serviceConfig s10 = cfg) as HC10.
  { destruct (writes_frame _ _ _ W11) as (_ & _ & _ & _ & _ & _ & _ & HC11 & _).
    destruct (writes_frame _ _ _ W12) as (_ & _ & _ & _ & _ & _ & _ & HC12' & _).
    rewrite <- (HC11 ltac:(discriminate)), <- (HC12' ltac:(discriminate)).
    by rewrite HC12, HC1. }
  assert (Options.TranscodingIgnoreQueryParameters (Opts s10)
          = Options.TranscodingIgnoreQueryParameters opts) as HO10.
  { destruct (writes_frame _ _ _ W7) as (_ & _ & _ & _ & _ & _ & _ & _ & HO7 & _).
    destruct (writes_frame _ _ _ W8) as (_ & _ & _ & _ & _ & _ & _ & _ & HO8 & _).
    destruct (writes_frame _ _ _ W9) as (_ & _ & _ & _ & _ & _ & _ & _ & HO9 & _).
    destruct (writes_frame _ _ _ W10) as (_ & _ & _ & _ & _ & _ & _ & _ & HO10 & _).
    rewrite (HO10 ltac:(discriminate)), (HO9 ltac:(discriminate)),
      (HO8 ltac:(discriminate)), (HO7 ltac:(discriminate)).
    destruct (writes_grow _ _ _ Wh) as [_ Hh]. rewrite HOh, HO1 in Hh.
    exact (f_equal Options.TranscodingIgnoreQueryParameters Hh). }
  assert (forall q, ignored s11 q -> ignored s q) as Hfinal.
  { intros q Hq. unfold ignored. rewrite HI. by apply (writes_ignored _ _ _ q W12). }
  unfold processTranscodingIgnoredQueryParams in H11.
  apply bind_Ok in H11 as (t & Hloop & H11). rewrite HC10 in Hloop.
  destruct (jwtProviders_loop _ _ _ Hloop) as (_ & Hdefault & Hall).
  assert (Opts t = Opts s10) as HOt.
  { destruct (writes_frame ProcessTranscodingIgnoredQueryParams s10 t)
      as (_ & _ & _ & _ & _ & _ & _ & _ & HO & _); [|by apply HO].
    revert Hloop. apply writes_forM. intros provider u u' _ _ Hstep.
    destruct (AuthProvider.JwtLocations provider) as [|loc locs].
    - inversion Hstep. apply writes_once, write_ignoreQueryParam. by left.
    - revert Hstep. apply writes_forM. intros x v v' _ _ Hx.
      destruct (JwtLocation.In_ x); try (inversion Hx; apply writes_refl).
      destruct (negb (str_eqb (JwtLocation.ValuePrefix x) "")); [discriminate|].
      inversion Hx. apply writes_once, write_ignoreQueryParam. by left. }
  rewrite HOt, HO10 in H11.
  destruct (ignoreFlag_loop (Split (Options.TranscodingIgnoreQueryParameters opts) ",") t)
    as [Hmono Hflag].
  assert (forall q, ignored t q -> ignored s11 q) as Ht11.
  { intros q Hq. destruct (negb _); inversion H11; subst s11; [by apply Hmono|done]. }
  split; [|split; [|split; [|exact Hset]]].
  - intros provider Hp Hempty. apply Hfinal, Ht11. by eapply Hdefault.
  - intros provider loc q Hp Hloc Hin. destruct (Hall provider loc q Hp Hloc Hin) as [? ?].
    split; [done|]. by apply Hfinal, Ht11.
  - intros Hne q Hq. apply Hfinal. apply str_eqb_neq in Hne. rewrite Hne in H11.
    simpl in H11. inversion H11; subst s11. by apply Hflag.
Qed.

(** *** The quota metric rules *)

(** Whatever the order of the range over the map, the metric costs are the
    entries of the map. *)
Lemma metricCostsOf_perm (ord : MapOrder) (i : nat) (costs : gmap string Z) :
  metricCostsOf ord i costs ≡ₚ metricCostList costs.
Proof.
  unfold metricCostsOf, metricCostList. rewrite (range_keys_perm ord).
  assert (forall l : list (string * Z),
            (forall nc, nc ∈ l -> costs !! nc.1 = Some nc.2) ->
            omap (fun name => (fun cost => {| MetricName := name; Cost := cost |})
                                <$> costs !! name) l.*1
            = (fun nc => {| MetricName := nc.1; Cost := nc.2 |}) <$> l) as Hl.
  { induction l as [|[n c] l IH]; intros Hin; simpl; [done|].
    pose proof (Hin (n, c) ltac:(by left)) as Hn. simpl in Hn. rewrite Hn. simpl.
    f_equal. apply IH.
    intros nc Hnc. apply Hin. by right. }
  rewrite Hl; [done|]. intros [n c] Hin. by apply elem_of_map_to_list in Hin.
Qed.

Lemma metricRules_indexed (k : string) (rules : list MetricRule.t) (g : nat -> nat) :
  (filter (fun ir : nat * MetricRule.t => MetricRule.Selector ir.2 = k)
          (imap (fun i rule => (g i, rule)) rules)).*2
  = metricRulesOf k rules.
Proof.
  unfold metricRulesOf. revert g. induction rules as [|r rules IH]; intros g; [done|].
  rewrite imap_cons, !filter_cons. simpl.
  change (imap ((fun (i : nat) (rule : MetricRule.t) => (g i, rule)) ∘ S) rules)
    with (imap (fun (i : nat) (rule : MetricRule.t) => ((g ∘ S) i, rule)) rules).
  destruct (decide (MetricRule.Selector r = k)); [rewrite fmap_cons|];
    by rewrite (IH (g ∘ S)).
Qed.

(** The loop of [processQuota]: the last rule that names a method decides
    its metric costs, and a method that no rule names is left as it was. *)
Lemma processQuota_costs (ord : MapOrder) (l : list (nat * MetricRule.t))
    (s s' : ServiceInfo) (k : string) :
  forM l
       (fun '(i, metricRule) s =>
          let metricCosts := metricCostsOf ord i (MetricRule.MetricCosts metricRule) in
          match Methods s !! MetricRule.Selector metricRule with
          | None => Panic
          | Some _ =>
              Ok (modifyMethod (MetricRule.Selector metricRule)
                    (set_MetricCosts metricCosts) s)
          end) s = Ok s' ->
  (forall ir, last (filter (fun ir : nat * MetricRule.t => MetricRule.Selector ir.2 = k) l)
              = Some ir ->
     exists m, Methods s' !! k = Some m
               /\ MetricCosts m = metricCostsOf ord ir.1 (MetricRule.MetricCosts ir.2))
  /\ (filter (fun ir : nat * MetricRule.t => MetricRule.Selector ir.2 = k) l = [] ->
      Methods s' !! k = Methods s !! k).
Proof.
  revert s. induction l as [|[i r] l IH]; intros s Hrun; simpl in Hrun.
  - inversion Hrun; subst s'. by split.
  - apply bind_Ok in Hrun as (s1 & H1 & Hrun).
    destruct (Methods s !! MetricRule.Selector r) as [m0|] eqn:Hm0; [|discriminate].
    inversion H1; subst s1; clear H1.
    destruct (IH _ Hrun) as [Hlast Hnone]. rewrite filter_cons. simpl.
    destruct (decide (MetricRule.Selector r = k)) as [Heq|Hne].
    + split; [|done]. intros ir Hir.
      destruct (filter _ l) as [|x xs] eqn:Hf.
      * inversion Hir; subst ir. rewrite (Hnone eq_refl). unfold modifyMethod. simpl.
        rewrite <- Heq, lookup_alter_eq, Hm0. by eexists.
      * apply Hlast. exact Hir.
    + split; [exact Hlast|]. intros Hempty. rewrite (Hnone Hempty).
      unfold modifyMethod. simpl. by rewrite lookup_alter_ne.
Qed.

Lemma methodWrite_MetricCosts (s : ServiceInfo) (k : string) (p : phase)
    (f : MethodInfo -> MethodInfo) (m : MethodInfo) :
  methodWrite s k p f -> p <> ProcessQuota -> MetricCosts (f m) = MetricCosts m.
Proof. intros Hf Hp. by destruct Hf. Qed.

Lemma writes_costs (p : phase) (s s' : ServiceInfo) (k : string) (c : list MetricCost) :
  p <> ProcessQuota -> writes p s s' ->
  (is_Some (Methods s !! k) \/ c = []) /\ (is_Some (Methods s !! k) -> costsAt s k = c) ->
  (is_Some (Methods s' !! k) \/ c = []) /\ (is_Some (Methods s' !! k) -> costsAt s' k = c).
Proof.
  intros Hp.
  apply (writes_invariant p
           (fun t => (is_Some (Methods t !! k) \/ c = [])
                     /\ (is_Some (Methods t !! k) -> costsAt t k = c))).
  intros t t' [Hor Hc] Hw. split.
  { destruct Hor as [?|?]; [left; by eapply write_keeps_method|by right]. }
  unfold costsAt in *.
  destruct (write_lookup p t t' k Hw)
    as [Heq|[(Hnone & sh & api & _ & _ & Hnew)|(m & f & Hm & Hf & Hfm)]].
  - by rewrite Heq.
  - rewrite Hnew. simpl. intros _. destruct Hor as [[m Hm]| ->]; [congruence|done].
  - rewrite Hfm. simpl. intros _. rewrite (methodWrite_MetricCosts t k p f m Hf Hp).
    rewrite Hm in Hc. simpl in Hc. apply Hc. by eexists.
Qed.

(** X22 (the quota metric rules). In the model of a build that succeeds,
    the metric costs of a method that quota metric rules name are the
    entries of the cost map of the last of these rules, in the order in
    which the run ranged over the map; a method that no metric rule names
    has no metric cost. *)
Theorem build_quota (ord : MapOrder) (cfg : Service.t) (id : string)
    (opts : Options.t) (s : ServiceInfo) :
  NewServiceInfoFromServiceConfig ord (Some cfg) id opts = Ok s ->
  forall k m, Methods s !! k = Some m ->
    (forall rule, last (metricRulesOf k (Service.MetricRules cfg)) = Some rule ->
       MetricCosts m ≡ₚ metricCostList (MetricRule.MetricCosts rule))
    /\ ((forall rule, rule ∈ Service.MetricRules cfg -> MetricRule.Selector rule <> k) ->
        MetricCosts m = []).
Proof.
  intros Hbuild k m Hk.
  destruct (build_run ord cfg id opts s Hbuild)
    as (s1 & s2 & s3 & s4 & s5 & sh & s6 & s7 & s8 & s9 & s10 & s11 & s12 & s13 & s14
        & (H1 & _ & _ & H4 & _)
        & W2 & W3 & W4 & W5 & W6 & Wh & W7 & W8 & W9 & W10 & W11 & W12 & W13 & W14 & W15).
  destruct (buildLocalBackend_empty _ _ _ _ H1) as [HM1 _].
  destruct (buildLocalBackend_Ok _ _ H1) as (_ & _ & _ & _ & _ & _ & _ & _ & HC1 & _).
  simpl in HC1.
  destruct (writes_frame _ _ _ W2) as (_ & _ & _ & _ & _ & _ & _ & HC2 & _).
  destruct (writes_frame _ _ _ W3) as (_ & _ & _ & _ & _ & _ & _ & HC3 & _).
  assert (Service.MetricRules (serviceConfig s3) = Service.MetricRules cfg) as HR.
  { by rewrite (HC3 ltac:(discriminate)), (HC2 ltac:(discriminate)), HC1. }
  (* before the phase no method has a cost *)
  assert (is_Some (Methods s3 !! k) -> costsAt s3 k = []) as H3.
  { refine (proj2 (writes_costs _ _ _ k [] _ W3 _)); [done|].
    refine (writes_costs _ _ _ k [] _ W2 _); [done|].
    split; [by right|]. unfold costsAt. by rewrite HM1, lookup_empty. }
  (* after it the costs stay *)
  assert (forall c,
            (is_Some (Methods s4 !! k) \/ c = [])
            /\ (is_Some (Methods s4 !! k) -> costsAt s4 k = c) ->
            MetricCosts m = c) as Hlater.
  { intros c H.
    assert (costsAt s k = c) as Hc; [|by unfold costsAt in Hc; rewrite Hk in Hc].
    refine (proj2 (writes_costs _ _ _ k c _ W15 _) _); [done| |by rewrite Hk].
    refine (writes_costs _ _ _ k c _ W14 _); [done|].
    refine (writes_costs _ _ _ k c _ W13 _); [done|].
    refine (writes_costs _ _ _ k c _ W12 _); [done|].
    refine (writes_costs _ _ _ k c _ W11 _); [done|].
    refine (writes_costs _ _ _ k c _ W10 _); [done|].
    refine (writes_costs _ _ _ k c _ W9 _); [done|].
    refine (writes_costs _ _ _ k c _ W8 _); [done|].
    refine (writes_costs _ _ _ k c _ W7 _); [done|].
    refine (writes_costs _ _ _ k c _ Wh _); [done|].
    refine (writes_costs _ _ _ k c _ W6 _); [done|].
    refine (writes_costs _ _ _ k c _ W5 _); [done|]. exact H. }
  unfold processQuota in H4. rewrite HR in H4.
  destruct (processQuota_costs ord _ _ _ k H4) as [Hlast Hnone].
  pose proof (metricRules_indexed k (Service.MetricRules cfg) (fun i : nat => i)) as Hidx.
  change (imap (fun (i : nat) (rule : MetricRule.t) => (i, rule)))
    with (imap (@pair nat MetricRule.t)) in Hidx.
  split.
  - intros rule Hrule. rewrite <- Hidx, fmap_last in Hrule.
    destruct (last (filter _ (imap _ _))) as [ir|] eqn:Hir; [|done].
    inversion Hrule; subst rule.
    destruct (Hlast ir eq_refl) as (m4 & Hm4 & Hcosts).
    rewrite (Hlater (MetricCosts m4)); [rewrite Hcosts; apply metricCostsOf_perm|].
    split; [left; by rewrite Hm4|]. intros _. unfold costsAt. by rewrite Hm4.
  - intros Hno. apply Hlater.
    assert (Methods s4 !! k = Methods s3 !! k) as Heq.
    { apply Hnone. destruct (filter _ (imap pair (Service.MetricRules cfg)))
        as [|[i r] xs] eqn:Hf; [done|].
      assert ((i, r) ∈ filter (fun ir : nat * MetricRule.t => MetricRule.Selector ir.2 = k)
                              (imap pair (Service.MetricRules cfg))) as Hin
        by (rewrite Hf; by left).
      apply list_elem_of_filter in Hin as [Hsel Hin].
      apply elem_of_lookup_imap in Hin as (j & r' & Heq & Hj). inversion Heq; subst j r'.
      destruct (Hno r); [by eapply list_elem_of_lookup_2|done]. }
    split; [by right|]. unfold costsAt. rewrite Heq. exact H3.
Qed.

(** *** The order of [Operations] *)

Lemma processApiMethod_Operations (api : Api.t) (method : ApiMethod.t)
    (s s' : ServiceInfo) :
  processApiMethod api method s = Ok s' ->
  Methods s !! (Api.Name api +:+ "." +:+ ApiMethod.Name method) = None ->
  Operations s' = Operations s ++ [Api.Name api +:+ "." +:+ ApiMethod.Name method].
Proof.
  unfold processApiMethod. intros H Hnone.
  destruct (getOrCreateMethod _ s) as [s1| |] eqn:Hget; [|discriminate..].
  assert (Operations s1
          = Operations s ++ [Api.Name api +:+ "." +:+ ApiMethod.Name method]) as <-.
  { destruct (getOrCreateMethod_cases _ _ _ Hget) as [(m & Hm & _)|(_ & sh & a & ->)];
      [congruence|done]. }
  by destruct (HasPrefix _ _), (_ || _); inversion H; subst s'.
Qed.

Lemma processApiMethods_Operations (api : Api.t) (methods : list ApiMethod.t)
    (s s' : ServiceInfo) :
  forM methods (processApiMethod api) s = Ok s' ->
  (forall k, is_Some (Methods s !! k) <-> k ∈ Operations s) ->
  NoDup (Operations s
         ++ ((fun method => Api.Name api +:+ "." +:+ ApiMethod.Name method) <$> methods)) ->
  Operations s'
  = Operations s ++ ((fun method => Api.Name api +:+ "." +:+ ApiMethod.Name method) <$> methods)
  /\ (forall k, is_Some (Methods s' !! k) <-> k ∈ Operations s').
Proof.
  revert s. induction methods as [|x l IH]; intros s Hrun Hdom Hnodup; simpl in Hrun.
  - inversion Hrun; subst s'. by rewrite app_nil_r.
  - apply bind_Ok in Hrun as (s1 & H1 & Hrun). rewrite fmap_cons in Hnodup.
    assert (Methods s !! (Api.Name api +:+ "." +:+ ApiMethod.Name x) = None) as Hnone.
    { apply eq_None_not_Some. intros Hsome%Hdom.
      apply NoDup_app in Hnodup as (_ & Hdisj & _). apply (Hdisj _ Hsome). by left. }
    pose proof (processApiMethod_Operations api x s s1 H1 Hnone) as HO1.
    destruct (IH s1 Hrun) as [HO Hdom'].
    + intros k. rewrite (processApiMethod_domain api x s s1 k H1), HO1, Hdom.
      rewrite elem_of_app, list_elem_of_singleton. tauto.
    + by rewrite HO1, <- app_assoc.
    + split; [|done]. by rewrite HO, HO1, <- app_assoc, fmap_cons.
Qed.

Lemma processApis_Operations (apis : list Api.t) (s s' : ServiceInfo) :
  forM apis
       (fun api s =>
          forM (Api.Methods api) (processApiMethod api)
               (set_ApiNames (ApiNames s ++ [Api.Name api]) s)) s = Ok s' ->
  (forall k, is_Some (Methods s !! k) <-> k ∈ Operations s) ->
  NoDup (Operations s
         ++ (apis ≫= fun api =>
               (fun method => Api.Name api +:+ "." +:+ ApiMethod.Name method)
                 <$> Api.Methods api)) ->
  Operations s'
  = Operations s
    ++ (apis ≫= fun api =>
          (fun method => Api.Name api +:+ "." +:+ ApiMethod.Name method) <$> Api.Methods api).
Proof.
  revert s. induction apis as [|api apis IH]; intros s Hrun Hdom Hnodup; simpl in Hrun.
  - inversion Hrun; subst s'. by rewrite app_nil_r.
  - apply bind_Ok in Hrun as (s1 & H1 & Hrun). rewrite bind_cons in Hnodup.
    rewrite app_assoc in Hnodup.
    destruct (processApiMethods_Operations api (Api.Methods api) _ s1 H1) as [HO1 Hdom1].
    + exact Hdom.
    + by apply NoDup_app in Hnodup as (? & _ & _).
    + simpl in HO1. rewrite (IH s1 Hrun Hdom1), HO1, bind_cons, <- ?app_assoc; [done|].
      by rewrite HO1.
Qed.

Lemma processEndpoints_Operations (s : ServiceInfo) :
  Operations (processEndpoints s) = Operations s.
Proof.
  unfold processEndpoints. generalize (Service.Name (serviceConfig s)). intros name.
  generalize (Service.Endpoints (serviceConfig s)). intros l. revert s.
  induction l as [|e l IH]; intros s; simpl; [done|]. rewrite IH.
  by destruct (_ && _).
Qed.

Lemma writes_Operations (p : phase) (s s' : ServiceInfo) :
  writes p s s' -> exists l, Operations s' = Operations s ++ l.
Proof.
  intros Hrun. induction Hrun as [s|s t s' Hw _ [l2 IH]]; [exists []; by rewrite app_nil_r|].
  assert (exists l1, Operations t = Operations s ++ l1) as [l1 H1].
  { inversion Hw; subst; try (exists []; by rewrite app_nil_r).
    - match goal with H : getOrCreateMethod _ _ = Ok _ |- _ =>
        destruct (getOrCreateMethod_cases _ _ _ H)
          as [(m & _ & ->)|(_ & sh & api & ->)] end;
        [exists []; by rewrite app_nil_r|by eexists].
    - exists []. rewrite app_nil_r. unfold processAccessToken. by destruct (negb _). }
  exists (l1 ++ l2). by rewrite IH, H1, app_assoc.
Qed.

(** X23 (the order of [Operations]). In the model of a build that succeeds,
    [Operations] lists the selectors of the methods of the model, each
    once; and when no two declared API methods have one selector, it begins
    with the selectors of the API methods in the order of their
    declaration, followed by the methods that the rules and the generated
    methods added, in the order of their creation. *)
Theorem build_operations (ord : MapOrder) (cfg : Service.t) (id : string)
    (opts : Options.t) (s : ServiceInfo) :
  NewServiceInfoFromServiceConfig ord (Some cfg) id opts = Ok s ->
  NoDup (Operations s)
  /\ (forall k, k ∈ Operations s <-> is_Some (Methods s !! k))
  /\ (NoDup (declaredSelectors cfg) ->
      exists created, Operations s = declaredSelectors cfg ++ created).
Proof.
  intros Hbuild.
  assert (ops_ok s) as [Hnodup Hkeys].
  { apply (build_invariant ops_ok ord cfg id opts s Hbuild).
    - intros s1 H1. destruct (buildLocalBackend_empty _ _ _ _ H1) as [HM HO].
      split; rewrite HO; [apply NoDup_nil_2|]. intros k. rewrite HM, lookup_empty.
      split; [by intros H%elem_of_nil|by intros [x Hx]].
    - intros p t t' Ht Hw. by eapply write_ops_ok. }
  split; [done|]. split; [done|]. intros Hdecl.
  destruct (build_run ord cfg id opts s Hbuild)
    as (s1 & s2 & s3 & s4 & s5 & sh & s6 & s7 & s8 & s9 & s10 & s11 & s12 & s13 & s14
        & (H1 & H2 & H3 & _)
        & W2 & W3 & W4 & W5 & W6 & Wh & W7 & W8 & W9 & W10 & W11 & W12 & W13 & W14 & W15).
  destruct (buildLocalBackend_empty _ _ _ _ H1) as [HM1 HO1].
  destruct (buildLocalBackend_Ok _ _ H1) as (_ & _ & _ & _ & _ & _ & _ & _ & HC1 & _).
  simpl in HC1.
  destruct (writes_frame _ _ _ W2) as (_ & _ & _ & _ & _ & _ & _ & HC2 & _).
  specialize (HC2 ltac:(discriminate)).
  assert (Operations s2 = []) as HO2 by (subst s2; by rewrite processEndpoints_Operations).
  assert (Methods s2 = ∅) as HM2 by (subst s2; by rewrite processEndpoints_Methods).
  unfold processApis in H3. rewrite HC2, HC1 in H3.
  pose proof (processApis_Operations (Service.Apis cfg) s2 s3 H3) as HO3.
  rewrite HO2, HM2 in HO3. simpl in HO3.
  assert (Operations s3 = declaredSelectors cfg) as Hs3.
  { apply HO3; [|exact Hdecl]. intros k. rewrite lookup_empty.
    split; [by intros [? ?]|by intros ?%elem_of_nil]. }
  assert (forall p t t', writes p t t' ->
            (exists l, Operations t = declaredSelectors cfg ++ l) ->
            exists l, Operations t' = declaredSelectors cfg ++ l) as Hgrow.
  { intros p t t' Hw [l Hl]. destruct (writes_Operations _ _ _ Hw) as [l' Hl'].
    exists (l ++ l'). by rewrite Hl', Hl, app_assoc. }
  apply (Hgrow _ _ _ W15), (Hgrow _ _ _ W14), (Hgrow _ _ _ W13), (Hgrow _ _ _ W12),
    (Hgrow _ _ _ W11), (Hgrow _ _ _ W10), (Hgrow _ _ _ W9), (Hgrow _ _ _ W8),
    (Hgrow _ _ _ W7), (Hgrow _ _ _ Wh), (Hgrow _ _ _ W6), (Hgrow _ _ _ W5),
    (Hgrow _ _ _ W4).
  exists []. by rewrite app_nil_r.
Qed.

End Proofs.

(* ===================================================================== *)
(** * Concrete runs: failing inputs, counterexamples and witnesses *)
(* ===================================================================== *)

Import Examples.
#[local] Existing Instance Fixture.ext.

(** C1 (failing input). The selector [A.Bar] has the form
    [apiName.shortName] ([getOrCreateMethod] accepts it), yet a quota metric
    rule on it, when the API does not declare [A.Bar], makes the build
    dereference the missing [Methods] entry: [processQuota] indexes the map
    without [getOrCreateMethod], and the build panics, whatever the map
    order and the config id. *)
Theorem C1_quota_unknown_selector_panics (ord : MapOrder) (id : string) :
  is_ok (getOrCreateMethod "A.Bar" (newServiceInfo svc_quota_unknown id opts0)) = true
  /\ NewServiceInfoFromServiceConfig ord (Some svc_quota_unknown) id opts0 = Panic.
Proof.
  split; [vm_compute; reflexivity|].
  apply is_panic_eq. vm_compute. reflexivity.
Qed.

(** C2 (failing input). A backend rule with the positive deadline 10^10 s:
    the deadline is 10^13 ms, and 10^13 * 10^6 ns exceeds [int64]; the stored
    deadline wraps around to a negative duration, which is the timeout of
    the two routes of the (non-streaming) method. *)
Theorem C2_deadline_1e10_overflows :
  f64_eqb deadline_1e10 f64_zero = false
  /\ f64_ltb deadline_1e10 f64_zero = false
  /\ f64_trunc (math_Round (f64_mul deadline_1e10 (f64_of_Z 1000))) = Some (10 ^ 13)
  /\ backendDeadline deadline_1e10 = (10 ^ 19 - 2 ^ 64, false)
  /\ (let* s := NewServiceInfoFromServiceConfig ord_forward (Some svc_deadline_1e10)
                  "id" opts0 in
      let* routes := makeRouteTable s in
      Ok (map (fun r => Timeout (Action r)) routes))
     = Ok [Some {| Seconds := -8446744073; Nanos := -709551616 |};
           Some {| Seconds := -8446744073; Nanos := -709551616 |}].
Proof. repeat split; vm_compute; reflexivity. Qed.

(** C7 (failing input). For [svc_cors_clash] the method
    [A.ESPv2_Autogenerated_CORS_Foo] is both declared and the CORS companion
    of [A.Foo], so [processTypes], which ranges over the map [Methods],
    renames the fields of its template twice, in the order of the map
    iteration. Two runs that range in opposite orders both succeed and give
    different route lists: the URL template of the path rewrite of the
    OPTIONS route is [/x/{b}] in one and [/x/{c}] in the other. *)
Theorem C7_route_list_depends_on_map_order :
  is_ok (NewServiceInfoFromServiceConfig ord_forward (Some svc_cors_clash) "id" opts0) = true
  /\ is_ok (NewServiceInfoFromServiceConfig ord_backward (Some svc_cors_clash) "id" opts0)
     = true
  /\ urlTemplates (routeList (built ord_forward svc_cors_clash opts0)) = ["/x/{b}"; "/x/{b}"]
  /\ urlTemplates (routeList (built ord_backward svc_cors_clash opts0)) = ["/x/{c}"; "/x/{b}"]
  /\ routeList (built ord_forward svc_cors_clash opts0)
     <> routeList (built ord_backward svc_cors_clash opts0).
Proof.
  repeat split; try (vm_compute; reflexivity).
  intros H. apply (f_equal urlTemplates) in H. vm_compute in H. discriminate.
Qed.

(** Witness of C3: the rule [rule_grpcs], on GCP, attaches
    [https://backend.example]. *)
Lemma C3_witness :
  exists method b,
    Methods rule_grpcs_state.1 !! "A.Foo" = Some method
    /\ BackendInfo method = Some b
    /\ backendInfo.JwtAudience b = "https://backend.example".
Proof.
  destruct (C3_backend_auth_audience rule_grpcs (built ord_forward svc_plain opts0)
              rule_grpcs_state.1 ∅ rule_grpcs_state.2)
    as (method & b & Hm & Hb & _ & _ & Hderive & Hgcp & _).
  { rewrite <- surjective_pairing. apply is_ok_eq. vm_compute. reflexivity. }
  exists method, b. split; [exact Hm|]. split; [exact Hb|].
  rewrite Hgcp; [|vm_compute; reflexivity].
  rewrite (Hderive "grpcs" "backend.example" 8443 "");
    [vm_compute; reflexivity | left; reflexivity | discriminate | vm_compute; reflexivity].
Defined.



(** Counterexample to C6 as stated: allow-origin and allow-origin-regex are
    set and the preset is empty, and route-config generation succeeds. *)
Lemma C6_counterexample :
  Options.CorsPreset (Opts (built ord_forward svc_get opts_origin_only)) = ""
  /\ Options.CorsAllowOrigin (Opts (built ord_forward svc_get opts_origin_only)) <> ""
  /\ Options.CorsAllowOriginRegex (Opts (built ord_forward svc_get opts_origin_only)) <> ""
  /\ is_ok (MakeRouteConfig (built ord_forward svc_get opts_origin_only)) = true.
Proof. repeat split; try (vm_compute; discriminate); vm_compute; reflexivity. Qed.

(** Witness of C6: allow-methods is set and the preset is empty. *)
Lemma C6_witness :
  exists e, MakeRouteConfig (built ord_forward svc_get opts_methods_only) = Err e.
Proof.
  destruct (C6_cors_preset_gating (built ord_forward svc_get opts_methods_only))
    as [_ Herr].
  { left. split; [vm_compute; reflexivity|]. left. vm_compute. discriminate. }
  apply (Herr (ok_or (makeRouteTable (built ord_forward svc_get opts_methods_only)) [])).
  apply is_ok_eq. vm_compute. reflexivity.
Defined.



(** Witness of C10: a nil description and a description without API are
    refused; [svc_plain] is built, and it has an API. *)
Lemma C10_witness :
  NewServiceInfoFromServiceConfig ord_forward None "id" opts0 = Err ErrEmptyServiceConfig
  /\ NewServiceInfoFromServiceConfig ord_forward (Some (with_Apis [] svc_plain)) "id" opts0
     = Err ErrNoApi
  /\ exists c, Some svc_plain = Some c /\ (0 < length (Service.Apis c))%nat.
Proof.
  destruct (C10_builder_precondition ord_forward None "id" opts0) as (Hnil & _).
  destruct (C10_builder_precondition ord_forward (Some (with_Apis [] svc_plain)) "id" opts0)
    as (_ & Hempty & _).
  destruct (C10_builder_precondition ord_forward (Some svc_plain) "id" opts0)
    as (_ & _ & Hok).
  split; [by apply Hnil|]. split; [by apply (Hempty _ eq_refl)|].
  apply (Hok (built ord_forward svc_plain opts0)).
  apply is_ok_eq. vm_compute. reflexivity.
Defined.

(** The reference instance has what C4 takes of package [httppattern]: the
    origin of a parsed template is the parsed string, a renaming keeps the
    regex, and [Sort] rearranges. *)
Lemma fixture_origin (path : string) (t : Fixture.Template) :
  Fixture.parseUriTemplate path = Some t -> Fixture.tOrigin t = path.
Proof.
  unfold Fixture.parseUriTemplate. intros H.
  assert (forall segs : option (list Fixture.segment),
            ((fun segs => {| Fixture.tOrigin := path; Fixture.tSegments := segs |}) <$> segs)
            = Some t -> Fixture.tOrigin t = path) as Hmap.
  { intros [segs|] Hs; inversion Hs. done. }
  destruct path as [|[[] [] [] [] [] [] [] []] [|c rest]]; try discriminate;
    first [by inversion H | by eapply Hmap].
Qed.


Lemma insert_sorted_perm (pm : PatternMethod Fixture.Template)
    (l : list (PatternMethod Fixture.Template)) :
  Fixture.insert_sorted pm l ≡ₚ pm :: l.
Proof.
  induction l as [|x l IH]; simpl; [done|].
  destruct (Fixture.key_leb _ _); [|done]. rewrite IH. apply Permutation_swap.
Qed.

Lemma fixture_sort_perm (l l' : list (PatternMethod Fixture.Template)) :
  Fixture.sort l = Some l' -> l' ≡ₚ l.
Proof.
  unfold Fixture.sort. intros H. inversion H; subst l'; clear H.
  assert (forall acc, foldl (fun sorted pm => Fixture.insert_sorted pm sorted) acc l
                      ≡ₚ acc ++ l) as Hfold.
  { induction l as [|pm l IH]; intros acc; simpl; [by rewrite app_nil_r|].
    rewrite IH, insert_sorted_perm. simpl. apply Permutation_middle. }
  apply (Hfold []).
Qed.



(** C4, why the declared OPTIONS bindings have to differ. [addHttpRule]
    records the regex of a declared OPTIONS binding and adds the pattern,
    whether the regex is new or not: with [OPTIONS /x/{a}] declared on two
    methods the model has two OPTIONS patterns with one regex, and a [Sort]
    that only orders them, as the reference instance does, gives two routes
    for ([^/x/[^/]+$], OPTIONS). *)
Lemma declared_options_twice :
  explicitOptionKeys (Service.HttpRules svc_options_twice) = ["^/x/[^/]+$"; "^/x/[^/]+$"]
  /\ optionsOf (built ord_forward svc_options_twice opts0)
     = [("A.Foo", false, [Some "^/x/[^/]+$"]); ("A.Bar", false, [Some "^/x/[^/]+$"])]
  /\ is_ok (routeList (built ord_forward svc_options_twice opts0)) = true
  /\ length (filter (optionsRoute "^/x/[^/]+$")
               (ok_or (routeList (built ord_forward svc_options_twice opts0)) []))
     = 2%nat.
Proof. repeat split; vm_compute; reflexivity. Qed.

(** The build of [svc_full] with [opts_full] succeeds. *)
Lemma full_built :
  NewServiceInfoFromServiceConfig ord_forward (Some svc_full) "id" opts_full = Ok full.
Proof. apply is_ok_eq. vm_compute. reflexivity. Qed.

(* --------------------------------------------------------------------- *)
(** ** Witnesses of the further properties *)
(* --------------------------------------------------------------------- *)

(** Witness of X1: the selector [A.Foo] in a model without methods. *)
Lemma getOrCreateMethod_names_witness :
  Methods (newServiceInfo svc_plain "id" opts0) !! "A.Foo" = None
  /\ (~ dotted "A.Foo"
      <-> getOrCreateMethod "A.Foo" (newServiceInfo svc_plain "id" opts0)
          = Err (ErrMethodFormat "A.Foo"))
  /\ (dotted "A.Foo" ->
      exists shortName apiName,
        "A.Foo" = apiName +:+ "." +:+ shortName
        /\ ~ dotted shortName
        /\ getOrCreateMethod "A.Foo" (newServiceInfo svc_plain "id" opts0)
           = Ok (set_Operations (Operations (newServiceInfo svc_plain "id" opts0) ++ ["A.Foo"])
                   (set_Methods
                      (<["A.Foo" := newMethodInfo shortName apiName]>
                         (Methods (newServiceInfo svc_plain "id" opts0)))
                      (newServiceInfo svc_plain "id" opts0)))).
Proof.
  split; [reflexivity|].
  apply (getOrCreateMethod_names "A.Foo" (newServiceInfo svc_plain "id" opts0)).
  reflexivity.
Defined.

(** Witness of X2: the method [A.Foo] of [full]. *)
Lemma build_names_witness :
  exists m, Methods full !! "A.Foo" = Some m
            /\ "A.Foo" = ApiName m +:+ "." +:+ ShortName m /\ ~ dotted (ShortName m).
Proof.
  destruct (Methods full !! "A.Foo") as [m|] eqn:Hm; [|vm_compute in Hm; discriminate].
  exists m. split; [reflexivity|].
  exact (build_names ord_forward svc_full "id" opts_full full full_built "A.Foo" m Hm).
Defined.

(** Witness of X3: the four routes of [full]. *)
Lemma routes_to_clusters_witness :
  length (ok_or (routeList full) []) = 4%nat
  /\ forall r, r ∈ ok_or (routeList full) [] ->
       exists c, c ∈ clusterList full /\ ClusterName c = Cluster (Action r).
Proof.
  split; [vm_compute; reflexivity|].
  apply (routes_to_clusters ord_forward svc_full "id" opts_full full); [exact full_built|].
  apply is_ok_eq. vm_compute. reflexivity.
Defined.

(** Witness of X4: the routes of [full] retry on [reset], once. *)
Lemma routes_retry_policy_witness :
  length (ok_or (makeRouteTable full) []) = 4%nat
  /\ forall r, r ∈ ok_or (makeRouteTable full) [] ->
       RetryPolicy_ (Action r)
       = Some {| RetryOn := Options.BackendRetryOns opts_full;
                 NumRetries := Options.BackendRetryNum opts_full mod 2 ^ 32 |}.
Proof.
  split; [vm_compute; reflexivity|].
  apply (routes_retry_policy ord_forward svc_full "id" opts_full full); [exact full_built|].
  apply is_ok_eq. vm_compute. reflexivity.
Defined.

(** Witness of X5: the backend rule of [svc_full] has a constant address
    without path; two routes of [full] rewrite the path. *)
Lemma routes_constant_path_witness :
  urlTemplates (makeRouteTable full) = ["/x/{a}"; "/x/{a}"]
  /\ forall r path urlTemplate, r ∈ ok_or (makeRouteTable full) [] ->
       TypedPerFilterConfig r !! PathRewrite
       = Some (PathRewritePerRoute (PathRewrite_ConstantPath path urlTemplate)) ->
       path <> "".
Proof.
  split; [vm_compute; reflexivity|].
  apply (routes_constant_path ord_forward svc_full "id" opts_full full); [exact full_built|].
  apply is_ok_eq. vm_compute. reflexivity.
Defined.

(** Witness of X6: [svc_full] allows CORS. *)
Lemma build_AllowCors_witness : AllowCors full = true <-> corsEnabled svc_full.
Proof. exact (build_AllowCors ord_forward svc_full "id" opts_full full full_built). Defined.

(** Witness of X7: [processHttpRule] with the health-check path
    [healthz]. *)
Lemma processHttpRule_healthCheck_witness :
  Options.Healthz
    (Opts (ok_or (processHttpRule (newServiceInfo svc_full "id" opts_full))
                 (newServiceInfo svc_full "id" opts_full)))
  = "/healthz"
  /\ exists m,
       Methods (ok_or (processHttpRule (newServiceInfo svc_full "id" opts_full))
                      (newServiceInfo svc_full "id" opts_full))
         !! healthCheckOperation = Some m
       /\ IsGenerated m = true /\ SkipServiceControl m = true
       /\ last (HttpRule_ m) = Some (healthCheckPattern "healthz").
Proof.
  destruct (processHttpRule_healthCheck (newServiceInfo svc_full "id" opts_full)
              (ok_or (processHttpRule (newServiceInfo svc_full "id" opts_full))
                     (newServiceInfo svc_full "id" opts_full)))
    as (Hpath & _ & Hm).
  - apply is_ok_eq. vm_compute. reflexivity.
  - simpl. discriminate.
  - split; [exact Hpath|exact Hm].
Defined.

(** Witness of X8: [opts_full] has no service account key. *)
Lemma build_AccessToken_witness : AccessToken_ full = Some (accessTokenOf opts_full).
Proof. exact (build_AccessToken ord_forward svc_full "id" opts_full full full_built). Defined.

(** Witness of X10: the inputs of [full]. *)
Lemma build_keeps_inputs_witness :
  Name full = Service.Name svc_full
  /\ ConfigID full = "id"
  /\ ApiNames full = Api.Name <$> Service.Apis svc_full
  /\ Opts full = (if str_eqb (Options.Healthz opts_full) "" then opts_full
                  else Options.set_Healthz (healthzPath (Options.Healthz opts_full))
                         opts_full)
  /\ exists providers,
       serviceConfig full = Service.set_AuthProviders providers svc_full
       /\ Forall2 resolvedProvider (Service.AuthProviders svc_full) providers.
Proof. exact (build_keeps_inputs ord_forward svc_full "id" opts_full full full_built). Defined.

(** Witness of X11: [A.Foo] requires authentication. *)
Lemma build_RequireAuth_witness :
  exists m, Methods full !! "A.Foo" = Some m
            /\ (RequireAuth m = true <->
                exists rule, rule ∈ Service.AuthRules svc_full
                             /\ AuthenticationRule.Selector rule = "A.Foo"
                             /\ AuthenticationRule.Requirements rule <> []).
Proof.
  destruct (Methods full !! "A.Foo") as [m|] eqn:Hm; [|vm_compute in Hm; discriminate].
  exists m. split; [reflexivity|].
  exact (build_RequireAuth ord_forward svc_full "id" opts_full full full_built "A.Foo" m Hm).
Defined.

(** Witness of X12: [A.Watch] streams its responses. *)
Lemma build_api_methods_witness :
  exists m, Methods full !! "A.Watch" = Some m
    /\ (IsStreaming m = true <->
        exists api method,
          declares svc_full api method "A.Watch"
          /\ ApiMethod.RequestStreaming method || ApiMethod.ResponseStreaming method = true)
    /\ (RequestTypeName m <> "" ->
        exists api method,
          declares svc_full api method "A.Watch"
          /\ HasPrefix (ApiMethod.RequestTypeUrl method) TypeUrlPrefix = true
          /\ RequestTypeName m = TrimPrefix (ApiMethod.RequestTypeUrl method) TypeUrlPrefix).
Proof.
  destruct (Methods full !! "A.Watch") as [m|] eqn:Hm; [|vm_compute in Hm; discriminate].
  exists m. split; [reflexivity|].
  exact (build_api_methods ord_forward svc_full "id" opts_full full full_built "A.Watch" m Hm).
Defined.

(** Witness of X14: the CORS companion of [A.Foo]. *)
Lemma build_generated_witness :
  exists m, Methods full !! "A.ESPv2_Autogenerated_CORS_Foo" = Some m
    /\ (IsGenerated m = true ->
        ("A.ESPv2_Autogenerated_CORS_Foo" = healthCheckOperation
         /\ Options.Healthz opts_full <> "")
        \/ exists k0 original,
             Methods full !! k0 = Some original
             /\ "A.ESPv2_Autogenerated_CORS_Foo"
                = corsOperation (ApiName original) (ShortName original))
    /\ (forall g, GeneratedCorsMethod m = Some g ->
          g = corsOperation (ApiName m) (ShortName m)
          /\ exists companion, Methods full !! g = Some companion
                               /\ IsGenerated companion = true).
Proof.
  destruct (Methods full !! "A.ESPv2_Autogenerated_CORS_Foo") as [m|] eqn:Hm;
    [|vm_compute in Hm; discriminate].
  exists m. split; [reflexivity|].
  exact (build_generated ord_forward svc_full "id" opts_full full full_built
           "A.ESPv2_Autogenerated_CORS_Foo" m Hm).
Defined.

(** Witness of X15: the usage rule of [A.Foo]. *)
Lemma build_usage_witness :
  exists m, Methods full !! "A.Foo" = Some m
    /\ (forall rule, last (usageRulesOf "A.Foo" (Service.UsageRules svc_full)) = Some rule ->
          AllowUnregisteredCalls m = UsageRule.AllowUnregisteredCalls rule
          /\ SkipServiceControl m = UsageRule.SkipServiceControl rule)
    /\ ((forall rule, rule ∈ Service.UsageRules svc_full ->
           UsageRule.Selector rule <> "A.Foo") ->
        AllowUnregisteredCalls m = false
        /\ (SkipServiceControl m = true
            <-> "A.Foo" = healthCheckOperation /\ Options.Healthz opts_full <> "")).
Proof.
  destruct (Methods full !! "A.Foo") as [m|] eqn:Hm; [|vm_compute in Hm; discriminate].
  exists m. split; [reflexivity|].
  exact (build_usage ord_forward svc_full "id" opts_full full full_built "A.Foo" m Hm).
Defined.

(** Witness of X16: the reference instance parses [/healthz], and the route
    table of [full] is made. *)
Lemma build_routes_total_witness :
  (exists l, httpPatternMethodsOf full = Ok l
             /\ (Sort l = None -> makeRouteTable full = Err ErrSortRouteMatch)
             /\ (is_Some (Sort l) -> exists routes, makeRouteTable full = Ok routes))
  /\ MakeRouteConfig full <> Panic.
Proof.
  apply (build_routes_total ord_forward svc_full "id" opts_full full).
  - exact fixture_origin.
  - exact fixture_sort_perm.
  - exact full_built.
  - right. vm_compute. eexists. reflexivity.
Defined.

(** Witness of X17: [svc_plain] on a gRPC local backend. *)
Lemma build_grpc_patterns_witness :
  exists t,
    ParseUriTemplate ("/" +:+ "A" +:+ "/" +:+ "Foo") = Some t
    /\ has_pattern (built ord_forward svc_plain opts_grpc) "A.Foo"
         {| HttpMethod := POST; UriTemplate := Some t |}.
Proof.
  apply (build_grpc_patterns ord_forward svc_plain "id" opts_grpc
           (built ord_forward svc_plain opts_grpc)
           ltac:(apply is_ok_eq; vm_compute; reflexivity)
           ltac:(vm_compute; reflexivity)
           {| Api.Name := "A"; Api.Version := "v1"; Api.Methods := [unary "Foo" "T1"] |}
           (unary "Foo" "T1") "A.Foo").
  split; [apply list_elem_of_here|]. split; [apply list_elem_of_here|reflexivity].
Defined.

(** Witness of X19: the API key locations of [A.Foo]. *)
Lemma build_api_keys_witness :
  exists m, Methods full !! "A.Foo" = Some m
    /\ ApiKeyLocations m
       = concat (apiKeyLocationsOf
                   <$> systemParameterRulesOf "A.Foo" (Service.SystemParameterRules svc_full))
    /\ (forall q, ApiKeyLocation_Query q ∈ ApiKeyLocations m -> ignored full q)
    /\ (ApiKeyLocations m = [] ->
        ignored full DefaultApiKeyQueryParamKey
        /\ ignored full DefaultApiKeyQueryParamApiKey).
Proof.
  destruct (Methods full !! "A.Foo") as [m|] eqn:Hm; [|vm_compute in Hm; discriminate].
  exists m. split; [reflexivity|].
  exact (build_api_keys ord_forward svc_full "id" opts_full full full_built "A.Foo" m Hm).
Defined.

(** Witness of X20: the backend rule of [A.Foo]. *)
Lemma build_backend_rules_witness :
  exists m b,
    Methods full !! "A.Foo" = Some m
    /\ bindingFor opts_full "svc"
         (backendRule "A.Foo" "https://api.example.com" f64_zero CONSTANT_ADDRESS
            Authentication_unset) = Some b
    /\ BackendInfo m = Some b
    /\ backendInfo.Path b = "/".
Proof.
  assert ((IsGenerated <$> Methods full !! "A.Foo") = Some false) as Hgen
    by (vm_compute; reflexivity).
  destruct (Methods full !! "A.Foo") as [m|] eqn:Hm; [|discriminate].
  destruct (build_backend_rules ord_forward svc_full "id" opts_full full full_built
              "A.Foo" m
              (backendRule "A.Foo" "https://api.example.com" f64_zero CONSTANT_ADDRESS
                 Authentication_unset) Hm)
    as (b & Hfor & Hb).
  - by inversion Hgen.
  - vm_compute. reflexivity.
  - exists m, b. split; [reflexivity|]. split; [exact Hfor|]. split; [exact Hb|].
    vm_compute in Hfor. inversion Hfor. reflexivity.
Defined.

(** Witness of X21: the query parameters that [full] ignores. *)
Lemma build_ignored_params_witness :
  (forall provider, provider ∈ Service.AuthProviders svc_full ->
     AuthProvider.JwtLocations provider = [] ->
     ignored full DefaultJwtQueryParamAccessToken)
  /\ (forall provider loc q, provider ∈ Service.AuthProviders svc_full ->
        loc ∈ AuthProvider.JwtLocations provider ->
        JwtLocation.In_ loc = JwtLocation_Query q ->
        JwtLocation.ValuePrefix loc = "" /\ ignored full q)
  /\ (Options.TranscodingIgnoreQueryParameters opts_full <> "" ->
      forall q, q ∈ Split (Options.TranscodingIgnoreQueryParameters opts_full) "," ->
        ignored full q)
  /\ (forall q v, AllTranscodingIgnoredQueryParams full !! q = Some v -> v = true).
Proof.
  exact (build_ignored_params ord_forward svc_full "id" opts_full full full_built).
Defined.

(** Witness of X22: the metric costs of [A.Foo]. *)
Lemma build_quota_witness :
  exists m, Methods full !! "A.Foo" = Some m
    /\ (forall rule, last (metricRulesOf "A.Foo" (Service.MetricRules svc_full)) = Some rule ->
          MetricCosts m ≡ₚ metricCostList (MetricRule.MetricCosts rule))
    /\ ((forall rule, rule ∈ Service.MetricRules svc_full ->
           MetricRule.Selector rule <> "A.Foo") ->
        MetricCosts m = []).
Proof.
  destruct (Methods full !! "A.Foo") as [m|] eqn:Hm; [|vm_compute in Hm; discriminate].
  exists m. split; [reflexivity|].
  exact (build_quota ord_forward svc_full "id" opts_full full full_built "A.Foo" m Hm).
Defined.

(** Witness of X23: the operations of [full] begin with the declared
    selectors. *)
Lemma build_operations_witness :
  NoDup (Operations full)
  /\ (forall k, k ∈ Operations full <-> is_Some (Methods full !! k))
  /\ exists created : list string,
       Operations full = (declaredSelectors svc_full ++ created)%list.
Proof.
  destruct (build_operations ord_forward svc_full "id" opts_full full full_built)
    as (Hnodup & Hdom & Horder).
  split; [exact Hnodup|]. split; [exact Hdom|].
  apply Horder. apply (bool_decide_unpack _). vm_compute. exact I.
Defined.
